(** * Gromox IMAP command parser: a shallow embedding and its properties

    The development follows [mra/imap/imap_cmd_parser.cpp].  Every
    definition below is the transcription of the C++ function whose name
    it carries.  Collaborators that live outside this translation unit
    (the MIDB agent, the MJSON digest reader, the MUTF-7 codec, the
    tokenizer [parse_imap_args], the reply text table) enter as section
    variables or as fields of an oracle record, so that the theorems hold
    for whatever these collaborators return. *)

From Stdlib Require Import ZArith List String Ascii Bool Lia.
From stdpp Require Import base gmap strings list pretty.
From Equations Require Import Equations.
Import ListNotations.

Local Open Scope string_scope.
Local Open Scope Z_scope.

(** ** C strings *)

Module CStr.

Definition HX_isdigit (c : ascii) : bool :=
    let n := nat_of_ascii c in ((48 <=? n) && (n <=? 57))%nat.

Definition HX_toupper (c : ascii) : ascii :=
    let n := nat_of_ascii c in
    if ((97 <=? n) && (n <=? 122))%nat then ascii_of_nat (n - 32) else c.

(** [strcaseeq a b] is [strcasecmp(a, b) == 0]. *)
Fixpoint strcaseeq (a b : string) : bool :=
    match a, b with
    | EmptyString, EmptyString => true
    | String x a', String y b' =>
        Ascii.eqb (HX_toupper x) (HX_toupper y) && strcaseeq a' b'
    | _, _ => false
    end.

(** [strncaseeq a b n] is [strncasecmp(a, b, n) == 0]. *)
Fixpoint strncaseeq (a b : string) (n : nat) {struct n} : bool :=
    match n with
    | O => true
    | S n' =>
        match a, b with
        | EmptyString, EmptyString => true
        | String x a', String y b' =>
            Ascii.eqb (HX_toupper x) (HX_toupper y) && strncaseeq a' b' n'
        | _, _ => false
        end
    end.

(** [streq a b] is [strcmp(a, b) == 0]. *)
Definition streq (a b : string) : bool := String.eqb a b.

(** [strneq a b n] is [strncmp(a, b, n) == 0]. *)
Fixpoint strneq (a b : string) (n : nat) {struct n} : bool :=
    match n with
    | O => true
    | S n' =>
        match a, b with
        | EmptyString, EmptyString => true
        | String x a', String y b' => Ascii.eqb x y && strneq a' b' n'
        | _, _ => false
        end
    end.

(** [strchr s c]: offset of the first [c] in [s], if any. *)
Fixpoint strchr (s : string) (c : ascii) : option nat :=
    match s with
    | EmptyString => None
    | String x s' =>
        if Ascii.eqb x c then Some O
        else match strchr s' c with Some k => Some (S k) | None => None end
    end.

(** [s + k] for a pointer into a C string. *)
Fixpoint skip (k : nat) (s : string) : string :=
    match k, s with
    | O, _ => s
    | S k', String _ s' => skip k' s'
    | S _, EmptyString => EmptyString
    end.

(** The first [k] characters, as [memcpy(dst, s, k); dst[k] = 0] leaves them. *)
Fixpoint keep (k : nat) (s : string) : string :=
    match k, s with
    | S k', String x s' => String x (keep k' s')
    | _, _ => EmptyString
    end.

(** [*s], with the terminating NUL for the empty string. *)
Definition deref (s : string) : ascii :=
    match s with String x _ => x | EmptyString => zero end.

(** [s[len - 1]] for a non-empty string. *)
Fixpoint last_char (s : string) : ascii :=
    match s with
    | EmptyString => zero
    | String x EmptyString => x
    | String _ s' => last_char s'
    end.

Fixpoint all_digits (s : string) : bool :=
    match s with
    | EmptyString => true
    | String x s' => HX_isdigit x && all_digits s'
    end.

(** [search_string] is declared in the utility library, outside this
      translation unit: a case-insensitive substring search.  The model
      answers whether the returned pointer is non-null. *)
Fixpoint search_string (haystack needle : string) : bool :=
    strncaseeq haystack needle (String.length needle)
    && (Nat.leb (String.length needle) (String.length haystack))
    || match haystack with
       | EmptyString => false
       | String _ h' => search_string h' needle
       end.

(** [gx_snprintf(buf, size, ...)]: the formatted text cut to [size - 1]
      characters. *)
Definition gx_snprintf (size : nat) (text : string) : string :=
    keep (size - 1) text.

(** [gx_strlcpy(dst, src, size)]. *)
Definition gx_strlcpy (size : nat) (src : string) : string :=
    keep (size - 1) src.

Definition znul (s : option string) : string :=
    match s with Some x => x | None => "" end.

End CStr.

Import CStr.

(** ** Reply dispatch ([imap_cmd_parser_dval]) *)

Module Dispatch.
Section Dval.
(** The packing constants come from [imap.hpp]; nothing here depends on
      their values. *)
Variables DISPATCH_VALMASK DISPATCH_MIDB DISPATCH_TAG DISPATCH_ACTMASK : Z.
Variable MIDB_E_NO_FOLDER : Z.
Variable resource_get_imap_code : Z -> string.
Variable resource_get_error_string : Z -> string.

(** The part of [imap_context] the helper touches: the saved tag and the
      lines handed to [imap_parser_safe_write]. *)
Record dctx := { tag_string : string; written : list string }.

Definition imap_parser_safe_write (ctx : dctx) (line : string) : dctx :=
    {| tag_string := tag_string ctx; written := written ctx ++ [line] |}.

Definition tag_or_bug (s : string) : string :=
    match s with EmptyString => "BUG" | _ => s end.

Definition imap_cmd_parser_dval (argv : list string) (ctx : dctx)
      (ret : Z) : dctx * Z :=
    let code := Z.land ret DISPATCH_VALMASK in
    if code =? 0 then (ctx, Z.land ret DISPATCH_ACTMASK)
    else
      let trycreate := code =? MIDB_E_NO_FOLDER in
      let is_midb := negb (Z.land ret DISPATCH_MIDB =? 0) in
      let estr := if is_midb then Some (resource_get_error_string code)
                  else None in
      let code := if is_midb then 1907 else code in
      let str := resource_get_imap_code code in
      let tag := if negb (Z.land ret DISPATCH_TAG =? 0)
                 then tag_or_bug (tag_string ctx)
                 else match argv with
                      | [] => "*"
                      | a0 :: _ => tag_or_bug a0
                      end in
      let str := if trycreate && strneq str "NO " 3 then skip 2 str
                 else str in
      let buff := gx_snprintf 1024
                    (tag +:+ (if trycreate then " NO [TRYCREATE]" else "")
                     +:+ " " +:+ str +:+ znul estr) in
      (imap_parser_safe_write ctx buff, Z.land ret DISPATCH_ACTMASK).
End Dval.
End Dispatch.

(** ** Sequence sets ([parse_imap_seqx]) *)

Record MITEM := {
  uid : Z;            (* uint32_t *)
  mid : string;
  flag_bits : Z;
  id : Z              (* sequence number, 1-based *)
}.

Module SeqSet.

(** [range_node<uint32_t>] *)
Record range_node := { lo : Z; hi : Z }.

Definition u32 (z : Z) : Z := z mod 2 ^ 32.

Section Seqx.
(** The marker [parse_imap_seq] stores for [*]. *)
Variable SEQ_STAR : Z.

(** The three [*] cases, [n] being [ctx.contents.m_vec.size()]. *)
Definition resolve_star (n : Z) (seq : range_node) : range_node :=
    if (lo seq =? SEQ_STAR) && (hi seq =? SEQ_STAR) then
      {| lo := u32 n; hi := u32 n |}
    else if lo seq =? SEQ_STAR then
      {| lo := hi seq; hi := u32 n |}
    else if hi seq =? SEQ_STAR then
      {| lo := lo seq; hi := u32 n |}
    else seq.

(** The two clamps that follow. *)
Definition clamp (n : Z) (seq : range_node) : range_node :=
    let seq1 := if lo seq <? 1 then {| lo := 1; hi := hi seq |} else seq in
    if hi seq1 >? n then {| lo := lo seq1; hi := u32 n |} else seq1.

Definition resolve (n : Z) (seq : range_node) : range_node :=
    clamp n (resolve_star n seq).

(** The values [i] of [for (size_t i = seq.lo; i <= seq.hi; ++i)]. *)
Definition indices (r : range_node) : list Z :=
    map (fun k => lo r + Z.of_nat k)
        (List.seq 0%nat (Z.to_nat (hi r + 1 - lo r))).

(** [ctx.contents.m_vec[i-1].uid]; an index outside the vector has no
      defined value. *)
Definition uid_at (m_vec : list MITEM) (i : Z) : option Z :=
    if i <? 1 then None
    else match nth_error m_vec (Z.to_nat (i - 1)) with
         | Some it => Some (uid it)
         | None => None
         end.

Fixpoint collect (m_vec : list MITEM) (ixs : list Z) : option (list Z) :=
    match ixs with
    | [] => Some []
    | i :: rest =>
        match uid_at m_vec i, collect m_vec rest with
        | Some u, Some us => Some (u :: us)
        | _, _ => None
        end
    end.

(** The sequence numbers visited for a parsed set. *)
Definition resolved_seqnums (n : Z) (seq_list : list range_node) : list Z :=
    flat_map (fun r => indices (resolve n r)) seq_list.

(** [parse_imap_seqx] after [parse_imap_seq] has succeeded with
      [seq_list]: the UIDs inserted into [uid_list], in insertion order.
      [None] stands for a read outside [m_vec]. *)
Definition parse_imap_seqx (m_vec : list MITEM)
      (seq_list : list range_node) : option (list Z) :=
    collect m_vec (resolved_seqnums (Z.of_nat (length m_vec)) seq_list).
End Seqx.
End SeqSet.

(** ** FETCH: the MJSON digest and the BODY[...] sub-renderers *)

Module Fetch.

(** [size_t] and [ssize_t] on the 64-bit target. *)
Definition to_size (z : Z) : Z := z mod 2 ^ 64.
Definition to_ssize (z : Z) : Z := (z + 2 ^ 63) mod 2 ^ 64 - 2 ^ 63.

(** What the renderers read from an [MJSON_MIME] through its getters. *)
Record MJSON_MIME := {
    get_head_offset : Z;
    get_head_length : Z;
    get_content_offset : Z;
    get_content_length : Z;
    get_entire_length : Z
  }.

(** The two [MJSON] members the BODY[...] renderers use. *)
Record mjson_view := {
    get_mime : string -> option MJSON_MIME;
    get_mail_filename : string
  }.

(** The remaining [MJSON] members used by [process_fetch_item]; their
      results are whatever the digest reader yields. *)
Record MJSON := {
    view : mjson_view;
    get_mail_length : Z;
    rfc822_check : bool;
    rfc822_build : string -> bool;
    rfc822_fetch : string -> bool -> option string;
    fetch_structure : bool -> option string;
    fetch_envelope : option string;
    internaldate : string;   (* the text strftime produces for INTERNALDATE *)
    rfc822_get : string -> string -> option (mjson_view * string)
  }.

(** A default-constructed [MJSON], as used when the digest is not loaded. *)
Definition MJSON_empty : MJSON := {|
    view := {| get_mime := fun _ => None; get_mail_filename := "" |};
    get_mail_length := 0;
    rfc822_check := false;
    rfc822_build := fun _ => false;
    rfc822_fetch := fun _ _ => None;
    fetch_structure := fun _ => None;
    fetch_envelope := None;
    internaldate := "";
    rfc822_get := fun _ _ => None
  |}.

(** The value a sub-renderer prints after [BODY<pbody>]. *)
Inductive body_out :=
  | BodyNil (pbody : string)
  | BodyFile (pbody filename : string) (offset length : Z)
  | BodyNested (marker pbody storage filename : string) (offset length : Z)
  | BodyText (text : string).

Definition render (o : body_out) : string :=
    match o with
    | BodyNil pbody => "BODY" +:+ pbody +:+ " NIL"
    | BodyFile pbody fn off len =>
        "BODY" +:+ pbody +:+ " <<{file}" +:+ fn +:+ "|" +:+ pretty off
        +:+ "|" +:+ pretty len +:+ String "013" (String "010" "")
    | BodyNested marker pbody sp fn off len =>
        "BODY" +:+ pbody +:+ " " +:+ marker +:+ sp +:+ "/" +:+ fn +:+ "|"
        +:+ pretty off +:+ "|" +:+ pretty len
        +:+ String "013" (String "010" "")
    | BodyText t => t
    end.

Definition pstruct_null (pjson : mjson_view) (pbody temp_id : string)
      (offset length : Z) (storage_path : option string) : body_out :=
    let pmime := get_mime pjson temp_id in
    let pmime := match pmime with
                 | None => if streq temp_id "1" then get_mime pjson "" else None
                 | Some m => Some m
                 end in
    match pmime with
    | None => BodyNil pbody
    | Some pmime =>
        let part_length := if streq temp_id "" then get_entire_length pmime
                           else get_content_length pmime in
        let temp_len := if streq temp_id "" then get_head_offset pmime
                        else get_content_offset pmime in
        let length := if length =? -1 then to_ssize part_length else length in
        if offset >=? part_length then BodyNil pbody
        else
          let length := if to_size (offset + length) >? part_length
                        then to_ssize (part_length - offset) else length in
          match storage_path with
          | None => BodyFile pbody (get_mail_filename pjson)
                      (to_ssize (temp_len + offset)) length
          | Some sp => BodyNested "<<(rfc822}" pbody sp
                         (get_mail_filename pjson)
                         (to_ssize (temp_len + offset)) length
          end
    end.

(** [data_item] below is the text at [&data_item[1]]. *)
Definition pstruct_mime (pjson : mjson_view) (pbody temp_id data_item : string)
      (offset length : Z) (storage_path : option string) : body_out :=
    if (strcaseeq data_item "MIME" && streq temp_id "")
       || (strcaseeq data_item "HEADER" && negb (streq temp_id ""))
    then BodyNil pbody
    else
      match get_mime pjson temp_id with
      | None => BodyNil pbody
      | Some pmime =>
          let head_length := get_head_length pmime in
          let length := if length =? -1 then to_ssize head_length else length in
          if offset >=? head_length then BodyNil pbody
          else
            let length := if to_size (offset + length) >? head_length
                          then to_ssize (head_length - offset) else length in
            match storage_path with
            | None => BodyFile pbody (get_mail_filename pjson)
                        (to_ssize (get_head_offset pmime + offset)) length
            | Some sp => BodyNested "<<{rfc822}" pbody sp
                           (get_mail_filename pjson)
                           (to_ssize (get_head_offset pmime + offset)) length
            end
      end.

Definition pstruct_text (pjson : mjson_view) (pbody temp_id : string)
      (offset length : Z) (storage_path : option string) : body_out :=
    if negb (streq temp_id "") then BodyNil pbody
    else
      match get_mime pjson temp_id with
      | None => BodyNil pbody
      | Some pmime =>
          let ct_length := get_content_length pmime in
          let length := if length =? -1 then to_ssize ct_length else length in
          if offset >=? ct_length then BodyNil pbody
          else
            let length := if to_size (offset + length) >? ct_length
                          then to_ssize (ct_length - offset) else length in
            match storage_path with
            | None => BodyFile pbody (get_mail_filename pjson)
                        (to_ssize (get_content_offset pmime + offset)) length
            | Some sp => BodyNested "<<{rfc822}" pbody sp
                           (get_mail_filename pjson)
                           (to_ssize (get_content_offset pmime + offset)) length
            end
      end.

Section Structure.
(** [imap_cmd_parser_match_field] opens and reads the EML file and
      filters its header with [parse_mime_field]; both are outside this
      unit.  It enters as an oracle: file path, head offset and length,
      [b_not], the field list, the octet slice; [None] is its [-1]. *)
Variable imap_cmd_parser_match_field :
    string -> string -> Z -> Z -> bool -> string -> Z -> Z -> option string.

Definition pstruct_else (maildir : string) (pjson : mjson_view)
      (cmd_tag pbody temp_id data_item : string) (offset length : Z)
      (storage_path : option string) : body_out :=
    let b_not := negb (strncaseeq data_item "HEADER.FIELDS " 14) in
    let tags := skip (if b_not then 18 else 14) data_item in
    match get_mime pjson temp_id with
    | None => BodyNil pbody
    | Some pmime =>
        let eml_path :=
          match storage_path with
          | None => maildir +:+ "/eml/" +:+ get_mail_filename pjson
          | Some sp => maildir +:+ "/tmp/imap.rfc822/" +:+ sp +:+ "/"
                       +:+ get_mail_filename pjson
          end in
        match imap_cmd_parser_match_field cmd_tag eml_path
                (get_head_offset pmime) (get_head_length pmime)
                b_not tags offset length with
        | None => BodyNil pbody
        | Some text => BodyText text
        end
    end.

(** [data_item = None] is the null pointer. *)
Definition imap_cmd_parser_print_structure (maildir : string)
      (pjson : mjson_view) (cmd_tag pbody temp_id : string)
      (data_item : option string) (offset length : Z)
      (storage_path : option string) : body_out :=
    match data_item with
    | None => pstruct_null pjson pbody temp_id offset length storage_path
    | Some di =>
        if strcaseeq di "MIME" || strcaseeq di "HEADER" then
          pstruct_mime pjson pbody temp_id di offset length storage_path
        else if strcaseeq di "TEXT" then
          pstruct_text pjson pbody temp_id offset length storage_path
        else if negb (streq temp_id "") then BodyNil pbody
        else pstruct_else maildir pjson cmd_tag pbody temp_id di
               offset length storage_path
    end.
End Structure.

(** ** FETCH: the attribute parser ([imap_cmd_parser_parse_fetch_args]) *)

Definition is_macro (kw : string) : bool :=
    strcaseeq kw "ALL" || strcaseeq kw "FAST" || strcaseeq kw "FULL".

Definition is_plain_item (kw : string) : bool :=
    strcaseeq kw "BODY" || strcaseeq kw "BODYSTRUCTURE"
    || strcaseeq kw "ENVELOPE" || strcaseeq kw "FLAGS"
    || strcaseeq kw "INTERNALDATE" || strcaseeq kw "RFC822"
    || strcaseeq kw "RFC822.HEADER" || strcaseeq kw "RFC822.SIZE"
    || strcaseeq kw "RFC822.TEXT" || strcaseeq kw "UID".

Definition is_body_item (kw : string) : bool :=
    strncaseeq kw "BODY[" 5 || strncaseeq kw "BODY.PEEK[" 10.

(** The [while (']' != *ptr)] loop over the section text: [ptr] and
      [last_ptr] are the texts at these pointers.  [None] is
      [return FALSE]; otherwise the final [last_ptr]. *)
Fixpoint scan_section (ptr last_ptr : string) : option string :=
    match ptr with
    | EmptyString => Some last_ptr
    | String c ptr' =>
        if Ascii.eqb c "]" then Some last_ptr
        else if Ascii.eqb c "." then
          let len := (String.length last_ptr - String.length ptr)%nat in
          if (len =? 0)%nat then None
          else if all_digits (keep len last_ptr) then scan_section ptr' ptr'
          else Some last_ptr
        else scan_section ptr' last_ptr
    end.

(** The scan of the text between [<] and [>]: number of dots and the
      offset of the last one; [None] on a character that is neither a
      digit nor a dot. *)
Fixpoint scan_octets (inner : string) (pos count : nat)
      (ptr1 : option nat) : option (nat * option nat) :=
    match inner with
    | EmptyString => Some (count, ptr1)
    | String c inner' =>
        if HX_isdigit c then scan_octets inner' (S pos) count ptr1
        else if Ascii.eqb c "." then
          scan_octets inner' (S pos) (S count) (Some pos)
        else None
    end.

(** The checks on what follows the closing bracket; [rest] is the text
      at [pend + 1]. *)
Definition check_octets (rest : string) : bool :=
    match rest with
    | EmptyString => true
    | String c after =>
        match strchr after ">" with
        | None => false
        | Some k =>
            if negb (Ascii.eqb c "<") then false
            else if negb (streq (skip (S k) after) "") then false
            else
              match scan_octets (keep k after) 0 0 None with
              | None => false
              | Some (count, ptr1) =>
                  if (1 <? count)%nat then false
                  else if ((count =? 1)%nat && bool_decide (ptr1 = Some 0%nat))
                          || bool_decide (ptr1 = Some (k - 1)%nat) && (0 <? k)%nat
                  then false
                  else true
              end
        end
    end.

Section FetchArgs.
(** [parse_imap_args(text, len, argv, argc)] is the tokenizer of the
      mail library; [None] is its [-1]. *)
Variable parse_imap_args : string -> option (list string).

Definition arg_count (r : option (list string)) : Z :=
    match r with None => -1 | Some l => Z.of_nat (length l) end.

(** [HEADER.FIELDS ] / [HEADER.FIELDS.NOT ]: the field list that starts
      at [buff + n] must tokenize to at least one name. *)
Definition check_fields (buff : string) (n : nat) : bool :=
    let len := String.length buff in
    if Ascii.eqb (deref (skip n buff)) "(" then
      if negb (Ascii.eqb (last_char buff) ")") then false
      else negb (arg_count (parse_imap_args
                   (keep (len - (n + 2)) (skip (S n) buff))) <? 1)
    else negb (arg_count (parse_imap_args
                 (keep (len - n) (skip n buff))) <? 1).

(** The validation of one [BODY[...]] / [BODY.PEEK[...]] argument. *)
Definition check_body_item (arg : string) : bool :=
    match strchr arg "]", strchr arg "[" with
    | Some pend, Some lb =>
        let ptr := skip (S lb) arg in
        if strncaseeq ptr "MIME" 4 then false
        else
          match scan_section ptr ptr with
          | None => false
          | Some last_ptr =>
              let len := (String.length last_ptr
                          - String.length (skip pend arg))%nat in
              if ((len =? 0)%nat && Ascii.eqb (deref last_ptr) ".")
                 || (1024 <=? len)%nat
              then false
              else
                let buff := keep len last_ptr in
                let sect_ok :=
                  if negb (len =? 0)%nat
                     && negb (strcaseeq buff "HEADER")
                     && negb (strcaseeq buff "TEXT")
                     && negb (strcaseeq buff "MIME")
                     && negb (strncaseeq buff "HEADER.FIELDS " 14)
                     && negb (strncaseeq buff "HEADER.FIELDS.NOT " 18)
                  then all_digits buff
                  else if strncaseeq buff "HEADER.FIELDS " 14
                  then check_fields buff 14
                  else if strncaseeq buff "HEADER.FIELDS.NOT " 18
                  then check_fields buff 18
                  else true in
                sect_ok && check_octets (skip (S pend) arg)
          end
    | _, _ => false
    end.

(** The first loop: [plist] starts as [["UID"]]; a duplicate (by
      [strcasecmp]) is skipped; [None] is [return FALSE]. *)
Fixpoint collect_items (argv : list string) (plist : list string)
      (b_macro : bool) : option (list string * bool) :=
    match argv with
    | [] => Some (plist, b_macro)
    | a :: rest =>
        if existsb (fun e => strcaseeq e a) plist then
          collect_items rest plist b_macro
        else if is_macro a then collect_items rest (plist ++ [a]) true
        else if is_plain_item a then collect_items rest (plist ++ [a]) b_macro
        else if is_body_item a then
          if check_body_item a then collect_items rest (plist ++ [a]) b_macro
          else None
        else None
    end.

(** What the macro branch appends with [emplace_back]. *)
Definition macro_ext (kw : string) : list string :=
    ["INTERNALDATE"; "RFC822.SIZE"]
    ++ (if strcaseeq kw "ALL" || strcaseeq kw "FULL" then
          "ENVELOPE" :: (if strcaseeq kw "FULL" then ["BODY"] else [])
        else []).

(** One turn of the classification loop on [kw = plist[i]]: the new
      [(pb_detail, pb_data)].  The assignment [kw = "FLAGS"] of the macro
      branch changes the local pointer only, so it has no counterpart. *)
Definition classify_item (kw : string) (st : bool * bool) : bool * bool :=
    if is_macro kw then (true, snd st)
    else if strcaseeq kw "RFC822" || strcaseeq kw "RFC822.HEADER"
            || strcaseeq kw "RFC822.TEXT" then (true, true)
    else if strcaseeq kw "BODY" || strcaseeq kw "BODYSTRUCTURE"
            || strcaseeq kw "ENVELOPE" || strcaseeq kw "INTERNALDATE"
            || strcaseeq kw "RFC822.SIZE" then (true, snd st)
    else if is_body_item kw then
      (true, if negb (search_string kw "FIELDS") then true else snd st)
    else st.

Definition weight (todo : list string) : nat :=
    list_sum (map (fun kw => if is_macro kw then 6 else 1)%nat todo).
End FetchArgs.

Lemma weight_app (a b : list string) :
    weight (a ++ b) = (weight a + weight b)%nat.
Proof.
    unfold weight. rewrite map_app. induction a as [|x a IH]; simpl; [reflexivity|].
    rewrite IH. lia.
Qed.

Lemma weight_macro_ext (kw : string) : (weight (macro_ext kw) <= 4)%nat.
Proof.
    unfold macro_ext.
    destruct (strcaseeq kw "ALL"), (strcaseeq kw "FULL"); vm_compute; lia.
Qed.

(** The classification loop [for (i = 0; i < plist.size(); ++i)].  The
      vector grows while it is walked: [done] is [plist[0..i)], [todo] is
      [plist[i..size)], and a macro appends its expansion to [todo]. *)
Equations? classify (done todo : list string) (st : bool * bool) :
      list string * (bool * bool) by wf (weight todo) lt :=
    classify done [] st := (done, st);
    classify done (kw :: rest) st :=
      classify (done ++ [kw])
               (rest ++ (if is_macro kw then macro_ext kw else []))
               (classify_item kw st).
Proof.
    rewrite weight_app. unfold weight at 3. simpl. fold (weight rest).
    pose proof (weight_macro_ext kw).
    destruct (is_macro kw); [lia | vm_compute (weight []); lia].
Qed.

(** [std::stable_partition(plist.begin(), plist.end(), p)]. *)
Definition stable_partition (p : string -> bool) (l : list string) :
      list string :=
    List.filter p l ++ List.filter (fun e => negb (p e)) l.

Definition move_to_front (l : list string) : list string :=
    fold_left (fun acc kw => stable_partition (fun e => strcaseeq e kw) acc)
      ["RFC822.TEXT"; "RFC822.HEADER"; "ENVELOPE"; "RFC822.SIZE";
       "INTERNALDATE"; "FLAGS"; "UID"] l.

Definition move_to_back (l : list string) : list string :=
    fold_left
      (fun acc kw => stable_partition (fun e => negb (strcaseeq e kw)) acc)
      ["BODY"; "BODYSTRUCTURE"; "RFC822"] l.

Section ParseFetchArgs.
Variable parse_imap_args : string -> option (list string).

(** The function from the point where the first [parse_imap_args] call
      has filled [argv] with [tmp_argc] tokens.  The result is
      [(plist, pb_detail, pb_data)]; [None] is [return FALSE]. *)
Definition parse_fetch_args_argv (argv : list string) :
      option (list string * bool * bool) :=
    if (length argv <? 1)%nat then None
    else
      match collect_items parse_imap_args argv ["UID"] false with
      | None => None
      | Some (plist, b_macro) =>
          if (1 <? length argv)%nat && b_macro then None
          else
            let '(plist, (detail, data)) := classify [] plist (false, false) in
            Some (move_to_back (move_to_front plist), detail, data)
      end.

Definition imap_cmd_parser_parse_fetch_args (text : string) :
      option (list string * bool * bool) :=
    let toks :=
      if Ascii.eqb (deref text) "(" then
        if negb (Ascii.eqb (last_char text) ")") then None
        else parse_imap_args (keep (String.length text - 2) (skip 1 text))
      else parse_imap_args text in
    match toks with
    | None => None
    | Some argv => parse_fetch_args_argv argv
    end.
End ParseFetchArgs.

(** A tokenizer to run the parser on concrete requests: it splits at
      blanks outside brackets and parentheses, as [parse_imap_args] does
      for the attribute lists used below. *)
Fixpoint split_args (s : string) (depth : nat) (cur : string)
      : list string :=
    match s with
    | EmptyString => if streq cur "" then [] else [cur]
    | String c s' =>
        if Ascii.eqb c " " && (depth =? 0)%nat then
          (if streq cur "" then [] else [cur]) ++ split_args s' depth ""
        else
          let depth' :=
            if Ascii.eqb c "[" || Ascii.eqb c "(" then S depth
            else if Ascii.eqb c "]" || Ascii.eqb c ")" then (depth - 1)%nat
            else depth in
          split_args s' depth' (cur +:+ String c "")
    end.

Definition tokenize (s : string) : option (list string) :=
    Some (split_args s 0 "").

(** ** FETCH: one response ([imap_cmd_parser_process_fetch_item]) *)

(** [strtol(text, nullptr, 0)] on the texts that reach it here, which have
    passed [check_octets]: digits only.  With base 0 a leading [0] selects
    octal; the value saturates at [LONG_MAX]. *)
Fixpoint digits_val (base : Z) (s : string) (acc : Z) : Z :=
  match s with
  | EmptyString => acc
  | String c s' =>
      let d := Z.of_nat (nat_of_ascii c) - 48 in
      if (0 <=? d) && (d <? base) then digits_val base s' (acc * base + d)
      else acc
  end.

Definition strtol0 (s : string) : Z :=
  let v := match s with
           | String "0" s' => digits_val 8 s' 0
           | _ => digits_val 10 s 0
           end in
  Z.min v (2 ^ 63 - 1).

(** Offset of the first character that is neither a dot nor a digit. *)
Fixpoint first_nonnum (s : string) : option nat :=
  match s with
  | EmptyString => None
  | String c s' =>
      if Ascii.eqb c "." || HX_isdigit c then
        match first_nonnum s' with Some k => Some (S k) | None => None end
      else Some O
  end.

(** What the renderer does to the outside, in program order.
    [Rfc822Build] is the call [mjson.rfc822_build(rfc_path)], which
    materialises the nested messages of the mail in files under
    [rfc_path].  What the renderer only reads (the digest, and the EML
    file through [imap_cmd_parser_match_field]) is answered by the
    collaborators and leaves no entry. *)
Inductive event :=
| SetFlags (folder mid : string) (bits : Z)
| UnsetFlags (folder mid : string) (bits : Z)
| BcastFlags (uid : Z)
| Rfc822Build (rfc_path : string)
| StreamWrite (text : string).

(** The session fields the renderer reads. *)
Record fetch_ctx := {
  maildir : string;
  selected_folder : string;
  b_readonly : bool
}.

(** The message being rendered: [pitem->flag_bits] is updated in place and
    the calls to MIDB and to the notification hub are recorded in order. *)
Record fstate := { cur_bits : Z; events : list event }.

Section FetchItem.
Variables FLAG_RECENT FLAG_ANSWERED FLAG_FLAGGED FLAG_DELETED
          FLAG_SEEN FLAG_DRAFT FLAG_LOADED : Z.
Variable imap_cmd_parser_match_field :
  string -> string -> Z -> Z -> bool -> string -> Z -> Z -> option string.
(** [mjson.load_from_json(pitem->digest, eml_path)]; [None] is failure. *)
Variable load_from_json : MITEM -> string -> option MJSON.
(** Whether [pcontext->stream.write] returns [STREAM_WRITE_OK]. *)
Variable stream_write_ok : string -> bool.

Definition has_flag (bits flag : Z) : bool := negb (Z.land bits flag =? 0).

Definition imap_cmd_parser_convert_flags_string (flag_bits : Z) : string :=
  let add (acc : string * bool) (e : Z * string) :=
    if has_flag flag_bits (fst e) then
      ((fst acc +:+ (if snd acc then " " else "") +:+ snd e), true)
    else acc in
  fst (fold_left add
         [(FLAG_RECENT, "\Recent"); (FLAG_ANSWERED, "\Answered");
          (FLAG_FLAGGED, "\Flagged"); (FLAG_DELETED, "\Deleted");
          (FLAG_SEEN, "\Seen"); (FLAG_DRAFT, "\Draft")] ("(", false))
  +:+ ")".

(** The block that three branches share:
    [if (!b_readonly && !(flag_bits & FLAG_SEEN)) { set_flags; |=; bcast }]. *)
Definition mark_seen (ctx : fetch_ctx) (pitem : MITEM) (st : fstate) : fstate :=
  if negb (b_readonly ctx) && negb (has_flag (cur_bits st) FLAG_SEEN) then
    {| cur_bits := Z.lor (cur_bits st) FLAG_SEEN;
       events := events st
                 ++ [SetFlags (selected_folder ctx) (mid pitem) FLAG_SEEN;
                     BcastFlags (uid pitem)] |}
  else st.

(** The text of the [BODY] and [BODYSTRUCTURE] branches, and the call to
    [rfc822_build] if one is made. *)
Definition structure_text (ctx : fetch_ctx) (mjson : MJSON) (b_ext : bool)
    : string * list event :=
  let simple := match fetch_structure mjson b_ext with
                | None => "NIL"
                | Some t => t
                end in
  if rfc822_check mjson then
    let rfc_path := maildir ctx +:+ "/tmp/imap.rfc822" in
    if (String.length rfc_path <=? 0)%nat then (simple, [])
    else if negb (rfc822_build mjson rfc_path)
    then (simple, [Rfc822Build rfc_path])
    else (match rfc822_fetch mjson rfc_path b_ext with
          | None => simple
          | Some t => t
          end, [Rfc822Build rfc_path])
  else (simple, []).

(** The calls made while a keyword is rendered join the record. *)
Definition record (st : fstate) (calls : list event) : fstate :=
  {| cur_bits := cur_bits st; events := (events st ++ calls)%list |}.

Definition CRLF : string := String "013" (String "010" "").

(** The [BODY[...]] / [BODY.PEEK[...]] branch up to the side effect: the
    keyword as the in-place trim leaves it, the text printed, and the call
    to [rfc822_build] if one is made.  [inl] is an early [return]. *)
Definition fetch_body_item (ctx : fetch_ctx) (mjson : MJSON) (kw : string)
    : Z + (string * string * list event) :=
  match strchr kw "[" with
  | None => inl 1800
  | Some lb =>
      let inside := skip (S lb) kw in
      match strchr inside "]" with
      | None => inl 1800
      | Some k =>
          let after := skip (S k) inside in
          let nums := skip 1 after in
          let ranged := Ascii.eqb (deref after) "<" in
          let pdot := if ranged then strchr nums "." else None in
          let offset := if ranged then strtol0 nums else 0 in
          let length := match pdot with
                        | Some d => strtol0 (skip (S d) nums)
                        | None => -1
                        end in
          let kw' := match pdot with
                     | Some d => keep (S lb + S k + 1 + d) kw +:+ ">"
                     | None => kw
                     end in
          let pbody := skip lb kw' in
          let temp_buff := keep k inside in
          let '(temp_id, data_item) :=
            match first_nonnum temp_buff with
            | None => (temp_buff, None)
            | Some O => ("", Some temp_buff)
            | Some (S i) => (keep i temp_buff, Some (skip (S i) temp_buff))
            end in
          let flat := imap_cmd_parser_print_structure
                        imap_cmd_parser_match_field (maildir ctx)
                        (view mjson) kw' pbody temp_id data_item
                        offset length None in
          let '(out, calls) :=
            if negb (streq temp_id "") && rfc822_check mjson then
              let rfc_path := maildir ctx +:+ "/tmp/imap.rfc822" in
              if negb (0 <? String.length rfc_path)%nat then (flat, [])
              else if rfc822_build mjson rfc_path then
                (match rfc822_get mjson rfc_path temp_id with
                 | Some (temp_mjson, final_id) =>
                     imap_cmd_parser_print_structure
                       imap_cmd_parser_match_field (maildir ctx)
                       temp_mjson kw' pbody final_id data_item offset length
                       (Some (get_mail_filename (view mjson)))
                 | None => flat
                 end, [Rfc822Build rfc_path])
              else (flat, [Rfc822Build rfc_path])
            else (flat, []) in
          inr (kw', render out, calls)
      end
  end.
(** One turn of [for (auto &kwss : pitem_list)] after the separator has
    been written: the keyword as it is left in the list, the text appended
    to [buff], and the state.  [inl] is an early [return]. *)
Definition fetch_keyword (ctx : fetch_ctx) (mjson : MJSON) (pitem : MITEM)
    (kw : string) (st : fstate) : Z + (string * string * fstate) :=
  if strcaseeq kw "BODY" then
    let '(text, calls) := structure_text ctx mjson false in
    inr (kw, "BODY " +:+ text, record st calls)
  else if strcaseeq kw "BODYSTRUCTURE" then
    let '(text, calls) := structure_text ctx mjson true in
    inr (kw, "BODYSTRUCTURE " +:+ text, record st calls)
  else if strcaseeq kw "ENVELOPE" then
    inr (kw, "ENVELOPE " +:+ match fetch_envelope mjson with
                             | None => "NIL"
                             | Some t => t
                             end, st)
  else if strcaseeq kw "FLAGS" then
    inr (kw, "FLAGS " +:+ imap_cmd_parser_convert_flags_string (cur_bits st), st)
  else if strcaseeq kw "INTERNALDATE" then
    inr (kw, internaldate mjson, st)
  else if strcaseeq kw "RFC822" then
    inr (kw, "RFC822 <<{file}" +:+ get_mail_filename (view mjson) +:+ "|0|"
             +:+ pretty (get_mail_length mjson) +:+ CRLF,
         mark_seen ctx pitem st)
  else if strcaseeq kw "RFC822.HEADER" then
    inr (kw, match get_mime (view mjson) "" with
             | Some pmime =>
                 "RFC822.HEADER <<{file}" +:+ get_mail_filename (view mjson)
                 +:+ "|0|" +:+ pretty (get_head_length pmime) +:+ CRLF
             | None => "RFC822.HEADER NIL"
             end, st)
  else if strcaseeq kw "RFC822.SIZE" then
    inr (kw, "RFC822.SIZE " +:+ pretty (get_mail_length mjson), st)
  else if strcaseeq kw "RFC822.TEXT" then
    inr (kw, match get_mime (view mjson) "" with
             | Some pmime =>
                 "RFC822.TEXT <<{file}" +:+ get_mail_filename (view mjson)
                 +:+ "|" +:+ pretty (get_content_offset pmime) +:+ "|"
                 +:+ pretty (get_content_length pmime) +:+ CRLF
             | None => "RFC822.TEXT NIL"
             end,
         mark_seen ctx pitem st)
  else if strcaseeq kw "UID" then
    inr (kw, "UID " +:+ pretty (uid pitem), st)
  else if is_body_item kw then
    match fetch_body_item ctx mjson kw with
    | inl code => inl code
    | inr (kw', text, calls) =>
        let st := record st calls in
        inr (kw', text,
             if strncaseeq kw' "BODY[" 5 then mark_seen ctx pitem st else st)
    end
  else inr (kw, "", st).

(** The loop over [pitem_list].  The result carries the list as the loop
    leaves it (the octet-range trim is stored back into it), the text in
    [buff], the state, and the code of an early [return] if there was one. *)
Fixpoint fetch_keywords (ctx : fetch_ctx) (mjson : MJSON) (pitem : MITEM)
    (kws : list string) (b_first : bool) (buff : string) (st : fstate)
    : list string * string * fstate * option Z :=
  match kws with
  | [] => ([], buff, st, None)
  | kw :: rest =>
      let buff := if b_first then buff +:+ " " else buff in
      match fetch_keyword ctx mjson pitem kw st with
      | inl code => (kw :: rest, buff, st, Some code)
      | inr (kw', text, st') =>
          let '(rest', buff', st'', code) :=
            fetch_keywords ctx mjson pitem rest true (buff +:+ text) st' in
          (kw' :: rest', buff', st'', code)
      end
  end.

(** The tail of the function: [\Recent] is dropped on a writable mailbox. *)
Definition clear_recent (ctx : fetch_ctx) (pitem : MITEM) (st : fstate)
    : fstate :=
  if negb (b_readonly ctx) && has_flag (cur_bits st) FLAG_RECENT then
    let bits := Z.land (cur_bits st) (Z.lnot FLAG_RECENT) in
    if negb (has_flag bits FLAG_SEEN) then
      {| cur_bits := bits;
         events := events st
                   ++ [UnsetFlags (selected_folder ctx) (mid pitem) FLAG_RECENT;
                       BcastFlags (uid pitem)] |}
    else {| cur_bits := bits; events := events st |}
  else st.

Definition set_bits (pitem : MITEM) (bits : Z) : MITEM :=
  {| uid := uid pitem; mid := mid pitem; flag_bits := bits; id := id pitem |}.

(** The whole function: return code, the item and the keyword list as they
    are left behind, and the recorded calls. *)
Definition imap_cmd_parser_process_fetch_item (ctx : fetch_ctx)
    (b_data : bool) (pitem : MITEM) (item_id : Z) (pitem_list : list string)
    : Z * MITEM * list string * list event :=
  let loaded :=
    if has_flag (flag_bits pitem) FLAG_LOADED then
      load_from_json pitem (maildir ctx +:+ "/eml")
    else Some MJSON_empty in
  match loaded with
  | None => (1923, pitem, pitem_list, [])
  | Some mjson =>
      let head := "* " +:+ pretty item_id +:+ " FETCH (" in
      let st0 := {| cur_bits := flag_bits pitem; events := [] |} in
      let '(kws', buff, st, code) :=
        fetch_keywords ctx mjson pitem pitem_list false head st0 in
      match code with
      | Some c => (c, set_bits pitem (cur_bits st), kws', events st)
      | None =>
          let buff := buff +:+ ")" +:+ CRLF in
          if negb (stream_write_ok buff) then
            (1922, set_bits pitem (cur_bits st), kws', events st)
          else
            let st := {| cur_bits := cur_bits st;
                         events := events st ++ [StreamWrite buff] |} in
            let st := clear_recent ctx pitem st in
            (0, set_bits pitem (cur_bits st), kws', events st)
      end
  end.
End FetchItem.

End Fetch.

(** ** Folder names ([imapfolder_to_sysfolder], [sysfolder_to_imapfolder]) *)

Module NameCodec.

Definition hex_digit (n : nat) : ascii :=
  if (n <? 10)%nat then ascii_of_nat (48 + n) else ascii_of_nat (87 + n).

Definition hex_value (c : ascii) : option nat :=
  let n := nat_of_ascii c in
  if ((48 <=? n) && (n <=? 57))%nat then Some (n - 48)%nat
  else if ((97 <=? n) && (n <=? 102))%nat then Some (n - 87)%nat
  else if ((65 <=? n) && (n <=? 70))%nat then Some (n - 55)%nat
  else None.

(** Modelled from the spec: [encode_hex_binary] belongs to the utility
    library and is absent here; the internal name of a user folder is the
    lowercase-hex encoding of its UTF-8 path, two digits per byte. *)
Fixpoint encode_hex_binary (s : string) : string :=
  match s with
  | EmptyString => EmptyString
  | String c s' =>
      let n := nat_of_ascii c in
      String (hex_digit (n / 16)) (String (hex_digit (n mod 16))
        (encode_hex_binary s'))
  end.

(** Modelled from the spec: [decode_hex_binary], the inverse; [None] is its
    [FALSE] (odd length or a character that is not a hex digit). *)
Fixpoint decode_hex_binary (s : string) : option string :=
  match s with
  | EmptyString => Some EmptyString
  | String a (String b s') =>
      match hex_value a, hex_value b, decode_hex_binary s' with
      | Some x, Some y, Some r => Some (String (ascii_of_nat (16 * x + y)) r)
      | _, _, _ => None
      end
  | String _ EmptyString => None
  end.

(** The four folders with a localised display name. *)
Inductive special_fid :=
| PRIVATE_FID_DRAFT
| PRIVATE_FID_SENT_ITEMS
| PRIVATE_FID_DELETED_ITEMS
| PRIVATE_FID_JUNK.

Definition g_folder_list : list string := ["draft"; "sent"; "trash"; "junk"].

Definition special_folder (name : string) : bool :=
  strcaseeq name "inbox" || existsb (fun s => streq name s) g_folder_list.

(** [temp_name] without one trailing slash. *)
Definition strip_slash (temp_name : string) : string :=
  let len := String.length temp_name in
  if (0 <? len)%nat && Ascii.eqb (last_char temp_name) "/"
  then keep (len - 1) temp_name else temp_name.

(** The text up to the first slash: [left_frag]. *)
Definition left_of (ptoken : option nat) (temp_name : string) : string :=
  match ptoken with
  | None => gx_strlcpy 512 temp_name
  | Some k => keep k temp_name
  end.

Section Codec.
(** The MUTF-7 codec of the mail library: the return value and the text
    left in the output buffer. *)
Variable mutf7_to_utf8 : string -> Z * string.
Variable utf8_to_mutf7 : string -> Z * string.
(** [folder_namedb_get] after language resolution; [None] is [nullptr]. *)
Variable foldername_get : string -> special_fid -> option string.

Definition is_name (lang : string) (fid : special_fid) (frag : string) : bool :=
  match foldername_get lang fid with
  | Some s => streq frag s
  | None => false
  end.

Definition imap_cmd_parser_imapfolder_to_sysfolder (lang imap_folder : string)
    : option string :=
  let r := mutf7_to_utf8 imap_folder in
  if fst r <? 0 then None
  else
    let temp_name := strip_slash (snd r) in
    let ptoken := strchr temp_name "/" in
    let left_frag := left_of ptoken temp_name in
    let left_frag :=
      if strcaseeq left_frag "INBOX" then "inbox"
      else if is_name lang PRIVATE_FID_DRAFT left_frag then "draft"
      else if is_name lang PRIVATE_FID_SENT_ITEMS left_frag then "sent"
      else if is_name lang PRIVATE_FID_DELETED_ITEMS left_frag then "trash"
      else if is_name lang PRIVATE_FID_JUNK left_frag then "junk"
      else left_frag in
    match ptoken with
    | Some k =>
        Some (encode_hex_binary
                (gx_snprintf 512 (left_frag +:+ skip k temp_name)))
    | None =>
        if special_folder left_frag then Some left_frag
        else Some (encode_hex_binary left_frag)
    end.

(** The display name of a special folder, MUTF-7 encoded; the return value
    of the encoder is not inspected on this path.  A null display name has
    no defined outcome ([strlen] of a null pointer). *)
Definition special_to_imap (lang : string) (fid : special_fid) : option string :=
  match foldername_get lang fid with
  | Some s => Some (snd (utf8_to_mutf7 s))
  | None => None
  end.

Definition imap_cmd_parser_sysfolder_to_imapfolder (lang sys_folder : string)
    : option string :=
  if streq "inbox" sys_folder then Some "INBOX"
  else if streq "draft" sys_folder then special_to_imap lang PRIVATE_FID_DRAFT
  else if streq "sent" sys_folder then special_to_imap lang PRIVATE_FID_SENT_ITEMS
  else if streq "trash" sys_folder then
    special_to_imap lang PRIVATE_FID_DELETED_ITEMS
  else if streq "junk" sys_folder then special_to_imap lang PRIVATE_FID_JUNK
  else
    match decode_hex_binary sys_folder with
    | None => None
    | Some temp_name =>
        let ptoken := strchr temp_name "/" in
        let left_frag := left_of ptoken temp_name in
        let name (fid : special_fid) :=
          gx_strlcpy 512 (znul (foldername_get lang fid)) in
        let left_frag :=
          if streq left_frag "inbox" then "INBOX"
          else if streq left_frag "draft" then name PRIVATE_FID_DRAFT
          else if streq left_frag "sent" then name PRIVATE_FID_SENT_ITEMS
          else if streq left_frag "trash" then name PRIVATE_FID_DELETED_ITEMS
          else if streq left_frag "junk" then name PRIVATE_FID_JUNK
          else left_frag in
        let converted_name :=
          match ptoken with
          | Some k => gx_snprintf 512 (left_frag +:+ skip k temp_name)
          | None => left_frag
          end in
        let r := utf8_to_mutf7 converted_name in
        if fst r <=? 0 then None else Some (snd r)
    end.

(** IMAP name to internal name and back. *)
Definition round_trip (lang x : string) : option string :=
  match imap_cmd_parser_imapfolder_to_sysfolder lang x with
  | None => None
  | Some sys => imap_cmd_parser_sysfolder_to_imapfolder lang sys
  end.
End Codec.

(** The codec on names made of printable ASCII without [&]: MUTF-7 leaves
    such names as they are (RFC 3501, 5.1.3).  Used to run the conversions
    on concrete names. *)
Definition plain_name (s : string) : bool :=
  forallb (fun c => let n := nat_of_ascii c in
                    ((32 <=? n) && (n <=? 126) && negb (n =? 38))%nat)
          (list_ascii_of_string s).

Definition ascii_codec (s : string) : Z * string :=
  if plain_name s && (String.length s <? 512)%nat
  then (Z.of_nat (String.length s), s) else (-1, "").

(** The English display names. *)
Definition english_names (lang : string) (fid : special_fid) : option string :=
  Some match fid with
       | PRIVATE_FID_DRAFT => "Drafts"
       | PRIVATE_FID_SENT_ITEMS => "Sent Items"
       | PRIVATE_FID_DELETED_ITEMS => "Deleted Items"
       | PRIVATE_FID_JUNK => "Junk E-mail"
       end.

End NameCodec.

(** ** The MIDB agent as seen from the handlers *)

Module Midb.

Inductive midb_result :=
| MIDB_RESULT_OK
| MIDB_NO_SERVER
| MIDB_RDWR_ERROR
| MIDB_RESULT_ERROR
| MIDB_LOCAL_ENOMEM
| MIDB_TOO_MANY_RESULTS
| MIDB_OTHER.

Definition is_ok (r : midb_result) : bool :=
  match r with MIDB_RESULT_OK => true | _ => false end.

Definition m2icode (DISPATCH_MIDB : Z) (r : midb_result) (e : Z) : Z :=
  match r with
  | MIDB_RESULT_OK => 0
  | MIDB_NO_SERVER => 1905
  | MIDB_RDWR_ERROR => 1906
  | MIDB_RESULT_ERROR => Z.lor DISPATCH_MIDB (e mod 2 ^ 16)
  | MIDB_LOCAL_ENOMEM => 1920
  | MIDB_TOO_MANY_RESULTS => 1921
  | MIDB_OTHER => 1919
  end.

Inductive iproto_stat := noauth | username | password | auth | select.

(** What a handler does to the outside, in program order. *)
Inductive call :=
| CopyMail (src_folder src_mid dst_folder : string) (dst_mid : option string)
| GetUid (folder mid : string)
| SummaryFolder (folder : string)
| InsertMail (folder mid flags : string) (time : Z)
| RemoveMail (folder : string) (mids : list string)
| Usleep (usec : Z)
| BcastTouch (user folder : string)
| EchoModify
| StreamClear
| StreamWrite (text : string)
| SafeWrite (text : string).

End Midb.

Import Midb.

(** ** COPY and UID COPY *)

Module Copy.

Record copy_ctx := {
  proto_stat : iproto_stat;
  lang : string;
  maildir : string;
  selected_folder : string;
  contents : list MITEM
}.

(** The answers of the collaborators during one command. *)
Record copy_env := {
  (** [system_services_fetch_simple_uid]: result, errno, the XARRAY. *)
  fetch_simple_uid :
    string -> list SeqSet.range_node -> midb_result * Z * list MITEM;
  (** [system_services_summary_folder]: result and [uidvalidity]. *)
  summary_folder : string -> midb_result * Z;
  (** [system_services_copy_mail] for the message at index [i] of the
      XARRAY, called with [pitem->mid] both as the source mid and as the
      argument for the destination mid: on [MIDB_RESULT_OK], the text
      that argument holds afterwards. *)
  copy_mail : nat -> string -> option string;
  (** [system_services_get_uid], by message index and attempt. *)
  get_uid : nat -> nat -> string -> option Z;
  stream_write_ok : string -> bool
}.

Definition set_mid (it : MITEM) (m : string) : MITEM :=
  {| uid := uid it; mid := m; flag_bits := flag_bits it; id := id it |}.

(** [contents.get_itemx(uid)]: position and item. *)
Fixpoint get_itemx (l : list MITEM) (u : Z) : option (nat * MITEM) :=
  match l with
  | [] => None
  | it :: rest =>
      if uid it =? u then Some (O, it)
      else match get_itemx rest u with
           | Some (k, x) => Some (S k, x)
           | None => None
           end
  end.

Fixpoint store_at (l : list MITEM) (k : nat) (it : MITEM) : list MITEM :=
  match l, k with
  | [], _ => []
  | _ :: rest, O => it :: rest
  | x :: rest, S k' => x :: store_at rest k' it
  end.

(** [for (j = 0; j < 10; j++)]: [n] turns are left, [j] is the current
    one.  The UID found, if any, and the calls made. *)
Fixpoint poll_uid (env : copy_env) (folder : string) (i : nat) (mid : string)
    (j n : nat) : option Z * list call :=
  match n with
  | O => (None, [])
  | S n' =>
      match get_uid env i j mid with
      | Some u => (Some u, [GetUid folder mid])
      | None =>
          let '(r, t) := poll_uid env folder i mid (S j) n' in
          (r, GetUid folder mid :: Usleep 500000 :: t)
      end
  end.

(** The variables the copy loop updates. *)
Record loop_state := {
  ls_contents : list MITEM;   (* pcontext->contents *)
  ls_seen : list MITEM;       (* xarray[0..i), as the loop leaves them *)
  ls_uidvalidity : Z;
  ls_first : bool;
  ls_uid_string : string;
  ls_uid_string1 : string;
  ls_trace : list call
}.

Definition add_uid (b_first : bool) (acc text : string) : string :=
  (if b_first then acc +:+ "," else acc) +:+ text.

(** The loop of [imap_cmd_parser_copy] from index [i] on; [todo] is
    [xarray[i..num)].  [Some i] is the index at which [b_copied] became
    false. *)
Fixpoint copy_loop (env : copy_env) (ctx : copy_ctx) (sys_name : string)
    (todo : list MITEM) (i : nat) (st : loop_state)
    : option nat * loop_state :=
  match todo with
  | [] => (None, st)
  | xitem :: rest =>
      let skip_it :=
        {| ls_contents := ls_contents st; ls_seen := ls_seen st ++ [xitem];
           ls_uidvalidity := ls_uidvalidity st; ls_first := ls_first st;
           ls_uid_string := ls_uid_string st;
           ls_uid_string1 := ls_uid_string1 st; ls_trace := ls_trace st |} in
      match get_itemx (ls_contents st) (uid xitem) with
      | None => copy_loop env ctx sys_name rest (S i) skip_it
      | Some (k, pitem) =>
          match copy_mail env i (mid pitem) with
          | None =>
              (Some i,
               {| ls_contents := ls_contents st; ls_seen := ls_seen st;
                  ls_uidvalidity := ls_uidvalidity st; ls_first := ls_first st;
                  ls_uid_string := ls_uid_string st;
                  ls_uid_string1 := ls_uid_string1 st;
                  ls_trace := ls_trace st
                    ++ [CopyMail (selected_folder ctx) (mid pitem) sys_name
                          None] |})
          | Some dst =>
              let contents' := store_at (ls_contents st) k (set_mid pitem dst) in
              let tr := (ls_trace st
                        ++ [CopyMail (selected_folder ctx) (mid pitem) sys_name
                              (Some dst)])%list in
              if ls_uidvalidity st =? 0 then
                copy_loop env ctx sys_name rest (S i)
                  {| ls_contents := contents'; ls_seen := ls_seen st ++ [xitem];
                     ls_uidvalidity := 0; ls_first := ls_first st;
                     ls_uid_string := ls_uid_string st;
                     ls_uid_string1 := ls_uid_string1 st; ls_trace := tr |}
              else
                let '(found, t) := poll_uid env sys_name i dst 0 10 in
                copy_loop env ctx sys_name rest (S i)
                  match found with
                  | Some u =>
                      {| ls_contents := contents';
                         ls_seen := ls_seen st ++ [xitem];
                         ls_uidvalidity := ls_uidvalidity st; ls_first := true;
                         ls_uid_string :=
                           add_uid (ls_first st) (ls_uid_string st)
                                   (pretty (uid pitem));
                         ls_uid_string1 :=
                           add_uid (ls_first st) (ls_uid_string1 st) (pretty u);
                         ls_trace := tr ++ t |}
                  | None =>
                      {| ls_contents := contents';
                         ls_seen := ls_seen st ++ [xitem];
                         ls_uidvalidity := 0; ls_first := ls_first st;
                         ls_uid_string := ls_uid_string st;
                         ls_uid_string1 := ls_uid_string1 st;
                         ls_trace := tr ++ t |}
                  end
          end
      end
  end.

(** The loop of [imap_cmd_parser_uid_copy]: the XARRAY item itself is
    handed to [copy_mail], so the destination mid lands in the XARRAY. *)
Fixpoint uid_copy_loop (env : copy_env) (ctx : copy_ctx) (sys_name : string)
    (todo : list MITEM) (i : nat) (st : loop_state)
    : option nat * loop_state :=
  match todo with
  | [] => (None, st)
  | pitem :: rest =>
      match copy_mail env i (mid pitem) with
      | None =>
          (Some i,
           {| ls_contents := ls_contents st; ls_seen := ls_seen st;
              ls_uidvalidity := ls_uidvalidity st; ls_first := ls_first st;
              ls_uid_string := ls_uid_string st;
              ls_uid_string1 := ls_uid_string1 st;
              ls_trace := ls_trace st
                ++ [CopyMail (selected_folder ctx) (mid pitem) sys_name None] |})
      | Some dst =>
          let seen' := (ls_seen st ++ [set_mid pitem dst])%list in
          let tr := (ls_trace st
                     ++ [CopyMail (selected_folder ctx) (mid pitem) sys_name
                           (Some dst)])%list in
          if ls_uidvalidity st =? 0 then
            uid_copy_loop env ctx sys_name rest (S i)
              {| ls_contents := ls_contents st; ls_seen := seen';
                 ls_uidvalidity := 0; ls_first := ls_first st;
                 ls_uid_string := ls_uid_string st;
                 ls_uid_string1 := ls_uid_string1 st; ls_trace := tr |}
          else
            let '(found, t) := poll_uid env sys_name i dst 0 10 in
            uid_copy_loop env ctx sys_name rest (S i)
              match found with
              | Some u =>
                  {| ls_contents := ls_contents st; ls_seen := seen';
                     ls_uidvalidity := ls_uidvalidity st; ls_first := true;
                     ls_uid_string :=
                       add_uid (ls_first st) (ls_uid_string st) (pretty u);
                     ls_uid_string1 := ls_uid_string1 st;
                     ls_trace := tr ++ t |}
              | None =>
                  {| ls_contents := ls_contents st; ls_seen := seen';
                     ls_uidvalidity := 0; ls_first := ls_first st;
                     ls_uid_string := ls_uid_string st;
                     ls_uid_string1 := ls_uid_string1 st;
                     ls_trace := tr ++ t |}
              end
      end
  end.

(** [for (; i > 0; i--)]: the items before the failing index, last first,
    without those whose UID is 0. *)
Definition exp_list (seen : list MITEM) : list MITEM :=
  List.filter (fun it => negb (uid it =? 0)) (rev seen).

Definition init_state (ctx : copy_ctx) (uidvalidity : Z) : loop_state :=
  {| ls_contents := contents ctx; ls_seen := []; ls_uidvalidity := uidvalidity;
     ls_first := false; ls_uid_string := ""; ls_uid_string1 := "";
     ls_trace := [] |}.

Section Handlers.
Variables DISPATCH_MIDB DISPATCH_BREAK : Z.
(** [resource_get_imap_code(code, part)] *)
Variable resource_get_imap_code : Z -> Z -> string.
Variable SEQ_STAR : Z.
(** [parse_imap_seq]; [None] is a nonzero return. *)
Variable parse_imap_seq : string -> option (list SeqSet.range_node).
(** [imap_cmd_parser_imapfolder_to_sysfolder(lang, name, sys_name)] *)
Variable imapfolder_to_sysfolder : string -> string -> option string.

Definition arg (argv : list string) (k : nat) : string := nth k argv "".

(** Everything after the loop: rollback, reply, return value.  [src_set]
    is the text printed as the source set of [COPYUID]. *)
Definition finish (env : copy_env) (argv : list string) (sys_name : string)
    (ok_code fail_code : Z) (failed : option nat) (st : loop_state)
    (src_set dst_set : string) : Z * list call :=
  let tr :=
    match failed with
    | Some _ => (ls_trace st
                 ++ [RemoveMail sys_name (map mid (exp_list (ls_seen st)))])%list
    | None => ls_trace st
    end in
  let tr := (tr ++ [StreamClear])%list in
  let tr := match failed with
            | None => (tr ++ [EchoModify])%list
            | Some _ => tr
            end in
  let buf :=
    match failed with
    | None =>
        if negb (ls_uidvalidity st =? 0) then
          arg argv 0 +:+ " " +:+ resource_get_imap_code ok_code 1
          +:+ " [COPYUID " +:+ pretty (ls_uidvalidity st) +:+ " " +:+ src_set
          +:+ " " +:+ dst_set +:+ "] " +:+ resource_get_imap_code ok_code 2
        else
          arg argv 0 +:+ " " +:+ resource_get_imap_code ok_code 1 +:+ " "
          +:+ resource_get_imap_code ok_code 2
    | Some _ => arg argv 0 +:+ " " +:+ resource_get_imap_code fail_code 1
    end in
  if negb (stream_write_ok env buf) then (1922, tr)
  else (DISPATCH_BREAK, (tr ++ [StreamWrite buf])%list).

(** Result: return value, [pcontext->contents] afterwards, calls made. *)
Definition imap_cmd_parser_copy (env : copy_env) (ctx : copy_ctx)
    (argv : list string) : Z * list MITEM * list call :=
  match proto_stat ctx with
  | select =>
      let bad := (1800, contents ctx, []) in
      if (length argv <? 4)%nat then bad
      else
        match parse_imap_seq (arg argv 2) with
        | None => bad
        | Some seq_list =>
            match SeqSet.parse_imap_seqx SEQ_STAR (contents ctx) seq_list with
            | None => bad
            | Some list_uid =>
                if (String.length (arg argv 3) =? 0)%nat
                   || (1024 <=? String.length (arg argv 3))%nat then bad
                else
                  match imapfolder_to_sysfolder (lang ctx) (arg argv 3) with
                  | None => bad
                  | Some sys_name =>
                      let '(ssr, errnum, xarray) :=
                        fetch_simple_uid env (selected_folder ctx)
                          (map (fun u => SeqSet.Build_range_node u u)
                               list_uid) in
                      let result := m2icode DISPATCH_MIDB ssr errnum in
                      if negb (result =? 0) then (result, contents ctx, [])
                      else
                        let '(sr, uv) := summary_folder env sys_name in
                        let uidvalidity := if is_ok sr then uv else 0 in
                        let '(failed, st) :=
                          copy_loop env ctx sys_name xarray 0
                            (init_state ctx uidvalidity) in
                        let '(ret, tr) :=
                          finish env argv sys_name 1722 1916 failed st
                            (ls_uid_string st) (ls_uid_string1 st) in
                        (ret, ls_contents st, tr)
                  end
            end
        end
  | _ => (1805, contents ctx, [])
  end.

Definition imap_cmd_parser_uid_copy (env : copy_env) (ctx : copy_ctx)
    (argv : list string) : Z * list MITEM * list call :=
  match proto_stat ctx with
  | select =>
      let bad := (1800, contents ctx, []) in
      if (length argv <? 5)%nat then bad
      else
        match parse_imap_seq (arg argv 3) with
        | None => bad
        | Some list_seq =>
            if (String.length (arg argv 4) =? 0)%nat
               || (1024 <=? String.length (arg argv 4))%nat then bad
            else
              match imapfolder_to_sysfolder (lang ctx) (arg argv 4) with
              | None => bad
              | Some sys_name =>
                  let '(ssr, errnum, xarray) :=
                    fetch_simple_uid env (selected_folder ctx) list_seq in
                  let ret := m2icode DISPATCH_MIDB ssr errnum in
                  if negb (ret =? 0) then (ret, contents ctx, [])
                  else
                    let '(sr, uv) := summary_folder env sys_name in
                    let uidvalidity := if is_ok sr then uv else 0 in
                    let '(failed, st) :=
                      uid_copy_loop env ctx sys_name xarray 0
                        (init_state ctx uidvalidity) in
                    let '(ret, tr) :=
                      finish env argv sys_name 1725 1917 failed st
                        (arg argv 3) (ls_uid_string st) in
                    (ret, ls_contents st, tr)
              end
        end
  | _ => (1805, contents ctx, [])
  end.
End Handlers.

(** The destination folder as a set of mids.  A successful [copy_mail]
    into [folder] adds the destination mid; [remove_mail] on [folder]
    takes the listed mids away. *)
Definition midb_step (folder : string) (c : call) (d : gset string)
    : gset string :=
  match c with
  | CopyMail _ _ dst (Some m) => if streq dst folder then d ∪ {[m]} else d
  | RemoveMail f mids => if streq f folder then d ∖ list_to_set mids else d
  | _ => d
  end.

Definition folder_after (folder : string) (tr : list call) (d : gset string)
    : gset string :=
  fold_left (fun acc c => midb_step folder c acc) tr d.

End Copy.

(** ** APPEND *)

Module Append.

Record append_ctx := {
  is_authed : bool;
  proto_stat : iproto_stat;
  lang : string;
  maildir : string;
  username : string;
  selected_folder : string;
  tag_string : string;
  mid : string;
  file_path : string;
  message_fd : bool        (* whether the descriptor is open *)
}.

Definition with_scratch (ctx : append_ctx) (m path : string) (fd : bool)
    : append_ctx :=
  {| is_authed := is_authed ctx; proto_stat := proto_stat ctx;
     lang := lang ctx; maildir := maildir ctx; username := username ctx;
     selected_folder := selected_folder ctx; tag_string := tag_string ctx;
     mid := m; file_path := path; message_fd := fd |}.

(** The files of the maildir that exist. *)
Record world := { fs : gset string; trace : list call }.

Definition remove (path : string) (w : world) : world :=
  {| fs := fs w ∖ {[path]}; trace := trace w |}.

Definition create (path : string) (w : world) : world :=
  {| fs := fs w ∪ {[path]}; trace := trace w |}.

Definition emit (c : call) (w : world) : world :=
  {| fs := fs w; trace := trace w ++ [c] |}.

(** Modelled from the spec: the [imap_context] members [close_fd],
    [unlink_file] and [close_and_unlink] are defined outside this unit.
    [unlink_file] removes the scratch file named by [file_path] and
    forgets the path; [close_and_unlink] closes the descriptor first. *)
Definition close_fd (ctx : append_ctx) : append_ctx :=
  with_scratch ctx (mid ctx) (file_path ctx) false.

Definition unlink_file (ctx : append_ctx) (w : world) : append_ctx * world :=
  if streq (file_path ctx) "" then (ctx, w)
  else (with_scratch ctx (mid ctx) "" (message_fd ctx), remove (file_path ctx) w).

Definition close_and_unlink (ctx : append_ctx) (w : world)
    : append_ctx * world :=
  unlink_file (close_fd ctx) w.

(** The scratch file as the begin phase framed it. *)
Record scratch := {
  str_name : string;
  str_flags : string;
  str_internal : string;
  message : string
}.

(** The answers of the collaborators during one APPEND. *)
Record append_env := {
  fstat_ok : bool;
  read_ok : bool;                     (* allocation and read-back *)
  pbuff : scratch;
  load_from_str_move : string -> bool;   (* the MIME parser *)
  convert_imaptime : string -> option Z; (* imap_cmd_parser_convert_imaptime *)
  now : Z;                            (* time(nullptr) *)
  sequence_ID : Z;
  guid : string;
  host_id : option string;
  open_eml : string -> Z;             (* 0, or the errno of open *)
  to_fd : Z;                          (* 0, or the errno of imail.to_fd *)
  close_wr_ok : bool;
  insert_mail : midb_result * Z;
  summary_folder : nat -> midb_result * Z;  (* by attempt: result, uidvalid *)
  get_uid : nat -> option Z                 (* by attempt *)
}.

Definition flag_buff (b_seen b_answered b_flagged b_draft : bool) : string :=
  "(" +:+ (if b_seen then "S" else "") +:+ (if b_answered then "A" else "")
  +:+ (if b_flagged then "F" else "") +:+ (if b_draft then "U" else "")
  +:+ ")".

Section Handlers.
Variables DISPATCH_MIDB DISPATCH_TAG DISPATCH_CONTINUE : Z.
Variable resource_get_imap_code : Z -> Z -> string.
Variable parse_imap_args : string -> option (list string).
Variable imapfolder_to_sysfolder : string -> string -> option string.

(** The loop that waits for the new UID: [n] turns are left, [i] is the
    current one.  The reply line and the calls made. *)
Fixpoint poll_appenduid (env : append_env) (tag sys_name mid_string : string)
    (i n : nat) : string * list call :=
  match n with
  | O => (tag +:+ " " +:+ resource_get_imap_code 1715 1 +:+ " "
          +:+ resource_get_imap_code 1715 2, [])
  | S n' =>
      let '(r, uidvalid) := summary_folder env i in
      let uidvalid := if is_ok r then uidvalid else 0 in
      let found := if is_ok r then get_uid env i else None in
      let calls := if is_ok r then [SummaryFolder sys_name;
                                    GetUid sys_name mid_string]
                   else [SummaryFolder sys_name] in
      match found with
      | Some u =>
          (tag +:+ " " +:+ resource_get_imap_code 1715 1 +:+ " [APPENDUID "
           +:+ pretty uidvalid +:+ " " +:+ pretty u +:+ "] "
           +:+ resource_get_imap_code 1715 2, calls)
      | None =>
          let '(buf, t) :=
            poll_appenduid env tag sys_name mid_string (S i) n' in
          (buf, (calls ++ Usleep 50000 :: t)%list)
      end
  end.

(** The part both handlers share after a successful insert. *)
Definition append_done (env : append_env) (ctx : append_ctx) (w : world)
    (tag sys_name mid_string : string) : Z * append_ctx * world :=
  let w := emit (BcastTouch (username ctx) (selected_folder ctx)) w in
  let w := match proto_stat ctx with
           | select => emit EchoModify w
           | _ => w
           end in
  let '(buf, calls) := poll_appenduid env tag sys_name mid_string 0 10 in
  let w := {| fs := fs w; trace := trace w ++ calls |} in
  (DISPATCH_CONTINUE, ctx, emit (SafeWrite buf) w).

(** The write of the canonical EML: [0] or the errno; the file exists as
    soon as [open] has succeeded. *)
Definition write_eml (env : append_env) (eml_path : string) (w : world)
    : Z * world :=
  let e := open_eml env eml_path in
  if negb (e =? 0) then (e, w) else (to_fd env, create eml_path w).

Definition imap_cmd_parser_append_end2 (env : append_env) (ctx : append_ctx)
    (w : world) : Z * append_ctx * world :=
  if negb (fstat_ok env) then
    let '(ctx, w) := close_and_unlink ctx w in (Z.lor 1909 DISPATCH_TAG, ctx, w)
  else if negb (read_ok env) then
    let '(ctx, w) := close_and_unlink ctx w in (Z.lor 1909 DISPATCH_TAG, ctx, w)
  else
    let ctx := close_fd ctx in
    if negb (load_from_str_move env (message (pbuff env))) then
      let '(ctx, w) := unlink_file ctx w in (Z.lor 1909 DISPATCH_TAG, ctx, w)
    else
      let sys_name := gx_strlcpy 1024 (str_name (pbuff env)) in
      let flags := str_flags (pbuff env) in
      let fb := flag_buff (search_string flags "\Seen")
                  (search_string flags "\Answered")
                  (search_string flags "\Flagged")
                  (search_string flags "\Draft") in
      let tmp_time :=
        if streq (str_internal (pbuff env)) "" then now env
        else match convert_imaptime env (str_internal (pbuff env)) with
             | Some t => t
             | None => now env
             end in
      let eml_path := maildir ctx +:+ "/eml/" +:+ mid ctx in
      let '(err, w) := write_eml env eml_path w in
      if negb (err =? 0) then
        let '(ctx, w) := unlink_file ctx w in
        (Z.lor 1909 DISPATCH_TAG, ctx, remove eml_path w)
      else if negb (close_wr_ok env) then (Z.lor 1909 DISPATCH_TAG, ctx, w)
      else
        let '(ssr, errnum) := insert_mail env in
        let w := emit (InsertMail sys_name (mid ctx) fb tmp_time) w in
        let cmid := mid ctx in
        let ctx := with_scratch ctx "" (file_path ctx) (message_fd ctx) in
        let '(ctx, w) := unlink_file ctx w in
        let ret := m2icode DISPATCH_MIDB ssr errnum in
        if negb (ret =? 0) then (Z.lor ret DISPATCH_TAG, ctx, w)
        else append_done env ctx w (tag_string ctx) sys_name cmid.
(** The flag list of the one-shot form: [None] is [return 1800]. *)
Fixpoint scan_flags (toks : list string) (acc : bool * bool * bool * bool)
    : option (bool * bool * bool * bool) :=
  match toks with
  | [] => Some acc
  | t :: rest =>
      let '(b_answered, b_flagged, b_seen, b_draft) := acc in
      if strcaseeq t "\Answered" then
        scan_flags rest (true, b_flagged, b_seen, b_draft)
      else if strcaseeq t "\Flagged" then
        scan_flags rest (b_answered, true, b_seen, b_draft)
      else if strcaseeq t "\Seen" then
        scan_flags rest (b_answered, b_flagged, true, b_draft)
      else if strcaseeq t "\Draft" then
        scan_flags rest (b_answered, b_flagged, b_seen, true)
      else None
  end.

Definition arg (argv : list string) (k : nat) : string := nth k argv "".

(** [imap_cmd_parser_append]: the message arrives as the last argument. *)
Definition imap_cmd_parser_append (env : append_env) (ctx : append_ctx)
    (w : world) (argv : list string) : Z * append_ctx * world :=
  let argc := length argv in
  if negb (is_authed ctx) then (1804, ctx, w)
  else if (argc <? 4)%nat || (6 <? argc)%nat
          || (String.length (arg argv 2) =? 0)%nat
          || (1024 <=? String.length (arg argv 2))%nat
  then (1800, ctx, w)
  else
    match imapfolder_to_sysfolder (lang ctx) (arg argv 2) with
    | None => (1800, ctx, w)
    | Some sys_name =>
        let '(flags_string, str_received) :=
          if (argc =? 6)%nat then (Some (arg argv 3), Some (arg argv 4))
          else if (argc =? 5)%nat then
            if Ascii.eqb (deref (arg argv 3)) "(" then (Some (arg argv 3), None)
            else (None, Some (arg argv 3))
          else (None, None) in
        let flags :=
          match flags_string with
          | None => Some (false, false, false, false)
          | Some fl =>
              if negb (Ascii.eqb (deref fl) "(")
                 || negb (Ascii.eqb (last_char fl) ")") then None
              else
                match parse_imap_args
                        (keep (String.length fl - 2) (skip 1 fl)) with
                | None => None
                | Some toks => scan_flags toks (false, false, false, false)
                end
          end in
        match flags with
        | None => (1800, ctx, w)
        | Some (b_answered, b_flagged, b_seen, b_draft) =>
            if negb (load_from_str_move env (arg argv (argc - 1))) then
              (1908, ctx, w)
            else
              let fb := flag_buff b_seen b_answered b_flagged b_draft in
              let given := match str_received with
                           | Some r => convert_imaptime env r
                           | None => None
                           end in
              let tmp_time := match given with
                              | Some t => t
                              | None => now env
                              end in
              let mid_string :=
                match given with
                | Some t => pretty t +:+ ".g" +:+ guid env
                | None => pretty (now env) +:+ ".n" +:+ pretty (sequence_ID env)
                end +:+ "." +:+ znul (host_id env) in
              let eml_path := maildir ctx +:+ "/eml/" +:+ mid_string in
              let '(err, w) := write_eml env eml_path w in
              if negb (err =? 0) then (1909, ctx, remove eml_path w)
              else if negb (close_wr_ok env) then (1909, ctx, w)
              else
                let '(ssr, errnum) := insert_mail env in
                let w := emit (InsertMail sys_name mid_string fb tmp_time) w in
                let ret := m2icode DISPATCH_MIDB ssr errnum in
                if negb (ret =? 0) then (ret, ctx, w)
                else append_done env ctx w (arg argv 0) sys_name mid_string
        end
    end.
End Handlers.

End Append.

(** ** LIST patterns ([imap_cmd_parser_wildcard_match]) *)

Module Wildcard.

(** [strcspn(s, "/")] *)
Fixpoint strcspn_slash (s : string) : nat :=
  match s with
  | EmptyString => O
  | String c s' => if Ascii.eqb c "/" then O else S (strcspn_slash s')
  end.

Definition is_wild (c : ascii) : bool := Ascii.eqb c "*" || Ascii.eqb c "%".

(** The inner loop [while (true) { if (match(&folder[span], mask)) return
    true; if (span-- == 0) break; } return false]. *)
Fixpoint try_spans (rest : string -> bool) (folder : string) (span : nat)
    : bool :=
  rest (skip span folder)
  || match span with
     | O => false
     | S span' => try_spans rest folder span'
     end.

(** [imap_cmd_parser_wildcard_match].  A C string holds no NUL, so at
    the end of [folder] a mask character that is no wildcard differs from
    the terminator, and at the end of [mask] so does any folder
    character. *)
Fixpoint imap_cmd_parser_wildcard_match (folder mask : string) {struct mask}
    : bool :=
  match mask with
  | EmptyString =>
      match folder with EmptyString => true | String _ _ => false end
  | String m mask' =>
      if is_wild m then
        let span := if Ascii.eqb m "*" then String.length folder
                    else strcspn_slash folder in
        try_spans (fun f => imap_cmd_parser_wildcard_match f mask')
          folder span
      else
        match folder with
        | EmptyString => false
        | String f folder' =>
            if Ascii.eqb (HX_toupper f) (HX_toupper m)
            then imap_cmd_parser_wildcard_match folder' mask'
            else false
        end
  end.

End Wildcard.

(** ** The date-time of APPEND ([imap_cmd_parser_convert_imaptime]) *)

Module Imaptime.
Section Convert.
(** [struct tm], [strptime(str_time, "%d-%b-%Y %T ", &tmp_tm)] (the
    fields read and the text left over, [None] for a null pointer) and
    [timegm] belong to the C library. *)
Variable tm : Type.
Variable strptime : string -> option (tm * string).
Variable timegm : tm -> Z.

(** [tmp_buff[0] = a; tmp_buff[1] = b; strtol(tmp_buff, nullptr, 0)] *)
Definition two_digits (a b : ascii) : Z :=
  Fetch.strtol0 (String a (String b "")).

Definition imap_cmd_parser_convert_imaptime (str_time : string) : option Z :=
  match strptime str_time with
  | None => None
  | Some (tmp_tm, str_zone) =>
      match str_zone with
      | String z0 (String z1 (String z2 (String z3 (String z4 _)))) =>
          let factor :=
            if Ascii.eqb z0 "-" then Some 1
            else if Ascii.eqb z0 "+" then Some (-1)
            else None in
          match factor with
          | None => None
          | Some factor =>
              if negb (HX_isdigit z1) || negb (HX_isdigit z2)
                 || negb (HX_isdigit z3) || negb (HX_isdigit z4)
              then None
              else
                let hour := two_digits z1 z2 in
                if (hour <? 0) || (hour >? 23) then None
                else
                  let minute := two_digits z3 z4 in
                  if (minute <? 0) || (minute >? 59) then None
                  else Some (timegm tmp_tm
                             + factor * (60 * 60 * hour + 60 * minute))
          end
      | _ => None          (* strlen(str_zone) < 5 *)
      end
  end.
End Convert.
End Imaptime.

(** ** UID sets ([iseq_contains]) *)

Module Iseq.
Import SeqSet.

(** [std::lower_bound(first, first + len, num, comp)] with
    [comp(rn, vv) = rn.hi < vv]: the halving search of the standard
    library, on positions of the list. *)
Definition half (len : nat) : nat := (len / 2)%nat.   (* len >> 1 *)

Lemma half_lt (len : nat) : (0 < len)%nat -> (half len < len)%nat.
Proof. intros H. unfold half. apply Nat.div_lt; lia. Qed.

#[local] Opaque half.

Equations? lower_bound (l : list range_node) (num : Z) (first len : nat)
    : nat by wf len lt :=
lower_bound l num first O := first;
lower_bound l num first (S n) :=
  match nth_error l (first + half (S n)) with
  | Some rn =>
      if hi rn <? num
      then lower_bound l num (first + half (S n) + 1) (S n - half (S n) - 1)
      else lower_bound l num first (half (S n))
  | None => first
  end.
Proof.
  - lia.
  - apply half_lt. lia.
Qed.

(** [iseq_contains(list, num, max_uid)] *)
Definition iseq_contains (l : list range_node) (num max_uid : Z) : bool :=
  match nth_error l (lower_bound l num 0 (length l)) with
  | None => false                       (* i == list.cend() *)
  | Some r => (lo r <=? num) && (num <=? hi r) && (num <=? max_uid)
  end.

End Iseq.

(** ** The message array ([content_array::refresh]) *)

Module Contents.

(** [content_array]: the messages of the selected folder in sequence
    order, with the two counters SELECT reports. *)
Record content_array := {
  m_vec : list MITEM;
  n_recent : Z;
  firstunseen : Z
}.

Definition set_id (it : MITEM) (i : Z) : MITEM :=
  {| uid := uid it; mid := mid it; flag_bits := flag_bits it; id := i |}.

(** [for (i = 0; i < xa.m_vec.size(); ++i) xa.m_vec[i].id = i + 1] *)
Fixpoint renumber (xa : list MITEM) (i : Z) : list MITEM :=
  match xa with
  | [] => []
  | it :: rest => set_id it (i + 1) :: renumber rest (i + 1)
  end.

(** The loop of the other branch: a mail whose UID is not yet known is
    appended, and the entry at [start] gets the number [start + 1]. *)
Fixpoint append_new (m_vec xa : list MITEM) (start : nat) : list MITEM :=
  match xa with
  | [] => m_vec
  | newmail :: rest =>
      match Copy.get_itemx m_vec (uid newmail) with
      | Some _ => append_new m_vec rest start
      | None =>
          append_new
            (alter (fun it => set_id it (Z.of_nat start + 1)) start
               (m_vec ++ [newmail])%list)
            rest (S start)
      end
  end.

(** [std::find_if]: position of the first element with [p], if any. *)
Fixpoint find_if {A : Type} (p : A -> bool) (l : list A) : option nat :=
  match l with
  | [] => None
  | x :: rest =>
      if p x then Some O
      else match find_if p rest with Some k => Some (S k) | None => None end
  end.

Section Refresh.
Variables FLAG_RECENT FLAG_SEEN DISPATCH_MIDB : Z.

Definition count_recent (v : list MITEM) : Z :=
  Z.of_nat (length (filter (fun m => Fetch.has_flag (flag_bits m) FLAG_RECENT = true) v)).

Definition first_unseen (v : list MITEM) : Z :=
  match find_if (fun m => negb (Fetch.has_flag (flag_bits m) FLAG_SEEN)) v with
  | None => 0
  | Some k => Z.of_nat k + 1
  end.

(** [content_array::refresh]; [fetched] is what
    [system_services_fetch_simple_uid] returns for the set [1:*]. *)
Definition refresh (self : content_array)
    (fetched : midb_result * Z * list MITEM) (fresh_numbers : bool)
    : Z * content_array :=
  let '(ssr, errnum, xa) := fetched in
  let ret := m2icode DISPATCH_MIDB ssr errnum in
  if negb (ret =? 0) then (ret, self)
  else
    let v := if fresh_numbers then renumber xa 0
             else append_new (m_vec self) xa (length (m_vec self)) in
    (0, {| m_vec := v; n_recent := count_recent v;
           firstunseen := first_unseen v |}).
End Refresh.

End Contents.

(** ** STORE and UID STORE *)

Module Store.

(** What STORE does to the outside, in program order. *)
Inductive store_call :=
| UnsetFlags (folder mid : string) (bits : Z)
| SetFlags (folder mid : string) (bits : Z)
| GetFlags (folder mid : string)
| BcastFlags (uid : Z)
| EchoModify
| SafeWrite (text : string).

Record store_ctx := {
  proto_stat : iproto_stat;
  selected_folder : string;
  b_readonly : bool;
  contents : list MITEM
}.

(** The answers of MIDB during one command. *)
Record store_env := {
  (** [system_services_fetch_simple_uid]: result, errno, the XARRAY. *)
  fetch_simple_uid :
    string -> list SeqSet.range_node -> midb_result * Z * list MITEM;
  (** [system_services_get_flags] for a mid: the bits on
      [MIDB_RESULT_OK]. *)
  get_flags : string -> option Z
}.

(** An [unsigned int] printed with [%d]. *)
Definition as_int (z : Z) : Z :=
  let w := z mod 2 ^ 32 in if w <? 2 ^ 31 then w else w - 2 ^ 32.

Section Handlers.
Variables FLAG_RECENT FLAG_ANSWERED FLAG_FLAGGED FLAG_DELETED
          FLAG_SEEN FLAG_DRAFT : Z.
Variable DISPATCH_MIDB : Z.
Variable SEQ_STAR : Z.
Variable parse_imap_seq : string -> option (list SeqSet.range_node).
Variable parse_imap_args : string -> option (list string).

Definition flags_string : Z -> string :=
  Fetch.imap_cmd_parser_convert_flags_string FLAG_RECENT FLAG_ANSWERED
    FLAG_FLAGGED FLAG_DELETED FLAG_SEEN FLAG_DRAFT.

(** The untagged line both branches of each case print. *)
Definition flags_line (id uid flag_bits : Z) : string :=
  gx_snprintf 1024
    ("* " +:+ pretty (as_int id) +:+ " FETCH (FLAGS " +:+ flags_string flag_bits
     +:+ (if uid =? 0 then "" else " UID " +:+ pretty (as_int uid))
     +:+ ")" +:+ Fetch.CRLF).

Definition all_flags : Z :=
  Z.lor (Z.lor (Z.lor (Z.lor (Z.lor FLAG_ANSWERED FLAG_FLAGGED) FLAG_DELETED)
                  FLAG_SEEN) FLAG_DRAFT) FLAG_RECENT.

(** [imap_cmd_parser_store_flags] *)
Definition imap_cmd_parser_store_flags (env : store_env) (ctx : store_ctx)
    (cmd mid : string) (id uid flag_bits : Z) : list store_call :=
  let folder := selected_folder ctx in
  let reread :=
    ([GetFlags folder mid]
     ++ match get_flags env mid with
        | Some bits => [SafeWrite (flags_line id uid bits)]
        | None => []
        end)%list in
  if strcaseeq cmd "FLAGS" || strcaseeq cmd "FLAGS.SILENT" then
    ([UnsetFlags folder mid all_flags; SetFlags folder mid flag_bits]
     ++ (if strcaseeq cmd "FLAGS"
         then [SafeWrite (flags_line id uid flag_bits)] else []))%list
  else if strcaseeq cmd "+FLAGS" || strcaseeq cmd "+FLAGS.SILENT" then
    ([SetFlags folder mid flag_bits]
     ++ (if strcaseeq cmd "+FLAGS" then reread else []))%list
  else if strcaseeq cmd "-FLAGS" || strcaseeq cmd "-FLAGS.SILENT" then
    ([UnsetFlags folder mid flag_bits]
     ++ (if strcaseeq cmd "-FLAGS" then reread else []))%list
  else [].

Definition store_flagkeyword (str : string) : bool :=
  existsb (fun elem => strcaseeq str elem)
    ["FLAGS"; "FLAGS.SILENT"; "+FLAGS"; "+FLAGS.SILENT";
     "-FLAGS"; "-FLAGS.SILENT"].

(** The loop that turns the flag names into bits; [None] is
    [return 1807]. *)
Fixpoint scan_flags (temp_argv : list string) (flag_bits : Z) : option Z :=
  match temp_argv with
  | [] => Some flag_bits
  | t :: rest =>
      if strcaseeq t "\Answered" then
        scan_flags rest (Z.lor flag_bits FLAG_ANSWERED)
      else if strcaseeq t "\Flagged" then
        scan_flags rest (Z.lor flag_bits FLAG_FLAGGED)
      else if strcaseeq t "\Deleted" then
        scan_flags rest (Z.lor flag_bits FLAG_DELETED)
      else if strcaseeq t "\Seen" then
        scan_flags rest (Z.lor flag_bits FLAG_SEEN)
      else if strcaseeq t "\Draft" then
        scan_flags rest (Z.lor flag_bits FLAG_DRAFT)
      else if strcaseeq t "\Recent" then
        scan_flags rest (Z.lor flag_bits FLAG_RECENT)
      else None
  end.

(** The flag argument: a parenthesised list goes through the tokenizer,
    anything else is one name. *)
Definition flag_args (text : string) : option (list string) :=
  if Ascii.eqb (deref text) "(" && Ascii.eqb (last_char text) ")"
  then parse_imap_args (keep (String.length text - 2) (skip 1 text))
  else Some [text].

(** The loop over the fetched items; [with_uid] tells UID STORE, which
    hands the UID to [store_flags], from STORE, which hands 0. *)
Fixpoint store_loop (env : store_env) (ctx : store_ctx) (cmd : string)
    (with_uid : bool) (flag_bits : Z) (xarray : list MITEM)
    : list store_call :=
  match xarray with
  | [] => []
  | pitem :: rest =>
      match Copy.get_itemx (contents ctx) (uid pitem) with
      | None => store_loop env ctx cmd with_uid flag_bits rest
      | Some (_, ct_item) =>
          (imap_cmd_parser_store_flags env ctx cmd (mid pitem) (id ct_item)
             (if with_uid then uid pitem else 0) flag_bits
           ++ [BcastFlags (uid pitem)]
           ++ store_loop env ctx cmd with_uid flag_bits rest)%list
      end
  end.

Definition arg (argv : list string) (k : nat) : string := nth k argv "".

(** What follows the argument checks in both handlers. *)
Definition store_tail (env : store_env) (ctx : store_ctx) (cmd flags : string)
    (with_uid : bool) (set : list SeqSet.range_node) (ok_code : Z)
    : Z * list store_call :=
  match flag_args flags with
  | None => (1800, [])
  | Some temp_argv =>
      if b_readonly ctx then (1806, [])
      else
        match scan_flags temp_argv 0 with
        | None => (1807, [])
        | Some flag_bits =>
            let '(ssr, errnum, xarray) :=
              fetch_simple_uid env (selected_folder ctx) set in
            let result := m2icode DISPATCH_MIDB ssr errnum in
            if negb (result =? 0) then (result, [])
            else
              (ok_code,
               (store_loop env ctx cmd with_uid flag_bits xarray
                ++ [EchoModify])%list)
        end
  end.

Definition imap_cmd_parser_store (env : store_env) (ctx : store_ctx)
    (argv : list string) : Z * list store_call :=
  match proto_stat ctx with
  | select =>
      if (length argv <? 5)%nat then (1800, [])
      else
        match parse_imap_seq (arg argv 2) with
        | None => (1800, [])
        | Some seq_list =>
            match SeqSet.parse_imap_seqx SEQ_STAR (contents ctx) seq_list with
            | None => (1800, [])
            | Some list_uid =>
                if negb (store_flagkeyword (arg argv 3)) then (1800, [])
                else
                  store_tail env ctx (arg argv 3) (arg argv 4) false
                    (map (fun u => SeqSet.Build_range_node u u) list_uid)
                    1721
            end
        end
  | _ => (1805, [])
  end.

Definition imap_cmd_parser_uid_store (env : store_env) (ctx : store_ctx)
    (argv : list string) : Z * list store_call :=
  match proto_stat ctx with
  | select =>
      if (length argv <? 6)%nat then (1800, [])
      else
        match parse_imap_seq (arg argv 3) with
        | None => (1800, [])
        | Some list_seq =>
            if negb (store_flagkeyword (arg argv 4)) then (1800, [])
            else
              store_tail env ctx (arg argv 4) (arg argv 5) true list_seq 1724
        end
  | _ => (1805, [])
  end.
End Handlers.

End Store.

(** ** EXPUNGE, UID EXPUNGE and CLOSE *)

Module Expunge.

(** What the expunging handlers do to the outside, in program order. *)
Inductive exp_call :=
| ListDeleted (folder : string)
| RemoveMail (folder : string) (mids : list string)
| RemoveFile (path : string)
| BcastExpunge (uids : list Z)
| BcastTouch (user folder : string)
| RemoveSelect
| EchoModify
| StreamClear
| StreamWrite (text : string)
| SafeWrite (text : string).

Record exp_ctx := {
  proto_stat : iproto_stat;
  maildir : string;
  username : string;
  selected_folder : string;
  b_readonly : bool;
  contents : list MITEM
}.

(** The answers of the collaborators during one command. *)
Record exp_env := {
  (** [system_services_list_deleted]: result, errno, the XARRAY. *)
  list_deleted : string -> midb_result * Z * list MITEM;
  (** [system_services_remove_mail]: result and errno. *)
  remove_mail : string -> list string -> midb_result * Z;
  stream_write_ok : string -> bool
}.

Definition leave_folder (ctx : exp_ctx) : exp_ctx :=
  {| proto_stat := auth; maildir := maildir ctx; username := username ctx;
     selected_folder := ""; b_readonly := b_readonly ctx;
     contents := contents ctx |}.

Section Handlers.
Variable FLAG_DELETED : Z.
Variables DISPATCH_MIDB DISPATCH_BREAK : Z.
Variable resource_get_imap_code : Z -> Z -> string.
Variable resource_get_error_string : Z -> string.
Variable parse_imap_seq : string -> option (list SeqSet.range_node).

Definition zero_uid_bit (i : MITEM) : bool :=
  (uid i =? 0) || negb (Fetch.has_flag (flag_bits i) FLAG_DELETED).

Definition known (ctx : exp_ctx) (pitem : MITEM) : bool :=
  match Copy.get_itemx (contents ctx) (uid pitem) with
  | Some _ => true
  | None => false
  end.

Definition eml_path (ctx : exp_ctx) (pitem : MITEM) : string :=
  maildir ctx +:+ "/eml/" +:+ mid pitem.

Definition arg (argv : list string) (k : nat) : string := nth k argv "".

(** The end both EXPUNGE handlers share: the files go, the peers are
    told, the tagged line is queued. *)
Definition expunge_finish (env : exp_env) (ctx : exp_ctx)
    (argv : list string) (exp_list files : list MITEM) (pre : list exp_call)
    : Z * list exp_call :=
  let tr :=
    (pre ++ [StreamClear] ++ map (fun p => RemoveFile (eml_path ctx p)) files
     ++ (match exp_list with
         | [] => []
         | _ => [BcastExpunge (map uid exp_list)]
         end)
     ++ [EchoModify])%list in
  let buf := arg argv 0 +:+ " " +:+ resource_get_imap_code 1726 1 in
  if negb (stream_write_ok env buf) then (1922, tr)
  else (DISPATCH_BREAK, (tr ++ [StreamWrite buf])%list).

Definition imap_cmd_parser_expunge (env : exp_env) (ctx : exp_ctx)
    (argv : list string) : Z * list exp_call :=
  match proto_stat ctx with
  | select =>
      if b_readonly ctx then (1806, [])
      else
        let folder := selected_folder ctx in
        let '(ssr, errnum, xarray) := list_deleted env folder in
        let ret := m2icode DISPATCH_MIDB ssr errnum in
        if negb (ret =? 0) then (ret, [ListDeleted folder])
        else
          match xarray with
          | [] => (1726, [ListDeleted folder; EchoModify])
          | _ =>
              let exp_list :=
                List.filter (fun p => negb (zero_uid_bit p) && known ctx p)
                  xarray in
              let '(ssr, errnum) := remove_mail env folder (map mid exp_list) in
              let pre := [ListDeleted folder;
                          RemoveMail folder (map mid exp_list)] in
              let ret := m2icode DISPATCH_MIDB ssr errnum in
              if negb (ret =? 0) then (ret, pre)
              else expunge_finish env ctx argv exp_list exp_list pre
          end
  | _ => (1805, [])
  end.

Definition imap_cmd_parser_uid_expunge (env : exp_env) (ctx : exp_ctx)
    (argv : list string) : Z * list exp_call :=
  match proto_stat ctx with
  | select =>
      if b_readonly ctx then (1806, [])
      else if (length argv <? 4)%nat then (1800, [])
      else
        match parse_imap_seq (arg argv 3) with
        | None => (1800, [])
        | Some list_seq =>
            let folder := selected_folder ctx in
            let '(ssr, errnum, xarray) := list_deleted env folder in
            let ret := m2icode DISPATCH_MIDB ssr errnum in
            if negb (ret =? 0) then (ret, [ListDeleted folder])
            else
              match last xarray with
              | None => (1730, [ListDeleted folder; EchoModify])
              | Some pitem =>
                  let max_uid := uid pitem in
                  let wanted p :=
                    negb (zero_uid_bit p)
                    && Iseq.iseq_contains list_seq (uid p) max_uid in
                  let exp_list := List.filter wanted xarray in
                  let '(ssr, errnum) :=
                    remove_mail env folder (map mid exp_list) in
                  let pre := [ListDeleted folder;
                              RemoveMail folder (map mid exp_list)] in
                  let ret := m2icode DISPATCH_MIDB ssr errnum in
                  if negb (ret =? 0) then (ret, pre)
                  else
                    expunge_finish env ctx argv exp_list
                      (List.filter (known ctx) exp_list) pre
              end
        end
  | _ => (1805, [])
  end.

(** The line [imap_cmd_parser_clsfld] writes for an MIDB failure. *)
Definition clsfld_error (r : midb_result) (errnum : Z) : string :=
  match r with
  | MIDB_NO_SERVER => "* " +:+ resource_get_imap_code 1905 1
  | MIDB_RDWR_ERROR => "* " +:+ resource_get_imap_code 1906 1
  | MIDB_LOCAL_ENOMEM => "* " +:+ resource_get_imap_code 1920 1
  | _ => "* " +:+ resource_get_imap_code 1907 1
         +:+ resource_get_error_string errnum
  end.

Definition imap_cmd_parser_clsfld (env : exp_env) (ctx : exp_ctx)
    : exp_ctx * list exp_call :=
  if streq (selected_folder ctx) "" then (ctx, [])
  else
    let prev_selected := selected_folder ctx in
    let ctx' := leave_folder ctx in
    if b_readonly ctx then (ctx', [RemoveSelect])
    else
      let '(result, errnum, xarray) := list_deleted env prev_selected in
      let tr := [RemoveSelect; ListDeleted prev_selected] in
      if negb (is_ok result) then
        (ctx', (tr ++ [SafeWrite (clsfld_error result errnum)])%list)
      else
        let exp_list := List.filter (fun p => negb (zero_uid_bit p)) xarray in
        let '(result, errnum) :=
          remove_mail env prev_selected (map mid exp_list) in
        let tr := (tr ++ [RemoveMail prev_selected (map mid exp_list)])%list in
        if negb (is_ok result) then
          (ctx', (tr ++ [SafeWrite (clsfld_error result errnum)])%list)
        else
          (ctx',
           (tr ++ map (fun p => RemoveFile (eml_path ctx p)) exp_list
            ++ match exp_list with
               | [] => []
               | _ => [BcastTouch (username ctx) prev_selected]
               end)%list).

Definition imap_cmd_parser_close (env : exp_env) (ctx : exp_ctx)
    : Z * exp_ctx * list exp_call :=
  match proto_stat ctx with
  | select =>
      let '(ctx', tr) := imap_cmd_parser_clsfld env ctx in (1717, ctx', tr)
  | _ => (1805, ctx, [])
  end.

Definition imap_cmd_parser_unselect (ctx : exp_ctx)
    : Z * exp_ctx * list exp_call :=
  match proto_stat ctx with
  | select => (1718, leave_folder ctx, [RemoveSelect])
  | _ => (1805, ctx, [])
  end.
End Handlers.

End Expunge.

(** ** LOGIN and AUTHENTICATE LOGIN *)

Module Login.

(** [sql_meta_result], as far as the handlers read it. *)
Record sql_meta_result := {
  m_username : string;
  m_maildir : string;
  m_lang : string
}.

(** The session fields the login handlers touch. *)
Record login_ctx := {
  proto_stat : iproto_stat;
  ssl : bool;                  (* connection.ssl != nullptr *)
  username : string;
  maildir : string;
  lang : string;
  defcharset : string;
  tag_string : string;
  auth_times : Z
}.

Inductive login_call :=
| BanUser (user : string) (seconds : Z)
| SafeWrite (text : string).

(** Configuration and the answers of the services. *)
Record login_env := {
  g_support_tls : bool;
  g_force_tls : bool;
  g_max_auth_times : Z;
  g_block_auth_fail : Z;
  default_lang : option string;
  system_services_judge_user : string -> bool;
  (** [system_services_auth_login(user, password, USER_PRIVILEGE_IMAP, mres)] *)
  system_services_auth_login : string -> string -> option sql_meta_result;
  (** [system_services_auth_meta(target, WANTPRIV_METAONLY, mres) == 0] *)
  system_services_auth_meta : string -> option sql_meta_result;
  (** [exmdb_client::get_mbox_perm(mboxdir, actor, &perms) &&
      perms & frightsGromoxStoreOwner] *)
  owner_permission : string -> string -> bool;
  resource_get_default_charset : string -> string;
  capability_list : iproto_stat -> bool -> string;   (* by state and TLS *)
  decode64_ex : string -> nat -> option string;
  HX_strltrim : string -> string
}.

(** [pcontext->is_authed()] is defined with the context, outside this
    translation unit.  Modelled from the spec: the session is in the
    authenticated or in the selected state. *)
Definition is_authed (ctx : login_ctx) : bool :=
  match proto_stat ctx with auth | select => true | _ => false end.

Definition store_owner_over (env : login_env) (actor mbox mboxdir : string)
    : bool :=
  streq actor mbox || owner_permission env mboxdir actor.

Section Handlers.
(** The sizes of the buffers in [imap_context]. *)
Variables USERNAME_SIZE MAILDIR_SIZE LANG_SIZE CHARSET_SIZE TAG_SIZE : nat.
Variables DISPATCH_CONTINUE DISPATCH_TAG DISPATCH_SHOULD_CLOSE : Z.

Definition with_stat (ctx : login_ctx) (s : iproto_stat) : login_ctx :=
  {| proto_stat := s; ssl := ssl ctx; username := username ctx;
     maildir := maildir ctx; lang := lang ctx; defcharset := defcharset ctx;
     tag_string := tag_string ctx; auth_times := auth_times ctx |}.

Definition with_user (ctx : login_ctx) (u : string) : login_ctx :=
  {| proto_stat := proto_stat ctx; ssl := ssl ctx; username := u;
     maildir := maildir ctx; lang := lang ctx; defcharset := defcharset ctx;
     tag_string := tag_string ctx; auth_times := auth_times ctx |}.

Definition with_tag (ctx : login_ctx) (t : string) : login_ctx :=
  {| proto_stat := proto_stat ctx; ssl := ssl ctx; username := username ctx;
     maildir := maildir ctx; lang := lang ctx; defcharset := defcharset ctx;
     tag_string := gx_strlcpy TAG_SIZE t; auth_times := auth_times ctx |}.

(** [pcontext->auth_times++] on an [int]. *)
Definition count_failure (ctx : login_ctx) : login_ctx :=
  {| proto_stat := proto_stat ctx; ssl := ssl ctx; username := username ctx;
     maildir := maildir ctx; lang := lang ctx; defcharset := defcharset ctx;
     tag_string := tag_string ctx; auth_times := auth_times ctx + 1 |}.

(** The three [gx_strlcpy] from [mres]. *)
Definition take_meta (ctx : login_ctx) (mres : sql_meta_result) : login_ctx :=
  {| proto_stat := proto_stat ctx; ssl := ssl ctx;
     username := gx_strlcpy USERNAME_SIZE (m_username mres);
     maildir := gx_strlcpy MAILDIR_SIZE (m_maildir mres);
     lang := gx_strlcpy LANG_SIZE (m_lang mres);
     defcharset := defcharset ctx;
     tag_string := tag_string ctx; auth_times := auth_times ctx |}.

(** The language default, the charset and the state change that end a
    successful login. *)
Definition enter (env : login_env) (ctx : login_ctx) : login_ctx :=
  let l := if streq (lang ctx) ""
           then gx_strlcpy LANG_SIZE (znul (default_lang env))
           else lang ctx in
  {| proto_stat := auth; ssl := ssl ctx; username := username ctx;
     maildir := maildir ctx; lang := l;
     defcharset := gx_strlcpy CHARSET_SIZE (resource_get_default_charset env l);
     tag_string := tag_string ctx; auth_times := auth_times ctx |}.

(** The user name argument split at the first [!]. *)
Definition split_target (name : string) : string * option string :=
  match strchr name "!" with
  | Some k => (keep k name, Some (skip (S k) name))
  | None => (name, None)
  end.

Definition arg (argv : list string) (k : nat) : string := nth k argv "".

Definition imap_cmd_parser_login (env : login_env) (ctx : login_ctx)
    (argv : list string) : Z * login_ctx * list login_call :=
  if g_support_tls env && g_force_tls env && negb (ssl ctx) then
    (1802, ctx, [])
  else if negb (length argv =? 4)%nat
          || (USERNAME_SIZE <=? String.length (arg argv 2))%nat
          || (255 <? String.length (arg argv 3))%nat then (1800, ctx, [])
  else if is_authed ctx then (1803, ctx, [])
  else
    let '(name, target_mbox) := split_target (arg argv 2) in
    let ctx := with_user ctx (HX_strltrim env (gx_strlcpy USERNAME_SIZE name)) in
    if negb (system_services_judge_user env (username ctx)) then
      (Z.lor 1901 DISPATCH_SHOULD_CLOSE, ctx, [])
    else
      let temp_password := HX_strltrim env (arg argv 3) in
      match system_services_auth_login env (username ctx) temp_password with
      | None =>
          let ctx := count_failure ctx in
          if auth_times ctx <? g_max_auth_times env then
            (Z.lor (Z.lor 1904 DISPATCH_CONTINUE) DISPATCH_TAG,
             with_tag ctx (arg argv 0), [])
          else
            (Z.lor 1903 DISPATCH_SHOULD_CLOSE, ctx,
             [BanUser (username ctx) (g_block_auth_fail env)])
      | Some mres_auth =>
          let finish (mres : sql_meta_result) :=
            let ctx := take_meta ctx mres in
            if streq (maildir ctx) "" then (1902, ctx, [])
            else (1705, enter env ctx, []) in
          match target_mbox with
          | None => finish mres_auth
          | Some target =>
              match system_services_auth_meta env target with
              | None =>
                  (Z.lor (Z.lor 1902 DISPATCH_CONTINUE) DISPATCH_TAG, ctx, [])
              | Some mres =>
                  if negb (store_owner_over env (m_username mres_auth)
                             (m_username mres) (m_maildir mres)) then
                    let ctx := count_failure ctx in
                    if auth_times ctx <? g_max_auth_times env then
                      (Z.lor (Z.lor 1904 DISPATCH_CONTINUE) DISPATCH_TAG,
                       ctx, [])
                    else
                      (Z.lor 1903 DISPATCH_SHOULD_CLOSE, ctx,
                       [BanUser (username ctx) (g_block_auth_fail env)])
                  else finish mres
              end
          end
      end.

Definition imap_cmd_parser_authenticate (env : login_env) (ctx : login_ctx)
    (argv : list string) : Z * login_ctx * list login_call :=
  if g_support_tls env && g_force_tls env && negb (ssl ctx) then
    (1802, ctx, [])
  else if negb (length argv =? 3)%nat || negb (strcaseeq (arg argv 2) "LOGIN")
  then (1800, ctx, [])
  else if is_authed ctx then (1803, ctx, [])
  else
    (DISPATCH_CONTINUE,
     with_stat (with_tag ctx (arg argv 0)) Midb.username,
     [SafeWrite ("+ VXNlciBOYW1lAA==" +:+ Fetch.CRLF)]).

Definition imap_cmd_parser_username2 (env : login_env) (ctx : login_ctx)
    (argv : list string) : Z * login_ctx * list login_call :=
  match decode64_ex env (arg argv 0) USERNAME_SIZE with
  | None => (Z.lor 1819 DISPATCH_TAG, with_stat ctx noauth, [])
      (* what the failed decoder left in [username] is not looked at *)
  | Some u =>
      (DISPATCH_CONTINUE, with_stat (with_user ctx u) password,
       [SafeWrite ("+ UGFzc3dvcmQA" +:+ Fetch.CRLF)])
  end.

Definition imap_cmd_parser_password2 (env : login_env) (ctx : login_ctx)
    (argv : list string) : Z * login_ctx * list login_call :=
  let ctx := with_stat ctx noauth in
  match decode64_ex env (arg argv 0) 256 with
  | None => (Z.lor 1820 DISPATCH_TAG, ctx, [])
  | Some temp_password =>
      let '(name, target_mbox) := split_target (username ctx) in
      let ctx := with_user ctx (HX_strltrim env name) in
      if negb (system_services_judge_user env (username ctx)) then
        (Z.lor (Z.lor 1901 DISPATCH_TAG) DISPATCH_SHOULD_CLOSE, ctx, [])
      else
        let failed (ctx : login_ctx) :=
          let ctx := count_failure ctx in
          if auth_times ctx <? g_max_auth_times env then
            (Z.lor (Z.lor 1904 DISPATCH_CONTINUE) DISPATCH_TAG, ctx, [])
          else
            (Z.lor (Z.lor 1903 DISPATCH_TAG) DISPATCH_SHOULD_CLOSE, ctx,
             [BanUser (username ctx) (g_block_auth_fail env)]) in
        match system_services_auth_login env (username ctx) temp_password with
        | None => failed ctx
        | Some mres_auth =>
            let finish (mres : sql_meta_result) :=
              let ctx := take_meta ctx mres in
              if streq (maildir ctx) "" then (Z.lor 1902 DISPATCH_TAG, ctx, [])
              else
                let ctx := enter env ctx in
                (DISPATCH_CONTINUE, ctx,
                 [SafeWrite (Dispatch.tag_or_bug (tag_string ctx)
                             +:+ " OK [CAPABILITY "
                             +:+ capability_list env (proto_stat ctx) (ssl ctx)
                             +:+ "] Logged in" +:+ Fetch.CRLF)]) in
            match target_mbox with
            | None => finish mres_auth
            | Some target =>
                match system_services_auth_meta env target with
                | None =>
                    (Z.lor (Z.lor 1902 DISPATCH_CONTINUE) DISPATCH_TAG, ctx, [])
                | Some mres =>
                    if negb (store_owner_over env (m_username mres_auth)
                               (m_username mres) (m_maildir mres))
                    then failed ctx
                    else finish mres
                end
            end
        end
  end.
End Handlers.

End Login.

(** ** APPEND: the scratch file ([imap_cmd_parser_append_begin2]) *)

Module AppendBegin.
Import Append.

(** The terminator of a C string, as a byte of the scratch file. *)
Definition NUL : string := String zero "".

(** [cpu_to_le32p]: the four bytes of a 32-bit value, lowest first. *)
Definition le32 (n : Z) : string :=
  let byte d := ascii_of_nat (Z.to_nat ((n / d) mod 256)) in
  String (byte 1) (String (byte 256) (String (byte 65536)
    (String (byte 16777216) ""))).

(** [memcpy(&mfd_len, pbuff, 4)] on a little-endian host. *)
Definition read_le32 (s : string) : Z :=
  match s with
  | String b0 (String b1 (String b2 (String b3 _))) =>
      Z.of_nat (nat_of_ascii b0) + 256 * Z.of_nat (nat_of_ascii b1)
      + 65536 * Z.of_nat (nat_of_ascii b2)
      + 16777216 * Z.of_nat (nat_of_ascii b3)
  | _ => 0
  end.

(** The head [imap_cmd_parser_append_begin2] writes to the scratch file:
    its own length, then the folder, the flag list and the date-time, each
    with its terminator. *)
Definition frame (sys_name : string) (str_flags str_received : option string)
    : string :=
  let body := sys_name +:+ NUL +:+ znul str_flags +:+ NUL
              +:+ znul str_received +:+ NUL in
  le32 ((4 + Z.of_nat (String.length body)) mod 2 ^ 32) +:+ body.

(** A C string read at a position: the bytes up to the terminator. *)
Definition cstr (s : string) : string :=
  match strchr s zero with
  | Some k => keep k s
  | None => s
  end.

(** What [imap_cmd_parser_append_end2] reads back from the bytes of the
    scratch file: [mfd_len], the three strings behind the length, and the
    message that starts at [mfd_len]. *)
Definition read_scratch (pbuff : string) : scratch :=
  let mfd_len := read_le32 pbuff in
  let at_name := skip 4 pbuff in
  let name := cstr at_name in
  let at_flags := skip (String.length name + 1) at_name in
  let flags := cstr at_flags in
  let at_internal := skip (String.length flags + 1) at_flags in
  {| str_name := name; str_flags := flags; str_internal := cstr at_internal;
     message := skip (Z.to_nat mfd_len) pbuff |}.

Definition is_flag_name (flag : string) : bool :=
  existsb (fun s => strcaseeq flag s)
    ["\Answered"; "\Flagged"; "\Seen"; "\Draft"].

(** The answers of the system during [append_begin2]. *)
Record begin_env := {
  now : Z;                       (* time(nullptr) *)
  sequence_ID : Z;               (* imap_parser_get_sequence_ID() *)
  host_id : option string;
  open_ok : string -> bool;      (* open(file_path, O_CREAT|O_RDWR|O_TRUNC) *)
  fullwrite_ok : bool            (* HXio_fullwrite wrote all of it *)
}.

Section Handlers.
Variables DISPATCH_CONTINUE DISPATCH_BREAK : Z.
Variable parse_imap_args : string -> option (list string).
Variable imapfolder_to_sysfolder : string -> string -> option string.

Definition arg (argv : list string) (k : nat) : string := nth k argv "".

Definition with_tag (ctx : append_ctx) (t : string) : append_ctx :=
  {| is_authed := is_authed ctx; proto_stat := proto_stat ctx;
     lang := lang ctx; maildir := maildir ctx; username := username ctx;
     selected_folder := selected_folder ctx; tag_string := t;
     mid := mid ctx; file_path := file_path ctx;
     message_fd := message_fd ctx |}.

(** [imap_cmd_parser_append_begin2]: return value, session, files, and
    the bytes written to the scratch file if it came to that. *)
Definition imap_cmd_parser_append_begin2 (TAG_SIZE : nat) (env : begin_env)
    (ctx : append_ctx) (w : world) (argv : list string)
    : Z * append_ctx * world * option string :=
  let argc := length argv in
  if negb (is_authed ctx) then (Z.lor 1804 DISPATCH_BREAK, ctx, w, None)
  else if (argc <? 3)%nat || (5 <? argc)%nat
          || (String.length (arg argv 2) =? 0)%nat
          || (1024 <=? String.length (arg argv 2))%nat
  then (Z.lor 1800 DISPATCH_BREAK, ctx, w, None)
  else
    match imapfolder_to_sysfolder (lang ctx) (arg argv 2) with
    | None => (Z.lor 1800 DISPATCH_BREAK, ctx, w, None)
    | Some sys_name =>
        let '(flags_string, str_received) :=
          if (argc =? 5)%nat then (Some (arg argv 3), Some (arg argv 4))
          else if (argc =? 4)%nat then
            if Ascii.eqb (deref (arg argv 3)) "("
            then (Some (arg argv 3), None)
            else (None, Some (arg argv 3))
          else (None, None) in
        let flags_ok :=
          match flags_string with
          | None => true
          | Some fl =>
              if negb (Ascii.eqb (deref fl) "(")
                 || negb (Ascii.eqb (last_char fl) ")") then false
              else
                match parse_imap_args
                        (keep (String.length fl - 2) (skip 1 fl)) with
                | None => false
                | Some temp_argv => forallb is_flag_name temp_argv
                end
          end in
        if negb flags_ok then (Z.lor 1800 DISPATCH_BREAK, ctx, w, None)
        else
          let m := pretty (now env) +:+ "." +:+ pretty (sequence_ID env)
                   +:+ "." +:+ znul (host_id env) in
          let path := maildir ctx +:+ "/tmp/" +:+ m in
          let ctx := with_scratch ctx m path (message_fd ctx) in
          if negb (open_ok env path) then
            (Z.lor 1909 DISPATCH_BREAK, ctx, w, None)
          else
            let w := create path w in
            let buf := frame sys_name
                         (option_map (gx_strlcpy 128) flags_string)
                         str_received in
            if negb (fullwrite_ok env) then (DISPATCH_BREAK, ctx, w, None)
            else
              (DISPATCH_CONTINUE,
               with_tag (with_scratch ctx m path true)
                        (gx_strlcpy TAG_SIZE (arg argv 0)),
               w, Some buf)
    end.
End Handlers.

End AppendBegin.

(** ** The folder tree ([dir_tree]) *)

Module DirTree.

(** [DIR_NODE] with the [SIMPLE_TREE] links: a node holds its name, the
    [b_loaded] mark and its children in sibling order. *)
Inductive DIR_NODE :=
| Node (name : string) (b_loaded : bool) (children : list DIR_NODE).

Definition name (n : DIR_NODE) : string :=
  match n with Node s _ _ => s end.
Definition b_loaded (n : DIR_NODE) : bool :=
  match n with Node _ b _ => b end.
Definition children (n : DIR_NODE) : list DIR_NODE :=
  match n with Node _ _ l => l end.

(** The texts that the loop [while ((ptr2 = strchr(ptr1, '/')) != NULL)]
    sees between the slashes of [temp_path]; what follows the last slash
    is not visited. *)
Fixpoint components (s cur : string) : list string :=
  match s with
  | EmptyString => []
  | String c s' =>
      if Ascii.eqb c "/" then cur :: components s' ""
      else components s' (cur +:+ String c "")
  end.

(** [temp_path] after a slash has been put at the end if there was none. *)
Definition terminated (t : string) : string :=
  if (String.length t =? 0)%nat || negb (Ascii.eqb (last_char t) "/")
  then t +:+ "/" else t.

Section Tree.
(** [sizeof(DIR_NODE::name)]; the structure is declared with the
    context. *)
Variable NAME_SIZE : nat.

(** The sibling scan of [load_from_memfile] followed by the descent: the
    first child called [c] is continued with [f]; without such a child a
    new one is linked in last. *)
Fixpoint update_child (f : DIR_NODE -> DIR_NODE) (c : string)
    (chs : list DIR_NODE) : list DIR_NODE :=
  match chs with
  | [] => [f (Node (gx_strlcpy NAME_SIZE c) false [])]
  | ch :: more =>
      if streq (name ch) c then f ch :: more
      else ch :: update_child f c more
  end.

(** One turn of the outer loop of [load_from_memfile], below [n]. *)
Fixpoint insert_path (comps : list string) (n : DIR_NODE) : DIR_NODE :=
  match comps with
  | [] => Node (name n) true (children n)
  | c :: rest =>
      Node (name n) (b_loaded n)
        (update_child (insert_path rest) c (children n))
  end.

(** [dir_tree::load_from_memfile]; [None] is a tree without root. *)
Definition load_from_memfile (stree : option DIR_NODE) (pfile : list string)
    : DIR_NODE :=
  let proot := match stree with
               | Some r => r
               | None => Node "" true []
               end in
  fold_left
    (fun root pfile_path =>
       insert_path
         (components (terminated (gx_strlcpy 4097 pfile_path)) "") root)
    pfile proot.

(** The sibling scan of [dir_tree::match]. *)
Definition find_child (level0 : bool) (c : string) (chs : list DIR_NODE)
    : option DIR_NODE :=
  List.find
    (fun pdir =>
       streq (name pdir) c
       || (level0 && streq (name pdir) "INBOX" && strcaseeq c "inbox"))
    chs.

Fixpoint walk (comps : list string) (level0 : bool) (n : DIR_NODE)
    : option DIR_NODE :=
  match comps with
  | [] => Some n
  | c :: rest =>
      match find_child level0 c (children n) with
      | Some ch => walk rest false ch
      | None => None
      end
  end.

(** [dir_tree::match] *)
Definition dir_match (stree : option DIR_NODE) (path : string)
    : option DIR_NODE :=
  match stree with
  | None => None
  | Some root =>
      if streq path "" then Some root
      else if (4096 <=? String.length path)%nat then None
      else
        walk (components (if Ascii.eqb (last_char path) "/" then path
                          else path +:+ "/") "") true root
  end.

(** [dir_tree::get_child] *)
Definition get_child (pdir : DIR_NODE) : option DIR_NODE :=
  match children pdir with
  | [] => None
  | ch :: _ => Some ch
  end.
End Tree.

End DirTree.

(** ** CREATE, DELETE and RENAME *)

Module Folders.

(** What the folder commands do to the outside, in program order. *)
Inductive folder_call :=
| EnumFolders
| MakeFolder (sys_name : string)
| RemoveFolder (sys_name : string)
| RenameFolder (src dst : string)
| EchoModify.

Record folder_ctx := {
  is_authed : bool;
  proto_stat : iproto_stat;
  lang : string
}.

(** The answers of MIDB during one command. *)
Record folder_env := {
  enum_folders : midb_result * Z * list string;
  make_folder : string -> midb_result * Z;
  remove_folder : string -> midb_result * Z;
  rename_folder : string -> string -> midb_result * Z
}.

(** [strpbrk(s, "%*?") != nullptr] *)
Fixpoint has_wildcard (s : string) : bool :=
  match s with
  | EmptyString => false
  | String c s' =>
      Ascii.eqb c "%" || Ascii.eqb c "*" || Ascii.eqb c "?" || has_wildcard s'
  end.

(** [s[i]], with the terminator at the end. *)
Definition char_at (s : string) (i : nat) : ascii := deref (skip i s).

Section Handlers.
Variable DISPATCH_MIDB : Z.
Variable NAME_SIZE : nat.
Variable mutf7_to_utf8 : string -> Z * string.
Variable utf8_to_mutf7 : string -> Z * string.
Variable foldername_get : string -> NameCodec.special_fid -> option string.

Local Abbreviation imapfolder_to_sysfolder :=
  (NameCodec.imap_cmd_parser_imapfolder_to_sysfolder mutf7_to_utf8
     foldername_get).
Local Abbreviation sysfolder_to_imapfolder :=
  (NameCodec.imap_cmd_parser_sysfolder_to_imapfolder utf8_to_mutf7
     foldername_get).

Definition arg (argv : list string) (k : nat) : string := nth k argv "".

Definition echo (ctx : folder_ctx) : list folder_call :=
  match proto_stat ctx with select => [EchoModify] | _ => [] end.

(** [writefolderlines] *)
Definition writefolderlines (file : list string) : list string :=
  (file ++ "inbox" :: NameCodec.g_folder_list)%list.

(** [imap_cmd_parser_convert_folderlist]: a name that does not convert
    is left as it is. *)
Definition imap_cmd_parser_convert_folderlist (lang : string)
    (pfile : list string) : list string :=
  map (fun e => match sysfolder_to_imapfolder lang e with
                | Some converted_name => converted_name
                | None => e
                end) pfile.

(** The loop [for (size_t i = 0; i <= len; ++i)] of CREATE from index
    [i] on, with [n] turns left: the code of an early [return], and the
    calls made. *)
Fixpoint create_loop (env : folder_env) (ctx : folder_ctx)
    (folder_list : list string) (sys_name : string) (i n : nat)
    : option Z * list folder_call :=
  match n with
  | O => (None, [])
  | S n' =>
      let c := char_at sys_name i in
      if negb (Ascii.eqb c "/") && negb (Ascii.eqb c zero) then
        create_loop env ctx folder_list sys_name (S i) n'
      else
        let prefix := keep i sys_name in
        if existsb (fun e => streq e prefix) folder_list then
          create_loop env ctx folder_list sys_name (S i) n'
        else
          match imapfolder_to_sysfolder (lang ctx) prefix with
          | None => (Some 1800, [])
          | Some converted_name =>
              let '(ssr, errnum) := make_folder env converted_name in
              let ret := m2icode DISPATCH_MIDB ssr errnum in
              if negb (ret =? 0) then (Some ret, [MakeFolder converted_name])
              else
                let '(code, tr) :=
                  create_loop env ctx folder_list sys_name (S i) n' in
                (code, MakeFolder converted_name :: tr)
          end
  end.

Definition imap_cmd_parser_create (env : folder_env) (ctx : folder_ctx)
    (argv : list string) : Z * list folder_call :=
  if negb (is_authed ctx) then (1804, [])
  else if (length argv <? 3)%nat || (String.length (arg argv 2) =? 0)%nat
          || (1024 <=? String.length (arg argv 2))%nat then (1800, [])
  else
    match imapfolder_to_sysfolder (lang ctx) (arg argv 2) with
    | None => (1800, [])
    | Some sys_name =>
        if has_wildcard (arg argv 2) then (1910, [])
        else if NameCodec.special_folder sys_name then (1911, [])
        else
          let '(ssr, errnum, folder_list) := enum_folders env in
          let ret := m2icode DISPATCH_MIDB ssr errnum in
          if negb (ret =? 0) then (ret, [EnumFolders])
          else
            let folder_list :=
              imap_cmd_parser_convert_folderlist (lang ctx)
                (writefolderlines folder_list) in
            let sys_name := NameCodec.strip_slash (arg argv 2) in
            let len := String.length sys_name in
            let '(code, tr) :=
              create_loop env ctx folder_list sys_name 0 (S len) in
            match code with
            | Some c => (c, EnumFolders :: tr)
            | None => (1706, (EnumFolders :: tr ++ echo ctx)%list)
            end
    end.

Definition imap_cmd_parser_delete (env : folder_env) (ctx : folder_ctx)
    (argv : list string) : Z * list folder_call :=
  if negb (is_authed ctx) then (1804, [])
  else if (length argv <? 3)%nat || (String.length (arg argv 2) =? 0)%nat
          || (1024 <=? String.length (arg argv 2))%nat then (1800, [])
  else
    match imapfolder_to_sysfolder (lang ctx) (arg argv 2) with
    | None => (1800, [])
    | Some encoded_name =>
        if NameCodec.special_folder encoded_name then (1913, [])
        else
          let '(ssr, errnum, folder_list) := enum_folders env in
          let ret := m2icode DISPATCH_MIDB ssr errnum in
          if negb (ret =? 0) then (ret, [EnumFolders])
          else
            let folder_tree :=
              DirTree.load_from_memfile NAME_SIZE None
                (imap_cmd_parser_convert_folderlist (lang ctx) folder_list) in
            match DirTree.dir_match (Some folder_tree) (arg argv 2) with
            | None => (1925, [EnumFolders])
            | Some dh =>
                match DirTree.get_child dh with
                | Some _ => (1924, [EnumFolders])
                | None =>
                    let '(ssr, errnum) := remove_folder env encoded_name in
                    let tr := [EnumFolders; RemoveFolder encoded_name] in
                    let ret := m2icode DISPATCH_MIDB ssr errnum in
                    if negb (ret =? 0) then (ret, tr)
                    else (1707, (tr ++ echo ctx)%list)
                end
            end
    end.

Definition imap_cmd_parser_rename (env : folder_env) (ctx : folder_ctx)
    (argv : list string) : Z * list folder_call :=
  if negb (is_authed ctx) then (1804, [])
  else if (length argv <? 4)%nat || (String.length (arg argv 2) =? 0)%nat
          || (1024 <=? String.length (arg argv 2))%nat
          || (String.length (arg argv 3) =? 0)%nat
          || (1024 <=? String.length (arg argv 3))%nat then (1800, [])
  else
    match imapfolder_to_sysfolder (lang ctx) (arg argv 2) with
    | None => (1800, [])
    | Some encoded_name =>
        match imapfolder_to_sysfolder (lang ctx) (arg argv 3) with
        | None => (1800, [])
        | Some encoded_name1 =>
            if has_wildcard (arg argv 3) then (1910, [])
            else if NameCodec.special_folder encoded_name
                    || NameCodec.special_folder encoded_name1
            then (1914, [])
            else
              let '(ssr, errnum) :=
                rename_folder env encoded_name encoded_name1 in
              let tr := [RenameFolder encoded_name encoded_name1] in
              let ret := m2icode DISPATCH_MIDB ssr errnum in
              if negb (ret =? 0) then (ret, tr)
              else (1708, (tr ++ echo ctx)%list)
        end
    end.
End Handlers.

End Folders.

(** ** SELECT and EXAMINE *)

Module Selex.
Import Contents.
Import Fetch(CRLF).

(** What SELECT and EXAMINE do to the outside, in program order. *)
Inductive sel_call :=
| RemoveSelect                          (* imap_parser_remove_select *)
| SummaryFolder (folder : string)
| FetchSimpleUid (folder : string)      (* by content_array::refresh *)
| AddSelect                             (* imap_parser_add_select *)
| SafeWrite (text : string).

Record sel_ctx := {
  proto_stat : iproto_stat;
  lang : string;
  selected_folder : string;
  b_readonly : bool;
  contents : content_array
}.

(** The answers of MIDB for a folder: [summary_folder] with [uidvalid]
    and [uidnext], and [fetch_simple_uid] for the set [1:*]. *)
Record sel_env := {
  summary_folder : string -> midb_result * Z * (Z * Z);
  fetch_simple_uid : string -> midb_result * Z * list MITEM
}.

(** [pcontext->is_authed()] is defined with the context, outside this
    translation unit.  Modelled from the spec: the session is in the
    authenticated or in the selected state. *)
Definition is_authed (ctx : sel_ctx) : bool :=
  match proto_stat ctx with auth | select => true | _ => false end.

Definition DQUOTE : string := String "034" "".

Section Handlers.
Variables FLAG_RECENT FLAG_SEEN DISPATCH_MIDB DISPATCH_CONTINUE : Z.
Variable g_rfc9051_enable : bool.
Variable mutf7_to_utf8 : string -> Z * string.
Variable utf8_to_mutf7 : string -> Z * string.
Variable foldername_get : string -> NameCodec.special_fid -> option string.
(** [HX_strquote(u7, HXQUOTE_DQUOTE, nullptr)] of libHX. *)
Variable HX_strquote : string -> string.

Local Abbreviation imapfolder_to_sysfolder :=
  (NameCodec.imap_cmd_parser_imapfolder_to_sysfolder mutf7_to_utf8
     foldername_get).
Local Abbreviation sysfolder_to_imapfolder :=
  (NameCodec.imap_cmd_parser_sysfolder_to_imapfolder utf8_to_mutf7
     foldername_get).

Definition arg (argv : list string) (k : nat) : string := nth k argv "".

(** [quote_encode] *)
Definition quote_encode (u7 : string) : string :=
  DQUOTE +:+ HX_strquote u7 +:+ DQUOTE.

(** The block run when a folder is selected already.
    [imap_parser_remove_select] is defined with the parser, outside this
    translation unit: it is recorded as a call, and the fields of the
    context are changed as the handler itself changes them. *)
Definition leave_selected (ctx : sel_ctx) : sel_ctx * list sel_call :=
  match proto_stat ctx with
  | select =>
      ({| proto_stat := auth; lang := lang ctx; selected_folder := "";
          b_readonly := b_readonly ctx; contents := contents ctx |},
       [RemoveSelect])
  | _ => (ctx, [])
  end.

(** The reply of a successful SELECT or EXAMINE. *)
Definition selex_reply (ctx : sel_ctx) (tag sys_name : string)
    (uidvalid uidnext : Z) (readonly : bool) : string :=
  let buf :=
    "* " +:+ pretty (Z.of_nat (length (m_vec (contents ctx))))
    +:+ " EXISTS" +:+ CRLF
    +:+ "* " +:+ pretty (n_recent (contents ctx)) +:+ " RECENT" +:+ CRLF
    +:+ "* FLAGS (\Answered \Flagged \Deleted \Seen \Draft)" +:+ CRLF
    +:+ "* OK "
    +:+ (if readonly
         then "[PERMANENTFLAGS ()] no permanent flags permitted"
         else "[PERMANENTFLAGS (\Answered \Flagged \Deleted \Seen \Draft)] limited")
    +:+ CRLF in
  let buf :=
    if negb (firstunseen (contents ctx) =? 0)
    then buf +:+ "* OK [UNSEEN " +:+ pretty (firstunseen (contents ctx))
         +:+ "] message " +:+ pretty (firstunseen (contents ctx))
         +:+ " is first unseen" +:+ CRLF
    else buf in
  let s_readonly := if readonly then "READ-ONLY" else "READ-WRITE" in
  let s_command := if readonly then "EXAMINE" else "SELECT" in
  let buf :=
    buf +:+ "* OK [UIDVALIDITY " +:+ pretty uidvalid +:+ "] UIDs valid" +:+ CRLF
    +:+ "* OK [UIDNEXT " +:+ pretty uidnext +:+ "] predicted next UID"
    +:+ CRLF in
  let buf :=
    if g_rfc9051_enable
    then buf +:+ "* LIST () " +:+ DQUOTE +:+ "/" +:+ DQUOTE +:+ " "
         +:+ quote_encode sys_name +:+ CRLF
    else buf in
  buf +:+ tag +:+ " OK [" +:+ s_readonly +:+ "] " +:+ s_command
  +:+ " completed" +:+ CRLF.

(** [imap_cmd_parser_selex]: the code returned, the context afterwards
    and the calls made. *)
Definition imap_cmd_parser_selex (env : sel_env) (ctx : sel_ctx)
    (argv : list string) (readonly : bool) : Z * sel_ctx * list sel_call :=
  if negb (is_authed ctx) then (1804, ctx, [])
  else if (length argv <? 3)%nat || (String.length (arg argv 2) =? 0)%nat
          || (1024 <=? String.length (arg argv 2))%nat then (1800, ctx, [])
  else
    match imapfolder_to_sysfolder (lang ctx) (arg argv 2) with
    | None => (1800, ctx, [])
    | Some sys_name =>
        let '(ctx, tr) := leave_selected ctx in
        let '(ssr, errnum, (uidvalid, uidnext)) :=
          summary_folder env sys_name in
        let tr := (tr ++ [SummaryFolder sys_name])%list in
        let ret := m2icode DISPATCH_MIDB ssr errnum in
        if negb (ret =? 0) then (ret, ctx, tr)
        else
          let '(ret, refreshed) :=
            refresh FLAG_RECENT FLAG_SEEN DISPATCH_MIDB (contents ctx)
              (fetch_simple_uid env sys_name) true in
          let tr := (tr ++ [FetchSimpleUid sys_name])%list in
          let ctx :=
            {| proto_stat := proto_stat ctx; lang := lang ctx;
               selected_folder := selected_folder ctx;
               b_readonly := b_readonly ctx; contents := refreshed |} in
          if negb (ret =? 0) then (ret, ctx, tr)
          else
            let ctx :=
              {| proto_stat := select; lang := lang ctx;
                 selected_folder := sys_name; b_readonly := readonly;
                 contents := contents ctx |} in
            let tr := (tr ++ [AddSelect])%list in
            match sysfolder_to_imapfolder (lang ctx) sys_name with
            | None => (1800, ctx, tr)
            | Some buff =>
                let sys_name := gx_strlcpy 1024 buff in
                (DISPATCH_CONTINUE, ctx,
                 (tr ++ [SafeWrite (selex_reply ctx (arg argv 0) sys_name
                                      uidvalid uidnext readonly)])%list)
            end
    end.

Definition imap_cmd_parser_select (env : sel_env) (ctx : sel_ctx)
    (argv : list string) : Z * sel_ctx * list sel_call :=
  imap_cmd_parser_selex env ctx argv false.

Definition imap_cmd_parser_examine (env : sel_env) (ctx : sel_ctx)
    (argv : list string) : Z * sel_ctx * list sel_call :=
  imap_cmd_parser_selex env ctx argv true.
End Handlers.

End Selex.

(** ** LIST *)

Module FolderList.
Import Fetch(CRLF).
Import Wildcard.

(** What LIST does to the outside, in program order. *)
Inductive list_call :=
| EnumFolders
| StreamClear
| StreamWrite (text : string)
| EchoModify (to_stream : bool)   (* into the stream, or written at once *)
| SafeWrite (text : string).

Record list_ctx := {
  is_authed : bool;
  proto_stat : iproto_stat;
  lang : string
}.

Record list_env := {
  enum_folders : midb_result * Z * list string;
  (** [pcontext->stream.write]: the code returned for a text. *)
  stream_write : string -> Z;
  (** What the buffer [sys_name] of the second loop holds in turn [i] when
      the conversion of the special folder fails and leaves it unset. *)
  unset_name : nat -> string
}.

Definition DQUOTE : string := String "034" "".

Definition g_xproperty_list : list string :=
  ["\Drafts"; "\Sent"; "\Trash"; "\Junk \Spam"].

Section Handlers.
Variables DISPATCH_MIDB DISPATCH_CONTINUE DISPATCH_BREAK : Z.
Variable STREAM_WRITE_OK : Z.
Variable NAME_SIZE : nat.
Variable resource_get_imap_code : Z -> Z -> string.
Variable utf8_to_mutf7 : string -> Z * string.
Variable foldername_get : string -> NameCodec.special_fid -> option string.
(** [HX_strquote(u7, HXQUOTE_DQUOTE, nullptr)] of libHX. *)
Variable HX_strquote : string -> string.

Local Abbreviation sysfolder_to_imapfolder :=
  (NameCodec.imap_cmd_parser_sysfolder_to_imapfolder utf8_to_mutf7
     foldername_get).

Definition arg (argv : list string) (k : nat) : string := nth k argv "".

(** [quote_encode] *)
Definition quote_encode (u7 : string) : string :=
  DQUOTE +:+ HX_strquote u7 +:+ DQUOTE.

(** [imap_cmd_parser_convert_folderlist]: a name that does not convert
    is left as it is. *)
Definition imap_cmd_parser_convert_folderlist (lang : string)
    (pfile : list string) : list string :=
  map (fun e => match sysfolder_to_imapfolder lang e with
                | Some converted_name => converted_name
                | None => e
                end) pfile.

(** [pdir != nullptr && folder_tree.get_child(pdir) != nullptr] *)
Definition have_children (folder_tree : DirTree.DIR_NODE) (name : string)
    : bool :=
  match DirTree.dir_match (Some folder_tree) name with
  | Some pdir =>
      match DirTree.get_child pdir with Some _ => true | None => false end
  | None => false
  end.

Definition has (have : bool) : string := if have then "" else "No".

(** The line for INBOX. *)
Definition inbox_line (folder_tree : DirTree.DIR_NODE)
    (filter_special return_special : bool) : string :=
  if filter_special
  then "* LIST (\Inbox) " +:+ DQUOTE +:+ "/" +:+ DQUOTE +:+ " "
       +:+ DQUOTE +:+ "INBOX" +:+ DQUOTE +:+ CRLF
  else
    let have := have_children folder_tree "INBOX" in
    "* LIST (" +:+ (if return_special then "\Inbox " else "")
    +:+ "\Has" +:+ has have +:+ "Children) " +:+ DQUOTE +:+ "/" +:+ DQUOTE
    +:+ " " +:+ DQUOTE +:+ "INBOX" +:+ DQUOTE +:+ CRLF.

(** The line for the special folder number [i]. *)
Definition special_line (folder_tree : DirTree.DIR_NODE)
    (filter_special return_special : bool) (i : nat) (sys_name : string)
    : string :=
  if filter_special
  then "* LIST (" +:+ nth i g_xproperty_list "" +:+ ") " +:+ DQUOTE +:+ "/"
       +:+ DQUOTE +:+ " " +:+ quote_encode sys_name +:+ CRLF
  else
    let have := have_children folder_tree sys_name in
    "* LIST (" +:+ (if return_special then nth i g_xproperty_list "" else "")
    +:+ (if return_special then " " else "")
    +:+ "\Has" +:+ has have +:+ "Children) " +:+ DQUOTE +:+ "/" +:+ DQUOTE
    +:+ " " +:+ quote_encode sys_name +:+ CRLF.

(** The line for a folder of the list. *)
Definition folder_line (folder_tree : DirTree.DIR_NODE)
    (filter_special : bool) (sys_name : string) : string :=
  if filter_special
  then "* LIST () " +:+ DQUOTE +:+ "/" +:+ DQUOTE +:+ " "
       +:+ quote_encode sys_name +:+ CRLF
  else
    let have := have_children folder_tree sys_name in
    "* LIST (\Has" +:+ has have +:+ "Children) " +:+ DQUOTE +:+ "/"
    +:+ DQUOTE +:+ " " +:+ quote_encode sys_name +:+ CRLF.

(** [stream.write(buf) != STREAM_WRITE_OK] *)
Definition write_fails (env : list_env) (buf : string) : bool :=
  negb (stream_write env buf =? STREAM_WRITE_OK).

(** The loop over the four special folders from turn [i] on, with [n]
    turns left: the code of an early [return], and the calls made. *)
Fixpoint special_loop (env : list_env) (ctx : list_ctx)
    (folder_tree : DirTree.DIR_NODE) (search_pattern : string)
    (filter_special return_special : bool) (i n : nat)
    : option Z * list list_call :=
  match n with
  | O => (None, [])
  | S n' =>
      let sys_name :=
        match sysfolder_to_imapfolder (lang ctx)
                (nth i NameCodec.g_folder_list "") with
        | Some s => s
        | None => unset_name env i
        end in
      if imap_cmd_parser_wildcard_match sys_name search_pattern then
        let buf :=
          special_line folder_tree filter_special return_special i sys_name in
        if write_fails env buf then (Some 1922, [StreamWrite buf])
        else
          let '(code, tr) :=
            special_loop env ctx folder_tree search_pattern filter_special
              return_special (S i) n' in
          (code, StreamWrite buf :: tr)
      else
        special_loop env ctx folder_tree search_pattern filter_special
          return_special (S i) n'
  end.

(** The loop over the folder list. *)
Fixpoint folder_loop (env : list_env) (folder_tree : DirTree.DIR_NODE)
    (search_pattern : string) (filter_special : bool)
    (folder_list : list string) : option Z * list list_call :=
  match folder_list with
  | [] => (None, [])
  | sys_name :: rest =>
      if negb (imap_cmd_parser_wildcard_match sys_name search_pattern) then
        folder_loop env folder_tree search_pattern filter_special rest
      else
        let buf := folder_line folder_tree filter_special sys_name in
        if write_fails env buf then (Some 1922, [StreamWrite buf])
        else
          let '(code, tr) :=
            folder_loop env folder_tree search_pattern filter_special rest in
          (code, StreamWrite buf :: tr)
  end.

(** [imap_cmd_parser_list]: the code returned and the calls made. *)
Definition imap_cmd_parser_list (env : list_env) (ctx : list_ctx)
    (argv : list string) : Z * list list_call :=
  if negb (is_authed ctx) then (1804, [])
  else if (length argv <? 3)%nat then (1800, [])
  else
    let filter_special := strcaseeq (arg argv 2) "(SPECIAL-USE)" in
    let apos := if filter_special then 3%nat else 2%nat in
    if (length argv <? apos + 2)%nat then (1800, [])
    else
      let reference := arg argv apos in
      let mboxname := arg argv (apos + 1) in
      let apos := (apos + 2)%nat in
      let return_special :=
        if (apos + 2 <=? length argv)%nat
           && strcaseeq (arg argv apos) "RETURN"
           && strcaseeq (arg argv (apos + 1)) "(SPECIAL-USE)"
        then true else filter_special in
      if (1024 <=? String.length reference + String.length mboxname)%nat
      then (1800, [])
      else if Ascii.eqb (deref mboxname) zero then
        let tr :=
          match proto_stat ctx with
          | select => [EchoModify false]
          | _ => []
          end in
        let buf :=
          "* LIST (\Noselect) " +:+ DQUOTE +:+ "/" +:+ DQUOTE +:+ " "
          +:+ DQUOTE +:+ DQUOTE +:+ CRLF +:+ arg argv 0 +:+ " "
          +:+ resource_get_imap_code 1711 1 in
        (DISPATCH_CONTINUE, (tr ++ [SafeWrite buf])%list)
      else
        let search_pattern := reference +:+ mboxname in
        let '(ret, folder_list, tr) :=
          if negb filter_special then
            let '(ssr, errnum, l) := enum_folders env in
            (m2icode DISPATCH_MIDB ssr errnum, l, [EnumFolders])
          else (0, [], []) in
        if negb (ret =? 0) then (ret, tr)
        else
          let folder_list :=
            imap_cmd_parser_convert_folderlist (lang ctx) folder_list in
          let folder_tree :=
            DirTree.load_from_memfile NAME_SIZE None folder_list in
          let tr := (tr ++ [StreamClear])%list in
          let '(code, tr1) :=
            if imap_cmd_parser_wildcard_match "INBOX" search_pattern then
              let buf :=
                inbox_line folder_tree filter_special return_special in
              (if write_fails env buf then Some 1922 else None,
               [StreamWrite buf])
            else (None, []) in
          match code with
          | Some c => (c, (tr ++ tr1)%list)
          | None =>
              let '(code, tr2) :=
                special_loop env ctx folder_tree search_pattern
                  filter_special return_special 0 4 in
              match code with
              | Some c => (c, (tr ++ tr1 ++ tr2)%list)
              | None =>
                  let '(code, tr3) :=
                    folder_loop env folder_tree search_pattern filter_special
                      folder_list in
                  match code with
                  | Some c => (c, (tr ++ tr1 ++ tr2 ++ tr3)%list)
                  | None =>
                      let tr4 :=
                        match proto_stat ctx with
                        | select => [EchoModify true]
                        | _ => []
                        end in
                      let buf :=
                        arg argv 0 +:+ " " +:+ resource_get_imap_code 1711 1 in
                      (if write_fails env buf then 1922 else DISPATCH_BREAK,
                       (tr ++ tr1 ++ tr2 ++ tr3 ++ tr4
                        ++ [StreamWrite buf])%list)
                  end
              end
          end.
End Handlers.

End FolderList.

(** * Properties *)

(** ** The reply helper *)

Module DispatchProps.
Import Dispatch.

(** C10.  For every packed code handed to [imap_cmd_parser_dval], a reply
    line is written exactly when the reply-code field [ret & VALMASK] is
    nonzero (one line then, none otherwise), and the value returned is
    [ret & ACTMASK] in both cases; a bare action code writes nothing. *)
Theorem C10_dval_writes_iff_code_and_returns_action :
  forall (VALMASK MIDBBIT TAGBIT ACTMASK NO_FOLDER : Z)
         (code_text error_text : Z -> string)
         (argv : list string) (ctx : dctx) (ret : Z),
    let r := imap_cmd_parser_dval VALMASK MIDBBIT TAGBIT ACTMASK NO_FOLDER
               code_text error_text argv ctx ret in
    (exists line : string,
        written (fst r)
        = (written ctx ++ if Z.land ret VALMASK =? 0 then [] else [line])%list)
    /\ (written (fst r) <> written ctx <-> Z.land ret VALMASK <> 0)
    /\ tag_string (fst r) = tag_string ctx
    /\ snd r = Z.land ret ACTMASK.
Proof.
  intros. subst r. unfold imap_cmd_parser_dval.
  destruct (Z.eqb_spec (Z.land ret VALMASK) 0) as [E|E]; simpl.
  - split; [|split; [|split]]; try reflexivity.
    + exists "". now rewrite app_nil_r.
    + split; intros H; [now elim H | contradiction].
  - split; [|split; [|split]]; try reflexivity.
    + eexists. reflexivity.
    + split; [intros _; exact E|].
      intros _ H. apply (f_equal (@length string)) in H.
      rewrite length_app in H. simpl in H. lia.
Qed.

End DispatchProps.

(** ** Sequence sets *)

Module SeqSetProps.
Import SeqSet.












End SeqSetProps.

(** ** The octet range handed to [pstruct_null] *)

Module BodyRangeProps.
Import Fetch.

(** The MIME part [pstruct_null] settles on: part [1] of a message without
    parts is the message itself. *)
Definition effective_mime (pjson : mjson_view) (temp_id : string)
    : option MJSON_MIME :=
  match get_mime pjson temp_id with
  | Some m => Some m
  | None => if streq temp_id "1" then get_mime pjson "" else None
  end.

(** Its length: the whole entity for the empty id, the content otherwise. *)
Definition part_length (temp_id : string) (pmime : MJSON_MIME) : Z :=
  if streq temp_id "" then get_entire_length pmime
  else get_content_length pmime.

(** The octet count announced by a rendered value. *)
Definition emitted_length (o : body_out) : option Z :=
  match o with
  | BodyFile _ _ _ len => Some len
  | BodyNested _ _ _ _ _ len => Some len
  | _ => None
  end.

Lemma to_ssize_small (z : Z) : 0 <= z < 2 ^ 63 -> to_ssize z = z.
Proof.
  intros H. unfold to_ssize.
  rewrite Z.mod_small; lia.
Qed.

Lemma to_size_small (z : Z) : 0 <= z < 2 ^ 64 -> to_size z = z.
Proof. intros H. unfold to_size. now apply Z.mod_small. Qed.

(** [pstruct_null] once the MIME part has been found. *)
Definition null_found (pjson : mjson_view) (pbody temp_id : string)
    (offset length : Z) (sp : option string) (pmime : MJSON_MIME) : body_out :=
  let L := part_length temp_id pmime in
  let temp_len := if streq temp_id "" then get_head_offset pmime
                  else get_content_offset pmime in
  let length := if length =? -1 then to_ssize L else length in
  if offset >=? L then BodyNil pbody
  else
    let length := if to_size (offset + length) >? L
                  then to_ssize (L - offset) else length in
    match sp with
    | None => BodyFile pbody (get_mail_filename pjson)
                (to_ssize (temp_len + offset)) length
    | Some sp => BodyNested "<<(rfc822}" pbody sp (get_mail_filename pjson)
                   (to_ssize (temp_len + offset)) length
    end.

Lemma pstruct_null_found (pjson : mjson_view) (pbody temp_id : string)
    (offset length : Z) (sp : option string) (pmime : MJSON_MIME) :
  effective_mime pjson temp_id = Some pmime ->
  pstruct_null pjson pbody temp_id offset length sp
  = null_found pjson pbody temp_id offset length sp pmime.
Proof.
  unfold effective_mime, pstruct_null, null_found, part_length.
  destruct (get_mime pjson temp_id) as [m|].
  - intros H. injection H as ->. reflexivity.
  - intros ->. reflexivity.
Qed.

Lemma null_found_in_range (pjson : mjson_view) (pbody temp_id : string)
    (offset length : Z) (sp : option string) (pmime : MJSON_MIME) :
  let L := part_length temp_id pmime in
  0 <= offset < L -> L < 2 ^ 63 -> 0 <= length < 2 ^ 63 ->
  emitted_length (null_found pjson pbody temp_id offset length sp pmime)
  = Some (Z.min length (L - offset)).
Proof.
  intros L Ho HL Hlen. unfold null_found. fold L.
  destruct (Z.eqb_spec length (-1)); [lia|].
  destruct (Z.geb_spec offset L); [lia|].
  rewrite to_size_small by lia.
  destruct (Z.gtb_spec (offset + length) L).
  - rewrite (to_ssize_small (L - offset)) by lia.
    destruct sp; simpl; f_equal; lia.
  - destruct sp; simpl; f_equal; lia.
Qed.

(** [pstruct_null] on the numbers it is handed, for a part of length [L]:
    an offset at or beyond [L] gives [NIL]; an offset inside the part
    with [offset + length > L] announces exactly [L - offset] octets (and
    the requested [length] when it fits); an absent length ([-1]) stands
    for [L].  What numbers the caller reads out of the request is another
    matter, see [OctetRangeProps]. *)
Lemma pstruct_null_clamps_octet_range :
  forall (pjson : mjson_view) (pbody temp_id : string) (offset length : Z)
         (storage_path : option string) (pmime : MJSON_MIME),
    let L := part_length temp_id pmime in
    effective_mime pjson temp_id = Some pmime ->
    0 <= offset < 2 ^ 63 -> 0 <= L < 2 ^ 63 ->
    length = -1 \/ 0 <= length < 2 ^ 63 ->
    (L <= offset ->
       pstruct_null pjson pbody temp_id offset length storage_path
       = BodyNil pbody)
    /\ (offset < L -> 0 <= length -> L < offset + length ->
          emitted_length
            (pstruct_null pjson pbody temp_id offset length storage_path)
          = Some (L - offset))
    /\ (offset < L -> 0 <= length -> offset + length <= L ->
          emitted_length
            (pstruct_null pjson pbody temp_id offset length storage_path)
          = Some length)
    /\ pstruct_null pjson pbody temp_id offset (-1) storage_path
       = pstruct_null pjson pbody temp_id offset L storage_path.
Proof.
  intros pjson pbody temp_id offset length sp pmime L Hm Ho HL Hlen.
  rewrite !(pstruct_null_found _ _ _ _ _ _ _ Hm).
  split; [|split; [|split]].
  - intros Hge. unfold null_found. fold L.
    destruct (Z.geb_spec offset L); [reflexivity|lia].
  - intros H1 H2 H3.
    rewrite null_found_in_range by (fold L; lia).
    fold L. f_equal. lia.
  - intros H1 H2 H3.
    rewrite null_found_in_range by (fold L; lia).
    fold L. f_equal. lia.
  - unfold null_found. fold L.
    change (-1 =? -1) with true. cbv iota.
    rewrite (to_ssize_small L) by lia.
    destruct (Z.eqb_spec L (-1)); [lia|]. reflexivity.
Qed.

(** On a part of 100 octets: offset 20 with length 500 announces 80
    octets, and offset 100 gives [NIL]. *)
Example pstruct_null_clamps_octet_range_sample :
  let m := {| get_head_offset := 0; get_head_length := 40;
              get_content_offset := 40; get_content_length := 100;
              get_entire_length := 140 |} in
  let j := {| get_mime := fun i => if streq i "2" then Some m else None;
              get_mail_filename := "1700000000.1.host" |} in
  emitted_length (pstruct_null j "[2]<20>" "2" 20 500 None) = Some 80
  /\ pstruct_null j "[2]<100>" "2" 100 5 None = BodyNil "[2]<100>".
Proof.
  intros m j. split.
  - apply (pstruct_null_clamps_octet_range j "[2]<20>" "2" 20 500 None m);
      try reflexivity; unfold part_length; simpl; lia.
  - apply (pstruct_null_clamps_octet_range j "[2]<100>" "2" 100 5 None m);
      try reflexivity; unfold part_length; simpl; lia.
Defined.

End BodyRangeProps.

(** ** The FETCH attribute parser *)

Module FetchArgsProps.
Import Fetch.

Lemma strcaseeq_refl (a : string) : strcaseeq a a = true.
Proof.
  induction a as [|x a IH]; simpl; [reflexivity|].
  now rewrite Ascii.eqb_refl, IH.
Qed.

Lemma strcaseeq_sym (a b : string) : strcaseeq a b = strcaseeq b a.
Proof.
  revert b. induction a as [|x a IH]; intros [|y b]; simpl; try reflexivity.
  now rewrite IH, Ascii.eqb_sym.
Qed.

Lemma strcaseeq_trans (a b c : string) :
  strcaseeq a b = true -> strcaseeq b c = true -> strcaseeq a c = true.
Proof.
  revert b c. induction a as [|x a IH]; intros [|y b] [|z c]; simpl;
    try discriminate; try reflexivity.
  intros H1 H2.
  apply andb_true_iff in H1 as [E1 R1]. apply andb_true_iff in H2 as [E2 R2].
  apply Ascii.eqb_eq in E1. apply Ascii.eqb_eq in E2.
  rewrite E1, E2, Ascii.eqb_refl. simpl. eapply IH; eassumption.
Qed.

(** Two keywords that [strcasecmp] cannot tell apart agree on every
    comparison the parser makes. *)
Lemma strcaseeq_compat (a b k : string) :
  strcaseeq a b = true -> strcaseeq a k = strcaseeq b k.
Proof.
  intros H. destruct (strcaseeq b k) eqn:E.
  - eapply strcaseeq_trans; eassumption.
  - destruct (strcaseeq a k) eqn:E'; [|reflexivity].
    rewrite strcaseeq_sym in H.
    now rewrite (strcaseeq_trans _ _ _ H E') in E.
Qed.

Lemma strncaseeq_compat (a b p : string) (n : nat) :
  strcaseeq a b = true -> strncaseeq a p n = strncaseeq b p n.
Proof.
  revert a b p. induction n as [|n IH]; intros a b p H; simpl; [reflexivity|].
  destruct a as [|x a], b as [|y b]; simpl in H; try discriminate;
    [reflexivity|].
  apply andb_true_iff in H as [E R]. apply Ascii.eqb_eq in E.
  destruct p as [|z p]; [reflexivity|].
  rewrite E. f_equal. now apply IH.
Qed.

Lemma is_macro_compat (a b : string) :
  strcaseeq a b = true -> is_macro a = is_macro b.
Proof.
  intros H. unfold is_macro. now rewrite !(strcaseeq_compat a b _ H).
Qed.

Lemma is_body_item_compat (a b : string) :
  strcaseeq a b = true -> is_body_item a = is_body_item b.
Proof.
  intros H. unfold is_body_item. now rewrite !(strncaseeq_compat a b _ _ H).
Qed.

(** A [BODY[...]] argument is none of the plain keywords. *)
Lemma body_item_not (kw k : string) :
  is_body_item kw = true -> is_body_item k = false -> strcaseeq kw k = false.
Proof.
  intros H1 H2. destruct (strcaseeq kw k) eqn:E; [|reflexivity].
  rewrite (is_body_item_compat _ _ E) in H1. congruence.
Qed.

(** *** The classification loop *)

(** Without a macro in the list nothing is appended, and the loop is a plain
    left-to-right pass. *)
Lemma classify_plain (todo done : list string) (st : bool * bool) :
  Forall (fun kw => is_macro kw = false) todo ->
  classify done todo st
  = ((done ++ todo)%list, fold_left (fun s kw => classify_item kw s) todo st).
Proof.
  revert done st. induction todo as [|kw rest IH]; intros done st H.
  - simp classify. now rewrite app_nil_r.
  - simp classify. inversion H as [|? ? Hk Hr]; subst.
    rewrite Hk, app_nil_r, IH by assumption.
    now rewrite <- app_assoc.
Qed.

Lemma classify_item_detail (kw : string) (st : bool * bool) :
  fst st = true -> fst (classify_item kw st) = true.
Proof.
  intros H. unfold classify_item.
  repeat match goal with |- context [if ?c then _ else _] => destruct c end;
    simpl; auto.
Qed.

Lemma fold_detail (l : list string) (st : bool * bool) :
  fst st = true ->
  fst (fold_left (fun s kw => classify_item kw s) l st) = true.
Proof.
  revert st. induction l as [|kw l IH]; intros st H; simpl; [assumption|].
  apply IH. now apply classify_item_detail.
Qed.

(** What a [BODY[...FIELDS...]] item does to the two flags. *)
Lemma classify_item_fields (kw : string) (st : bool * bool) :
  is_body_item kw = true -> search_string kw "FIELDS" = true ->
  classify_item kw st = (true, snd st).
Proof.
  intros Hb Hs. unfold classify_item, is_macro.
  rewrite !(body_item_not kw _ Hb) by reflexivity.
  simpl. now rewrite Hb, Hs.
Qed.

Lemma classify_item_uid (st : bool * bool) : classify_item "UID" st = st.
Proof. reflexivity. Qed.

(** *** The first loop *)

Lemma collect_items_shape (pia : string -> option (list string))
    (argv plist : list string) (b : bool) (pl' : list string) (b' : bool) :
  collect_items pia argv plist b = Some (pl', b') ->
  exists l', pl' = (plist ++ l')%list /\ incl l' argv.
Proof.
  revert plist b. induction argv as [|a rest IH]; intros plist b H; simpl in H.
  - injection H as <- <-. exists []. split; [now rewrite app_nil_r|easy].
  - destruct (existsb (fun e => strcaseeq e a) plist).
    { destruct (IH _ _ H) as (l' & -> & Hi). exists l'. split; [reflexivity|].
      now apply incl_tl. }
    assert (K : forall b0, collect_items pia rest (plist ++ [a]) b0
                           = Some (pl', b') ->
                exists l', pl' = (plist ++ l')%list /\ incl l' (a :: rest)).
    { intros b0 H0. destruct (IH _ _ H0) as (l' & -> & Hi).
      exists (a :: l'). split; [now rewrite <- app_assoc|].
      apply incl_cons; [now left|now apply incl_tl]. }
    destruct (is_macro a); [exact (K _ H)|].
    destruct (is_plain_item a); [exact (K _ H)|].
    destruct (is_body_item a); [|discriminate].
    destruct (check_body_item pia a); [exact (K _ H)|discriminate].
Qed.

Lemma collect_items_cons (pia : string -> option (list string))
    (a : string) (rest plist : list string) (b : bool) :
  collect_items pia (a :: rest) plist b
  = if existsb (fun e => strcaseeq e a) plist then
      collect_items pia rest plist b
    else if is_macro a then collect_items pia rest (plist ++ [a]) true
    else if is_plain_item a then collect_items pia rest (plist ++ [a]) b
    else if is_body_item a then
      if check_body_item pia a then collect_items pia rest (plist ++ [a]) b
      else None
    else None.
Proof. reflexivity. Qed.

(** A [BODY[...]] or [BODY.PEEK[...]] item whose text contains [FIELDS]. *)
Definition fields_item (kw : string) : bool :=
  is_body_item kw && search_string kw "FIELDS".

Lemma fields_item_not_macro (kw : string) :
  fields_item kw = true -> is_macro kw = false.
Proof.
  intros H. apply andb_true_iff in H as [Hb _]. unfold is_macro.
  now rewrite !(body_item_not kw _ Hb) by reflexivity.
Qed.

Lemma fields_item_not_plain (kw : string) :
  fields_item kw = true -> is_plain_item kw = false.
Proof.
  intros H. apply andb_true_iff in H as [Hb _]. unfold is_plain_item.
  now rewrite !(body_item_not kw _ Hb) by reflexivity.
Qed.

Lemma fold_fields (l : list string) (st : bool * bool) :
  Forall (fun kw => fields_item kw = true) l ->
  snd (fold_left (fun s kw => classify_item kw s) l st) = snd st.
Proof.
  revert st. induction l as [|kw l IH]; intros st H; simpl; [reflexivity|].
  inversion H as [|? ? Hk Hl]; subst.
  apply andb_true_iff in Hk as [Hb Hs].
  rewrite IH by assumption. now rewrite classify_item_fields.
Qed.

(** *** Macros are not mixed with other attributes *)

Lemma collect_items_macro (pia : string -> option (list string))
    (argv plist : list string) (b : bool) (pl' : list string) (b' : bool) :
  collect_items pia argv plist b = Some (pl', b') ->
  ((exists e, In e plist /\ is_macro e = true) -> b = true) ->
  b = true \/ (exists a, In a argv /\ is_macro a = true) ->
  b' = true.
Proof.
  revert plist b. induction argv as [|a rest IH]; intros plist b H Inv Hex.
  - simpl in H. injection H as _ <-.
    destruct Hex as [|(a & [] & _)]. assumption.
  - rewrite collect_items_cons in H.
    destruct (existsb (fun e => strcaseeq e a) plist) eqn:Edup.
    { apply (IH _ _ H Inv).
      destruct Hex as [Hb|(x & [<-|Hx] & Hm)]; [now left| |right; eauto].
      left. apply Inv. apply existsb_exists in Edup as (e & He & Hea).
      exists e. split; [assumption|]. now rewrite (is_macro_compat _ _ Hea). }
    destruct (is_macro a) eqn:Em.
    { apply (IH _ _ H); [reflexivity|now left]. }
    assert (K : collect_items pia rest (plist ++ [a]) b = Some (pl', b') ->
                b' = true).
    { intros H0. apply (IH _ _ H0).
      - intros (e & He & Hm). apply in_app_or in He as [He|[<-|[]]].
        + apply Inv. eauto.
        + congruence.
      - destruct Hex as [Hb|(x & [<-|Hx] & Hm)];
          [now left|congruence|right; eauto]. }
    destruct (is_plain_item a); [exact (K H)|].
    destruct (is_body_item a); [|discriminate].
    destruct (check_body_item pia a); [exact (K H)|discriminate].
Qed.

(** X1.  An attribute list of more than one argument that names a macro is
    rejected, wherever the macro stands and whatever the other arguments
    are. *)
Theorem macro_with_other_arguments_rejected :
  forall (parse_imap_args : string -> option (list string))
         (argv : list string),
    (1 < length argv)%nat ->
    (exists a, In a argv /\ is_macro a = true) ->
    parse_fetch_args_argv parse_imap_args argv = None.
Proof.
  intros pia argv Hlen Hex. unfold parse_fetch_args_argv.
  destruct (length argv <? 1)%nat; [reflexivity|].
  destruct (collect_items pia argv ["UID"] false) as [[pl bm]|] eqn:E;
    [|reflexivity].
  assert (bm = true) as ->.
  { apply (collect_items_macro _ _ _ _ _ _ E); [|now right].
    intros (e & [<-|[]] & Hm). discriminate. }
  apply Nat.ltb_lt in Hlen. now rewrite Hlen.
Qed.

(** *** UID comes first *)

(** The loop only appends: what was in the vector stays in place. *)
Lemma classify_extends (done todo : list string) (st : bool * bool) :
  exists ext, fst (classify done todo st) = (done ++ todo ++ ext)%list.
Proof.
  funelim (classify done todo st).
  - exists []. simpl. now rewrite app_nil_r.
  - match goal with IH : exists _, _ |- _ => destruct IH as [ext Hx] end.
    rewrite Hx.
    exists ((if is_macro kw then macro_ext kw else []) ++ ext)%list.
    rewrite <- !app_assoc. reflexivity.
Qed.

Definition is_uid (e : string) : bool := strcaseeq e "UID".

Lemma filter_disjoint (p q : string -> bool) (l : list string) :
  (forall e, p e = true -> q e = false) ->
  List.filter p (List.filter q l) = []
  /\ List.filter p (List.filter (fun e => negb (q e)) l) = List.filter p l.
Proof.
  intros D. induction l as [|x l [IH1 IH2]]; [now split|]. simpl.
  destruct (q x) eqn:Eq; simpl.
  - destruct (p x) eqn:Ep; [rewrite (D x Ep) in Eq; discriminate|].
    now split.
  - rewrite IH2. split; [assumption|reflexivity].
Qed.

Lemma filter_uid_partition (k : string) (l : list string) :
  strcaseeq "UID" k = false ->
  List.filter is_uid (stable_partition (fun e => strcaseeq e k) l)
  = List.filter is_uid l.
Proof.
  intros Hk. unfold stable_partition. rewrite List.filter_app.
  destruct (filter_disjoint is_uid (fun e => strcaseeq e k) l) as [-> ->];
    [|reflexivity].
  intros e He. unfold is_uid in He.
  now rewrite (strcaseeq_compat e "UID" k He).
Qed.

Lemma move_to_front_head (l : list string) :
  hd_error (List.filter is_uid l) = Some "UID" ->
  hd_error (move_to_front l) = Some "UID".
Proof.
  intros H. unfold move_to_front. simpl.
  set (l6 := stable_partition (fun e => strcaseeq e "FLAGS") _).
  assert (H6 : List.filter is_uid l6 = List.filter is_uid l).
  { subst l6. now rewrite !filter_uid_partition by reflexivity. }
  unfold stable_partition at 1. fold is_uid.
  change (fun e => strcaseeq e "UID") with is_uid. rewrite H6.
  destruct (List.filter is_uid l) as [|x r]; [discriminate|].
  exact H.
Qed.

Lemma partition_back_head (k : string) (l : list string) :
  strcaseeq "UID" k = false ->
  hd_error l = Some "UID" ->
  hd_error (stable_partition (fun e => negb (strcaseeq e k)) l) = Some "UID".
Proof.
  intros Hk H. destruct l as [|x l]; [discriminate|].
  injection H as ->. unfold stable_partition.
  change (List.filter (fun e => negb (strcaseeq e k)) ("UID" :: l))
    with (if negb (strcaseeq "UID" k)
          then "UID" :: List.filter (fun e => negb (strcaseeq e k)) l
          else List.filter (fun e => negb (strcaseeq e k)) l).
  now rewrite Hk.
Qed.

Lemma move_to_back_head (l : list string) :
  hd_error l = Some "UID" -> hd_error (move_to_back l) = Some "UID".
Proof.
  intros H. unfold move_to_back. cbn [fold_left].
  repeat apply partition_back_head; try reflexivity. exact H.
Qed.

(** X2.  Every accepted attribute list yields a data-item list whose first
    element is [UID]. *)
Theorem uid_is_first :
  forall (parse_imap_args : string -> option (list string))
         (argv plist : list string) (pb_detail pb_data : bool),
    parse_fetch_args_argv parse_imap_args argv
      = Some (plist, pb_detail, pb_data) ->
    hd_error plist = Some "UID".
Proof.
  intros pia argv plist d1 d2 H. unfold parse_fetch_args_argv in H.
  destruct (length argv <? 1)%nat; [discriminate|].
  destruct (collect_items pia argv ["UID"] false) as [[pl bm]|] eqn:E;
    [|discriminate].
  destruct ((1 <? length argv)%nat && bm); [discriminate|].
  destruct (collect_items_shape _ _ _ _ _ _ E) as (l' & -> & _).
  destruct (classify_extends [] (["UID"] ++ l') (false, false)) as [ext Hx].
  destruct (classify [] (["UID"] ++ l') (false, false)) as [pl [dt da]].
  cbn [fst app] in Hx. subst pl. cbv beta iota in H. injection H as <- _ _.
  apply move_to_back_head, move_to_front_head. reflexivity.
Qed.

(** *** The two classification flags *)

(** The items for which the response refers to bytes of the EML file. *)
Definition needs_data (kw : string) : bool :=
  strcaseeq kw "RFC822" || strcaseeq kw "RFC822.HEADER"
  || strcaseeq kw "RFC822.TEXT"
  || (is_body_item kw && negb (search_string kw "FIELDS")).

(** The items that need the digest of the message: everything the parser
    accepts except [UID] and [FLAGS]. *)
Definition needs_detail (kw : string) : bool :=
  is_macro kw
  || strcaseeq kw "RFC822" || strcaseeq kw "RFC822.HEADER"
  || strcaseeq kw "RFC822.TEXT"
  || strcaseeq kw "BODY" || strcaseeq kw "BODYSTRUCTURE"
  || strcaseeq kw "ENVELOPE" || strcaseeq kw "INTERNALDATE"
  || strcaseeq kw "RFC822.SIZE"
  || is_body_item kw.

Lemma strcaseeq_same_length (a b : string) :
  strcaseeq a b = true -> String.length a = String.length b.
Proof.
  revert b. induction a as [|x a IH]; intros [|y b]; simpl;
    try discriminate; [reflexivity|].
  intros H. apply andb_true_iff in H as [_ H]. now rewrite (IH b H).
Qed.

Lemma search_string_compat (a b needle : string) :
  strcaseeq a b = true -> search_string a needle = search_string b needle.
Proof.
  revert b. induction a as [|x a IH]; intros [|y b] H; simpl in H;
    try discriminate; [reflexivity|].
  pose proof H as H'. apply andb_true_iff in H' as [_ Ht].
  change (search_string (String x a) needle)
    with (strncaseeq (String x a) needle (String.length needle)
          && Nat.leb (String.length needle) (String.length (String x a))
          || search_string a needle).
  change (search_string (String y b) needle)
    with (strncaseeq (String y b) needle (String.length needle)
          && Nat.leb (String.length needle) (String.length (String y b))
          || search_string b needle).
  rewrite (IH b Ht).
  rewrite (strncaseeq_compat (String x a) (String y b) needle _ H).
  cbn [String.length]. now rewrite (strcaseeq_same_length a b Ht).
Qed.

Lemma needs_data_compat (a b : string) :
  strcaseeq a b = true -> needs_data a = needs_data b.
Proof.
  intros H. unfold needs_data.
  now rewrite !(strcaseeq_compat a b _ H), (is_body_item_compat a b H),
    (search_string_compat a b _ H).
Qed.

Lemma needs_detail_compat (a b : string) :
  strcaseeq a b = true -> needs_detail a = needs_detail b.
Proof.
  intros H. unfold needs_detail.
  now rewrite !(strcaseeq_compat a b _ H), (is_body_item_compat a b H),
    (is_macro_compat a b H).
Qed.

(** One turn of the loop adds what the keyword asks for. *)
Lemma classify_item_flags (kw : string) (st : bool * bool) :
  classify_item kw st = (fst st || needs_detail kw, snd st || needs_data kw).
Proof.
  assert (K : forall k, strcaseeq kw k = true ->
            classify_item kw st = classify_item k st
            /\ needs_detail kw = needs_detail k
            /\ needs_data kw = needs_data k).
  { intros k E. split; [|split].
    - unfold classify_item.
      now rewrite !(strcaseeq_compat kw k _ E), (is_body_item_compat kw k E),
        (is_macro_compat kw k E), (search_string_compat kw k _ E).
    - now apply needs_detail_compat.
    - now apply needs_data_compat. }
  assert (C : forall k,
            classify_item k st
            = (fst st || needs_detail k, snd st || needs_data k) ->
            strcaseeq kw k = true ->
            classify_item kw st
            = (fst st || needs_detail kw, snd st || needs_data kw)).
  { intros k Hk E. destruct (K k E) as (-> & -> & ->). exact Hk. }
  assert (T : forall b, (b || true = true) /\ (b || false = b)).
  { intros []; now split. }
  destruct st as [d a].
  destruct (strcaseeq kw "ALL") eqn:E1;
    [apply (C "ALL"); [destruct d, a; reflexivity|exact E1]|].
  destruct (strcaseeq kw "FAST") eqn:E2;
    [apply (C "FAST"); [destruct d, a; reflexivity|exact E2]|].
  destruct (strcaseeq kw "FULL") eqn:E3;
    [apply (C "FULL"); [destruct d, a; reflexivity|exact E3]|].
  destruct (strcaseeq kw "RFC822") eqn:E4;
    [apply (C "RFC822"); [destruct d, a; reflexivity|exact E4]|].
  destruct (strcaseeq kw "RFC822.HEADER") eqn:E5;
    [apply (C "RFC822.HEADER"); [destruct d, a; reflexivity|exact E5]|].
  destruct (strcaseeq kw "RFC822.TEXT") eqn:E6;
    [apply (C "RFC822.TEXT"); [destruct d, a; reflexivity|exact E6]|].
  destruct (strcaseeq kw "BODY") eqn:E7;
    [apply (C "BODY"); [destruct d, a; reflexivity|exact E7]|].
  destruct (strcaseeq kw "BODYSTRUCTURE") eqn:E8;
    [apply (C "BODYSTRUCTURE"); [destruct d, a; reflexivity|exact E8]|].
  destruct (strcaseeq kw "ENVELOPE") eqn:E9;
    [apply (C "ENVELOPE"); [destruct d, a; reflexivity|exact E9]|].
  destruct (strcaseeq kw "INTERNALDATE") eqn:E10;
    [apply (C "INTERNALDATE"); [destruct d, a; reflexivity|exact E10]|].
  destruct (strcaseeq kw "RFC822.SIZE") eqn:E11;
    [apply (C "RFC822.SIZE"); [destruct d, a; reflexivity|exact E11]|].
  unfold classify_item, needs_detail, needs_data, is_macro.
  rewrite E1, E2, E3, E4, E5, E6, E7, E8, E9, E10, E11. cbn [orb fst snd].
  destruct (is_body_item kw); cbn [andb orb].
  - rewrite (proj1 (T d)).
    destruct (search_string kw "FIELDS"); cbn [negb];
      [now rewrite (proj2 (T a))|now rewrite (proj1 (T a))].
  - now rewrite (proj2 (T d)), (proj2 (T a)).
Qed.

Lemma macro_ext_flags (kw : string) :
  existsb needs_data (macro_ext kw) = false.
Proof.
  unfold macro_ext.
  destruct (strcaseeq kw "ALL" || strcaseeq kw "FULL");
    [destruct (strcaseeq kw "FULL")|]; reflexivity.
Qed.

(** The loop, with the items it appends for a macro: the flags collect
    what the items of the vector ask for. *)
Lemma classify_flags (done todo : list string) (st : bool * bool) :
  snd (classify done todo st)
  = (fst st || existsb needs_detail todo, snd st || existsb needs_data todo).
Proof.
  funelim (classify done todo st).
  - simp classify. cbn [snd existsb]. now rewrite !orb_false_r, <- surjective_pairing.
  - simp classify.
    match goal with IH : snd _ = _ |- _ => rewrite IH end.
    rewrite classify_item_flags. cbn [fst snd existsb].
    rewrite !existsb_app, <- !orb_assoc.
    destruct (is_macro kw) eqn:Em.
    + rewrite macro_ext_flags, orb_false_r.
      assert (D : needs_detail kw = true)
        by (unfold needs_detail; now rewrite Em).
      rewrite D. cbn [orb]. now rewrite !orb_true_r.
    + cbn [existsb]. now rewrite !orb_false_r.
Qed.

(** The first loop keeps, of every item, one spelling. *)
Lemma collect_items_exists (pia : string -> option (list string))
    (p : string -> bool) :
  (forall a b, strcaseeq a b = true -> p a = p b) ->
  forall (argv plist : list string) (b : bool) (pl' : list string)
         (b' : bool),
    collect_items pia argv plist b = Some (pl', b') ->
    existsb p pl' = existsb p plist || existsb p argv.
Proof.
  intros Hp. induction argv as [|a rest IH]; intros plist b pl' b' H.
  - simpl in H. injection H as <- _. cbn [existsb]. now rewrite orb_false_r.
  - rewrite collect_items_cons in H. cbn [existsb].
    destruct (existsb (fun e => strcaseeq e a) plist) eqn:Edup.
    { rewrite (IH _ _ _ _ H).
      apply existsb_exists in Edup as (e & He & Hea).
      destruct (p a) eqn:Ea; cbn [orb]; [|reflexivity].
      assert (Hpl : existsb p plist = true).
      { apply existsb_exists. exists e. split; [exact He|].
        now rewrite (Hp e a Hea). }
      now rewrite Hpl. }
    assert (K : forall b0, collect_items pia rest (plist ++ [a]) b0
                           = Some (pl', b') ->
                existsb p pl' = existsb p plist || (p a || existsb p rest)).
    { intros b0 H0. rewrite (IH _ _ _ _ H0), existsb_app. cbn [existsb].
      now rewrite orb_false_r, orb_assoc. }
    destruct (is_macro a); [exact (K _ H)|].
    destruct (is_plain_item a); [exact (K _ H)|].
    destruct (is_body_item a); [|discriminate].
    destruct (check_body_item pia a); [exact (K _ H)|discriminate].
Qed.

(** C7, as the code has it.  For every accepted FETCH attribute list,
    [pb_data] is true exactly when some requested item is [RFC822],
    [RFC822.HEADER], [RFC822.TEXT], or a [BODY[...]] / [BODY.PEEK[...]]
    item whose text does not contain [FIELDS]; [pb_detail] is true
    exactly when some requested item is a macro, one of [BODY],
    [BODYSTRUCTURE], [ENVELOPE], [INTERNALDATE], [RFC822],
    [RFC822.HEADER], [RFC822.SIZE], [RFC822.TEXT], or a [BODY[...]] /
    [BODY.PEEK[...]] item.  So a [BODY[HEADER.FIELDS ...]] or
    [BODY.PEEK[HEADER.FIELDS ...]] item sets [pb_detail] and leaves
    [pb_data] as the other items have it, and [UID] and [FLAGS] set
    neither. *)
Theorem C7_header_fields_leave_pb_data_false :
  forall (parse_imap_args : string -> option (list string))
         (argv plist : list string) (pb_detail pb_data : bool),
    parse_fetch_args_argv parse_imap_args argv
      = Some (plist, pb_detail, pb_data) ->
    pb_data = existsb needs_data argv
    /\ pb_detail = existsb needs_detail argv
    /\ (forall kw, fields_item kw = true ->
          needs_data kw = false /\ needs_detail kw = true)
    /\ (forall kw, strcaseeq kw "UID" || strcaseeq kw "FLAGS" = true ->
          needs_data kw = false /\ needs_detail kw = false).
Proof.
  intros pia argv plist d1 d2 H.
  split; [|split; [|split]].
  - unfold parse_fetch_args_argv in H.
    destruct (length argv <? 1)%nat; [discriminate|].
    destruct (collect_items pia argv ["UID"] false) as [[pl bm]|] eqn:E;
      [|discriminate].
    destruct ((1 <? length argv)%nat && bm); [discriminate|].
    pose proof (classify_flags [] pl (false, false)) as F.
    destruct (classify [] pl (false, false)) as [pl1 [dt da]].
    cbn [fst snd orb] in F. injection F as -> ->.
    injection H as _ _ <-.
    now rewrite (collect_items_exists pia needs_data needs_data_compat
                   _ _ _ _ _ E).
  - unfold parse_fetch_args_argv in H.
    destruct (length argv <? 1)%nat; [discriminate|].
    destruct (collect_items pia argv ["UID"] false) as [[pl bm]|] eqn:E;
      [|discriminate].
    destruct ((1 <? length argv)%nat && bm); [discriminate|].
    pose proof (classify_flags [] pl (false, false)) as F.
    destruct (classify [] pl (false, false)) as [pl1 [dt da]].
    cbn [fst snd orb] in F. injection F as -> ->.
    injection H as _ <- _.
    now rewrite (collect_items_exists pia needs_detail needs_detail_compat
                   _ _ _ _ _ E).
  - intros kw Hf. pose proof (fields_item_not_macro kw Hf) as Hm.
    apply andb_true_iff in Hf as [Hb Hs].
    unfold needs_data, needs_detail.
    rewrite !(body_item_not kw _ Hb) by reflexivity.
    rewrite Hm, Hb, Hs. now split.
  - intros kw Hk. apply orb_true_iff in Hk as [Hk|Hk].
    + rewrite (needs_data_compat _ _ Hk), (needs_detail_compat _ _ Hk).
      now split.
    + rewrite (needs_data_compat _ _ Hk), (needs_detail_compat _ _ Hk).
      now split.
Qed.

(** C7 on [FLAGS BODY.PEEK[HEADER.FIELDS (DATE FROM)]]: the digest is
    needed, the file is not. *)
Lemma C7_witness :
  exists plist,
    parse_fetch_args_argv tokenize
      ["FLAGS"; "BODY.PEEK[HEADER.FIELDS (DATE FROM)]"]
    = Some (plist, true, false).
Proof.
  destruct (parse_fetch_args_argv tokenize
              ["FLAGS"; "BODY.PEEK[HEADER.FIELDS (DATE FROM)]"])
    as [[[plist d1] d2]|] eqn:E; [|vm_compute in E; discriminate].
  exists plist.
  destruct (C7_header_fields_leave_pb_data_false tokenize
              ["FLAGS"; "BODY.PEEK[HEADER.FIELDS (DATE FROM)]"] plist d1 d2 E)
    as (-> & -> & _).
  reflexivity.
Defined.

(** C7 as stated fails: for a request that consists of a
    [BODY.PEEK[HEADER.FIELDS (...)]] item, or of its [BODY[...]] form, the
    parser succeeds and leaves [pb_data] false. *)
Lemma C7_counterexample :
  imap_cmd_parser_parse_fetch_args tokenize
    "BODY.PEEK[HEADER.FIELDS (DATE FROM)]"
  = Some (["UID"; "BODY.PEEK[HEADER.FIELDS (DATE FROM)]"], true, false)
  /\ imap_cmd_parser_parse_fetch_args tokenize
       "(BODY[HEADER.FIELDS (SUBJECT)])"
     = Some (["UID"; "BODY[HEADER.FIELDS (SUBJECT)]"], true, false).
Proof. split; vm_compute; reflexivity. Qed.

End FetchArgsProps.

(** ** The [\Seen] side effect of FETCH *)

Module FetchItemProps.
Import Fetch FetchArgsProps.

(** The items after which the renderer runs the [\Seen] block. *)
Definition seen_trigger (kw : string) : bool :=
  strcaseeq kw "RFC822" || strcaseeq kw "RFC822.TEXT"
  || strncaseeq kw "BODY[" 5.

Definition is_set_flags (e : event) : bool :=
  match e with SetFlags _ _ _ => true | _ => false end.

(** Number of [system_services_set_flags] calls in a run. *)
Definition set_flags_calls (evs : list event) : nat :=
  length (List.filter is_set_flags evs).

Lemma set_flags_calls_app (a b : list event) :
  set_flags_calls (a ++ b) = (set_flags_calls a + set_flags_calls b)%nat.
Proof. unfold set_flags_calls. now rewrite List.filter_app, length_app. Qed.

Lemma land_lor_same (b s : Z) : Z.land (Z.lor b s) s = s.
Proof.
  apply Z.bits_inj'. intros n Hn.
  rewrite Z.land_spec, Z.lor_spec.
  destruct (Z.testbit b n), (Z.testbit s n); reflexivity.
Qed.

Lemma land_clear_other (x r s : Z) :
  Z.land s r = 0 -> Z.land (Z.land x (Z.lnot r)) s = Z.land x s.
Proof.
  intros H. apply Z.bits_inj'. intros n Hn.
  assert (T : Z.testbit (Z.land s r) n = false) by (rewrite H; apply Z.bits_0).
  rewrite Z.land_spec in T.
  rewrite !Z.land_spec, Z.lnot_spec by assumption.
  destruct (Z.testbit x n), (Z.testbit r n), (Z.testbit s n);
    simpl in *; congruence.
Qed.

Lemma not_bracket (c u : ascii) :
  Ascii.eqb (HX_toupper c) u = true -> u <> "["%char ->
  Ascii.eqb c "[" = false.
Proof.
  intros H Hu. destruct (Ascii.eqb_spec c "["); [|reflexivity].
  subst c. apply Ascii.eqb_eq in H. now elim Hu.
Qed.

(** The one call the renderer makes beside those to MIDB and to the
    notification hub. *)
Definition is_build (ctx : fetch_ctx) (e : event) : Prop :=
  e = Rfc822Build (maildir ctx +:+ "/tmp/imap.rfc822").

Lemma builds_no_set_flags (ctx : fetch_ctx) (l : list event) :
  Forall (is_build ctx) l -> set_flags_calls l = 0%nat.
Proof.
  induction 1 as [|e l He _ IH]; [reflexivity|].
  unfold is_build in He. subst e. exact IH.
Qed.

Lemma record_nil (st : fstate) : record st [] = st.
Proof. destruct st. unfold record. simpl. now rewrite app_nil_r. Qed.

(** A [BODY[...]] or [BODY.PEEK[...]] keyword has five characters at
    least, and its first bracket is not among the first four. *)
Lemma body_item_shape (kw : string) :
  is_body_item kw = true ->
  (5 <= String.length kw)%nat
  /\ forall lb, strchr kw "[" = Some lb -> (4 <= lb)%nat.
Proof.
  unfold is_body_item.
  destruct kw as [|c1 [|c2 [|c3 [|c4 [|c5 r]]]]]; simpl strncaseeq;
    rewrite ?andb_false_r; try discriminate.
  intros H.
  assert (K : Ascii.eqb (HX_toupper c1) "B" = true
              /\ Ascii.eqb (HX_toupper c2) "O" = true
              /\ Ascii.eqb (HX_toupper c3) "D" = true
              /\ Ascii.eqb (HX_toupper c4) "Y" = true).
  { apply orb_true_iff in H as [H|H];
      apply andb_true_iff in H as [H1 H]; apply andb_true_iff in H as [H2 H];
      apply andb_true_iff in H as [H3 H]; apply andb_true_iff in H as [H4 _];
      auto. }
  destruct K as (H1 & H2 & H3 & H4).
  split; [simpl; lia|]. intros lb. simpl strchr.
  rewrite (not_bracket c1 _ H1), (not_bracket c2 _ H2),
    (not_bracket c3 _ H3), (not_bracket c4 _ H4) by discriminate.
  destruct (Ascii.eqb c5 "[").
  - intros E. injection E as <-. lia.
  - destruct (strchr r "["); intros E; [injection E as <-; lia|discriminate].
Qed.

(** Cutting a text behind its first [m] characters leaves a comparison
    of these characters as it was. *)
Lemma strncaseeq_keep_app (s t p : string) (m n : nat) :
  (m <= n)%nat -> (m <= String.length s)%nat ->
  strncaseeq (keep n s +:+ t) p m = strncaseeq s p m.
Proof.
  revert s p n. induction m as [|m IH]; intros s p n Hn Hs; [reflexivity|].
  destruct s as [|x s]; [simpl in Hs; lia|].
  destruct n as [|n]; [lia|].
  change (keep (S n) (String x s) +:+ t) with (String x (keep n s +:+ t)).
  destruct p as [|y p]; [reflexivity|]. cbn [strncaseeq].
  rewrite IH; [reflexivity|lia|simpl in Hs; lia].
Qed.

Section Render.
Variables FLAG_RECENT FLAG_ANSWERED FLAG_FLAGGED FLAG_DELETED
          FLAG_SEEN FLAG_DRAFT FLAG_LOADED : Z.
Variable match_field :
  string -> string -> Z -> Z -> bool -> string -> Z -> Z -> option string.

Local Abbreviation mark := (mark_seen FLAG_SEEN).
Local Abbreviation keyword :=
  (fetch_keyword FLAG_RECENT FLAG_ANSWERED FLAG_FLAGGED FLAG_DELETED
     FLAG_SEEN FLAG_DRAFT match_field).
Local Abbreviation keywords :=
  (fetch_keywords FLAG_RECENT FLAG_ANSWERED FLAG_FLAGGED FLAG_DELETED
     FLAG_SEEN FLAG_DRAFT match_field).

Lemma structure_text_calls (ctx : fetch_ctx) (mjson : MJSON) (b_ext : bool) :
  Forall (is_build ctx) (snd (structure_text ctx mjson b_ext)).
Proof.
  unfold structure_text.
  destruct (rfc822_check mjson); [|constructor].
  destruct (String.length _ <=? 0)%nat; [constructor|].
  destruct (negb _); repeat constructor.
Qed.

(** The in-place trim of the octet range keeps the keyword's prefix, and
    the only call of the branch is [rfc822_build]. *)
Lemma fetch_body_item_spec (ctx : fetch_ctx) (mjson : MJSON)
    (kw kw' text : string) (calls : list event) :
  is_body_item kw = true ->
  fetch_body_item match_field ctx mjson kw = inr (kw', text, calls) ->
  strncaseeq kw' "BODY[" 5 = strncaseeq kw "BODY[" 5
  /\ Forall (is_build ctx) calls.
Proof.
  intros Hb. destruct (body_item_shape kw Hb) as [Hlen Hlb].
  unfold fetch_body_item.
  destruct (strchr kw "[") as [lb|] eqn:Elb; [|discriminate].
  specialize (Hlb lb eq_refl).
  destruct (strchr (skip (S lb) kw) "]") as [k|]; [|discriminate].
  set (pdot := if Ascii.eqb _ "<" then _ else None).
  set (kw1 := match pdot with Some d => _ | None => kw end).
  assert (Hk : strncaseeq kw1 "BODY[" 5 = strncaseeq kw "BODY[" 5).
  { subst kw1. destruct pdot as [d|]; [|reflexivity].
    apply strncaseeq_keep_app; lia. }
  destruct (first_nonnum _) as [[|i]|];
    match goal with
    | |- context [if ?c then _ else _] => destruct c
    end;
    try match goal with
    | |- context [if ?c then _ else _] => destruct c
    end;
    try match goal with
    | |- context [if ?c then _ else _] => destruct c
    end;
    intros H; injection H as <- _ <-; (split; [exact Hk|]);
    repeat constructor.
Qed.

(** One keyword records the calls to [rfc822_build], if any, and then
    runs the [\Seen] block exactly when it is [RFC822], [RFC822.TEXT] or
    starts with [BODY[]. *)
Lemma fetch_keyword_state (ctx : fetch_ctx) (mjson : MJSON) (pitem : MITEM)
    (kw : string) (st : fstate) (kw' text : string) (st' : fstate) :
  keyword ctx mjson pitem kw st = inr (kw', text, st') ->
  exists calls,
    Forall (is_build ctx) calls
    /\ st' = if seen_trigger kw then mark ctx pitem (record st calls)
             else record st calls.
Proof.
  unfold fetch_keyword, seen_trigger.
  assert (Q : forall k, strcaseeq kw k = true ->
            strcaseeq k "RFC822" || strcaseeq k "RFC822.TEXT"
            || strncaseeq k "BODY[" 5 = false ->
            strcaseeq kw "RFC822" || strcaseeq kw "RFC822.TEXT"
            || strncaseeq kw "BODY[" 5 = false).
  { intros k E H.
    now rewrite !(strcaseeq_compat _ _ _ E), (strncaseeq_compat _ _ _ _ E). }
  assert (N : forall s, st' = s -> exists calls,
            Forall (is_build ctx) calls
            /\ st' = record s calls).
  { intros s ->. exists []. split; [constructor|now rewrite record_nil]. }
  destruct (strcaseeq kw "BODY") eqn:E1.
  { rewrite (Q "BODY" E1 eq_refl).
    pose proof (structure_text_calls ctx mjson false) as Hc.
    destruct (structure_text ctx mjson false) as [t c].
    intros H; injection H as _ _ <-. now exists c. }
  destruct (strcaseeq kw "BODYSTRUCTURE") eqn:E2.
  { rewrite (Q "BODYSTRUCTURE" E2 eq_refl).
    pose proof (structure_text_calls ctx mjson true) as Hc.
    destruct (structure_text ctx mjson true) as [t c].
    intros H; injection H as _ _ <-. now exists c. }
  destruct (strcaseeq kw "ENVELOPE") eqn:E3.
  { rewrite (Q "ENVELOPE" E3 eq_refl).
    intros H; injection H as _ _ <-. now apply N. }
  destruct (strcaseeq kw "FLAGS") eqn:E4.
  { rewrite (Q "FLAGS" E4 eq_refl).
    intros H; injection H as _ _ <-. now apply N. }
  destruct (strcaseeq kw "INTERNALDATE") eqn:E5.
  { rewrite (Q "INTERNALDATE" E5 eq_refl).
    intros H; injection H as _ _ <-. now apply N. }
  destruct (strcaseeq kw "RFC822") eqn:E6.
  { cbn [orb]. intros H; injection H as _ _ <-.
    exists []. split; [constructor|now rewrite record_nil]. }
  destruct (strcaseeq kw "RFC822.HEADER") eqn:E7.
  { rewrite (Q "RFC822.HEADER" E7 eq_refl) by now rewrite E6.
    intros H; injection H as _ _ <-. now apply N. }
  destruct (strcaseeq kw "RFC822.SIZE") eqn:E8.
  { rewrite (Q "RFC822.SIZE" E8 eq_refl) by now rewrite E6.
    intros H; injection H as _ _ <-. now apply N. }
  destruct (strcaseeq kw "RFC822.TEXT") eqn:E9.
  { cbn [orb]. intros H; injection H as _ _ <-.
    exists []. split; [constructor|now rewrite record_nil]. }
  destruct (strcaseeq kw "UID") eqn:E10.
  { rewrite (strncaseeq_compat _ _ "BODY[" 5 E10). cbn [orb].
    change (strncaseeq "UID" "BODY[" 5) with false. cbv iota.
    intros H; injection H as _ _ <-. now apply N. }
  cbn [orb].
  destruct (is_body_item kw) eqn:Eb.
  - destruct (fetch_body_item match_field ctx mjson kw)
      as [c|[[k' t'] calls]] eqn:Ef; [discriminate|].
    destruct (fetch_body_item_spec _ _ _ _ _ _ Eb Ef) as [Hp Hc].
    cbv zeta. rewrite Hp.
    intros H; injection H as _ _ <-. now exists calls.
  - unfold is_body_item in Eb. apply orb_false_iff in Eb as [Eb _].
    rewrite Eb. intros H; injection H as _ _ <-. now apply N.
Qed.

Lemma fetch_keywords_cons (ctx : fetch_ctx) (mjson : MJSON) (pitem : MITEM)
    (kw : string) (rest : list string) (b_first : bool) (buff : string)
    (st : fstate) :
  keywords ctx mjson pitem (kw :: rest) b_first buff st
  = let buff := if b_first then buff +:+ " " else buff in
    match keyword ctx mjson pitem kw st with
    | inl code => (kw :: rest, buff, st, Some code)
    | inr (kw', text, st') =>
        let '(rest', buff', st'', code) :=
          keywords ctx mjson pitem rest true (buff +:+ text) st' in
        (kw' :: rest', buff', st'', code)
    end.
Proof. reflexivity. Qed.

(** The only early [return] of the loop carries 1800. *)
Lemma fetch_keyword_code (ctx : fetch_ctx) (mjson : MJSON) (pitem : MITEM)
    (kw : string) (st : fstate) (c : Z) :
  keyword ctx mjson pitem kw st = inl c -> c = 1800.
Proof.
  unfold fetch_keyword.
  destruct (structure_text ctx mjson false) as [t1 c1].
  destruct (structure_text ctx mjson true) as [t2 c2].
  repeat match goal with
         | |- context [if ?x then _ else _] =>
             destruct x; try discriminate
         end.
  unfold fetch_body_item.
  destruct (strchr kw "[") as [lb|]; [|now intros [= <-]].
  destruct (strchr (skip (S lb) kw) "]") as [k|]; [|now intros [= <-]].
  destruct (first_nonnum _) as [[|i]|];
    repeat match goal with
           | |- context [if ?x then _ else _] => destruct x
           end; discriminate.
Qed.

Lemma fetch_keywords_code (ctx : fetch_ctx) (mjson : MJSON) (pitem : MITEM)
    (kws : list string) :
  forall (b_first : bool) (buff : string) (st : fstate)
         (kws' : list string) (buff' : string) (st' : fstate) (c : Z),
    keywords ctx mjson pitem kws b_first buff st = (kws', buff', st', Some c) ->
    c = 1800.
Proof.
  induction kws as [|kw rest IH]; intros b buff st kws' buff' st' c H.
  - discriminate.
  - rewrite fetch_keywords_cons in H. cbv zeta in H.
    destruct (keyword ctx mjson pitem kw st) as [c0|[[kw1 text1] st1]] eqn:Ek.
    + injection H as _ _ _ <-. exact (fetch_keyword_code _ _ _ _ _ _ Ek).
    + destruct (keywords ctx mjson pitem rest true _ st1)
        as [[[r1 b1] s1] c1] eqn:Er.
      injection H as _ _ _ ->. eapply IH. exact Er.
Qed.
End Render.

Section Seen.
Variables FLAG_RECENT FLAG_ANSWERED FLAG_FLAGGED FLAG_DELETED
          FLAG_SEEN FLAG_DRAFT FLAG_LOADED : Z.
Variable match_field :
  string -> string -> Z -> Z -> bool -> string -> Z -> Z -> option string.
Variable load_from_json : MITEM -> string -> option MJSON.
Variable stream_write_ok : string -> bool.
Hypothesis seen_nonzero : FLAG_SEEN <> 0.
Hypothesis seen_not_recent : Z.land FLAG_SEEN FLAG_RECENT = 0.

Local Abbreviation mark := (mark_seen FLAG_SEEN).
Local Abbreviation keyword :=
  (fetch_keyword FLAG_RECENT FLAG_ANSWERED FLAG_FLAGGED FLAG_DELETED
     FLAG_SEEN FLAG_DRAFT match_field).
Local Abbreviation keywords :=
  (fetch_keywords FLAG_RECENT FLAG_ANSWERED FLAG_FLAGGED FLAG_DELETED
     FLAG_SEEN FLAG_DRAFT match_field).
Local Abbreviation process :=
  (imap_cmd_parser_process_fetch_item FLAG_RECENT FLAG_ANSWERED FLAG_FLAGGED
     FLAG_DELETED FLAG_SEEN FLAG_DRAFT FLAG_LOADED match_field
     load_from_json stream_write_ok).

(** Whether a run over [done] makes the [set_flags] call. *)
Definition fires (ctx : fetch_ctx) (bits : Z) (done : list string) : bool :=
  negb (b_readonly ctx) && negb (has_flag bits FLAG_SEEN)
  && existsb seen_trigger done.

(** The state after a run that made the calls [pre], then the [\Seen]
    block if it fired, then the calls [post]. *)
Definition after_run (ctx : fetch_ctx) (pitem : MITEM) (st : fstate)
    (done : list string) (pre post : list event) : fstate :=
  {| cur_bits := if fires ctx (cur_bits st) done
                 then Z.lor (cur_bits st) FLAG_SEEN else cur_bits st;
     events := events st ++ pre
               ++ (if fires ctx (cur_bits st) done
                   then [SetFlags (selected_folder ctx) (mid pitem) FLAG_SEEN;
                         BcastFlags (uid pitem)]
                   else [])
               ++ post |}.

Lemma seen_after_lor (bits : Z) :
  has_flag (Z.lor bits FLAG_SEEN) FLAG_SEEN = true.
Proof.
  unfold has_flag. rewrite land_lor_same.
  now destruct (Z.eqb_spec FLAG_SEEN 0).
Qed.

(** The loop over the keywords [done] it gets through: calls to
    [rfc822_build], and among them the [\Seen] block once if it fires. *)
Lemma fetch_keywords_state (ctx : fetch_ctx) (mjson : MJSON) (pitem : MITEM)
    (kws : list string) :
  forall (b_first : bool) (buff : string) (st : fstate)
         (kws' : list string) (buff' : string) (st' : fstate)
         (code : option Z),
    keywords ctx mjson pitem kws b_first buff st = (kws', buff', st', code) ->
    exists done pre post,
      (code = None -> done = kws)
      /\ Forall (is_build ctx) pre /\ Forall (is_build ctx) post
      /\ st' = after_run ctx pitem st done pre post.
Proof.
  induction kws as [|kw rest IH]; intros b buff st kws' buff' st' code H.
  - simpl in H. injection H as _ _ <- <-. exists [], [], [].
    split; [reflexivity|]. split; [constructor|]. split; [constructor|].
    unfold after_run, fires. cbn [existsb]. rewrite andb_false_r.
    destruct st. simpl. now rewrite app_nil_r.
  - rewrite fetch_keywords_cons in H. cbv zeta in H.
    destruct (keyword ctx mjson pitem kw st) as [c|[[kw1 text1] st1]] eqn:Ek.
    + injection H as _ _ <- <-. exists [], [], [].
      split; [discriminate|]. split; [constructor|]. split; [constructor|].
      unfold after_run, fires. cbn [existsb]. rewrite andb_false_r.
      destruct st. simpl. now rewrite app_nil_r.
    + destruct (keywords ctx mjson pitem rest true _ st1)
        as [[[r1 b1] s1] c1] eqn:Er.
      injection H as _ _ <- <-.
      destruct (IH _ _ _ _ _ _ _ Er) as (done & pre & post & Hd & Hpre & Hpost & ->).
      destruct (fetch_keyword_state _ _ _ _ _ _ _ _ _ _ _ _ _ _ _ Ek)
        as (calls & Hc & ->).
      exists (kw :: done).
      destruct (seen_trigger kw
                && (negb (b_readonly ctx)
                    && negb (has_flag (cur_bits st) FLAG_SEEN))) eqn:Ef.
      * (* this keyword makes the call *)
        apply andb_true_iff in Ef as [Et Ew]. rewrite Et.
        exists calls, (pre ++ post)%list.
        split; [intros E; now rewrite (Hd E)|].
        split; [exact Hc|]. split; [now apply Forall_app|].
        unfold after_run, fires, mark_seen, record.
        cbn [cur_bits events existsb]. rewrite Et, Ew.
        cbn [cur_bits events orb andb]. rewrite seen_after_lor.
        cbn [negb andb]. rewrite andb_false_r. cbn [app].
        f_equal. now rewrite <- !app_assoc.
      * (* it does not *)
        exists (calls ++ pre)%list, post.
        split; [intros E; now rewrite (Hd E)|].
        split; [now apply Forall_app|]. split; [exact Hpost|].
        assert (Es : (if seen_trigger kw then mark ctx pitem (record st calls)
                      else record st calls) = record st calls).
        { destruct (seen_trigger kw); [|reflexivity].
          cbn [andb] in Ef. unfold mark_seen, record. cbn [cur_bits].
          now rewrite Ef. }
        rewrite Es. unfold after_run, fires, record.
        cbn [cur_bits events existsb].
        assert (Eb : negb (b_readonly ctx)
                     && negb (has_flag (cur_bits st) FLAG_SEEN)
                     && (seen_trigger kw || existsb seen_trigger done)
                     = negb (b_readonly ctx)
                       && negb (has_flag (cur_bits st) FLAG_SEEN)
                       && existsb seen_trigger done).
        { destruct (seen_trigger kw); [|reflexivity].
          cbn [andb] in Ef. rewrite Ef. reflexivity. }
        rewrite Eb. f_equal. now rewrite <- !app_assoc.
Qed.

Lemma clear_recent_spec (ctx : fetch_ctx) (pitem : MITEM) (st : fstate) :
  has_flag (cur_bits (clear_recent FLAG_RECENT FLAG_SEEN ctx pitem st))
           FLAG_SEEN
  = has_flag (cur_bits st) FLAG_SEEN
  /\ exists tail,
       events (clear_recent FLAG_RECENT FLAG_SEEN ctx pitem st)
       = (events st ++ tail)%list
       /\ set_flags_calls tail = 0%nat.
Proof.
  unfold clear_recent.
  destruct (negb (b_readonly ctx) && has_flag (cur_bits st) FLAG_RECENT).
  - assert (K : has_flag (Z.land (cur_bits st) (Z.lnot FLAG_RECENT)) FLAG_SEEN
                = has_flag (cur_bits st) FLAG_SEEN).
    { unfold has_flag. now rewrite land_clear_other. }
    destruct (negb (has_flag (Z.land (cur_bits st) (Z.lnot FLAG_RECENT))
                             FLAG_SEEN)); simpl; (split; [exact K|]).
    + eexists. split; reflexivity.
    + exists []. split; [now rewrite app_nil_r|reflexivity].
  - split; [reflexivity|]. exists []. split; [now rewrite app_nil_r|reflexivity].
Qed.

(** The calls of one [process_fetch_item] run: those of the loop over the
    keywords [done] it got through, then calls that are not
    [set_flags]. *)
Lemma process_shape (ctx : fetch_ctx) (b_data : bool) (pitem : MITEM)
    (item_id : Z) (kws : list string) :
  let r := process ctx b_data pitem item_id kws in
  exists (done : list string) (pre post : list event),
    (fst (fst (fst r)) = 0 -> done = kws)
    /\ set_flags_calls pre = 0%nat /\ set_flags_calls post = 0%nat
    /\ snd r
       = (pre
          ++ (if fires ctx (flag_bits pitem) done
              then [SetFlags (selected_folder ctx) (mid pitem) FLAG_SEEN;
                    BcastFlags (uid pitem)]
              else [])
          ++ post)%list
    /\ has_flag (flag_bits (snd (fst (fst r)))) FLAG_SEEN
       = has_flag (flag_bits pitem) FLAG_SEEN || fires ctx (flag_bits pitem) done.
Proof.
  intros r. subst r. unfold imap_cmd_parser_process_fetch_item.
  destruct (if has_flag (flag_bits pitem) FLAG_LOADED then _ else _)
    as [mjson|].
  2:{ exists [], [], []. unfold fires. cbn [existsb fst snd].
      rewrite andb_false_r, orb_false_r. repeat split; auto. discriminate. }
  set (st0 := {| cur_bits := flag_bits pitem; events := [] |}).
  destruct (keywords ctx mjson pitem kws false _ st0)
    as [[[kws' buff] st] code] eqn:Ek.
  destruct (fetch_keywords_state _ _ _ _ _ _ _ _ _ _ _ Ek)
    as (done & pre & post & Hd & Hpre & Hpost & ->).
  assert (Hbits : has_flag (cur_bits (after_run ctx pitem st0 done pre post))
                    FLAG_SEEN
                  = has_flag (flag_bits pitem) FLAG_SEEN
                    || fires ctx (flag_bits pitem) done).
  { unfold after_run. cbn [cur_bits]. subst st0. cbn [cur_bits].
    destruct (fires ctx (flag_bits pitem) done) eqn:Ef.
    - rewrite seen_after_lor. now rewrite orb_true_r.
    - now rewrite orb_false_r. }
  pose proof (builds_no_set_flags ctx pre Hpre) as Cpre.
  pose proof (builds_no_set_flags ctx post Hpost) as Cpost.
  destruct code as [c|].
  { exists done, pre, post. cbn [fst snd].
    split.
    { intros ->.
      now pose proof (fetch_keywords_code _ _ _ _ _ _ _ _ _ _ _ _ _ _ _ _ _ _ Ek). }
    split; [exact Cpre|]. split; [exact Cpost|].
    split; [reflexivity|exact Hbits]. }
  destruct (negb (stream_write_ok _)).
  { exists done, pre, post. cbn [fst snd].
    split; [discriminate|].
    split; [exact Cpre|]. split; [exact Cpost|].
    split; [reflexivity|exact Hbits]. }
  set (stw := {| cur_bits := _; events := _ |}).
  destruct (clear_recent_spec ctx pitem stw) as [Hf (tail & Ht' & Hc)].
  exists done, pre, (post ++ StreamWrite (buff +:+ ")" +:+ CRLF) :: tail)%list.
  cbn [fst snd].
  split; [intros _; now apply Hd|].
  split; [exact Cpre|]. split.
  { rewrite set_flags_calls_app, Cpost. exact Hc. }
  split.
  - rewrite Ht'. subst stw. cbn [events after_run]. subst st0.
    cbn [events cur_bits app]. rewrite <- !app_assoc. reflexivity.
  - cbn [set_bits flag_bits]. rewrite Hf. subst stw. cbn [cur_bits].
    exact Hbits.
Qed.

(** C3, as the code has it.  On a mailbox that is not read-only, when a
    FETCH response is produced (the function returns 0): the run makes
    exactly one [set_flags] call if the message did not carry [\Seen] and
    the data-item list holds [RFC822], [RFC822.TEXT] or an item that
    starts with [BODY[], and none otherwise; the call is for [\Seen] on
    this message and is followed at once by the broadcast of its UID to
    the notification hub; the message carries [\Seen] afterwards exactly
    when it did before or the list holds such an item; and once it carries
    [\Seen], processing it again makes no call.  [BODY.PEEK[...]],
    [RFC822.HEADER] and [RFC822.SIZE] are not among the triggering
    items. *)
Theorem C3_seen_set_once_by_body_reads :
  forall (ctx : fetch_ctx) (b_data : bool) (pitem : MITEM) (item_id : Z)
         (kws : list string) (pitem' : MITEM) (kws' : list string)
         (evs : list event),
    b_readonly ctx = false ->
    process ctx b_data pitem item_id kws = (0, pitem', kws', evs) ->
    let fired := negb (has_flag (flag_bits pitem) FLAG_SEEN)
                 && existsb seen_trigger kws in
    set_flags_calls evs = (if fired then 1 else 0)%nat
    /\ (fired = true ->
        exists pre post,
          evs = (pre ++ [SetFlags (selected_folder ctx) (mid pitem) FLAG_SEEN;
                         BcastFlags (uid pitem)] ++ post)%list
          /\ set_flags_calls pre = 0%nat /\ set_flags_calls post = 0%nat)
    /\ has_flag (flag_bits pitem') FLAG_SEEN
       = has_flag (flag_bits pitem) FLAG_SEEN || existsb seen_trigger kws
    /\ (has_flag (flag_bits pitem') FLAG_SEEN = true ->
        forall (b2 : bool) (id2 : Z) (kws2 : list string),
          set_flags_calls (snd (process ctx b2 pitem' id2 kws2)) = 0%nat)
    /\ (forall kw,
          strncaseeq kw "BODY.PEEK[" 10 = true
          \/ strcaseeq kw "RFC822.HEADER" = true
          \/ strcaseeq kw "RFC822.SIZE" = true ->
          seen_trigger kw = false).
Proof.
  intros ctx b_data pitem item_id kws pitem' kws' evs Hrw H fired.
  destruct (process_shape ctx b_data pitem item_id kws)
    as (done & pre & post & Hd & Cpre & Cpost & Hev & Hf).
  rewrite H in Hd, Hev, Hf. cbn [fst snd] in Hd, Hev, Hf.
  rewrite (Hd eq_refl) in Hev, Hf. clear Hd.
  assert (Efire : fires ctx (flag_bits pitem) kws = fired).
  { unfold fires. now rewrite Hrw. }
  rewrite Efire in Hev, Hf.
  split; [|split; [|split; [|split]]].
  - rewrite Hev, !set_flags_calls_app, Cpre, Cpost.
    now destruct fired.
  - intros Ef. rewrite Ef in Hev. now exists pre, post.
  - rewrite Hf. subst fired.
    now destruct (has_flag (flag_bits pitem) FLAG_SEEN),
      (existsb seen_trigger kws).
  - intros Hs b2 id2 kws2.
    destruct (process_shape ctx b2 pitem' id2 kws2)
      as (done2 & pre2 & post2 & _ & Npre & Npost & Hev2 & _).
    rewrite Hev2, !set_flags_calls_app, Npre, Npost.
    unfold fires. rewrite Hs. cbn [negb andb].
    now rewrite andb_false_r.
  - intros kw Hk. unfold seen_trigger.
    destruct Hk as [Hk|[Hk|Hk]].
    + assert (Hb : is_body_item kw = true)
        by (unfold is_body_item; now rewrite Hk, orb_true_r).
      rewrite !(body_item_not kw _ Hb) by reflexivity. cbn [orb].
      destruct kw as [|c1 [|c2 [|c3 [|c4 [|c5 r]]]]]; simpl in Hk |- *;
        rewrite ?andb_false_r in *; try discriminate.
      apply andb_true_iff in Hk as [_ Hk]. apply andb_true_iff in Hk as [_ Hk].
      apply andb_true_iff in Hk as [_ Hk]. apply andb_true_iff in Hk as [_ Hk].
      apply andb_true_iff in Hk as [H5 _]. apply Ascii.eqb_eq in H5.
      rewrite H5. now rewrite !andb_false_r.
    + now rewrite !(strcaseeq_compat _ _ _ Hk), (strncaseeq_compat _ _ _ _ Hk).
    + now rewrite !(strcaseeq_compat _ _ _ Hk), (strncaseeq_compat _ _ _ _ Hk).
Qed.
End Seen.

(** Sample collaborators: the flag bits of the MIDB agent, a header reader
    that finds nothing, a digest that loads as the empty digest, a stream
    that accepts every write. *)
Definition no_field (_ _ : string) (_ _ : Z) (_ : bool) (_ : string)
    (_ _ : Z) : option string := None.

Definition sample_digest : MJSON := {|
  view := {| get_mime := fun _ => Some {| get_head_offset := 0;
                                          get_head_length := 120;
                                          get_content_offset := 120;
                                          get_content_length := 880;
                                          get_entire_length := 1000 |};
             get_mail_filename := "1700000000.5.mx" |};
  get_mail_length := 1000;
  rfc822_check := false;
  rfc822_build := fun _ => false;
  rfc822_fetch := fun _ _ => None;
  fetch_structure := fun _ => None;
  fetch_envelope := None;
  internaldate := "INTERNALDATE " +:+ String "034" "14-Nov-2023 22:13:20 +0000"
                  +:+ String "034" "";
  rfc822_get := fun _ _ => None
|}.

Definition sample_process :=
  imap_cmd_parser_process_fetch_item 1 2 4 8 16 32 128 no_field
    (fun _ _ => Some sample_digest) (fun _ => true).

Definition sample_ctx : fetch_ctx :=
  {| maildir := "/var/lib/gromox/user/1"; selected_folder := "inbox";
     b_readonly := false |}.

Definition sample_item : MITEM :=
  {| uid := 7; mid := "1700000000.5.mx"; flag_bits := 128; id := 1 |}.

(** C3 on [UID BODY[]<0.100>] for an unseen message of a writable
    mailbox: one [set_flags] call. *)
Lemma C3_witness :
  (16 <> 0 /\ Z.land 16 1 = 0)
  /\ set_flags_calls
       [SetFlags "inbox" "1700000000.5.mx" 16; BcastFlags 7;
        StreamWrite ("* 1 FETCH (UID 7 BODY[]<0> <<{file}1700000000.5.mx|0|100"
                     +:+ CRLF +:+ ")" +:+ CRLF)] = 1%nat.
Proof.
  assert (H16 : 16 <> 0) by lia.
  assert (Hd : Z.land 16 1 = 0) by reflexivity.
  split; [split; assumption|].
  destruct (C3_seen_set_once_by_body_reads 1 2 4 8 16 32 128 no_field
              (fun _ _ => Some sample_digest) (fun _ => true) H16 Hd
              sample_ctx true sample_item 1 ["UID"; "BODY[]<0.100>"]
              {| uid := 7; mid := "1700000000.5.mx"; flag_bits := 144;
                 id := 1 |}
              ["UID"; "BODY[]<0>"]
              [SetFlags "inbox" "1700000000.5.mx" 16; BcastFlags 7;
               StreamWrite
                 ("* 1 FETCH (UID 7 BODY[]<0> <<{file}1700000000.5.mx|0|100"
                  +:+ CRLF +:+ ")" +:+ CRLF)]
              eq_refl eq_refl) as (H & _).
  exact H.
Defined.

(** C3 as stated fails for [RFC822.HEADER], an item of the RFC822 family:
    on a writable mailbox, for a message without [\Seen], the response is
    produced, no [set_flags] call is made and the flags stay as they
    were. *)
Lemma C3_counterexample :
  let r := sample_process sample_ctx true sample_item 1
             ["UID"; "RFC822.HEADER"] in
  b_readonly sample_ctx = false
  /\ has_flag (flag_bits sample_item) 16 = false
  /\ fst (fst (fst r)) = 0
  /\ set_flags_calls (snd r) = 0%nat
  /\ snd (fst (fst r)) = sample_item.
Proof. vm_compute. repeat split; reflexivity. Qed.


End FetchItemProps.

(** ** The octet range of [BODY[section]<offset.length>] as the request has it *)

Module OctetRangeProps.
Import Fetch.

(** A message of nine octets: four of header, five of content. *)
Definition short_digest : MJSON := {|
  view := {| get_mime := fun i => if streq i "" then
                                    Some {| get_head_offset := 0;
                                            get_head_length := 4;
                                            get_content_offset := 4;
                                            get_content_length := 5;
                                            get_entire_length := 9 |}
                                  else None;
             get_mail_filename := "1700000000.5.mx" |};
  get_mail_length := 9;
  rfc822_check := false;
  rfc822_build := fun _ => false;
  rfc822_fetch := fun _ _ => None;
  fetch_structure := fun _ => None;
  fetch_envelope := None;
  internaldate := "";
  rfc822_get := fun _ _ => None
|}.

(** The message is loaded and already carries [\Seen]. *)
Definition short_item : MITEM :=
  {| uid := 7; mid := "1700000000.5.mx"; flag_bits := 144; id := 1 |}.

Definition short_fetch (pitem_list : list string) :=
  imap_cmd_parser_process_fetch_item 1 2 4 8 16 32 128
    FetchItemProps.no_field (fun _ _ => Some short_digest) (fun _ => true)
    FetchItemProps.sample_ctx true short_item 1 pitem_list.

(** C8.  The octet range of a [BODY[section]<offset.length>] item is read
    with [strtol] in base 0, so an offset written with a leading zero is
    taken as octal.  On a message of nine octets [BODY[]<10.5>] gives
    [NIL], as an offset beyond the part must.  The parser accepts
    [BODY[]<010.5>] and [BODY[]<09.5>] as well; for the first the
    renderer uses offset 8 and announces one octet, for the second it
    uses offset 0 and announces five, where the offsets 10 and 9 lie at
    or beyond the end of the part and [NIL] is due. *)
Theorem C8_leading_zero_offset_is_read_in_octal :
  imap_cmd_parser_parse_fetch_args tokenize "BODY[]<010.5>"
  = Some (["UID"; "BODY[]<010.5>"], true, true)
  /\ imap_cmd_parser_parse_fetch_args tokenize "BODY[]<09.5>"
     = Some (["UID"; "BODY[]<09.5>"], true, true)
  /\ strtol0 "10.5>" = 10 /\ strtol0 "010.5>" = 8 /\ strtol0 "09.5>" = 0
  /\ short_fetch ["UID"; "BODY[]<10.5>"]
     = (0, short_item, ["UID"; "BODY[]<10>"],
        [StreamWrite ("* 1 FETCH (UID 7 BODY[]<10> NIL)" +:+ CRLF)])
  /\ short_fetch ["UID"; "BODY[]<010.5>"]
     = (0, short_item, ["UID"; "BODY[]<010>"],
        [StreamWrite ("* 1 FETCH (UID 7 BODY[]<010> <<{file}1700000000.5.mx|8|1"
                      +:+ CRLF +:+ ")" +:+ CRLF)])
  /\ short_fetch ["UID"; "BODY[]<09.5>"]
     = (0, short_item, ["UID"; "BODY[]<09>"],
        [StreamWrite ("* 1 FETCH (UID 7 BODY[]<09> <<{file}1700000000.5.mx|0|5"
                      +:+ CRLF +:+ ")" +:+ CRLF)]).
Proof. repeat split; vm_compute; reflexivity. Qed.

(** With the offsets in octal digits the reading is that of the octal
    numeral, whatever follows the digits. *)
Remark strtol0_leading_zero (s : string) :
  strtol0 (String "0" s) = Z.min (digits_val 8 s 0) (2 ^ 63 - 1).
Proof. reflexivity. Qed.

End OctetRangeProps.

(** ** Folder names: what survives the round trip *)

Module NameCodecProps.
Import NameCodec FetchArgsProps.

Lemma hex_pair (c : ascii) :
  let n := nat_of_ascii c in
  hex_value (hex_digit (n / 16)) = Some (n / 16)%nat
  /\ hex_value (hex_digit (n mod 16)) = Some (n mod 16)%nat.
Proof.
  destruct c as [[] [] [] [] [] [] [] []]; vm_compute; split; reflexivity.
Qed.

(** Decoding undoes encoding, for every byte string. *)
Lemma decode_encode (s : string) :
  decode_hex_binary (encode_hex_binary s) = Some s.
Proof.
  induction s as [|c s IH]; [reflexivity|].
  cbn [encode_hex_binary decode_hex_binary].
  destruct (hex_pair c) as [-> ->]. rewrite IH.
  do 2 f_equal.
  rewrite <- (ascii_nat_embedding c) at 3. f_equal.
  pose proof (Nat.div_mod_eq (nat_of_ascii c) 16). lia.
Qed.

Definition is_hex_char (c : ascii) : bool :=
  match hex_value c with Some _ => true | None => false end.

Fixpoint all_hex (s : string) : bool :=
  match s with
  | EmptyString => true
  | String c s' => is_hex_char c && all_hex s'
  end.

Lemma encode_all_hex (s : string) : all_hex (encode_hex_binary s) = true.
Proof.
  induction s as [|c s IH]; [reflexivity|].
  cbn [encode_hex_binary all_hex]. unfold is_hex_char.
  destruct (hex_pair c) as [-> ->]. exact IH.
Qed.

(** A hex name is never one of the five reserved identifiers. *)
Lemma encode_not_reserved (s k : string) :
  all_hex k = false -> streq k (encode_hex_binary s) = false.
Proof.
  intros H. unfold streq. destruct (String.eqb_spec k (encode_hex_binary s));
    [|reflexivity].
  subst k. now rewrite encode_all_hex in H.
Qed.

Lemma keep_length (s : string) (n : nat) :
  (String.length s <= n)%nat -> keep n s = s.
Proof.
  revert n. induction s as [|c s IH]; intros n H; destruct n; simpl in *;
    try reflexivity; try lia.
  f_equal. apply IH. lia.
Qed.

Lemma append_cons (c : ascii) (a b : string) :
  String c a +:+ b = String c (a +:+ b).
Proof. reflexivity. Qed.

Lemma append_nil (b : string) : "" +:+ b = b.
Proof. reflexivity. Qed.

Lemma keep_skip (s : string) (k : nat) : keep k s +:+ skip k s = s.
Proof.
  revert k. induction s as [|c s IH]; intros [|k]; simpl; try reflexivity.
  rewrite append_cons. f_equal. apply IH.
Qed.

Lemma length_append (a b : string) :
  String.length (a +:+ b) = (String.length a + String.length b)%nat.
Proof.
  induction a as [|c a IH]; [reflexivity|].
  rewrite append_cons. simpl. now rewrite IH.
Qed.

Lemma strchr_keep (s : string) (c : ascii) (k : nat) :
  strchr s c = Some k -> strchr (keep k s) c = None.
Proof.
  revert k. induction s as [|x s IH]; intros k H; simpl in H; [discriminate|].
  destruct (Ascii.eqb x c) eqn:E.
  - injection H as <-. reflexivity.
  - destruct (strchr s c) as [j|] eqn:Ej; [|discriminate].
    injection H as <-. simpl. rewrite E. now rewrite (IH j eq_refl).
Qed.

Lemma strchr_append (a b : string) (c : ascii) :
  strchr a c = None ->
  strchr (a +:+ b) c
  = match strchr b c with
    | Some j => Some (String.length a + j)%nat
    | None => None
    end.
Proof.
  induction a as [|x a IH]; intros H.
  - rewrite append_nil. now destruct (strchr b c).
  - rewrite append_cons. simpl in *.
    destruct (Ascii.eqb x c); [discriminate|].
    destruct (strchr a c); [discriminate|].
    rewrite (IH eq_refl). now destruct (strchr b c).
Qed.

Lemma strchr_skip (s : string) (c : ascii) (k : nat) :
  strchr s c = Some k -> strchr (skip k s) c = Some 0%nat.
Proof.
  revert k. induction s as [|x s IH]; intros k H; simpl in H; [discriminate|].
  destruct (Ascii.eqb x c) eqn:E.
  - injection H as <-. simpl. now rewrite E.
  - destruct (strchr s c) as [j|] eqn:Ej; [|discriminate].
    injection H as <-. simpl. now apply IH.
Qed.

Lemma keep_append (a b : string) : keep (String.length a) (a +:+ b) = a.
Proof.
  induction a as [|x a IH]; [now destruct b|].
  rewrite append_cons. simpl. now rewrite IH.
Qed.

Lemma skip_append (a b : string) : skip (String.length a) (a +:+ b) = b.
Proof.
  induction a as [|x a IH]; [reflexivity|].
  rewrite append_cons. simpl. exact IH.
Qed.

Lemma strchr_bound (s : string) (c : ascii) (k : nat) :
  strchr s c = Some k -> (k < String.length s)%nat.
Proof.
  revert k. induction s as [|x s IH]; intros k H; simpl in H; [discriminate|].
  destruct (Ascii.eqb x c).
  - injection H as <-. simpl. lia.
  - destruct (strchr s c) as [j|]; [|discriminate].
    injection H as <-. simpl. specialize (IH j eq_refl). lia.
Qed.

Lemma keep_length_le (s : string) (n : nat) :
  (String.length (keep n s) <= n)%nat
  /\ (String.length (keep n s) <= String.length s)%nat.
Proof.
  revert n. induction s as [|c s IH]; intros [|n]; simpl; try lia.
  specialize (IH n). lia.
Qed.

Lemma skip_length (s : string) (n : nat) :
  String.length (skip n s) = (String.length s - n)%nat.
Proof.
  revert n. induction s as [|c s IH]; intros [|n]; simpl; try lia.
  apply IH.
Qed.

Lemma keep_at (s : string) (c : ascii) (k : nat) :
  strchr s c = Some k -> String.length (keep k s) = k.
Proof.
  revert k. induction s as [|x s IH]; intros k H; simpl in H; [discriminate|].
  destruct (Ascii.eqb x c).
  - now injection H as <-.
  - destruct (strchr s c) as [j|]; [|discriminate].
    injection H as <-. simpl. now rewrite (IH j eq_refl).
Qed.

Lemma last_char_keep (s : string) :
  (0 <? String.length s)%nat && Ascii.eqb (last_char s) "/" = false ->
  strip_slash s = s.
Proof. intros H. unfold strip_slash. now rewrite H. Qed.

Section RoundTrip.
Variable mutf7_to_utf8 : string -> Z * string.
Variable utf8_to_mutf7 : string -> Z * string.
Variable foldername_get : string -> special_fid -> option string.
Variable lang : string.

Local Abbreviation named := (is_name foldername_get lang).

(** The replacement of the first path component on the way in. *)
Definition to_sys (frag : string) : string :=
  if strcaseeq frag "INBOX" then "inbox"
  else if named PRIVATE_FID_DRAFT frag then "draft"
  else if named PRIVATE_FID_SENT_ITEMS frag then "sent"
  else if named PRIVATE_FID_DELETED_ITEMS frag then "trash"
  else if named PRIVATE_FID_JUNK frag then "junk"
  else frag.

(** And on the way back. *)
Definition to_imap (frag : string) : string :=
  let name (fid : special_fid) :=
    gx_strlcpy 512 (znul (foldername_get lang fid)) in
  if streq frag "inbox" then "INBOX"
  else if streq frag "draft" then name PRIVATE_FID_DRAFT
  else if streq frag "sent" then name PRIVATE_FID_SENT_ITEMS
  else if streq frag "trash" then name PRIVATE_FID_DELETED_ITEMS
  else if streq frag "junk" then name PRIVATE_FID_JUNK
  else frag.

(** First components that survive: [INBOX] spelled so, a display name of
    a special folder, or a name that is neither a case variant of inbox nor
    one of the reserved identifiers. *)
Definition stable_fragment (frag : string) : Prop :=
  (strcaseeq frag "INBOX" = true -> frag = "INBOX")
  /\ (strcaseeq frag "INBOX" = false ->
      named PRIVATE_FID_DRAFT frag = false ->
      named PRIVATE_FID_SENT_ITEMS frag = false ->
      named PRIVATE_FID_DELETED_ITEMS frag = false ->
      named PRIVATE_FID_JUNK frag = false ->
      special_folder frag = false).

Lemma named_eq (fid : special_fid) (frag : string) :
  named fid frag = true -> foldername_get lang fid = Some frag.
Proof.
  unfold is_name. destruct (foldername_get lang fid) as [s|]; [|discriminate].
  unfold streq. intros H. apply String.eqb_eq in H. now subst.
Qed.

Lemma strlcpy_short (s : string) :
  (String.length s < 512)%nat -> gx_strlcpy 512 s = s.
Proof. intros H. unfold gx_strlcpy. apply keep_length. lia. Qed.

Lemma snprintf_short (s : string) :
  (String.length s < 512)%nat -> gx_snprintf 512 s = s.
Proof. intros H. unfold gx_snprintf. apply keep_length. lia. Qed.

Lemma special_folder_false (frag : string) :
  special_folder frag = false ->
  streq frag "inbox" = false /\ streq frag "draft" = false
  /\ streq frag "sent" = false /\ streq frag "trash" = false
  /\ streq frag "junk" = false.
Proof.
  unfold special_folder, g_folder_list. cbn [existsb].
  intros H. apply orb_false_iff in H as [Hi H].
  repeat (apply orb_false_iff in H as [? H]).
  repeat split; try assumption.
  unfold streq. destruct (String.eqb_spec frag "inbox"); [|reflexivity].
  subst. discriminate.
Qed.

Lemma to_imap_to_sys (frag : string) :
  stable_fragment frag -> (String.length frag < 512)%nat ->
  to_imap (to_sys frag) = frag.
Proof.
  intros [Hin Hus] Hlen. unfold to_sys.
  destruct (strcaseeq frag "INBOX") eqn:Ei.
  { now rewrite (Hin eq_refl). }
  destruct (named PRIVATE_FID_DRAFT frag) eqn:E1.
  { unfold to_imap. cbn. rewrite (named_eq _ _ E1). cbn [znul].
    now apply strlcpy_short. }
  destruct (named PRIVATE_FID_SENT_ITEMS frag) eqn:E2.
  { unfold to_imap. cbn. rewrite (named_eq _ _ E2). cbn [znul].
    now apply strlcpy_short. }
  destruct (named PRIVATE_FID_DELETED_ITEMS frag) eqn:E3.
  { unfold to_imap. cbn. rewrite (named_eq _ _ E3). cbn [znul].
    now apply strlcpy_short. }
  destruct (named PRIVATE_FID_JUNK frag) eqn:E4.
  { unfold to_imap. cbn. rewrite (named_eq _ _ E4). cbn [znul].
    now apply strlcpy_short. }
  destruct (special_folder_false frag (Hus eq_refl eq_refl eq_refl eq_refl
                                         eq_refl))
    as (H1 & H2 & H3 & H4 & H5).
  unfold to_imap. now rewrite H1, H2, H3, H4, H5.
Qed.

Lemma to_sys_cases (frag : string) :
  to_sys frag = frag
  \/ In (to_sys frag) ["inbox"; "draft"; "sent"; "trash"; "junk"].
Proof.
  unfold to_sys.
  repeat match goal with
         | |- context [if ?c then _ else _] => destruct c
         end; simpl; auto 10.
Qed.

Lemma to_sys_noslash (frag : string) :
  strchr frag "/" = None -> strchr (to_sys frag) "/" = None.
Proof.
  intros H. destruct (to_sys_cases frag) as [->|Hin]; [assumption|].
  simpl in Hin. decompose [or] Hin; try contradiction;
    match goal with E : _ = to_sys frag |- _ => rewrite <- E end; reflexivity.
Qed.

Lemma to_sys_length (frag : string) :
  (String.length (to_sys frag) <= 5 + String.length frag)%nat.
Proof.
  destruct (to_sys_cases frag) as [->|Hin]; [lia|].
  simpl in Hin. decompose [or] Hin; try contradiction;
    match goal with E : _ = to_sys frag |- _ => rewrite <- E end; simpl; lia.
Qed.

Local Abbreviation to_sysfolder :=
  (imap_cmd_parser_imapfolder_to_sysfolder mutf7_to_utf8 foldername_get lang).
Local Abbreviation to_imapfolder :=
  (imap_cmd_parser_sysfolder_to_imapfolder utf8_to_mutf7 foldername_get lang).

(** The way back from the hex form of [to_sys frag +:+ rest]. *)
Lemma back_from_hex (frag rest x : string) (m : Z) :
  stable_fragment frag -> strchr frag "/" = None ->
  (rest = "" \/ strchr rest "/" = Some 0%nat) ->
  (String.length (frag +:+ rest) < 512)%nat ->
  utf8_to_mutf7 (frag +:+ rest) = (m, x) -> 0 < m ->
  to_imapfolder (encode_hex_binary (to_sys frag +:+ rest)) = Some x.
Proof.
  intros Hst Hns Hrest Hlen Henc Hm.
  unfold imap_cmd_parser_sysfolder_to_imapfolder.
  rewrite !encode_not_reserved by reflexivity.
  rewrite decode_encode.
  pose proof (to_sys_noslash frag Hns) as Hns'.
  rewrite length_append in Hlen.
  assert (Hfl : (String.length frag < 512)%nat) by lia.
  fold (to_imap (left_of (strchr (to_sys frag +:+ rest) "/")
                         (to_sys frag +:+ rest))).
  destruct Hrest as [->|Hr].
  - assert (E : to_sys frag +:+ "" = to_sys frag).
    { clear. induction (to_sys frag) as [|c s IH]; [reflexivity|].
      rewrite append_cons. now rewrite IH. }
    assert (E' : frag +:+ "" = frag).
    { clear. induction frag as [|c s IH]; [reflexivity|].
      rewrite append_cons. now rewrite IH. }
    rewrite E, Hns'. rewrite E' in Henc. unfold left_of.
    pose proof (to_sys_length frag).
    rewrite strlcpy_short.
    2:{ destruct (to_sys_cases frag) as [->|Hin]; [assumption|].
        simpl in Hin. decompose [or] Hin; try contradiction;
          match goal with E : _ = to_sys frag |- _ => rewrite <- E end;
          simpl; lia. }
    rewrite (to_imap_to_sys frag Hst Hfl), Henc. simpl.
    destruct (Z.leb_spec m 0); [lia|reflexivity].
  - rewrite (strchr_append _ _ _ Hns'), Hr, Nat.add_0_r.
    unfold left_of. rewrite keep_append, skip_append.
    rewrite (to_imap_to_sys frag Hst Hfl).
    rewrite snprintf_short by (rewrite length_append; lia).
    rewrite Henc. simpl. destruct (Z.leb_spec m 0); [lia|reflexivity].
Qed.

(** C4, as the code has it.  Let [x] be a folder name in canonical MUTF-7
    form ([x] decodes to [u] and [u] encodes back to [x]), [u] of at most
    506 bytes and without a trailing slash, whose first path component is
    [INBOX] spelled exactly so, or the display name of a special folder, or
    a name that is neither a case variant of inbox nor one of [draft],
    [sent], [trash], [junk].  Then converting [x] to the internal name and
    back yields [x]; in particular [INBOX] maps to itself. *)
Theorem C4_round_trip_of_stable_names :
  forall (x u : string) (n m : Z),
    mutf7_to_utf8 x = (n, u) -> 0 <= n ->
    utf8_to_mutf7 u = (m, x) -> 0 < m ->
    snd (utf8_to_mutf7 "INBOX") = "INBOX" ->
    (String.length u <= 506)%nat ->
    (0 <? String.length u)%nat && Ascii.eqb (last_char u) "/" = false ->
    stable_fragment (left_of (strchr u "/") u) ->
    round_trip mutf7_to_utf8 utf8_to_mutf7 foldername_get lang x = Some x.
Proof.
  intros x u n m Hdec Hn Henc Hm Hinbox Hlen Hsl Hst.
  unfold round_trip, imap_cmd_parser_imapfolder_to_sysfolder.
  rewrite Hdec. cbn [fst snd].
  destruct (Z.ltb_spec n 0); [lia|].
  rewrite (last_char_keep u Hsl).
  fold (to_sys (left_of (strchr u "/") u)).
  destruct (strchr u "/") as [k|] eqn:Ek.
  - (* a path with subfolders: always hex *)
    unfold left_of in *.
    pose proof (keep_at _ _ _ Ek) as Hk.
    pose proof (to_sys_length (keep k u)) as Hl.
    pose proof (skip_length u k) as Hs.
    pose proof (strchr_bound _ _ _ Ek) as Hb.
    rewrite snprintf_short by (rewrite length_append; lia).
    apply (back_from_hex (keep k u) (skip k u) x m); try assumption.
    + now apply (strchr_keep u "/" k).
    + right. now apply strchr_skip.
    + rewrite keep_skip. lia.
    + now rewrite keep_skip.
  - (* a single component *)
    unfold left_of in *. rewrite strlcpy_short in * by lia.
    destruct (special_folder (to_sys u)) eqn:Esp.
    + (* taken as a special folder *)
      destruct Hst as [Hin Hus]. unfold to_sys in *.
      destruct (strcaseeq u "INBOX") eqn:Ei.
      { rewrite (Hin eq_refl) in Henc. rewrite Henc in Hinbox.
        simpl in Hinbox. subst x. reflexivity. }
      assert (K : forall fid, named fid u = true ->
                  special_to_imap utf8_to_mutf7 foldername_get lang fid
                  = Some x).
      { intros fid Hf. unfold special_to_imap.
        now rewrite (named_eq _ _ Hf), Henc. }
      destruct (named PRIVATE_FID_DRAFT u) eqn:E1; [exact (K _ E1)|].
      destruct (named PRIVATE_FID_SENT_ITEMS u) eqn:E2; [exact (K _ E2)|].
      destruct (named PRIVATE_FID_DELETED_ITEMS u) eqn:E3; [exact (K _ E3)|].
      destruct (named PRIVATE_FID_JUNK u) eqn:E4; [exact (K _ E4)|].
      rewrite (Hus eq_refl eq_refl eq_refl eq_refl eq_refl) in Esp.
      discriminate.
    + assert (E' : forall s, s +:+ "" = s).
      { clear. induction s as [|c s IH]; [reflexivity|].
        rewrite append_cons. now rewrite IH. }
      rewrite <- (E' (to_sys u)).
      apply (back_from_hex u "" x m); try assumption.
      * now left.
      * rewrite E'. lia.
      * now rewrite E'.
Qed.
End RoundTrip.

(** C4 on [Archive/2023], with the codec for plain ASCII names and the
    English display names. *)
Lemma C4_witness :
  round_trip ascii_codec ascii_codec english_names "en" "Archive/2023"
  = Some "Archive/2023".
Proof.
  apply (C4_round_trip_of_stable_names ascii_codec ascii_codec english_names
           "en" "Archive/2023" "Archive/2023" 12 12);
    try reflexivity; try lia.
  - simpl. lia.
  - split; [discriminate|reflexivity].
Defined.

(** C4 as stated fails.  A top-level folder named [inbox] in lower case
    comes back as [INBOX]; a top-level folder literally named [draft] is
    not hex-encoded but taken as the special folder and comes back as the
    display name [Drafts]; the same holds below such a folder
    ([draft/x] comes back as [Drafts/x]). *)
Lemma C4_counterexample :
  round_trip ascii_codec ascii_codec english_names "en" "inbox"
    = Some "INBOX"
  /\ imap_cmd_parser_imapfolder_to_sysfolder ascii_codec english_names
       "en" "draft" = Some "draft"
  /\ round_trip ascii_codec ascii_codec english_names "en" "draft"
     = Some "Drafts"
  /\ round_trip ascii_codec ascii_codec english_names "en" "draft/x"
     = Some "Drafts/x"
  /\ round_trip ascii_codec ascii_codec english_names "en" "inbox"
     <> Some "inbox".
Proof. repeat split; try (vm_compute; reflexivity). discriminate. Qed.

End NameCodecProps.

(** ** COPY and UID COPY: rollback and replies *)

Module CopyProps.
Import Copy.

Definition quiet (c : call) : Prop :=
  match c with
  | CopyMail _ _ _ _ => False
  | RemoveMail _ _ => False
  | _ => True
  end.

Lemma poll_uid_quiet (env : copy_env) (folder : string) (i : nat)
    (m : string) (n j : nat) :
  Forall quiet (snd (poll_uid env folder i m j n)).
Proof.
  revert j. induction n as [|n IH]; intros j; simpl; [constructor|].
  destruct (get_uid env i j m).
  - simpl. repeat constructor.
  - specialize (IH (S j)). destruct (poll_uid env folder i m (S j) n).
    simpl in *. repeat constructor. exact IH.
Qed.

(** What one run of a copy loop adds to the state: calls [t], all copies
    into [sys]; every destination mid of a successful copy is the mid of an
    item in [xarray[0..i)]; a failure is the last thing recorded. *)
Definition loop_adds (sys : string) (st st' : loop_state)
    (failed : option nat) : Prop :=
  exists t,
    ls_trace st' = (ls_trace st ++ t)%list
    /\ (forall a b d r, In (CopyMail a b d r) t -> d = sys)
    /\ (forall a b d m, In (CopyMail a b d (Some m)) t ->
          In m (map mid (ls_seen st')))
    /\ (forall f l, ~ In (RemoveMail f l) t)
    /\ incl (ls_seen st) (ls_seen st')
    /\ (Forall (fun it => uid it <> 0) (ls_seen st) ->
        Forall (fun it => uid it <> 0) (ls_seen st'))
    /\ match failed with
       | None => forall a b d, ~ In (CopyMail a b d None) t
       | Some _ => exists a b d, In (CopyMail a b d None) t
       end.

Lemma loop_adds_refl (sys : string) (st : loop_state) :
  loop_adds sys st st None.
Proof.
  exists []. rewrite app_nil_r.
  repeat split; auto; try easy.
Qed.

(** Composition: a step that records [t1] and extends [seen] by items with
    a nonzero UID, followed by a run. *)
Lemma loop_adds_step (sys : string) (st st1 st' : loop_state)
    (failed : option nat) (t1 : list call) (new : list MITEM) :
  ls_trace st1 = (ls_trace st ++ t1)%list ->
  ls_seen st1 = (ls_seen st ++ new)%list ->
  Forall (fun it => uid it <> 0) new ->
  (forall a b d r, In (CopyMail a b d r) t1 -> d = sys) ->
  (forall a b d m, In (CopyMail a b d (Some m)) t1 -> In m (map mid new)) ->
  (forall f l, ~ In (RemoveMail f l) t1) ->
  (forall a b d, ~ In (CopyMail a b d None) t1) ->
  loop_adds sys st1 st' failed ->
  loop_adds sys st st' failed.
Proof.
  intros Ht Hs Hnew Hd Hm Hr Hn (t & Et & Hd' & Hm' & Hr' & Hi & Hu & Hf).
  exists (t1 ++ t)%list.
  split; [now rewrite Et, Ht, app_assoc|].
  split.
  { intros a b d r Hin. apply in_app_or in Hin as [Hin|Hin]; eauto. }
  split.
  { intros a b d m Hin. apply in_app_or in Hin as [Hin|Hin]; [|eauto].
    apply Hm in Hin. apply in_map_iff in Hin as (it & <- & Hit).
    apply in_map. apply Hi. rewrite Hs. apply in_or_app. now right. }
  split.
  { intros f l Hin. apply in_app_or in Hin as [Hin|Hin];
      [eapply Hr|eapply Hr']; eassumption. }
  split.
  { intros x Hx. apply Hi. rewrite Hs. apply in_or_app. now left. }
  split.
  { intros H0. apply Hu. rewrite Hs. apply Forall_app. now split. }
  destruct failed.
  - destruct Hf as (a & b & d & Hin). exists a, b, d.
    apply in_or_app. now right.
  - intros a b d Hin. apply in_app_or in Hin as [Hin|Hin];
      [eapply Hn|eapply Hf]; eassumption.
Qed.

Lemma in_copy_poll (a b d : string) (r : option string) (c : call)
    (t : list call) :
  Forall quiet t -> In (CopyMail a b d r) ([c] ++ t) -> CopyMail a b d r = c.
Proof.
  intros Hq [<-|Hin]; [reflexivity|].
  rewrite Forall_forall in Hq. apply list_elem_of_In in Hin.
  now apply Hq in Hin.
Qed.

Lemma in_remove_poll (f : string) (l : list string) (a b d : string)
    (r : option string) (t : list call) :
  Forall quiet t -> ~ In (RemoveMail f l) ([CopyMail a b d r] ++ t).
Proof.
  intros Hq [E|Hin]; [discriminate|].
  rewrite Forall_forall in Hq. apply list_elem_of_In in Hin.
  now apply Hq in Hin.
Qed.

Lemma uid_copy_loop_adds (env : copy_env) (ctx : copy_ctx) (sys : string)
    (todo : list MITEM) :
  forall (i : nat) (st : loop_state) (failed : option nat) (st' : loop_state),
    Forall (fun it => uid it <> 0) todo ->
    uid_copy_loop env ctx sys todo i st = (failed, st') ->
    loop_adds sys st st' failed.
Proof.
  induction todo as [|pitem rest IH]; intros i st failed st' Hu H.
  - simpl in H. injection H as <- <-. apply loop_adds_refl.
  - inversion Hu as [|? ? Hp Hrest]; subst. cbn [uid_copy_loop] in H.
    destruct (copy_mail env i (mid pitem)) as [dst|] eqn:Ec.
    + assert (K : forall (st1 : loop_state) (t : list call),
                 Forall quiet t ->
                 ls_trace st1
                 = ((ls_trace st
                     ++ [CopyMail (selected_folder ctx) (mid pitem) sys
                           (Some dst)]) ++ t)%list ->
                 ls_seen st1 = (ls_seen st ++ [set_mid pitem dst])%list ->
                 uid_copy_loop env ctx sys rest (S i) st1 = (failed, st') ->
                 loop_adds sys st st' failed).
      { intros st1 t Hq Ht Hs Hl.
        apply (loop_adds_step sys st st1 st' failed
                 ([CopyMail (selected_folder ctx) (mid pitem) sys (Some dst)]
                  ++ t) [set_mid pitem dst]).
        - now rewrite Ht, <- app_assoc.
        - exact Hs.
        - constructor; [exact Hp|constructor].
        - intros a b d r Hin. apply (in_copy_poll _ _ _ _ _ _ Hq) in Hin.
          now injection Hin.
        - intros a b d m Hin. apply (in_copy_poll _ _ _ _ _ _ Hq) in Hin.
          injection Hin as _ _ _ <-. now left.
        - intros f l. now apply in_remove_poll.
        - intros a b d Hin. apply (in_copy_poll _ _ _ _ _ _ Hq) in Hin.
          discriminate.
        - eapply IH; eassumption. }
      destruct (ls_uidvalidity st =? 0).
      * refine (K _ [] _ _ _ H);
          [constructor|simpl; now rewrite app_nil_r|reflexivity].
      * pose proof (poll_uid_quiet env sys i dst 10 0) as Hq.
        destruct (poll_uid env sys i dst 0 10) as [[u|] t]; simpl in Hq;
          cbv beta iota zeta in H; refine (K _ t Hq _ _ H); reflexivity.
    + injection H as <- <-.
      exists [CopyMail (selected_folder ctx) (mid pitem) sys None]. simpl.
      repeat split; auto.
      * intros a b d r [E|[]]. now injection E.
      * intros a b d m [E|[]]. discriminate.
      * intros f l [E|[]]. discriminate.
      * easy.
      * eauto.
Qed.

(** A run of the loop of UID COPY that ends without a failure has made a
    successful copy call for every item it was given. *)
Lemma uid_copy_loop_copies_all (env : copy_env) (ctx : copy_ctx)
    (sys : string) (todo : list MITEM) :
  forall (i : nat) (st st' : loop_state),
    Forall (fun it => uid it <> 0) todo ->
    uid_copy_loop env ctx sys todo i st = (None, st') ->
    forall item, In item todo ->
      exists dst,
        In (CopyMail (selected_folder ctx) (mid item) sys (Some dst))
           (ls_trace st').
Proof.
  induction todo as [|pitem rest IH]; intros i st st' Hu H item Hin;
    [contradiction|].
  inversion Hu as [|? ? Hp Hrest]; subst. cbn [uid_copy_loop] in H.
  destruct (copy_mail env i (mid pitem)) as [dst|]; [|discriminate].
  assert (K : forall st1,
             (exists t, ls_trace st1
                        = (ls_trace st
                           ++ CopyMail (selected_folder ctx) (mid pitem) sys
                                (Some dst) :: t)%list) ->
             uid_copy_loop env ctx sys rest (S i) st1 = (None, st') ->
             exists dst0,
               In (CopyMail (selected_folder ctx) (mid item) sys (Some dst0))
                  (ls_trace st')).
  { intros st1 [t Et] Hl. destruct Hin as [<-|Hin].
    - exists dst. apply uid_copy_loop_adds in Hl as (t' & E' & _);
        [|exact Hrest].
      rewrite E', Et. apply in_or_app. left. apply in_elt.
    - eapply IH; eassumption. }
  destruct (ls_uidvalidity st =? 0).
  - refine (K _ _ H). now exists [].
  - destruct (poll_uid env sys i dst 0 10) as [[u|] t];
      cbv beta iota zeta in H; refine (K _ _ H); exists t; simpl;
      now rewrite <- app_assoc.
Qed.

(** The loop of COPY records fetched items as it goes: what it leaves in
    [seen] is a front part of the XARRAY, with the mids the fetch gave. *)
Lemma copy_loop_seen (env : copy_env) (ctx : copy_ctx) (sys : string)
    (todo : list MITEM) :
  forall (i : nat) (st : loop_state) (failed : option nat) (st' : loop_state),
    copy_loop env ctx sys todo i st = (failed, st') ->
    exists k, ls_seen st' = (ls_seen st ++ firstn k todo)%list.
Proof.
  induction todo as [|xitem rest IH]; intros i st failed st' H.
  - simpl in H. injection H as _ <-. exists 0%nat. simpl.
    now rewrite app_nil_r.
  - cbn [copy_loop] in H.
    assert (K : forall st1,
               ls_seen st1 = (ls_seen st ++ [xitem])%list ->
               copy_loop env ctx sys rest (S i) st1 = (failed, st') ->
               exists k, ls_seen st' = (ls_seen st ++ firstn k (xitem :: rest))%list).
    { intros st1 Es Hl. apply IH in Hl as [k Ek]. exists (S k).
      rewrite Ek, Es, <- app_assoc. reflexivity. }
    destruct (get_itemx (ls_contents st) (uid xitem)) as [[k pitem]|];
      [|refine (K _ _ H); reflexivity].
    destruct (copy_mail env i (mid pitem)) as [dst|].
    + destruct (ls_uidvalidity st =? 0); [refine (K _ _ H); reflexivity|].
      destruct (poll_uid env sys i dst 0 10) as [[u|] t];
        cbv beta iota zeta in H; refine (K _ _ H); reflexivity.
    + injection H as _ <-. exists 0%nat. simpl. now rewrite app_nil_r.
Qed.

(** A run that ended in rollback: the last three calls are the
    [remove_mail] on the destination folder, the stream reset and the
    [NO] line; every destination mid of a successful copy is in the list
    handed to [remove_mail], and none of them is in the destination folder
    afterwards. *)
Definition rolled_back (tag fail_text : string) (BREAK ret : Z)
    (tr : list call) : Prop :=
  exists pre sys L,
    tr = (pre ++ [RemoveMail sys L; StreamClear;
                  StreamWrite (tag +:+ " " +:+ fail_text)])%list
    /\ (forall a b d m, In (CopyMail a b d (Some m)) tr -> d = sys /\ In m L)
    /\ (forall (d0 : gset string) a b m,
          In (CopyMail a b sys (Some m)) tr -> m ∉ folder_after sys tr d0)
    /\ ret = BREAK.

(** A run without a failed copy: no [remove_mail], and an [OK] line. *)
Definition completed (tag ok_text : string) (BREAK ret : Z)
    (tr : list call) : Prop :=
  exists pre rest,
    tr = (pre ++ [StreamClear; EchoModify;
                  StreamWrite (tag +:+ " " +:+ ok_text +:+ rest)])%list
    /\ (forall f l, ~ In (RemoveMail f l) tr)
    /\ ret = BREAK.

(** What a handler run that reached the loop amounts to: a rollback if
    some copy failed, an [OK] otherwise. *)
Definition outcome (tag ok_text fail_text : string) (BREAK : Z)
    (r : Z * list MITEM * list call) : Prop :=
  let '(ret, _, tr) := r in
  ((exists a b d, In (CopyMail a b d None) tr)
   /\ rolled_back tag fail_text BREAK ret tr)
  \/ ((forall a b d, ~ In (CopyMail a b d None) tr)
      /\ completed tag ok_text BREAK ret tr).

Lemma exp_list_all (seen : list MITEM) :
  Forall (fun it => uid it <> 0) seen -> exp_list seen = rev seen.
Proof.
  intros H. unfold exp_list.
  assert (R : Forall (fun it => uid it <> 0) (rev seen)).
  { apply Forall_forall. intros x Hx. rewrite Forall_forall in H.
    apply H. apply list_elem_of_In. apply in_rev.
    now apply list_elem_of_In. }
  induction (rev seen) as [|x l IH]; [reflexivity|].
  inversion R as [|? ? Hx Hl]; subst. simpl.
  destruct (Z.eqb_spec (uid x) 0); [contradiction|]. simpl.
  now rewrite IH.
Qed.

Lemma folder_after_app (sys : string) (a b : list call) (d : gset string) :
  folder_after sys (a ++ b) d = folder_after sys b (folder_after sys a d).
Proof. unfold folder_after. apply fold_left_app. Qed.

Lemma streq_refl (s : string) : streq s s = true.
Proof. unfold streq. apply String.eqb_refl. Qed.

Lemma shape3 (t : list call) (a b c : call) :
  (((t ++ [a]) ++ [b]) ++ [c])%list = (t ++ [a; b; c])%list.
Proof. now rewrite <- !app_assoc. Qed.

Lemma in_tail3 (x : call) (t : list call) (a b c : call) :
  In x (t ++ [a; b; c]) -> In x t \/ x = a \/ x = b \/ x = c.
Proof.
  intros H. apply in_app_or in H as [H|H]; [now left|right].
  simpl in H. intuition.
Qed.

Lemma finish_outcome (BREAK : Z) (code : Z -> Z -> string) (env : copy_env)
    (ctx : copy_ctx) (argv : list string) (sys : string) (ok fail : Z)
    (failed : option nat) (uv : Z) (st : loop_state) (src dst : string)
    (contents' : list MITEM) :
  (forall s, stream_write_ok env s = true) ->
  loop_adds sys (init_state ctx uv) st failed ->
  outcome (arg argv 0) (code ok 1) (code fail 1) BREAK
    (let '(ret, tr) := finish BREAK code env argv sys ok fail failed st src dst
     in (ret, contents', tr)).
Proof.
  intros Hw (t & Et & Hd & Hm & Hr & _ & Hu & Hf).
  simpl in Et. specialize (Hu ltac:(constructor)).
  unfold finish. rewrite Hw. cbn [negb]. rewrite Et.
  destruct failed as [i|]; cbv beta iota zeta; rewrite shape3.
  - left.
    assert (Hin : forall a b d m,
               In (CopyMail a b d (Some m))
                  (t ++ [RemoveMail sys (map mid (exp_list (ls_seen st)));
                         StreamClear;
                         StreamWrite (arg argv 0 +:+ " " +:+ code fail 1)]) ->
               d = sys /\ In m (map mid (exp_list (ls_seen st)))).
    { intros a b d m H. apply in_tail3 in H as [H|[H|[H|H]]];
        try discriminate.
      split; [eapply Hd; eassumption|].
      rewrite (exp_list_all _ Hu), map_rev. apply in_rev.
      rewrite rev_involutive. eapply Hm; eassumption. }
    split.
    { destruct Hf as (a & b & d & H). exists a, b, d.
      apply in_or_app. now left. }
    exists t, sys, (map mid (exp_list (ls_seen st))).
    split; [reflexivity|]. split; [exact Hin|]. split; [|reflexivity].
    intros d0 a b m H. apply Hin in H as [_ H].
    rewrite folder_after_app. unfold folder_after at 1. cbn [fold_left].
    unfold midb_step at 3. rewrite streq_refl. cbn [midb_step].
    intros Hx. apply elem_of_difference in Hx as [_ Hx]. apply Hx.
    apply elem_of_list_to_set. now apply list_elem_of_In.
  - right. split.
    { intros a b d H. apply in_tail3 in H as [H|[H|[H|H]]];
        try discriminate. eapply Hf; eassumption. }
    exists t.
    destruct (negb (ls_uidvalidity st =? 0)); eexists;
      (split; [reflexivity|]); (split; [|reflexivity]);
      intros f l H; apply in_tail3 in H as [H|[H|[H|H]]];
        try discriminate; eapply Hr; eassumption.
Qed.

(** UID COPY hands the XARRAY item itself to the copy call, so the mids
    its rollback names are those of the copies.  Let the command pass the
    argument checks and the fetch, let the fetched items carry nonzero
    UIDs and the reply stream accept the reply.  If some copy call failed,
    the run ends with a [remove_mail] on the destination folder that names
    the destination mid of every copy made, none of which is left in the
    folder, and with [<tag> <text of code 1917>]; if none failed, a copy
    was made of every fetched item, there is no [remove_mail], and the
    reply is [<tag> <text of code 1725>...]. *)
Lemma uid_copy_rolls_back_or_completes :
  forall (DISPATCH_MIDB DISPATCH_BREAK : Z) (code : Z -> Z -> string)
         (parse_imap_seq : string -> option (list SeqSet.range_node))
         (to_sysfolder : string -> string -> option string)
         (env : copy_env) (ctx : copy_ctx) (argv : list string)
         (list_seq : list SeqSet.range_node) (sys : string)
         (ssr : midb_result) (errnum : Z) (xarray : list MITEM),
    proto_stat ctx = select ->
    (length argv <? 5)%nat = false ->
    parse_imap_seq (arg argv 3) = Some list_seq ->
    (String.length (arg argv 4) =? 0)%nat
    || (1024 <=? String.length (arg argv 4))%nat = false ->
    to_sysfolder (lang ctx) (arg argv 4) = Some sys ->
    fetch_simple_uid env (selected_folder ctx) list_seq
    = (ssr, errnum, xarray) ->
    m2icode DISPATCH_MIDB ssr errnum = 0 ->
    Forall (fun it => uid it <> 0) xarray ->
    (forall s, stream_write_ok env s = true) ->
    let r := imap_cmd_parser_uid_copy DISPATCH_MIDB DISPATCH_BREAK code
               parse_imap_seq to_sysfolder env ctx argv in
    outcome (arg argv 0) (code 1725 1) (code 1917 1) DISPATCH_BREAK r
    /\ ((forall a b d, ~ In (CopyMail a b d None) (snd r)) ->
        forall item, In item xarray ->
          exists dst,
            In (CopyMail (selected_folder ctx) (mid item) sys (Some dst))
               (snd r)).
Proof.
  intros MIDBBIT BREAK code pseq tosys env ctx argv list_seq sys ssr errnum
         xarray Hp Hn Hs Hl Ht Hf Hm Hu Hw r.
  subst r. unfold imap_cmd_parser_uid_copy.
  rewrite Hp, Hn, Hs, Hl, Ht, Hf, Hm. cbn [Z.eqb negb].
  destruct (summary_folder env sys) as [sr uv].
  destruct (uid_copy_loop env ctx sys xarray 0 _) as [failed st] eqn:El.
  pose proof (uid_copy_loop_adds _ _ _ _ _ _ _ _ Hu El) as Ha.
  pose proof (finish_outcome BREAK code env ctx argv sys 1725 1917 failed
                _ st (arg argv 3) (ls_uid_string st) (ls_contents st) Hw Ha)
    as Ho.
  destruct (finish BREAK code env argv sys 1725 1917 failed st _ _)
    as [ret tr] eqn:Ef.
  split; [exact Ho|]. cbn [snd]. intros Hnone item Hin.
  destruct failed as [i|].
  - exfalso. destruct Ha as (t & Et & _ & _ & _ & _ & _ & a & b & d & Hc).
    apply (Hnone a b d). unfold finish in Ef. rewrite Hw in Ef.
    cbn [negb] in Ef. injection Ef as _ <-.
    rewrite Et. simpl. rewrite <- !app_assoc.
    apply in_or_app. now left.
  - destruct (uid_copy_loop_copies_all _ _ _ _ _ _ _ Hu El item Hin)
      as [dst Hd].
    exists dst. unfold finish in Ef. rewrite Hw in Ef. cbn [negb] in Ef.
    injection Ef as _ <-. rewrite <- !app_assoc. apply in_or_app. now left.
Qed.

(** The mids COPY hands to [remove_mail] are mids of fetched items: the
    copy call is made on the item of the selected-folder view, and the
    list is read from the XARRAY, which no copy call has touched. *)
Lemma copy_rollback_list_is_made_of_fetched_mids :
  forall (DISPATCH_MIDB DISPATCH_BREAK : Z) (code : Z -> Z -> string)
         (SEQ_STAR : Z)
         (parse_imap_seq : string -> option (list SeqSet.range_node))
         (to_sysfolder : string -> string -> option string)
         (env : copy_env) (ctx : copy_ctx) (argv : list string)
         (f : string) (L : list string),
    In (RemoveMail f L)
       (snd (imap_cmd_parser_copy DISPATCH_MIDB DISPATCH_BREAK code SEQ_STAR
               parse_imap_seq to_sysfolder env ctx argv)) ->
    exists q, incl L (map mid (snd (fetch_simple_uid env (selected_folder ctx) q))).
Proof.
  intros MIDBBIT BREAK code star pseq tosys env ctx argv f L.
  unfold imap_cmd_parser_copy.
  destruct (proto_stat ctx); try (intros []).
  destruct (length argv <? 4)%nat; [intros []|].
  destruct (pseq (arg argv 2)) as [seq_list|]; [|intros []].
  destruct (SeqSet.parse_imap_seqx star (contents ctx) seq_list)
    as [list_uid|]; [|intros []].
  destruct ((String.length (arg argv 3) =? 0)%nat
            || (1024 <=? String.length (arg argv 3))%nat); [intros []|].
  destruct (tosys (lang ctx) (arg argv 3)) as [sys|]; [|intros []].
  set (q := map (fun u => SeqSet.Build_range_node u u) list_uid).
  intros H. exists q.
  destruct (fetch_simple_uid env (selected_folder ctx) q)
    as [[ssr errnum] xarray].
  cbn [snd].
  destruct (negb (m2icode MIDBBIT ssr errnum =? 0)); [destruct H|].
  destruct (summary_folder env sys) as [sr uv].
  destruct (copy_loop env ctx sys xarray 0 _) as [failed st] eqn:El.
  assert (Hq : forall c, In c (ls_trace st) ->
             match c with RemoveMail _ _ => False | _ => True end).
  { clear H.
    assert (G : forall todo i s0 fl s1,
               copy_loop env ctx sys todo i s0 = (fl, s1) ->
               (forall c, In c (ls_trace s0) ->
                  match c with RemoveMail _ _ => False | _ => True end) ->
               forall c, In c (ls_trace s1) ->
                 match c with RemoveMail _ _ => False | _ => True end).
    { induction todo as [|x rest IH]; intros i s0 fl s1 E H0.
      - simpl in E. now injection E as _ <-.
      - cbn [copy_loop] in E.
        destruct (get_itemx (ls_contents s0) (uid x)) as [[k pitem]|];
          [|exact (IH _ _ _ _ E H0)].
        destruct (copy_mail env i (mid pitem)) as [dst|].
        + assert (T : forall t, Forall quiet t ->
                     forall c,
                       In c ((ls_trace s0
                              ++ [CopyMail (selected_folder ctx) (mid pitem)
                                    sys (Some dst)]) ++ t) ->
                       match c with RemoveMail _ _ => False | _ => True end).
          { intros t Hq c Hc. apply in_app_or in Hc as [Hc|Hc].
            - apply in_app_or in Hc as [Hc|[<-|[]]];
                [exact (H0 c Hc)|exact I].
            - rewrite Forall_forall in Hq. apply list_elem_of_In in Hc.
              apply Hq in Hc. destruct c; try exact I. exact Hc. }
          destruct (ls_uidvalidity s0 =? 0).
          * apply (IH _ _ _ _ E). cbn [ls_trace]. intros c Hc.
            apply (T [] ltac:(constructor)). now rewrite app_nil_r.
          * pose proof (poll_uid_quiet env sys i dst 10 0) as Hq.
            destruct (poll_uid env sys i dst 0 10) as [[u|] t]; simpl in Hq;
              cbv beta iota zeta in E; apply (IH _ _ _ _ E); cbn [ls_trace];
              exact (T t Hq).
        + injection E as _ <-. cbn [ls_trace]. intros c Hc.
          apply in_app_or in Hc as [Hc|[<-|[]]]; [exact (H0 c Hc)|exact I]. }
    apply (G _ _ _ _ _ El). intros c []. }
  apply copy_loop_seen in El as [k Ek]. simpl in Ek.
  destruct (finish BREAK code env argv sys 1722 1916 failed st _ _)
    as [ret tr] eqn:Ef.
  cbn [snd] in H. unfold finish in Ef.
  assert (Hin : In (RemoveMail f L)
                  (match failed with
                   | Some _ => ls_trace st
                       ++ [RemoveMail sys (map mid (exp_list (ls_seen st)))]
                   | None => ls_trace st
                   end)%list).
  { destruct failed; destruct (negb (stream_write_ok env _));
      injection Ef as _ <-;
      repeat (apply in_app_or in H as [H|H];
              [|destruct H as [H|[]]; discriminate]); exact H. }
  destruct failed.
  - apply in_app_or in Hin as [Hin|[Hin|[]]]; [now apply Hq in Hin|].
    injection Hin as _ <-. rewrite Ek.
    intros m Hm. apply in_map_iff in Hm as (it & <- & Hit).
    apply in_map. unfold exp_list in Hit. apply filter_In in Hit as [Hit _].
    apply in_rev in Hit. revert Hit. clear. revert xarray.
    induction k as [|k IH]; intros [|x l]; simpl; try tauto.
    intros [->|H]; [now left|right; auto].
  - now apply Hq in Hin.
Qed.

(** The sixth scenario of the specification: three messages are copied
    and MIDB fails on the second. *)
Definition three_items : list MITEM :=
  [ {| uid := 10; mid := "m10"; flag_bits := 0; id := 1 |};
    {| uid := 11; mid := "m11"; flag_bits := 0; id := 2 |};
    {| uid := 12; mid := "m12"; flag_bits := 0; id := 3 |} ].

(** MIDB stores the first copy under a mid of its own, [fresh], and fails
    on the second. *)
Definition failing_env : copy_env := {|
  fetch_simple_uid := fun _ _ => (MIDB_RESULT_OK, 0, three_items);
  summary_folder := fun _ => (MIDB_RESULT_OK, 777);
  copy_mail := fun i _ => match i with O => Some "fresh" | _ => None end;
  get_uid := fun _ _ _ => Some 501;
  stream_write_ok := fun _ => true
|}.

Definition select_ctx : copy_ctx := {|
  proto_stat := select; lang := "en"; maildir := "/var/lib/gromox/user/1";
  selected_folder := "inbox"; contents := three_items
|}.

Definition reply_text (code part : Z) : string :=
  if code =? 1916 then "NO COPY failed"
  else if code =? 1917 then "NO UID COPY failed"
  else if part =? 1 then "OK" else "completed".

Definition sample_copy :=
  imap_cmd_parser_copy 65536 33554432 reply_text 4294967295
    (fun _ => Some [ {| SeqSet.lo := 1; SeqSet.hi := 3 |} ])
    (NameCodec.imap_cmd_parser_imapfolder_to_sysfolder NameCodec.ascii_codec
       NameCodec.english_names).

Definition sample_uid_copy :=
  imap_cmd_parser_uid_copy 65536 33554432 reply_text
    (fun _ => Some [ {| SeqSet.lo := 10; SeqSet.hi := 12 |} ])
    (NameCodec.imap_cmd_parser_imapfolder_to_sysfolder NameCodec.ascii_codec
       NameCodec.english_names).

(** C1.  The sixth scenario, [h COPY 1:3 Archive] on three messages with
    MIDB failing on the second copy and storing the first one under the
    mid [fresh].  COPY replies [h NO COPY failed] after a [remove_mail]
    on the destination folder, but the list it hands over holds [m10],
    the mid of the source message: the copy [fresh] is still in the
    destination folder afterwards.  UID COPY on the same messages hands
    over [fresh] and leaves nothing behind. *)
Theorem C1_copy_rollback_names_source_mids :
  let copy_run :=
    sample_copy failing_env select_ctx ["h"; "COPY"; "1:3"; "Archive"] in
  let uid_copy_run :=
    sample_uid_copy failing_env select_ctx
      ["h"; "UID"; "COPY"; "10:12"; "Archive"] in
  snd copy_run
  = [CopyMail "inbox" "m10" "41726368697665" (Some "fresh");
     GetUid "41726368697665" "fresh";
     CopyMail "inbox" "m11" "41726368697665" None;
     RemoveMail "41726368697665" ["m10"]; StreamClear;
     StreamWrite "h NO COPY failed"]
  /\ "fresh" ∈ folder_after "41726368697665" (snd copy_run) ∅
  /\ snd uid_copy_run
     = [CopyMail "inbox" "m10" "41726368697665" (Some "fresh");
        GetUid "41726368697665" "fresh";
        CopyMail "inbox" "m11" "41726368697665" None;
        RemoveMail "41726368697665" ["fresh"]; StreamClear;
        StreamWrite "h NO UID COPY failed"]
  /\ folder_after "41726368697665" (snd uid_copy_run) ∅ = ∅.
Proof.
  intros copy_run uid_copy_run.
  assert (E1 : snd copy_run
               = [CopyMail "inbox" "m10" "41726368697665" (Some "fresh");
                  GetUid "41726368697665" "fresh";
                  CopyMail "inbox" "m11" "41726368697665" None;
                  RemoveMail "41726368697665" ["m10"]; StreamClear;
                  StreamWrite "h NO COPY failed"])
    by (vm_compute; reflexivity).
  assert (E2 : snd uid_copy_run
               = [CopyMail "inbox" "m10" "41726368697665" (Some "fresh");
                  GetUid "41726368697665" "fresh";
                  CopyMail "inbox" "m11" "41726368697665" None;
                  RemoveMail "41726368697665" ["fresh"]; StreamClear;
                  StreamWrite "h NO UID COPY failed"])
    by (vm_compute; reflexivity).
  split; [exact E1|]. split; [|split; [exact E2|]].
  - rewrite E1. unfold folder_after. cbn [fold_left midb_step].
    rewrite !streq_refl. cbn [list_to_set foldr]. set_solver.
  - rewrite E2. unfold folder_after. cbn [fold_left midb_step].
    rewrite !streq_refl. cbn [list_to_set foldr]. set_solver.
Qed.

(** The general statement for UID COPY on the same scenario. *)
Example uid_copy_rolls_back_or_completes_sample :
  outcome "h" "OK" "NO UID COPY failed" 33554432
    (sample_uid_copy failing_env select_ctx
       ["h"; "UID"; "COPY"; "10:12"; "Archive"]).
Proof.
  refine (proj1 (uid_copy_rolls_back_or_completes 65536 33554432 reply_text
           (fun _ => Some [ {| SeqSet.lo := 10; SeqSet.hi := 12 |} ])
           (NameCodec.imap_cmd_parser_imapfolder_to_sysfolder
              NameCodec.ascii_codec NameCodec.english_names)
           failing_env select_ctx ["h"; "UID"; "COPY"; "10:12"; "Archive"]
           [ {| SeqSet.lo := 10; SeqSet.hi := 12 |} ] "41726368697665"
           MIDB_RESULT_OK 0 three_items eq_refl eq_refl eq_refl eq_refl _
           eq_refl _ _ _)).
  - vm_compute. reflexivity.
  - vm_compute. reflexivity.
  - repeat constructor; discriminate.
  - reflexivity.
Defined.

(** COPY guards the COPYUID trailer: with a [uidvalidity] of 0 from MIDB
    the reply is the plain [OK] line, with 777 it carries the trailer. *)
Remark copy_omits_trailer_when_uidvalidity_zero :
  let env uv := {|
    fetch_simple_uid := fun _ _ => (MIDB_RESULT_OK, 0, three_items);
    summary_folder := fun _ => (MIDB_RESULT_OK, uv);
    copy_mail := fun i m => Some m;
    get_uid := fun _ _ _ => Some 501;
    stream_write_ok := fun _ => true |} in
  last (snd (sample_copy (env 0) select_ctx ["h"; "COPY"; "1:3"; "Archive"]))
  = Some (StreamWrite "h OK completed")
  /\ last (snd (sample_copy (env 777) select_ctx
                  ["h"; "COPY"; "1:3"; "Archive"]))
     = Some (StreamWrite "h OK [COPYUID 777 10,11,12 501,501,501] completed").
Proof. split; vm_compute; reflexivity. Qed.

End CopyProps.

(** ** APPEND: what is left on disk, and the APPENDUID trailer *)

Module AppendProps.
Import Append.

Definition sample_scratch : scratch := {|
  str_name := "inbox"; str_flags := "(\Seen)"; str_internal := "";
  message := "Subject: hello"
|}.

(** Collaborators that all succeed, with MIDB reporting [uidvalidity] and
    the new UID at the first attempt. *)
Definition env_with (insert : midb_result * Z) (close_ok : bool)
    (uidvalidity : Z) : append_env := {|
  fstat_ok := true;
  read_ok := true;
  pbuff := sample_scratch;
  load_from_str_move := fun _ => true;
  convert_imaptime := fun _ => None;
  now := 1700000000;
  sequence_ID := 8;
  guid := "0123456789abcdef0123456789abcdef";
  host_id := Some "mx";
  open_eml := fun _ => 0;
  to_fd := 0;
  close_wr_ok := close_ok;
  insert_mail := insert;
  summary_folder := fun _ => (MIDB_RESULT_OK, uidvalidity);
  get_uid := fun _ => Some 7
|}.

Definition literal_ctx : append_ctx := {|
  is_authed := true; proto_stat := auth; lang := "en";
  maildir := "/home/u"; username := "u@example.net"; selected_folder := "";
  tag_string := "c"; mid := "1700000000.7.mx";
  file_path := "/home/u/tmp/1700000000.7.mx"; message_fd := true
|}.

Definition before : world :=
  {| fs := {[ "/home/u/tmp/1700000000.7.mx" ]}; trace := [] |}.

Definition reply_text (code part : Z) : string :=
  if part =? 1 then "OK" else "APPEND completed".

Definition TAGBIT : Z := 131072.
Definition MIDBBIT : Z := 65536.

Definition end2 (env : append_env) :=
  imap_cmd_parser_append_end2 MIDBBIT TAGBIT 0 reply_text env literal_ctx
    before.

Definition one_shot (env : append_env) :=
  imap_cmd_parser_append MIDBBIT 0 reply_text (fun s => Fetch.tokenize s)
    (NameCodec.imap_cmd_parser_imapfolder_to_sysfolder NameCodec.ascii_codec
       NameCodec.english_names)
    env literal_ctx {| fs := ∅; trace := [] |}
    ["c"; "APPEND"; "INBOX"; "Subject: hello"].

Definition exists_after (r : Z * append_ctx * world) (path : string) : bool :=
  bool_decide (path ∈ fs (snd r)).

Definition eml_of (ctx : append_ctx) : string :=
  maildir ctx +:+ "/eml/" +:+ mid ctx.

(** X3.  The stages in front of the MIDB insert do clean up: when the scratch
    file cannot be read back, the MIME parser rejects the message, or the
    EML file cannot be opened or written, neither file is left. *)
Lemma end2_failures_before_insert_clean_up (env : append_env)
    (ctx : append_ctx) (w : world) :
  file_path ctx <> "" ->
  eml_of ctx ∉ fs w ->
  fstat_ok env = false \/ read_ok env = false
  \/ load_from_str_move env (message (pbuff env)) = false
  \/ open_eml env (eml_of ctx) <> 0
  \/ to_fd env <> 0 ->
  let r := imap_cmd_parser_append_end2 MIDBBIT TAGBIT 0 reply_text env ctx w in
  fst (fst r) = Z.lor 1909 TAGBIT
  /\ (file_path ctx ∉ fs (snd r))
  /\ (eml_of ctx ∉ fs (snd r)).
Proof.
  intros Hp He Hfail. unfold imap_cmd_parser_append_end2.
  assert (U : forall c w0, file_path c = file_path ctx ->
                fs (snd (unlink_file c w0)) = fs w0 ∖ {[file_path ctx]}).
  { intros c w0 Hc. unfold unlink_file. rewrite Hc.
    unfold streq. destruct (String.eqb_spec (file_path ctx) "");
      [contradiction|reflexivity]. }
  destruct (fstat_ok env).
  2:{ unfold close_and_unlink.
      pose proof (U (close_fd ctx) w eq_refl) as E.
      destruct (unlink_file (close_fd ctx) w) as [c' w']. simpl in *.
      split; [reflexivity|]. split; set_solver. }
  destruct (read_ok env).
  2:{ unfold close_and_unlink.
      pose proof (U (close_fd ctx) w eq_refl) as E.
      destruct (unlink_file (close_fd ctx) w) as [c' w']. simpl in *.
      split; [reflexivity|]. split; set_solver. }
  destruct (load_from_str_move env (message (pbuff env))).
  2:{ pose proof (U (close_fd ctx) w eq_refl) as E.
      destruct (unlink_file (close_fd ctx) w) as [c' w']. simpl in *.
      split; [reflexivity|]. split; set_solver. }
  cbn [negb]. change (mid (close_fd ctx)) with (mid ctx).
  change (maildir (close_fd ctx)) with (maildir ctx).
  fold (eml_of ctx). set (eml := eml_of ctx) in *.
  unfold write_eml.
  destruct (open_eml env eml =? 0) eqn:Eo; cbn [negb].
  - destruct (to_fd env =? 0) eqn:Et; cbn [negb].
    { exfalso. apply Z.eqb_eq in Eo, Et.
      destruct Hfail as [H|[H|[H|[H|H]]]];
        try discriminate; contradiction. }
    pose proof (U (close_fd ctx) (create eml w) eq_refl) as E.
    destruct (unlink_file (close_fd ctx) (create eml w)) as [c' w'].
    simpl in *. split; [reflexivity|]. split; set_solver.
  - rewrite Eo. cbn [negb].
    pose proof (U (close_fd ctx) w eq_refl) as E.
    destruct (unlink_file (close_fd ctx) w) as [c' w'].
    simpl in *. split; [reflexivity|]. split; set_solver.
Qed.

(** After a failed MIDB insert the EML file stays, whatever the error
    MIDB reported and whatever the folder, the flags and the message. *)
Lemma end2_failed_insert_keeps_eml (env : append_env) (ctx : append_ctx)
    (w : world) :
  fstat_ok env = true -> read_ok env = true ->
  load_from_str_move env (message (pbuff env)) = true ->
  open_eml env (eml_of ctx) = 0 -> to_fd env = 0 ->
  close_wr_ok env = true ->
  m2icode MIDBBIT (fst (insert_mail env)) (snd (insert_mail env)) <> 0 ->
  file_path ctx <> eml_of ctx ->
  let r := imap_cmd_parser_append_end2 MIDBBIT TAGBIT 0 reply_text env ctx w in
  fst (fst r)
  = Z.lor (m2icode MIDBBIT (fst (insert_mail env)) (snd (insert_mail env)))
      TAGBIT
  /\ eml_of ctx ∈ fs (snd r).
Proof.
  intros Hs Hr Hl Ho Ht Hc Hm Hne. unfold imap_cmd_parser_append_end2.
  rewrite Hs, Hr, Hl. cbn [negb].
  change (mid (close_fd ctx)) with (mid ctx).
  change (maildir (close_fd ctx)) with (maildir ctx).
  fold (eml_of ctx). unfold write_eml. rewrite Ho, Ht, Hc. cbn [negb Z.eqb].
  destruct (insert_mail env) as [ssr errnum]. cbn [fst snd] in Hm.
  apply Z.eqb_neq in Hm. rewrite Hm. cbn [negb].
  unfold unlink_file. cbn [file_path with_scratch close_fd].
  destruct (streq (file_path ctx) ""); cbn [fst snd fs emit create remove];
    (split; [reflexivity|]); set_solver.
Qed.

(** The polling loop answers with the trailer as soon as MIDB returns a
    summary and a UID, whatever the [uidvalidity] is: here it is 0. *)
Lemma poll_appenduid_zero (code : Z -> Z -> string) (env : append_env)
    (tag sys_name mid_string : string) (u : Z) :
  summary_folder env 0%nat = (MIDB_RESULT_OK, 0) ->
  get_uid env 0%nat = Some u ->
  fst (poll_appenduid code env tag sys_name mid_string 0 10)
  = tag +:+ " " +:+ code 1715 1 +:+ " [APPENDUID 0 " +:+ pretty u +:+ "] "
    +:+ code 1715 2.
Proof.
  intros Hs Hu. cbn [poll_appenduid]. rewrite Hs. cbn [is_ok].
  rewrite Hu. reflexivity.
Qed.

(** C2 at the failing inputs.  When the MIDB insert fails at the end of
    the literal form of APPEND, the scratch file is unlinked but the EML
    file stays in [eml/]; when closing the EML file fails, both files
    stay; the one-shot form likewise leaves the EML file after a failed
    insert. *)
Theorem C2_failed_insert_leaves_eml_file :
  let insert_fails := end2 (env_with (MIDB_NO_SERVER, 0) true 12345) in
  let close_fails := end2 (env_with (MIDB_RESULT_OK, 0) false 12345) in
  let one_shot_fails := one_shot (env_with (MIDB_RDWR_ERROR, 0) true 12345) in
  (fst (fst insert_fails) = Z.lor 1905 TAGBIT
   /\ exists_after insert_fails "/home/u/eml/1700000000.7.mx" = true
   /\ exists_after insert_fails "/home/u/tmp/1700000000.7.mx" = false)
  /\ (fst (fst close_fails) = Z.lor 1909 TAGBIT
      /\ exists_after close_fails "/home/u/eml/1700000000.7.mx" = true
      /\ exists_after close_fails "/home/u/tmp/1700000000.7.mx" = true)
  /\ (fst (fst one_shot_fails) = 1906
      /\ exists_after one_shot_fails "/home/u/eml/1700000000.n8.mx" = true).
Proof. vm_compute. repeat split; reflexivity. Qed.

(** C9 at the failing input.  MIDB accepts the insert and reports a
    [uidvalidity] of 0 for the target folder together with the new UID:
    both forms of APPEND send the trailer [[APPENDUID 0 7]]. *)
Theorem C9_append_sends_trailer_with_uidvalidity_zero :
  trace (snd (end2 (env_with (MIDB_RESULT_OK, 0) true 0)))
  = [InsertMail "inbox" "1700000000.7.mx" "(S)" 1700000000;
     BcastTouch "u@example.net" ""; SummaryFolder "inbox";
     GetUid "inbox" "1700000000.7.mx";
     SafeWrite "c OK [APPENDUID 0 7] APPEND completed"]
  /\ trace (snd (one_shot (env_with (MIDB_RESULT_OK, 0) true 0)))
     = [InsertMail "inbox" "1700000000.n8.mx" "()" 1700000000;
        BcastTouch "u@example.net" ""; SummaryFolder "inbox";
        GetUid "inbox" "1700000000.n8.mx";
        SafeWrite "c OK [APPENDUID 0 7] APPEND completed"].
Proof. split; vm_compute; reflexivity. Qed.

End AppendProps.

(** ** LIST patterns *)

Module WildcardProps.
Import Wildcard NameCodecProps.

(** What a mask denotes: a literal character stands for itself up to
    case, [*] for any text, [%] for any text without a slash. *)
Inductive denotes : string -> string -> Prop :=
| denotes_end : denotes "" ""
| denotes_char f m folder mask :
    is_wild m = false -> HX_toupper f = HX_toupper m ->
    denotes folder mask -> denotes (String f folder) (String m mask)
| denotes_star pre folder mask :
    denotes folder mask -> denotes (pre +:+ folder) (String "*" mask)
| denotes_percent pre folder mask :
    strchr pre "/" = None ->
    denotes folder mask -> denotes (pre +:+ folder) (String "%" mask).

Lemma try_spans_true (rest : string -> bool) (folder : string) (span : nat) :
  try_spans rest folder span = true
  <-> exists k, (k <= span)%nat /\ rest (skip k folder) = true.
Proof.
  induction span as [|n IH]; simpl.
  - rewrite orb_false_r. split.
    + intros H. exists O. split; [lia|exact H].
    + intros (k & Hk & H). assert (k = O) as -> by lia. exact H.
  - rewrite orb_true_iff, IH. split.
    + intros [H|(k & Hk & H)]; [exists (S n)|exists k]; split; auto; lia.
    + intros (k & Hk & H). destruct (Nat.eq_dec k (S n)) as [->|Hne].
      * now left.
      * right. exists k. split; [lia|exact H].
Qed.

Lemma strcspn_none (pre s : string) :
  strchr pre "/" = None -> (String.length pre <= strcspn_slash (pre +:+ s))%nat.
Proof.
  induction pre as [|c pre IH]; [simpl; lia|].
  rewrite append_cons. simpl.
  destruct (Ascii.eqb c "/"); [discriminate|].
  destruct (strchr pre "/"); [discriminate|]. intros _.
  specialize (IH eq_refl). lia.
Qed.

Lemma keep_no_slash (k : nat) (s : string) :
  (k <= strcspn_slash s)%nat -> strchr (keep k s) "/" = None.
Proof.
  revert s; induction k as [|k IH]; intros [|c s]; simpl; try reflexivity.
  destruct (Ascii.eqb c "/") eqn:E; [lia|]. intros H.
  rewrite (IH s) by lia. reflexivity.
Qed.

Lemma skip_past (k : nat) (s : string) :
  (String.length s <= k)%nat -> skip k s = "".
Proof.
  revert s; induction k as [|k IH]; intros [|c s]; simpl; try reflexivity;
    try lia.
  intros H. apply IH. lia.
Qed.

Lemma strcspn_le (s : string) : (strcspn_slash s <= String.length s)%nat.
Proof.
  induction s as [|c s IH]; simpl; [lia|]. destruct (Ascii.eqb c "/"); lia.
Qed.

(** X4.  [imap_cmd_parser_wildcard_match] accepts a folder name for
    a mask exactly when the mask denotes the name. *)
Theorem wildcard_match_denotes (folder mask : string) :
  imap_cmd_parser_wildcard_match folder mask = true <-> denotes folder mask.
Proof.
  revert folder. induction mask as [|m mask IH]; intros folder.
  - simpl. destruct folder; split; intros H; try constructor;
      try discriminate; inversion H.
  - cbn [imap_cmd_parser_wildcard_match].
    destruct (is_wild m) eqn:Ew.
    + rewrite try_spans_true. split.
      * intros (k & Hk & H). apply IH in H.
        rewrite <- (keep_skip folder k).
        unfold is_wild in Ew.
        destruct (Ascii.eqb_spec m "*") as [->|Hs].
        { now constructor. }
        destruct (Ascii.eqb_spec m "%") as [->|Hp]; [|discriminate].
        constructor; [|exact H]. now apply keep_no_slash.
      * intros H. inversion H; subst.
        { congruence. }
        { exists (String.length pre). rewrite skip_append.
          split; [|now apply IH]. rewrite Ascii.eqb_refl, length_append. lia. }
        { exists (String.length pre). rewrite skip_append.
          split; [|now apply IH].
          change (Ascii.eqb "%" "*") with false. cbv iota.
          now apply strcspn_none. }
    + destruct folder as [|f folder].
      * split; [discriminate|]. intros H. inversion H; subst.
        all: try (simpl in Ew; discriminate).
      * destruct (Ascii.eqb_spec (HX_toupper f) (HX_toupper m)) as [E|E].
        { rewrite IH. split; intros H.
          - now constructor.
          - inversion H; subst; auto; simpl in Ew; discriminate. }
        { split; [discriminate|]. intros H. inversion H; subst; auto;
            simpl in Ew; discriminate. }
Qed.

Lemma strcspn_strchr (s : string) :
  strcspn_slash s = String.length s <-> strchr s "/" = None.
Proof.
  induction s as [|c s IH]; simpl; [tauto|].
  destruct (Ascii.eqb c "/").
  - split; [lia|discriminate].
  - destruct (strchr s "/").
    + split; [|discriminate]. intros H. injection H as H.
      apply IH in H. discriminate.
    + split; [reflexivity|]. intros _. f_equal. now apply IH.
Qed.

(** [*] matches every folder name, and [%] exactly the names without a
    hierarchy separator. *)
Theorem wildcard_star_and_percent (folder : string) :
  imap_cmd_parser_wildcard_match folder "*" = true
  /\ (imap_cmd_parser_wildcard_match folder "%" = true
      <-> strchr folder "/" = None).
Proof.
  cbn [imap_cmd_parser_wildcard_match].
  change (is_wild "*") with true. change (is_wild "%") with true.
  change (Ascii.eqb "*" "*") with true. change (Ascii.eqb "%" "*") with false.
  cbv iota zeta. rewrite !try_spans_true.
  assert (K : forall k,
             match skip k folder with "" => true | String _ _ => false end
             = true <-> (String.length folder <= k)%nat).
  { intros k. pose proof (skip_length folder k) as L.
    destruct (skip k folder); simpl in L; split; intros; try lia;
      try discriminate; reflexivity. }
  split.
  - exists (String.length folder). split; [lia|]. cbv beta. apply K. lia.
  - rewrite <- strcspn_strchr. split.
    + intros (k & Hk & H). cbv beta in H. apply K in H.
      pose proof (strcspn_le folder). lia.
    + intros H. exists (String.length folder). split; [lia|].
      cbv beta. apply K. lia.
Qed.

Lemma toupper_slash (c : ascii) :
  Ascii.eqb (HX_toupper c) "/" = Ascii.eqb c "/".
Proof. destruct c as [[] [] [] [] [] [] [] []]; reflexivity. Qed.

Lemma toupper_wild (c d : ascii) :
  HX_toupper c = HX_toupper d -> is_wild c = is_wild d.
Proof.
  intros H. unfold is_wild.
  assert (K : forall x, Ascii.eqb x "*" = Ascii.eqb (HX_toupper x) "*"
                        /\ Ascii.eqb x "%" = Ascii.eqb (HX_toupper x) "%").
  { intros x. destruct x as [[] [] [] [] [] [] [] []]; split; reflexivity. }
  destruct (K c) as [-> ->], (K d) as [-> ->]. now rewrite H.
Qed.

Lemma strcaseeq_length (a b : string) :
  strcaseeq a b = true -> String.length a = String.length b.
Proof.
  revert b; induction a as [|x a IH]; intros [|y b] H; simpl in *;
    try discriminate; try reflexivity.
  apply andb_true_iff in H as [_ H]. f_equal. now apply IH.
Qed.

Lemma strcaseeq_strcspn (a b : string) :
  strcaseeq a b = true -> strcspn_slash a = strcspn_slash b.
Proof.
  revert b; induction a as [|x a IH]; intros [|y b] H; simpl in *;
    try discriminate; try reflexivity.
  apply andb_true_iff in H as [E H]. apply Ascii.eqb_eq in E.
  rewrite <- (toupper_slash x), <- (toupper_slash y), E.
  destruct (Ascii.eqb (HX_toupper y) "/"); [reflexivity|].
  f_equal. now apply IH.
Qed.

Lemma strcaseeq_skip (a b : string) (k : nat) :
  strcaseeq a b = true -> strcaseeq (skip k a) (skip k b) = true.
Proof.
  revert a b; induction k as [|k IH]; intros [|x a] [|y b] H; simpl in *;
    try discriminate; try reflexivity; try assumption.
  apply andb_true_iff in H as [_ H]. now apply IH.
Qed.

Lemma try_spans_ext (f g : string -> bool) (a b : string) (n : nat) :
  (forall k, f (skip k a) = g (skip k b)) ->
  try_spans f a n = try_spans g b n.
Proof.
  intros H. induction n as [|n IH]; cbn [try_spans]; rewrite H;
    [reflexivity|]. now rewrite IH.
Qed.

(** X5.  Matching ignores the case of letters, in the folder name and in the
    mask alike. *)
Theorem wildcard_match_ignores_case :
  forall (mask mask' folder folder' : string),
    strcaseeq folder folder' = true -> strcaseeq mask mask' = true ->
    imap_cmd_parser_wildcard_match folder mask
    = imap_cmd_parser_wildcard_match folder' mask'.
Proof.
  intros mask. induction mask as [|m mask IH];
    intros [|m' mask'] folder folder' Hf Hm; simpl in Hm; try discriminate.
  - destruct folder, folder'; simpl in Hf; try discriminate; reflexivity.
  - apply andb_true_iff in Hm as [Em Hm]. apply Ascii.eqb_eq in Em.
    cbn [imap_cmd_parser_wildcard_match].
    rewrite (toupper_wild m m' Em).
    destruct (is_wild m') eqn:Ew.
    + assert (Es : Ascii.eqb m "*" = Ascii.eqb m' "*").
      { assert (K : forall x, Ascii.eqb x "*" = Ascii.eqb (HX_toupper x) "*")
          by (intros x; destruct x as [[] [] [] [] [] [] [] []]; reflexivity).
        now rewrite (K m), (K m'), Em. }
      rewrite Es, (strcaseeq_length _ _ Hf), (strcaseeq_strcspn _ _ Hf).
      apply try_spans_ext. intros k. apply IH; [|exact Hm].
      now apply strcaseeq_skip.
    + destruct folder as [|f folder], folder' as [|f' folder'];
        simpl in Hf; try discriminate; [reflexivity|].
      apply andb_true_iff in Hf as [Ef Hf]. apply Ascii.eqb_eq in Ef.
      rewrite Ef, Em.
      destruct (Ascii.eqb (HX_toupper f') (HX_toupper m')); [|reflexivity].
      now apply IH.
Qed.

Lemma wildcard_match_ignores_case_witness :
  imap_cmd_parser_wildcard_match "Archive/2023" "arch%/*"
  = imap_cmd_parser_wildcard_match "ARCHIVE/2023" "ARCH%/*".
Proof.
  apply wildcard_match_ignores_case; reflexivity.
Defined.

End WildcardProps.

(** ** The date-time of APPEND *)

Module ImaptimeProps.
Import Imaptime.

Definition digit (d : nat) : ascii := ascii_of_nat (48 + d).

Lemma two_digits_value (a b : nat) :
  (a <= 9)%nat -> (b <= 9)%nat ->
  two_digits (digit a) (digit b)
  = if (a =? 0)%nat then (if (b <=? 7)%nat then Z.of_nat b else 0)
    else Z.of_nat (10 * a + b).
Proof.
  intros Ha Hb.
  do 10 (destruct a as [|a]; [do 10 (destruct b as [|b]; [reflexivity|]); lia|]).
  lia.
Qed.

Lemma isdigit_digit (d : nat) : (d <= 9)%nat -> HX_isdigit (digit d) = true.
Proof. intros H. do 10 (destruct d as [|d]; [reflexivity|]). lia. Qed.

Section Props.
Variable tm : Type.
Variable strptime : string -> option (tm * string).
Variable timegm : tm -> Z.
Local Abbreviation convert := (imap_cmd_parser_convert_imaptime tm strptime timegm).

Definition zone (sign : ascii) (h1 h2 m1 m2 : nat) (rest : string) : string :=
  String sign (String (digit h1) (String (digit h2)
    (String (digit m1) (String (digit m2) rest)))).

(** The value of a zone as the code computes it. *)
Lemma convert_zone_value :
  forall (s rest : string) (t : tm) (sign : ascii) (h1 h2 m1 m2 : nat),
    strptime s = Some (t, zone sign h1 h2 m1 m2 rest) ->
    (sign = "+"%char \/ sign = "-"%char) ->
    (h1 <= 9)%nat -> (h2 <= 9)%nat -> (m1 <= 9)%nat -> (m2 <= 9)%nat ->
    let hour := if (h1 =? 0)%nat then (if (h2 <=? 7)%nat then Z.of_nat h2 else 0)
                else Z.of_nat (10 * h1 + h2) in
    let minute := if (m1 =? 0)%nat then (if (m2 <=? 7)%nat then Z.of_nat m2 else 0)
                  else Z.of_nat (10 * m1 + m2) in
    convert s
    = if (hour >? 23) || (minute >? 59) then None
      else Some (timegm t + (if Ascii.eqb sign "-" then 1 else -1)
                             * (3600 * hour + 60 * minute)).
Proof.
  intros s rest t sign h1 h2 m1 m2 Hs Hsign H1 H2 H3 H4 hour minute.
  unfold imap_cmd_parser_convert_imaptime. rewrite Hs. unfold zone.
  rewrite !isdigit_digit by assumption. cbn [negb orb].
  rewrite !two_digits_value by assumption. fold hour minute.
  assert (0 <= hour) by (subst hour; destruct (h1 =? 0)%nat, (h2 <=? 7)%nat; lia).
  assert (0 <= minute) by (subst minute; destruct (m1 =? 0)%nat, (m2 <=? 7)%nat; lia).
  destruct (Z.ltb_spec hour 0); [lia|]. destruct (Z.ltb_spec minute 0); [lia|].
  cbn [orb].
  destruct Hsign as [->| ->]; cbn [Ascii.eqb Bool.eqb];
    destruct (hour >? 23); cbn [orb]; try reflexivity;
    destruct (minute >? 59); try reflexivity; f_equal; lia.
Qed.

(** X6.  A zone whose hour and minute fields read the same in base 8 and in
    base 10 (no leading zero followed by 8 or 9) shifts the time by that
    many hours and minutes, [+hhmm] backwards and [-hhmm] forwards; an hour
    above 23 or a minute above 59 is rejected. *)
Theorem convert_imaptime_applies_zone :
  forall (s rest : string) (t : tm) (sign : ascii) (h1 h2 m1 m2 : nat),
    strptime s = Some (t, zone sign h1 h2 m1 m2 rest) ->
    (sign = "+"%char \/ sign = "-"%char) ->
    (h1 <= 9)%nat -> (h2 <= 9)%nat -> (m1 <= 9)%nat -> (m2 <= 9)%nat ->
    (h1 = 0%nat -> (h2 <= 7)%nat) -> (m1 = 0%nat -> (m2 <= 7)%nat) ->
    let hour := Z.of_nat (10 * h1 + h2) in
    let minute := Z.of_nat (10 * m1 + m2) in
    convert s
    = if (hour <=? 23) && (minute <=? 59)
      then Some (if Ascii.eqb sign "+"
                 then timegm t - (3600 * hour + 60 * minute)
                 else timegm t + (3600 * hour + 60 * minute))
      else None.
Proof.
  intros s rest t sign h1 h2 m1 m2 Hs Hsign H1 H2 H3 H4 Ho Hm hour minute.
  rewrite (convert_zone_value s rest t sign h1 h2 m1 m2 Hs Hsign H1 H2 H3 H4).
  assert (Eh : (if (h1 =? 0)%nat
                then if (h2 <=? 7)%nat then Z.of_nat h2 else 0
                else Z.of_nat (10 * h1 + h2)) = hour).
  { subst hour. destruct (Nat.eqb_spec h1 0) as [->|]; [|reflexivity].
    destruct (Nat.leb_spec h2 7); [f_equal; lia|]. specialize (Ho eq_refl). lia. }
  assert (Em : (if (m1 =? 0)%nat
                then if (m2 <=? 7)%nat then Z.of_nat m2 else 0
                else Z.of_nat (10 * m1 + m2)) = minute).
  { subst minute. destruct (Nat.eqb_spec m1 0) as [->|]; [|reflexivity].
    destruct (Nat.leb_spec m2 7); [f_equal; lia|]. specialize (Hm eq_refl). lia. }
  rewrite Eh, Em.
  destruct (Z.leb_spec hour 23), (Z.gtb_spec hour 23); try lia;
    cbn [orb andb]; [|reflexivity].
  destruct (Z.leb_spec minute 59), (Z.gtb_spec minute 59); try lia;
    [|reflexivity].
  f_equal. destruct Hsign as [-> | ->]; cbn [Ascii.eqb Bool.eqb]; lia.
Qed.

(** X7.  The hour and minute fields go through [strtol] with base 0, where a
    leading zero selects octal: the hours [08] and [09] count as 0, so a
    zone such as [+0800] or [+0930] loses its hours. *)
Theorem convert_imaptime_reads_zone_hour_in_octal :
  forall (s s0 rest rest0 : string) (t : tm) (sign : ascii)
         (h2 m1 m2 : nat),
    strptime s = Some (t, zone sign 0 h2 m1 m2 rest) ->
    strptime s0 = Some (t, zone sign 0 0 m1 m2 rest0) ->
    (sign = "+"%char \/ sign = "-"%char) ->
    (8 <= h2 <= 9)%nat -> (m1 <= 9)%nat -> (m2 <= 9)%nat ->
    convert s = convert s0.
Proof.
  intros s s0 rest rest0 t sign h2 m1 m2 Hs Hs0 Hsign Hh H3 H4.
  rewrite (convert_zone_value s rest t sign 0 h2 m1 m2 Hs Hsign)
    by (assumption || lia).
  rewrite (convert_zone_value s0 rest0 t sign 0 0 m1 m2 Hs0 Hsign)
    by (assumption || lia).
  cbn [Nat.eqb Nat.leb].
  destruct (Nat.leb_spec h2 7); [lia|reflexivity].
Qed.
End Props.

(** A [strptime] for the witnesses: the fixed-width date and time take 21
    characters, and the time value is not looked at. *)
Definition sample_strptime (s : string) : option (unit * string) :=
  Some (tt, skip 21 s).

Lemma convert_imaptime_applies_zone_witness :
  imap_cmd_parser_convert_imaptime unit sample_strptime (fun _ => 1000000)
    "17-Jul-1996 02:44:25 -0700"
  = Some (1000000 + 25200).
Proof.
  apply (convert_imaptime_applies_zone unit sample_strptime
           (fun _ => 1000000) "17-Jul-1996 02:44:25 -0700" "" tt "-"%char
           0 7 0 0); try reflexivity; try lia.
  now right.
Defined.

Lemma convert_imaptime_reads_zone_hour_in_octal_witness :
  imap_cmd_parser_convert_imaptime unit sample_strptime (fun _ => 1000000)
    "17-Jul-1996 02:44:25 +0800"
  = imap_cmd_parser_convert_imaptime unit sample_strptime (fun _ => 1000000)
      "17-Jul-1996 02:44:25 +0000".
Proof.
  apply (convert_imaptime_reads_zone_hour_in_octal unit sample_strptime
           (fun _ => 1000000) _ _ "" "" tt "+"%char 8 0 0);
    try reflexivity; try lia.
  now left.
Defined.

End ImaptimeProps.

(** ** UID sets *)

Module IseqProps.
Import SeqSet Iseq.

(** A range set as [range_set] keeps it: ranges are non-empty, ascending
    and apart. *)
Definition well_formed (l : list range_node) : Prop :=
  Forall (fun r => lo r <= hi r) l
  /\ forall i j a b, (i < j)%nat -> nth_error l i = Some a ->
                      nth_error l j = Some b -> hi a < lo b.


Lemma hi_mono (l : list range_node) :
  well_formed l ->
  forall i j a b, (i <= j)%nat -> nth_error l i = Some a ->
                  nth_error l j = Some b -> hi a <= hi b.
Proof.
  intros [Hne Hs] i j a b Hij Ha Hb.
  destruct (Nat.eq_dec i j) as [->|Hneq]; [rewrite Ha in Hb; injection Hb as <-; lia|].
  assert (hi a < lo b) by (eapply Hs; [|eassumption..]; lia).
  rewrite Forall_forall in Hne.
  assert (lo b <= hi b).
  { apply Hne. apply list_elem_of_In. eapply nth_error_In; eassumption. }
  lia.
Qed.

Lemma lower_bound_partition (l : list range_node) (num : Z) :
  well_formed l ->
  forall first len,
    (first + len <= length l)%nat ->
    (forall i a, (i < first)%nat -> nth_error l i = Some a -> hi a < num) ->
    (forall i a, (first + len <= i)%nat -> nth_error l i = Some a ->
                 num <= hi a) ->
    let p := lower_bound l num first len in
    (p <= length l)%nat
    /\ (forall i a, (i < p)%nat -> nth_error l i = Some a -> hi a < num)
    /\ (forall i a, (p <= i)%nat -> nth_error l i = Some a -> num <= hi a).
Proof.
  intros Hwf first len. funelim (lower_bound l num first len);
    intros Hlen Hlow Hhigh.
  - simp lower_bound. cbv zeta. split; [lia|]. split; [exact Hlow|].
    intros i a Hi. apply Hhigh. lia.
  - simp lower_bound. cbv zeta.
    assert (Hh : (half (S n) < S n)%nat) by (apply half_lt; lia).
    destruct (nth_error l (first + half (S n))) as [rn|] eqn:En.
    2:{ apply nth_error_None in En. lia. }
    destruct (Z.ltb_spec (hi rn) num) as [Hlt|Hge].
    + eapply H; try eassumption; try reflexivity.
      * lia.
      * intros i a Hi Ha.
        destruct (Nat.lt_ge_cases i first) as [Hc|Hc]; [eauto|].
        assert (hi a <= hi rn) by (eapply (hi_mono l Hwf i); [|eassumption..]; lia).
        lia.
      * intros i a Hi. apply Hhigh. lia.
    + eapply H0; try eassumption; try reflexivity.
      * lia.
      * intros i a Hi Ha.
        assert (hi rn <= hi a)
          by (eapply (hi_mono l Hwf (first + half (S n))); [|eassumption..]; lia).
        lia.
Qed.

(** X8.  On a well-formed range set, [iseq_contains] answers whether [num]
    lies in one of the ranges and does not exceed [max_uid]. *)
Theorem iseq_contains_correct :
  forall (l : list range_node) (num max_uid : Z),
    well_formed l ->
    (iseq_contains l num max_uid = true
     <-> (exists r, In r l /\ lo r <= num <= hi r) /\ num <= max_uid).
Proof.
  intros l num max_uid Hwf. unfold iseq_contains.
  destruct (lower_bound_partition l num Hwf 0 (length l)) as (Hp & Hlow & Hhigh).
  { lia. } { intros i a Hi. lia. }
  { intros i a Hi Ha. assert (nth_error l i = None) by (apply nth_error_None; lia).
    congruence. }
  set (p := lower_bound l num 0 (length l)) in *.
  destruct (nth_error l p) as [r|] eqn:Er.
  - rewrite !andb_true_iff, !Z.leb_le. split.
    + intros [[H1 H2] H3]. split; [|exact H3]. exists r.
      split; [eapply nth_error_In; eassumption|lia].
    + intros [(r' & Hin & Hr') H3]. split; [|exact H3].
      apply In_nth_error in Hin as [j Hj].
      assert (Hpj : (p <= j)%nat).
      { destruct (Nat.lt_ge_cases j p) as [Hc|Hc]; [|exact Hc].
        specialize (Hlow j r' Hc Hj). lia. }
      assert (num <= hi r) by (eapply Hhigh; [|eassumption]; lia).
      destruct (Nat.eq_dec p j) as [->|Hne].
      * rewrite Er in Hj. injection Hj as <-. lia.
      * destruct Hwf as [_ Hs].
        assert (hi r < lo r') by (eapply (Hs p j); [|eassumption..]; lia).
        lia.
  - split; [discriminate|]. intros [(r' & Hin & Hr') _].
    apply In_nth_error in Hin as [j Hj].
    apply nth_error_None in Er.
    assert (j < length l)%nat by (apply nth_error_Some; congruence).
    assert (j < p)%nat by lia.
    specialize (Hlow j r' H0 Hj). lia.
Qed.

Lemma iseq_contains_correct_witness :
  let l := [ {| lo := 1; hi := 3 |}; {| lo := 5; hi := 7 |} ] in
  iseq_contains l 6 9 = true
  <-> (exists r, In r l /\ lo r <= 6 <= hi r) /\ 6 <= 9.
Proof.
  apply iseq_contains_correct. split.
  - repeat constructor; simpl; lia.
  - intros i j a b Hij Ha Hb.
    destruct i as [|[|i]], j as [|[|j]]; simpl in Ha, Hb; try lia;
      try discriminate; try (destruct j; discriminate).
    injection Ha as <-. injection Hb as <-. simpl. lia.
Defined.

End IseqProps.

(** ** The message array *)

Module ContentsProps.
Import Contents.
Local Open Scope list_scope.

(** Sequence numbers are the positions, counted from 1. *)
Definition numbered (base : nat) (v : list MITEM) : Prop :=
  forall i it, nth_error v i = Some it -> id it = Z.of_nat (base + i) + 1.

Lemma renumber_numbered (xa : list MITEM) (b : nat) :
  numbered b (renumber xa (Z.of_nat b)).
Proof.
  revert b. induction xa as [|x xa IH]; intros b i it H.
  - destruct i; discriminate.
  - destruct i as [|i]; simpl in H.
    + injection H as <-. simpl. lia.
    + replace (Z.of_nat b + 1) with (Z.of_nat (S b)) in H by lia.
      apply IH in H. rewrite H. lia.
Qed.

Lemma renumber_uids (xa : list MITEM) (i : Z) :
  map uid (renumber xa i) = map uid xa.
Proof. revert i. induction xa as [|x xa IH]; intros i; simpl; [|rewrite IH]; reflexivity. Qed.

Lemma alter_last (v : list MITEM) (x : MITEM) (f : MITEM -> MITEM) :
  alter f (length v) (v ++ [x]) = v ++ [f x].
Proof. induction v as [|y v IH]; simpl; [reflexivity|]. now rewrite <- IH. Qed.

Lemma get_itemx_none (v : list MITEM) (u : Z) :
  Copy.get_itemx v u = None <-> ~ In u (map uid v).
Proof.
  induction v as [|x v IH]; simpl; [tauto|].
  destruct (Z.eqb_spec (uid x) u) as [E|E].
  - split; [discriminate|]. intros H. exfalso. apply H. now left.
  - destruct (Copy.get_itemx v u) as [[k y]|].
    + split; [discriminate|]. intros H. exfalso.
      assert (K : ~ In u (map uid v)) by tauto. apply IH in K. discriminate.
    + split; [|reflexivity]. intros _ [H|H]; [contradiction|].
      now apply (proj1 IH).
Qed.

(** The incremental loop only appends, what it appends was unknown and
    gets the next numbers. *)
Lemma append_new_spec (xa v : list MITEM) :
  numbered 0 v -> NoDup (map uid v) ->
  exists added,
    append_new v xa (length v) = v ++ added
    /\ numbered 0 (v ++ added)
    /\ NoDup (map uid (v ++ added))
    /\ (forall u, In u (map uid added) ->
                  In u (map uid xa) /\ ~ In u (map uid v))
    /\ (forall u, In u (map uid xa) -> In u (map uid (v ++ added))).
Proof.
  revert v. induction xa as [|x xa IH]; intros v Hn Hd.
  - exists []. rewrite app_nil_r. simpl. repeat split; auto; contradiction.
  - cbn [append_new].
    destruct (Copy.get_itemx v (uid x)) as [p|] eqn:Eg.
    + destruct (IH v Hn Hd) as (added & E & N & D & A & C).
      exists added. repeat split; auto.
      * apply A in H. simpl. tauto.
      * now apply A in H.
      * intros u [<-|Hu]; [|now apply C].
        rewrite map_app, in_app_iff. left.
        destruct (in_dec Z.eq_dec (uid x) (map uid v)) as [Hi|Hi]; [exact Hi|].
        apply get_itemx_none in Hi. congruence.
    + rewrite alter_last.
      set (nx := set_id x (Z.of_nat (length v) + 1)).
      assert (Hn' : numbered 0 (v ++ [nx])).
      { intros i it H. destruct (Nat.lt_ge_cases i (length v)) as [Hc|Hc].
        - rewrite nth_error_app1 in H by exact Hc. now apply Hn.
        - rewrite nth_error_app2 in H by exact Hc.
          destruct (i - length v)%nat as [|k] eqn:Ek; simpl in H.
          + injection H as <-. simpl. lia.
          + destruct k; discriminate. }
      assert (Hd' : NoDup (map uid (v ++ [nx]))).
      { rewrite map_app. simpl. apply NoDup_app. split; [exact Hd|].
        split; [|repeat constructor; intros K; inversion K].
        intros u Hu K. apply list_elem_of_In in Hu.
        apply list_elem_of_In in K. destruct K as [<-|[]].
        apply get_itemx_none in Eg. contradiction. }
      replace (S (length v)) with (length (v ++ [nx]))
        by (rewrite length_app; simpl; lia).
      destruct (IH (v ++ [nx]) Hn' Hd') as (added & E & N & D & A & C).
      exists (nx :: added). rewrite <- app_assoc in E, N, D, C. simpl in E, N, D, C.
      repeat split; auto.
      * destruct H as [<-|H]; [now left|]. apply A in H. simpl. tauto.
      * destruct H as [<-|H].
        { simpl. now apply get_itemx_none. }
        apply A in H. destruct H as [_ H]. intros K. apply H.
        rewrite map_app, in_app_iff. now left.
      * intros u [<-|Hu]; [|now apply C].
        rewrite map_app, in_app_iff. right. now left.
Qed.

Lemma find_if_spec {A : Type} (p : A -> bool) (l : list A) :
  match find_if p l with
  | None => forall x, In x l -> p x = false
  | Some k =>
      (exists x, nth_error l k = Some x /\ p x = true)
      /\ forall j y, (j < k)%nat -> nth_error l j = Some y -> p y = false
  end.
Proof.
  induction l as [|x l IH]; simpl; [contradiction|].
  destruct (p x) eqn:Ex.
  - split; [exists x; auto|]. intros j y Hj. lia.
  - destruct (find_if p l) as [k|].
    + destruct IH as [(y & Hy & Py) Hb]. split; [exists y; auto|].
      intros j z Hj Hz. destruct j as [|j]; simpl in Hz.
      * now injection Hz as <-.
      * apply (Hb j); [lia|exact Hz].
    + intros y [<-|Hy]; auto.
Qed.

Section Refresh.
Variables FLAG_RECENT FLAG_SEEN DISPATCH_MIDB : Z.
Local Abbreviation refresh := (Contents.refresh FLAG_RECENT FLAG_SEEN DISPATCH_MIDB).

(** X9.  A refresh with fresh numbers, as SELECT asks for: on success the array
    holds the fetched messages in the fetched order, numbered 1, 2, ...;
    on an MIDB failure the array is left as it was. *)
Theorem refresh_fresh_numbers :
  forall (self : content_array) (ssr : midb_result) (errnum : Z)
         (xa : list MITEM),
    let r := refresh self (ssr, errnum, xa) true in
    (fst r = 0 ->
       map uid (m_vec (snd r)) = map uid xa
       /\ numbered 0 (m_vec (snd r)))
    /\ (fst r <> 0 -> snd r = self).
Proof.
  intros self ssr errnum xa. unfold Contents.refresh. cbv zeta.
  destruct (negb (m2icode DISPATCH_MIDB ssr errnum =? 0)) eqn:E.
  - cbn [fst snd]. apply negb_true_iff, Z.eqb_neq in E. split; [|reflexivity].
    intros K. contradiction.
  - cbn [fst snd m_vec]. split; [|intros K; now contradiction K].
    intros _. split; [apply renumber_uids|apply (renumber_numbered xa 0)].
Qed.

(** X10.  A refresh that keeps the numbers, on an array whose messages are
    numbered by position and have distinct UIDs: the messages known before
    stay where they are, the messages appended are those whose UID was not
    known, every fetched UID is known afterwards, and the array is again
    numbered by position with distinct UIDs. *)
Theorem refresh_keeps_known_messages :
  forall (self : content_array) (ssr : midb_result) (errnum : Z)
         (xa : list MITEM),
    numbered 0 (m_vec self) -> NoDup (map uid (m_vec self)) ->
    let r := refresh self (ssr, errnum, xa) false in
    fst r = 0 ->
    exists added,
      m_vec (snd r) = m_vec self ++ added
      /\ numbered 0 (m_vec (snd r))
      /\ NoDup (map uid (m_vec (snd r)))
      /\ (forall u, In u (map uid added) ->
                    In u (map uid xa) /\ ~ In u (map uid (m_vec self)))
      /\ (forall u, In u (map uid xa) -> In u (map uid (m_vec (snd r)))).
Proof.
  intros self ssr errnum xa Hn Hd. unfold Contents.refresh. cbv zeta.
  destruct (negb (m2icode DISPATCH_MIDB ssr errnum =? 0)) eqn:E.
  - cbn [fst]. apply negb_true_iff, Z.eqb_neq in E. intros K. contradiction.
  - cbn [fst snd m_vec]. intros _.
    destruct (append_new_spec xa (m_vec self) Hn Hd)
      as (added & Ea & N & D & A & C).
    exists added. rewrite Ea. auto.
Qed.

(** X11.  The counters after a successful refresh: [n_recent] counts messages,
    and [firstunseen] is 0 when every message carries [\Seen], otherwise
    the number of the first message that does not. *)
Theorem refresh_counters :
  forall (self : content_array) (fetched : midb_result * Z * list MITEM)
         (fresh_numbers : bool),
    let r := refresh self fetched fresh_numbers in
    let v := m_vec (snd r) in
    fst r = 0 ->
    0 <= n_recent (snd r) <= Z.of_nat (length v)
    /\ (firstunseen (snd r) = 0 ->
        forall m, In m v -> Fetch.has_flag (flag_bits m) FLAG_SEEN = true)
    /\ (firstunseen (snd r) <> 0 ->
        exists k m,
          firstunseen (snd r) = Z.of_nat k + 1
          /\ nth_error v k = Some m
          /\ Fetch.has_flag (flag_bits m) FLAG_SEEN = false
          /\ forall j y, (j < k)%nat -> nth_error v j = Some y ->
                Fetch.has_flag (flag_bits y) FLAG_SEEN = true).
Proof.
  intros self [[ssr errnum] xa] fresh. unfold Contents.refresh. cbv zeta.
  destruct (negb (m2icode DISPATCH_MIDB ssr errnum =? 0)) eqn:E.
  - cbn [fst]. apply negb_true_iff, Z.eqb_neq in E. intros K. contradiction.
  - cbn [fst snd m_vec n_recent firstunseen]. intros _.
    set (v := if fresh then _ else _).
    split; [|split].
    + unfold count_recent. pose proof (length_filter (fun m => Fetch.has_flag (flag_bits m) FLAG_RECENT = true) v). lia.
    + unfold first_unseen.
      pose proof (find_if_spec
                    (fun m => negb (Fetch.has_flag (flag_bits m) FLAG_SEEN)) v) as S.
      destruct (find_if _ v) as [k|]; [lia|]. intros _ m Hm.
      apply S in Hm. now apply negb_false_iff in Hm.
    + unfold first_unseen.
      pose proof (find_if_spec
                    (fun m => negb (Fetch.has_flag (flag_bits m) FLAG_SEEN)) v) as S.
      destruct (find_if _ v) as [k|]; [|intros K; now contradiction K].
      intros _. destruct S as [(m & Hm & Pm) Hb]. exists k, m.
      split; [reflexivity|]. split; [exact Hm|].
      split; [now apply negb_true_iff in Pm|].
      intros j y Hj Hy. specialize (Hb j y Hj Hy). now apply negb_false_iff in Hb.
Qed.
End Refresh.

Definition sample_known : list MITEM :=
  [ {| uid := 10; mid := "m10"; flag_bits := 16; id := 1 |};
    {| uid := 12; mid := "m12"; flag_bits := 0; id := 2 |} ].

Definition sample_fetched : list MITEM :=
  [ {| uid := 10; mid := "m10"; flag_bits := 16; id := 0 |};
    {| uid := 12; mid := "m12"; flag_bits := 0; id := 0 |};
    {| uid := 15; mid := "m15"; flag_bits := 32; id := 0 |} ].

Lemma sample_known_numbered : numbered 0 sample_known.
Proof.
  intros i it H. destruct i as [|[|i]]; simpl in H.
  - now injection H as <-.
  - now injection H as <-.
  - destruct i; discriminate.
Qed.

Lemma refresh_keeps_known_messages_witness :
  exists added,
    m_vec (snd (Contents.refresh 32 16 65536
                  {| m_vec := sample_known; n_recent := 0; firstunseen := 2 |}
                  (MIDB_RESULT_OK, 0, sample_fetched) false))
    = sample_known ++ added
    /\ map uid added = [15].
Proof.
  assert (D : NoDup (map uid sample_known)).
  { simpl. apply NoDup_cons_2; [|apply NoDup_singleton].
    intros H. apply list_elem_of_In in H. destruct H as [H|[]]. discriminate. }
  destruct (refresh_keeps_known_messages 32 16 65536
              {| m_vec := sample_known; n_recent := 0; firstunseen := 2 |}
              MIDB_RESULT_OK 0 sample_fetched sample_known_numbered D eq_refl)
    as (added & E & _).
  exists added. split; [exact E|].
  vm_compute in E. injection E as <-. reflexivity.
Defined.

Lemma refresh_counters_witness :
  let r := Contents.refresh 32 16 65536
             {| m_vec := []; n_recent := 0; firstunseen := 0 |}
             (MIDB_RESULT_OK, 0, sample_fetched) true in
  0 <= n_recent (snd r) <= 3 /\ firstunseen (snd r) = 2.
Proof.
  destruct (refresh_counters 32 16 65536
              {| m_vec := []; n_recent := 0; firstunseen := 0 |}
              (MIDB_RESULT_OK, 0, sample_fetched) true eq_refl)
    as (Hn & _ & _).
  split; [exact Hn|reflexivity].
Defined.

End ContentsProps.

(** ** FETCH and the flags of a message *)

Module FetchFlagsProps.
Import Fetch FetchItemProps.

Section Flags.
Variables FLAG_RECENT FLAG_ANSWERED FLAG_FLAGGED FLAG_DELETED
          FLAG_SEEN FLAG_DRAFT FLAG_LOADED : Z.
Variable match_field :
  string -> string -> Z -> Z -> bool -> string -> Z -> Z -> option string.
Variable load_from_json : MITEM -> string -> option MJSON.
Variable stream_write_ok : string -> bool.

Local Abbreviation keyword :=
  (fetch_keyword FLAG_RECENT FLAG_ANSWERED FLAG_FLAGGED FLAG_DELETED
     FLAG_SEEN FLAG_DRAFT match_field).
Local Abbreviation keywords :=
  (fetch_keywords FLAG_RECENT FLAG_ANSWERED FLAG_FLAGGED FLAG_DELETED
     FLAG_SEEN FLAG_DRAFT match_field).
Local Abbreviation process :=
  (imap_cmd_parser_process_fetch_item FLAG_RECENT FLAG_ANSWERED FLAG_FLAGGED
     FLAG_DELETED FLAG_SEEN FLAG_DRAFT FLAG_LOADED match_field
     load_from_json stream_write_ok).

Lemma mark_seen_read_only (ctx : fetch_ctx) (pitem : MITEM) (st : fstate) :
  b_readonly ctx = true -> mark_seen FLAG_SEEN ctx pitem st = st.
Proof. intros H. unfold mark_seen. now rewrite H. Qed.

Lemma record_record (st : fstate) (a b : list event) :
  record (record st a) b = record st (a ++ b).
Proof. unfold record. cbn [cur_bits events]. now rewrite <- app_assoc. Qed.

(** On a read-only mailbox the loop records calls to [rfc822_build] and
    nothing else. *)
Lemma fetch_keywords_read_only (ctx : fetch_ctx) (mjson : MJSON)
    (pitem : MITEM) (kws : list string) (b_first : bool) (buff : string)
    (st : fstate) :
  b_readonly ctx = true ->
  exists builds,
    Forall (is_build ctx) builds
    /\ snd (fst (keywords ctx mjson pitem kws b_first buff st))
       = record st builds.
Proof.
  intros H. revert b_first buff st.
  induction kws as [|kw kws IH]; intros b_first buff st.
  { exists []. split; [constructor|]. cbn. now rewrite record_nil. }
  cbn [fetch_keywords]. cbv zeta.
  destruct (keyword ctx mjson pitem kw st) as [c|[[kw' text] st']] eqn:Ek.
  { exists []. split; [constructor|]. cbn. now rewrite record_nil. }
  destruct (fetch_keyword_state _ _ _ _ _ _ _ _ _ _ _ _ _ _ _ Ek)
    as (calls & Hc & ->).
  assert (E : (if seen_trigger kw
               then mark_seen FLAG_SEEN ctx pitem (record st calls)
               else record st calls) = record st calls).
  { destruct (seen_trigger kw); [now apply mark_seen_read_only|reflexivity]. }
  rewrite E.
  destruct (IH true ((if b_first then buff +:+ " " else buff) +:+ text)
              (record st calls)) as (builds & Hb & K).
  destruct (keywords ctx mjson pitem kws true _ (record st calls))
    as [[[r b] s] c].
  cbn [fst snd] in K |- *. subst s.
  exists (calls ++ builds)%list.
  split; [now apply Forall_app|apply record_record].
Qed.

(** X12.  On a mailbox opened read-only, rendering a FETCH response
    changes no flag: the item keeps its flags, and no call goes to MIDB or
    to the notification hub.  What is done is the write of the response,
    if it comes to that, and before it the calls to [rfc822_build] on
    [<maildir>/tmp/imap.rfc822] that [BODY], [BODYSTRUCTURE] and
    [BODY[...]] items make for a mail with nested messages, on a
    read-only mailbox as on any other. *)
Theorem fetch_on_read_only_mailbox_changes_no_flags :
  forall (ctx : fetch_ctx) (b_data : bool) (pitem : MITEM) (item_id : Z)
         (kws : list string),
    b_readonly ctx = true ->
    let r := process ctx b_data pitem item_id kws in
    snd (fst (fst r)) = pitem
    /\ exists builds,
         Forall (is_build ctx) builds
         /\ (snd r = builds
             \/ exists text, snd r = (builds ++ [StreamWrite text])%list).
Proof.
  intros ctx b_data pitem item_id kws H.
  unfold imap_cmd_parser_process_fetch_item. cbv zeta.
  assert (E : forall bits, bits = flag_bits pitem -> set_bits pitem bits = pitem).
  { intros bits ->. now destruct pitem. }
  destruct (if has_flag (flag_bits pitem) FLAG_LOADED then _ else _)
    as [mjson|].
  2:{ split; [reflexivity|]. exists []. split; [constructor|now left]. }
  destruct (fetch_keywords_read_only ctx mjson pitem kws false
              ("* " +:+ pretty item_id +:+ " FETCH (")
              {| cur_bits := flag_bits pitem; events := [] |} H)
    as (builds & Hb & K).
  destruct (keywords ctx mjson pitem kws false _ _) as [[[kws' buff] st] code].
  cbn [fst snd] in K. subst st. unfold record. cbn [cur_bits events app].
  destruct code as [c|].
  { cbn [fst snd]. split; [now apply E|]. exists builds. split; [exact Hb|].
    now left. }
  destruct (negb (stream_write_ok _)).
  { cbn [fst snd]. split; [now apply E|]. exists builds. split; [exact Hb|].
    now left. }
  unfold clear_recent. rewrite H. cbn [negb andb fst snd cur_bits events].
  split; [now apply E|]. exists builds. split; [exact Hb|]. right. eauto.
Qed.

(** X13.  On a writable mailbox, an item for which the response went out no
    longer carries [\Recent]. *)
Theorem fetch_drops_recent_on_writable_mailbox :
  forall (ctx : fetch_ctx) (b_data : bool) (pitem : MITEM) (item_id : Z)
         (kws : list string),
    b_readonly ctx = false ->
    let r := process ctx b_data pitem item_id kws in
    fst (fst (fst r)) = 0 ->
    has_flag (flag_bits (snd (fst (fst r)))) FLAG_RECENT = false.
Proof.
  intros ctx b_data pitem item_id kws H.
  unfold imap_cmd_parser_process_fetch_item. cbv zeta.
  destruct (if has_flag (flag_bits pitem) FLAG_LOADED then _ else _)
    as [mjson|]; [|discriminate].
  destruct (keywords ctx mjson pitem kws false _ _)
    as [[[kws' buff] st] code] eqn:Ek.
  destruct code as [c|].
  { cbn [fst snd]. intros ->.
    now pose proof (fetch_keywords_code _ _ _ _ _ _ _ _ _ _ _ _ _ _ _ _ _ _ Ek). }
  destruct (negb (stream_write_ok _)); [discriminate|].
  cbn [fst snd]. intros _. unfold clear_recent. rewrite H.
  cbn [negb andb cur_bits].
  destruct (has_flag (cur_bits st) FLAG_RECENT) eqn:Er; [|exact Er].
  assert (K : has_flag (Z.land (cur_bits st) (Z.lnot FLAG_RECENT)) FLAG_RECENT
              = false).
  { unfold has_flag. rewrite <- Z.land_assoc.
    replace (Z.land (Z.lnot FLAG_RECENT) FLAG_RECENT) with 0.
    - now rewrite Z.land_0_r.
    - rewrite Z.land_comm. symmetry. apply Z.land_lnot_diag. }
  now destruct (negb (has_flag _ FLAG_SEEN)).
Qed.
End Flags.

Definition examine_ctx : fetch_ctx :=
  {| maildir := "/var/lib/gromox/user/1"; selected_folder := "inbox";
     b_readonly := true |}.

Definition recent_item : MITEM :=
  {| uid := 7; mid := "1700000000.5.mx"; flag_bits := 129; id := 1 |}.

(** A mail with a nested message, for which [rfc822_build] is called. *)
Definition nested_digest : MJSON := {|
  view := view sample_digest;
  get_mail_length := 1000;
  rfc822_check := true;
  rfc822_build := fun _ => false;
  rfc822_fetch := fun _ _ => None;
  fetch_structure := fun _ => None;
  fetch_envelope := None;
  internaldate := internaldate sample_digest;
  rfc822_get := fun _ _ => None
|}.

Lemma fetch_on_read_only_mailbox_changes_no_flags_witness :
  let r := imap_cmd_parser_process_fetch_item 1 2 4 8 16 32 128 no_field
             (fun _ _ => Some nested_digest) (fun _ => true)
             examine_ctx true recent_item 1 ["UID"; "BODY"; "RFC822"] in
  snd (fst (fst r)) = recent_item
  /\ exists builds,
       Forall (is_build examine_ctx) builds
       /\ (snd r = builds
           \/ exists text, snd r = (builds ++ [StreamWrite text])%list).
Proof.
  apply (fetch_on_read_only_mailbox_changes_no_flags 1 2 4 8 16 32 128
           no_field (fun _ _ => Some nested_digest) (fun _ => true)
           examine_ctx true recent_item 1 ["UID"; "BODY"; "RFC822"]).
  reflexivity.
Defined.

(** On that run the call is made: the read-only mailbox does not keep
    the renderer from building the files of the nested message. *)
Remark fetch_on_read_only_mailbox_builds_nested_message :
  hd_error
    (snd (imap_cmd_parser_process_fetch_item 1 2 4 8 16 32 128 no_field
            (fun _ _ => Some nested_digest) (fun _ => true)
            examine_ctx true recent_item 1 ["UID"; "BODY"; "RFC822"]))
  = Some (Rfc822Build "/var/lib/gromox/user/1/tmp/imap.rfc822").
Proof. vm_compute. reflexivity. Qed.

Lemma fetch_drops_recent_on_writable_mailbox_witness :
  has_flag
    (flag_bits
       (snd (fst (fst (sample_process sample_ctx true recent_item 1
                         ["UID"; "FLAGS"]))))) 1
  = false.
Proof.
  apply (fetch_drops_recent_on_writable_mailbox 1 2 4 8 16 32 128
           no_field (fun _ _ => Some sample_digest) (fun _ => true)
           sample_ctx true recent_item 1 ["UID"; "FLAGS"]);
    reflexivity.
Defined.

End FetchFlagsProps.

(** ** STORE and UID STORE *)

Module StoreProps.
Import Store FetchArgsProps.
Local Open Scope list_scope.

(** Flag bits that are nonzero and pairwise disjoint. *)
Fixpoint apart (l : list Z) : Prop :=
  match l with
  | [] => True
  | f :: rest =>
      f <> 0 /\ Forall (fun g => Z.land f g = 0) rest /\ apart rest
  end.

(** Names joined by single blanks. *)
Fixpoint join_space (l : list string) : string :=
  match l with
  | [] => ""
  | [x] => x
  | x :: rest => x +:+ " " +:+ join_space rest
  end.

Lemma has_flag_lor_same (a f : Z) :
  f <> 0 -> Fetch.has_flag (Z.lor a f) f = true.
Proof.
  intros H. unfold Fetch.has_flag. rewrite FetchItemProps.land_lor_same.
  now destruct (Z.eqb_spec f 0).
Qed.

Lemma has_flag_lor_other (a f g : Z) :
  Z.land f g = 0 -> Fetch.has_flag (Z.lor a f) g = Fetch.has_flag a g.
Proof.
  intros H. unfold Fetch.has_flag.
  now rewrite Z.land_lor_distr_l, H, Z.lor_0_r.
Qed.

Lemma has_flag_zero (g : Z) : Fetch.has_flag 0 g = false.
Proof. reflexivity. Qed.

Section Handlers.
Variables FLAG_RECENT FLAG_ANSWERED FLAG_FLAGGED FLAG_DELETED
          FLAG_SEEN FLAG_DRAFT : Z.
Variable DISPATCH_MIDB : Z.
Variable SEQ_STAR : Z.
Variable parse_imap_seq : string -> option (list SeqSet.range_node).
Variable parse_imap_args : string -> option (list string).

Local Abbreviation scan :=
  (scan_flags FLAG_RECENT FLAG_ANSWERED FLAG_FLAGGED FLAG_DELETED FLAG_SEEN
     FLAG_DRAFT).
Local Abbreviation text_of :=
  (flags_string FLAG_RECENT FLAG_ANSWERED FLAG_FLAGGED FLAG_DELETED FLAG_SEEN
     FLAG_DRAFT).
Local Abbreviation store :=
  (imap_cmd_parser_store FLAG_RECENT FLAG_ANSWERED FLAG_FLAGGED FLAG_DELETED
     FLAG_SEEN FLAG_DRAFT DISPATCH_MIDB SEQ_STAR parse_imap_seq
     parse_imap_args).
Local Abbreviation uid_store :=
  (imap_cmd_parser_uid_store FLAG_RECENT FLAG_ANSWERED FLAG_FLAGGED
     FLAG_DELETED FLAG_SEEN FLAG_DRAFT DISPATCH_MIDB parse_imap_seq
     parse_imap_args).

Definition names : list string :=
  ["\Recent"; "\Answered"; "\Flagged"; "\Deleted"; "\Seen"; "\Draft"].

Definition named (toks : list string) (n : string) : bool :=
  existsb (fun t => strcaseeq t n) toks.

(** The text [convert_flags_string] builds is the list of the names whose
    bit is set, in the fixed order, joined by blanks. *)
Lemma flags_string_join (bits : Z) :
  text_of bits
  = "(" +:+ join_space
              (map snd
                 (List.filter (fun e => Fetch.has_flag bits (fst e))
                    [(FLAG_RECENT, "\Recent"); (FLAG_ANSWERED, "\Answered");
                     (FLAG_FLAGGED, "\Flagged"); (FLAG_DELETED, "\Deleted");
                     (FLAG_SEEN, "\Seen"); (FLAG_DRAFT, "\Draft")]))
    +:+ ")".
Proof.
  unfold flags_string, Fetch.imap_cmd_parser_convert_flags_string.
  cbn [fold_left List.filter fst snd].
  destruct (Fetch.has_flag bits FLAG_RECENT),
           (Fetch.has_flag bits FLAG_ANSWERED),
           (Fetch.has_flag bits FLAG_FLAGGED),
           (Fetch.has_flag bits FLAG_DELETED),
           (Fetch.has_flag bits FLAG_SEEN),
           (Fetch.has_flag bits FLAG_DRAFT); reflexivity.
Qed.

Hypothesis flags_apart :
  apart [FLAG_RECENT; FLAG_ANSWERED; FLAG_FLAGGED; FLAG_DELETED; FLAG_SEEN;
         FLAG_DRAFT].

Lemma scan_flags_bits (toks : list string) (acc bits : Z) :
  scan toks acc = Some bits ->
  Fetch.has_flag bits FLAG_RECENT
  = Fetch.has_flag acc FLAG_RECENT || named toks "\Recent"
  /\ Fetch.has_flag bits FLAG_ANSWERED
     = Fetch.has_flag acc FLAG_ANSWERED || named toks "\Answered"
  /\ Fetch.has_flag bits FLAG_FLAGGED
     = Fetch.has_flag acc FLAG_FLAGGED || named toks "\Flagged"
  /\ Fetch.has_flag bits FLAG_DELETED
     = Fetch.has_flag acc FLAG_DELETED || named toks "\Deleted"
  /\ Fetch.has_flag bits FLAG_SEEN
     = Fetch.has_flag acc FLAG_SEEN || named toks "\Seen"
  /\ Fetch.has_flag bits FLAG_DRAFT
     = Fetch.has_flag acc FLAG_DRAFT || named toks "\Draft".
Proof.
  simpl in flags_apart.
  destruct flags_apart as (R0 & RF & A0 & AF & F0 & FF & D0 & DF & S0 & SF
                           & P0 & _).
  repeat match goal with
         | K : Forall _ (_ :: _) |- _ => inversion K; clear K; subst
         | K : Forall _ [] |- _ => clear K
         end.
  assert (Sym : forall a b, Z.land a b = 0 -> Z.land b a = 0)
    by (intros a b K; now rewrite Z.land_comm).
  revert acc. induction toks as [|t toks IH]; intros acc H.
  - simpl in H. injection H as <-. unfold named. simpl.
    now rewrite !orb_false_r.
  - cbn [scan_flags] in H. unfold named. cbn [existsb]. fold (named toks).
    destruct (strcaseeq t "\Answered") eqn:E1.
    { apply IH in H. destruct H as (B1 & B2 & B3 & B4 & B5 & B6).
      rewrite B1, B2, B3, B4, B5, B6.
      rewrite has_flag_lor_same by assumption.
      rewrite !has_flag_lor_other by auto.
      rewrite !(strcaseeq_compat t _ _ E1). simpl. repeat split; auto;
        now rewrite ?orb_true_r, ?orb_false_r. }
    destruct (strcaseeq t "\Flagged") eqn:E2.
    { apply IH in H. destruct H as (B1 & B2 & B3 & B4 & B5 & B6).
      rewrite B1, B2, B3, B4, B5, B6.
      rewrite has_flag_lor_same by assumption.
      rewrite !has_flag_lor_other by auto.
      rewrite !(strcaseeq_compat t _ _ E2). simpl. repeat split; auto;
        now rewrite ?orb_true_r, ?orb_false_r. }
    destruct (strcaseeq t "\Deleted") eqn:E3.
    { apply IH in H. destruct H as (B1 & B2 & B3 & B4 & B5 & B6).
      rewrite B1, B2, B3, B4, B5, B6.
      rewrite has_flag_lor_same by assumption.
      rewrite !has_flag_lor_other by auto.
      rewrite !(strcaseeq_compat t _ _ E3). simpl. repeat split; auto;
        now rewrite ?orb_true_r, ?orb_false_r. }
    destruct (strcaseeq t "\Seen") eqn:E4.
    { apply IH in H. destruct H as (B1 & B2 & B3 & B4 & B5 & B6).
      rewrite B1, B2, B3, B4, B5, B6.
      rewrite has_flag_lor_same by assumption.
      rewrite !has_flag_lor_other by auto.
      rewrite !(strcaseeq_compat t _ _ E4). simpl. repeat split; auto;
        now rewrite ?orb_true_r, ?orb_false_r. }
    destruct (strcaseeq t "\Draft") eqn:E5.
    { apply IH in H. destruct H as (B1 & B2 & B3 & B4 & B5 & B6).
      rewrite B1, B2, B3, B4, B5, B6.
      rewrite has_flag_lor_same by assumption.
      rewrite !has_flag_lor_other by auto.
      rewrite !(strcaseeq_compat t _ _ E5). simpl. repeat split; auto;
        now rewrite ?orb_true_r, ?orb_false_r. }
    destruct (strcaseeq t "\Recent") eqn:E6; [|discriminate].
    apply IH in H. destruct H as (B1 & B2 & B3 & B4 & B5 & B6).
    rewrite B1, B2, B3, B4, B5, B6.
    rewrite has_flag_lor_same by assumption.
    rewrite !has_flag_lor_other by auto.
    simpl. repeat split; auto; now rewrite ?orb_true_r, ?orb_false_r.
Qed.

(** X14.  The flag names of a STORE, turned into bits and rendered back by
    [convert_flags_string], give the names that were mentioned, once each,
    in the fixed order of the FLAGS response. *)
Theorem store_flag_names_round_trip :
  forall (toks : list string) (bits : Z),
    scan toks 0 = Some bits ->
    text_of bits = "(" +:+ join_space (List.filter (named toks) names) +:+ ")".
Proof.
  intros toks bits H. rewrite flags_string_join.
  destruct (scan_flags_bits toks 0 bits H) as (B1 & B2 & B3 & B4 & B5 & B6).
  rewrite has_flag_zero in B1, B2, B3, B4, B5, B6. cbn [orb] in *.
  cbn [List.filter fst snd names]. rewrite B1, B2, B3, B4, B5, B6.
  destruct (named toks "\Recent"), (named toks "\Answered"),
           (named toks "\Flagged"), (named toks "\Deleted"),
           (named toks "\Seen"), (named toks "\Draft"); reflexivity.
Qed.
End Handlers.

Section Quiet.
Variables FLAG_RECENT FLAG_ANSWERED FLAG_FLAGGED FLAG_DELETED
          FLAG_SEEN FLAG_DRAFT : Z.
Variable DISPATCH_MIDB : Z.
Variable SEQ_STAR : Z.
Variable parse_imap_seq : string -> option (list SeqSet.range_node).
Variable parse_imap_args : string -> option (list string).

Local Abbreviation scan :=
  (scan_flags FLAG_RECENT FLAG_ANSWERED FLAG_FLAGGED FLAG_DELETED FLAG_SEEN
     FLAG_DRAFT).
Local Abbreviation tail :=
  (store_tail FLAG_RECENT FLAG_ANSWERED FLAG_FLAGGED FLAG_DELETED
     FLAG_SEEN FLAG_DRAFT DISPATCH_MIDB parse_imap_args).
Local Abbreviation store :=
  (imap_cmd_parser_store FLAG_RECENT FLAG_ANSWERED FLAG_FLAGGED FLAG_DELETED
     FLAG_SEEN FLAG_DRAFT DISPATCH_MIDB SEQ_STAR parse_imap_seq
     parse_imap_args).
Local Abbreviation uid_store :=
  (imap_cmd_parser_uid_store FLAG_RECENT FLAG_ANSWERED FLAG_FLAGGED
     FLAG_DELETED FLAG_SEEN FLAG_DRAFT DISPATCH_MIDB parse_imap_seq
     parse_imap_args).
Local Abbreviation store_flags :=
  (imap_cmd_parser_store_flags FLAG_RECENT FLAG_ANSWERED FLAG_FLAGGED
     FLAG_DELETED FLAG_SEEN FLAG_DRAFT).
Local Abbreviation loop :=
  (store_loop FLAG_RECENT FLAG_ANSWERED FLAG_FLAGGED FLAG_DELETED FLAG_SEEN
     FLAG_DRAFT).

(** A name that is none of the six flag names stops the scan. *)
Lemma scan_flags_unknown (toks : list string) (t : string) (acc : Z) :
  In t toks -> forallb (fun n => negb (strcaseeq t n)) names = true ->
  scan toks acc = None.
Proof.
  intros Hin Hbad. simpl in Hbad.
  repeat (apply andb_true_iff in Hbad as [? Hbad]).
  repeat match goal with
         | K : negb _ = true |- _ => apply negb_true_iff in K
         end.
  revert acc. induction toks as [|x toks IH]; intros acc; [contradiction|].
  cbn [scan_flags]. destruct Hin as [->|Hin].
  - repeat match goal with K : strcaseeq t _ = false |- _ =>
             rewrite K; clear K end.
    reflexivity.
  - repeat match goal with
           | |- context [if ?c then _ else _] => destruct c; auto
           end.
Qed.

Lemma store_tail_quiet (env : store_env) (ctx : store_ctx)
    (cmd flags : string) (with_uid : bool) (set : list SeqSet.range_node)
    (ok_code : Z) :
  b_readonly ctx = true
  \/ (exists toks t,
        flag_args parse_imap_args flags = Some toks /\ In t toks
        /\ forallb (fun n => negb (strcaseeq t n)) names = true) ->
  snd (tail env ctx cmd flags with_uid set ok_code) = [].
Proof.
  intros H. unfold store_tail.
  destruct (flag_args parse_imap_args flags) as [toks|]; [|reflexivity].
  destruct (b_readonly ctx); [reflexivity|].
  destruct H as [H|(toks' & t & E & Hin & Hbad)]; [discriminate|].
  injection E as <-. now rewrite (scan_flags_unknown toks t 0 Hin Hbad).
Qed.

(** A flag argument in which some name is none of the six flag names. *)
Definition unknown_flag (flags : string) : Prop :=
  exists toks t,
    flag_args parse_imap_args flags = Some toks /\ In t toks
    /\ forallb (fun n => negb (strcaseeq t n)) names = true.

(** X15.  STORE and UID STORE on a read-only mailbox, or with a flag name that
    is none of [\Answered], [\Flagged], [\Deleted], [\Seen], [\Draft],
    [\Recent], do nothing: no call to MIDB, no notification, no output. *)
Theorem store_refused_changes_nothing :
  forall (env : store_env) (ctx : store_ctx) (argv : list string),
    (b_readonly ctx = true \/ unknown_flag (arg argv 4) ->
     snd (store env ctx argv) = [])
    /\ (b_readonly ctx = true \/ unknown_flag (arg argv 5) ->
        snd (uid_store env ctx argv) = []).
Proof.
  intros env ctx argv. split; intros H.
  - unfold imap_cmd_parser_store.
    destruct (proto_stat ctx); try reflexivity.
    destruct (length argv <? 5)%nat; [reflexivity|].
    destruct (parse_imap_seq (arg argv 2)); [|reflexivity].
    destruct (SeqSet.parse_imap_seqx _ _ _); [|reflexivity].
    destruct (negb (store_flagkeyword (arg argv 3))); [reflexivity|].
    now apply store_tail_quiet.
  - unfold imap_cmd_parser_uid_store.
    destruct (proto_stat ctx); try reflexivity.
    destruct (length argv <? 6)%nat; [reflexivity|].
    destruct (parse_imap_seq (arg argv 3)); [|reflexivity].
    destruct (negb (store_flagkeyword (arg argv 4))); [reflexivity|].
    now apply store_tail_quiet.
Qed.

Definition is_write (c : store_call) : bool :=
  match c with SafeWrite _ => true | _ => false end.

Definition silent (cmd : string) : bool :=
  strcaseeq cmd "FLAGS.SILENT" || strcaseeq cmd "+FLAGS.SILENT"
  || strcaseeq cmd "-FLAGS.SILENT".

Lemma store_flags_silent (env : store_env) (ctx : store_ctx)
    (cmd mid : string) (id uid flag_bits : Z) :
  silent cmd = true ->
  existsb is_write (store_flags env ctx cmd mid id uid flag_bits) = false.
Proof.
  intros H. unfold silent in H. unfold imap_cmd_parser_store_flags.
  apply orb_true_iff in H as [H|H]; [apply orb_true_iff in H as [H|H]|].
  - rewrite !(strcaseeq_compat cmd _ _ H). reflexivity.
  - rewrite !(strcaseeq_compat cmd _ _ H). reflexivity.
  - rewrite !(strcaseeq_compat cmd _ _ H). reflexivity.
Qed.

Lemma store_loop_silent (env : store_env) (ctx : store_ctx) (cmd : string)
    (with_uid : bool) (flag_bits : Z) (xarray : list MITEM) :
  silent cmd = true ->
  existsb is_write (loop env ctx cmd with_uid flag_bits xarray) = false.
Proof.
  intros H. induction xarray as [|p rest IH]; [reflexivity|].
  cbn [store_loop]. destruct (Copy.get_itemx _ _) as [[k ct]|]; [|exact IH].
  rewrite !existsb_app, IH, store_flags_silent by exact H. reflexivity.
Qed.

(** X16.  With one of the [.SILENT] keywords, STORE and UID STORE write nothing
    to the client themselves: the tagged reply is all that follows. *)
Theorem store_silent_writes_nothing :
  forall (env : store_env) (ctx : store_ctx) (argv : list string),
    (silent (arg argv 3) = true ->
     existsb is_write (snd (store env ctx argv)) = false)
    /\ (silent (arg argv 4) = true ->
        existsb is_write (snd (uid_store env ctx argv)) = false).
Proof.
  intros env ctx argv. split; intros H.
  - unfold imap_cmd_parser_store.
    destruct (proto_stat ctx); try reflexivity.
    destruct (length argv <? 5)%nat; [reflexivity|].
    destruct (parse_imap_seq (arg argv 2)); [|reflexivity].
    destruct (SeqSet.parse_imap_seqx _ _ _); [|reflexivity].
    destruct (negb (store_flagkeyword (arg argv 3))); [reflexivity|].
    unfold store_tail.
    destruct (flag_args _ _); [|reflexivity].
    destruct (b_readonly ctx); [reflexivity|].
    destruct (scan _ 0); [|reflexivity].
    destruct (fetch_simple_uid env _ _) as [[ssr e] xa].
    destruct (negb (m2icode DISPATCH_MIDB ssr e =? 0)); [reflexivity|].
    cbn [snd]. rewrite existsb_app, store_loop_silent by exact H. reflexivity.
  - unfold imap_cmd_parser_uid_store.
    destruct (proto_stat ctx); try reflexivity.
    destruct (length argv <? 6)%nat; [reflexivity|].
    destruct (parse_imap_seq (arg argv 3)); [|reflexivity].
    destruct (negb (store_flagkeyword (arg argv 4))); [reflexivity|].
    unfold store_tail.
    destruct (flag_args _ _); [|reflexivity].
    destruct (b_readonly ctx); [reflexivity|].
    destruct (scan _ 0); [|reflexivity].
    destruct (fetch_simple_uid env _ _) as [[ssr e] xa].
    destruct (negb (m2icode DISPATCH_MIDB ssr e =? 0)); [reflexivity|].
    cbn [snd]. rewrite existsb_app, store_loop_silent by exact H. reflexivity.
Qed.
End Quiet.

Lemma store_flag_names_round_trip_witness :
  apart [1; 2; 4; 8; 16; 32]
  /\ flags_string 1 2 4 8 16 32 24 = "(\Deleted \Seen)".
Proof.
  assert (A : apart [1; 2; 4; 8; 16; 32]).
  { simpl. repeat split; try lia; repeat constructor. }
  split; [exact A|].
  apply (store_flag_names_round_trip 1 2 4 8 16 32 A
           ["\Seen"; "\deleted"; "\SEEN"] 24).
  reflexivity.
Defined.

End StoreProps.

(** ** EXPUNGE, UID EXPUNGE and CLOSE *)

Module ExpungeProps.
Import Expunge.
Local Open Scope list_scope.

Lemma iseq_contains_sound (l : list SeqSet.range_node) (num max_uid : Z) :
  Iseq.iseq_contains l num max_uid = true ->
  exists r, In r l /\ SeqSet.lo r <= num <= SeqSet.hi r.
Proof.
  unfold Iseq.iseq_contains.
  destruct (nth_error l _) as [r|] eqn:E; [|discriminate].
  rewrite !andb_true_iff, !Z.leb_le. intros [[H1 H2] _].
  exists r. split; [eapply nth_error_In; eassumption|lia].
Qed.

Section Handlers.
Variable FLAG_DELETED : Z.
Variables DISPATCH_MIDB DISPATCH_BREAK : Z.
Variable resource_get_imap_code : Z -> Z -> string.
Variable resource_get_error_string : Z -> string.
Variable parse_imap_seq : string -> option (list SeqSet.range_node).

Local Abbreviation expunge :=
  (imap_cmd_parser_expunge FLAG_DELETED DISPATCH_MIDB DISPATCH_BREAK
     resource_get_imap_code).
Local Abbreviation uid_expunge :=
  (imap_cmd_parser_uid_expunge FLAG_DELETED DISPATCH_MIDB DISPATCH_BREAK
     resource_get_imap_code parse_imap_seq).
Local Abbreviation close :=
  (imap_cmd_parser_close FLAG_DELETED resource_get_imap_code
     resource_get_error_string).
Local Abbreviation finish :=
  (expunge_finish DISPATCH_BREAK resource_get_imap_code).

(** A message MIDB listed as deleted, with a UID and the [\Deleted] bit. *)
Definition deleted (env : exp_env) (ctx : exp_ctx) (p : MITEM) : Prop :=
  In p (snd (list_deleted env (selected_folder ctx)))
  /\ uid p <> 0
  /\ Fetch.has_flag (flag_bits p) FLAG_DELETED = true.

(** Every removal in a trace is that of a deleted message, and when a
    file is removed MIDB has been asked before to remove the message: the
    [remove_mail] call that names it stands in front of the removal of
    the file. *)
Definition justified (env : exp_env) (ctx : exp_ctx) (tr : list exp_call)
    : Prop :=
  (forall f mids, In (RemoveMail f mids) tr ->
     f = selected_folder ctx
     /\ forall m, In m mids -> exists p, deleted env ctx p /\ mid p = m)
  /\ (forall before path rest,
        tr = before ++ RemoveFile path :: rest ->
        exists p mids,
          deleted env ctx p /\ path = eml_path ctx p
          /\ In (RemoveMail (selected_folder ctx) mids) before
          /\ In (mid p) mids).

Lemma not_zero_uid_bit (p : MITEM) :
  negb (zero_uid_bit FLAG_DELETED p) = true ->
  uid p <> 0 /\ Fetch.has_flag (flag_bits p) FLAG_DELETED = true.
Proof.
  unfold zero_uid_bit. rewrite negb_orb, andb_true_iff, !negb_true_iff.
  intros [H1 H2]. apply Z.eqb_neq in H1. apply negb_false_iff in H2. auto.
Qed.

Lemma justified_nil (env : exp_env) (ctx : exp_ctx) (tr : list exp_call) :
  (forall f mids, ~ In (RemoveMail f mids) tr) ->
  (forall path, ~ In (RemoveFile path) tr) ->
  justified env ctx tr.
Proof.
  intros H1 H2. split.
  - intros f mids H. now apply H1 in H.
  - intros before path rest E. exfalso. apply (H2 path). rewrite E.
    apply in_elt.
Qed.

Ltac no_removal :=
  apply justified_nil; intros; simpl;
  intros K; repeat (destruct K as [K|K]; try discriminate); exact K.

(** In a list cut at two places, what comes first in the one cut lies in
    front of the other. *)
Lemma cut_before (A B before rest : list exp_call) (x y : exp_call) :
  A ++ x :: B = before ++ y :: rest ->
  ~ In y A -> x <> y -> In x before.
Proof.
  revert before. induction A as [|a A IH]; intros before E Hy Hxy.
  - destruct before as [|b before]; simpl in E.
    + injection E as E _. contradiction.
    + injection E as <- _. now left.
  - destruct before as [|b before]; simpl in E.
    + injection E as E _. exfalso. apply Hy. now left.
    + injection E as <- E. right. apply (IH before E); [|exact Hxy].
      intros H. apply Hy. now right.
Qed.

(** The shape every run with a removal has: calls that remove nothing,
    the [remove_mail] call, then the removals of files of messages named
    in that call. *)
Lemma justified_shape (env : exp_env) (ctx : exp_ctx)
    (A B : list exp_call) (L : list string) :
  (forall path, ~ In (RemoveFile path) A) ->
  (forall f mids, ~ In (RemoveMail f mids) A) ->
  (forall f mids, ~ In (RemoveMail f mids) B) ->
  (forall m, In m L -> exists p, deleted env ctx p /\ mid p = m) ->
  (forall path, In (RemoveFile path) B ->
     exists p, deleted env ctx p /\ path = eml_path ctx p /\ In (mid p) L) ->
  justified env ctx (A ++ RemoveMail (selected_folder ctx) L :: B).
Proof.
  intros HA1 HA2 HB HL HF. split.
  - intros f mids H. apply in_app_iff in H as [H|[H|H]].
    + now apply HA2 in H.
    + injection H as <- <-. split; [reflexivity|exact HL].
    + now apply HB in H.
  - intros before path rest E.
    assert (Hin : In (RemoveFile path) B).
    { assert (K : In (RemoveFile path)
                    (A ++ RemoveMail (selected_folder ctx) L :: B))
        by (rewrite E; apply in_elt).
      apply in_app_iff in K as [K|[K|K]];
        [now apply HA1 in K|discriminate|exact K]. }
    destruct (HF path Hin) as (p & D & Ep & Hm).
    exists p, L. split; [exact D|]. split; [exact Ep|]. split; [|exact Hm].
    apply (cut_before A B before rest _ _ E); [apply HA1|discriminate].
Qed.

(** What stands behind the [remove_mail] call of a run that went on. *)
Lemma files_then_notice (ctx : exp_ctx) (files : list MITEM)
    (notice last_calls : list exp_call) :
  (forall c, In c notice ->
     match c with RemoveFile _ | RemoveMail _ _ => False | _ => True end) ->
  (forall c, In c last_calls ->
     match c with RemoveFile _ | RemoveMail _ _ => False | _ => True end) ->
  let B := (map (fun p => RemoveFile (eml_path ctx p)) files ++ notice)
           ++ last_calls in
  (forall f mids, ~ In (RemoveMail f mids) B)
  /\ (forall path, In (RemoveFile path) B ->
        exists p, In p files /\ path = eml_path ctx p).
Proof.
  intros Hn Hl B. subst B. split.
  - intros f mids H. rewrite !in_app_iff in H. destruct H as [[H|H]|H].
    + apply in_map_iff in H as (p & K & _). discriminate.
    + now apply Hn in H.
    + now apply Hl in H.
  - intros path H. rewrite !in_app_iff in H. destruct H as [[H|H]|H].
    + apply in_map_iff in H as (p & K & Hp). injection K as <-. eauto.
    + now apply Hn in H.
    + now apply Hl in H.
Qed.

Lemma finish_justified (env : exp_env) (ctx : exp_ctx) (argv : list string)
    (exp_list files : list MITEM) :
  (forall p, In p exp_list -> deleted env ctx p) ->
  (forall p, In p files -> In p exp_list) ->
  justified env ctx
    (snd (finish env ctx argv exp_list files
            [ListDeleted (selected_folder ctx);
             RemoveMail (selected_folder ctx) (map mid exp_list)])).
Proof.
  intros Hd Hf. unfold expunge_finish. cbv zeta.
  set (notice := match exp_list with
                 | [] => []
                 | _ => [BcastExpunge (map uid exp_list)]
                 end).
  assert (Hn : forall c, In c (notice ++ [EchoModify]) ->
             match c with RemoveFile _ | RemoveMail _ _ => False | _ => True
             end).
  { intros c H. apply in_app_iff in H as [H|[<-|[]]]; [|exact I].
    subst notice. destruct exp_list; [contradiction|].
    destruct H as [<-|[]]. exact I. }
  assert (J : forall last_calls,
            (forall c, In c last_calls ->
               match c with RemoveFile _ | RemoveMail _ _ => False | _ => True
               end) ->
            justified env ctx
              ([ListDeleted (selected_folder ctx)]
               ++ RemoveMail (selected_folder ctx) (map mid exp_list)
                  :: StreamClear
                     :: (map (fun p => RemoveFile (eml_path ctx p)) files
                         ++ notice ++ [EchoModify]) ++ last_calls)).
  { intros last_calls Hl.
    destruct (files_then_notice ctx files (notice ++ [EchoModify]) last_calls
                Hn Hl) as [B1 B2].
    apply justified_shape.
    - intros path [K|[]]. discriminate.
    - intros f mids [K|[]]. discriminate.
    - intros f mids [K|K]; [discriminate|]. now apply B1 in K.
    - intros m Hm. apply in_map_iff in Hm as (p & <- & Hp). eauto.
    - intros path [K|K]; [discriminate|].
      destruct (B2 path K) as (p & Hp & ->).
      exists p. split; [auto|]. split; [reflexivity|]. apply in_map. auto. }
  destruct (negb (stream_write_ok env _)); cbn [snd].
  - specialize (J [] ltac:(intros c [])).
    rewrite app_nil_r in J. exact J.
  - specialize (J [StreamWrite (arg argv 0 +:+ " "
                                +:+ resource_get_imap_code 1726 1)]
                  ltac:(intros c [<-|[]]; exact I)).
    cbn [app] in J |- *. rewrite <- !app_assoc in J |- *. exact J.
Qed.

(** X17.  EXPUNGE, UID EXPUNGE and CLOSE remove nothing but messages that
    MIDB listed as deleted and that carry a UID and the [\Deleted] bit;
    the EML file of a message is removed only after MIDB has been asked
    to remove the message: in the order of the calls, the [remove_mail]
    that names the message comes before the removal of its file. *)
Theorem expunge_removes_only_deleted_messages :
  forall (env : exp_env) (ctx : exp_ctx) (argv : list string),
    justified env ctx (snd (expunge env ctx argv))
    /\ justified env ctx (snd (uid_expunge env ctx argv))
    /\ justified env ctx (snd (close env ctx)).
Proof.
  intros env ctx argv.
  assert (One : forall (A : list exp_call) (exp_list : list MITEM),
            (forall p, In p exp_list -> deleted env ctx p) ->
            (forall path, ~ In (RemoveFile path) A) ->
            (forall f mids, ~ In (RemoveMail f mids) A) ->
            forall last_calls,
              (forall c, In c last_calls ->
                 match c with RemoveFile _ | RemoveMail _ _ => False
                 | _ => True end) ->
              justified env ctx
                (A ++ RemoveMail (selected_folder ctx) (map mid exp_list)
                   :: last_calls)).
  { intros A exp_list D HA1 HA2 last_calls Hl. apply justified_shape; auto.
    - intros f mids H. now apply Hl in H.
    - intros m Hm. apply in_map_iff in Hm as (p & <- & Hp). eauto.
    - intros path H. now apply Hl in H. }
  split; [|split].
  - unfold imap_cmd_parser_expunge.
    destruct (proto_stat ctx); try no_removal.
    destruct (b_readonly ctx); [no_removal|].
    destruct (list_deleted env (selected_folder ctx)) as [[ssr e] xa] eqn:El.
    destruct (negb (m2icode DISPATCH_MIDB ssr e =? 0)); [no_removal|].
    destruct xa as [|x xa]; [no_removal|].
    set (exp_list := List.filter _ (x :: xa)).
    destruct (remove_mail env _ _) as [ssr' e'].
    assert (D : forall p, In p exp_list -> deleted env ctx p).
    { intros p Hp. apply filter_In in Hp as [Hi Hp].
      apply andb_true_iff in Hp as [Hp _]. apply not_zero_uid_bit in Hp.
      unfold deleted. rewrite El. tauto. }
    destruct (negb (m2icode DISPATCH_MIDB ssr' e' =? 0)).
    + cbn [snd].
      apply (One [ListDeleted (selected_folder ctx)] exp_list D);
        [intros path [K|[]]; discriminate
        |intros f mids [K|[]]; discriminate
        |intros c []].
    + exact (finish_justified env ctx argv exp_list exp_list D
               (fun p H => H)).
  - unfold imap_cmd_parser_uid_expunge.
    destruct (proto_stat ctx); try no_removal.
    destruct (b_readonly ctx); [no_removal|].
    destruct (length argv <? 4)%nat; [no_removal|].
    destruct (parse_imap_seq _) as [list_seq|]; [|no_removal].
    destruct (list_deleted env (selected_folder ctx)) as [[ssr e] xa] eqn:El.
    destruct (negb (m2icode DISPATCH_MIDB ssr e =? 0)); [no_removal|].
    destruct (last xa) as [pl|]; [|no_removal].
    set (exp_list := List.filter _ xa).
    destruct (remove_mail env _ _) as [ssr' e'].
    assert (D : forall p, In p exp_list -> deleted env ctx p).
    { intros p Hp. apply filter_In in Hp as [Hi Hp].
      apply andb_true_iff in Hp as [Hp _]. apply not_zero_uid_bit in Hp.
      unfold deleted. rewrite El. tauto. }
    destruct (negb (m2icode DISPATCH_MIDB ssr' e' =? 0)).
    + cbn [snd].
      apply (One [ListDeleted (selected_folder ctx)] exp_list D);
        [intros path [K|[]]; discriminate
        |intros f mids [K|[]]; discriminate
        |intros c []].
    + apply (finish_justified env ctx argv exp_list
                 (List.filter (known ctx) exp_list) D).
      intros p Hp. now apply filter_In in Hp.
  - unfold imap_cmd_parser_close.
    destruct (proto_stat ctx); try no_removal.
    unfold imap_cmd_parser_clsfld.
    destruct (streq (selected_folder ctx) ""); [no_removal|].
    destruct (b_readonly ctx); [no_removal|].
    destruct (list_deleted env (selected_folder ctx)) as [[r e] xa] eqn:El.
    destruct (negb (is_ok r)); [no_removal|].
    set (exp_list := List.filter _ xa).
    destruct (remove_mail env _ _) as [r' e'].
    assert (D : forall p, In p exp_list -> deleted env ctx p).
    { intros p Hp. apply filter_In in Hp as [Hi Hp].
      apply not_zero_uid_bit in Hp. unfold deleted. rewrite El. tauto. }
    assert (HA1 : forall path,
              ~ In (RemoveFile path)
                  [RemoveSelect; ListDeleted (selected_folder ctx)])
      by (intros path [K|[K|[]]]; discriminate).
    assert (HA2 : forall f mids,
              ~ In (RemoveMail f mids)
                  [RemoveSelect; ListDeleted (selected_folder ctx)])
      by (intros f mids [K|[K|[]]]; discriminate).
    destruct (negb (is_ok r')); cbn [snd].
    + rewrite <- app_assoc.
      apply (One [RemoveSelect; ListDeleted (selected_folder ctx)]
               exp_list D HA1 HA2).
      intros c [<-|[]]. exact I.
    + rewrite <- app_assoc.
      set (notice := match exp_list with
                     | [] => []
                     | _ => [BcastTouch (username ctx) (selected_folder ctx)]
                     end).
      assert (Hn : forall c, In c notice ->
                 match c with RemoveFile _ | RemoveMail _ _ => False
                 | _ => True end).
      { intros c H. subst notice. destruct exp_list; [contradiction|].
        destruct H as [<-|[]]. exact I. }
      destruct (files_then_notice ctx exp_list notice [] Hn
                  ltac:(intros c [])) as [B1 B2].
      rewrite app_nil_r in B1, B2.
      apply justified_shape; auto.
      * intros m Hm. apply in_map_iff in Hm as (p & <- & Hp). eauto.
      * intros path K. destruct (B2 path K) as (p & Hp & ->).
        exists p. split; [auto|]. split; [reflexivity|]. now apply in_map.
Qed.

(** X18.  On a mailbox opened read-only nothing is expunged: EXPUNGE and UID
    EXPUNGE make no call at all, and CLOSE only leaves the folder. *)
Theorem read_only_mailbox_is_never_expunged :
  forall (env : exp_env) (ctx : exp_ctx) (argv : list string),
    b_readonly ctx = true ->
    snd (expunge env ctx argv) = []
    /\ snd (uid_expunge env ctx argv) = []
    /\ (snd (close env ctx) = [] \/ snd (close env ctx) = [RemoveSelect]).
Proof.
  intros env ctx argv H. split; [|split].
  - unfold imap_cmd_parser_expunge. rewrite H. now destruct (proto_stat ctx).
  - unfold imap_cmd_parser_uid_expunge. rewrite H.
    now destruct (proto_stat ctx).
  - unfold imap_cmd_parser_close, imap_cmd_parser_clsfld. rewrite H.
    destruct (proto_stat ctx); try (now left).
    destruct (streq (selected_folder ctx) ""); [now left|now right].
Qed.

(** X19.  UID EXPUNGE asks MIDB to remove only messages whose UID lies in one
    of the ranges of the given set. *)
Theorem uid_expunge_stays_within_the_set :
  forall (env : exp_env) (ctx : exp_ctx) (argv : list string)
         (list_seq : list SeqSet.range_node) (f : string)
         (mids : list string) (m : string),
    parse_imap_seq (arg argv 3) = Some list_seq ->
    In (RemoveMail f mids) (snd (uid_expunge env ctx argv)) ->
    In m mids ->
    exists p r,
      In p (snd (list_deleted env (selected_folder ctx))) /\ mid p = m
      /\ In r list_seq /\ SeqSet.lo r <= uid p <= SeqSet.hi r.
Proof.
  intros env ctx argv list_seq f mids m Hs Hin Hm.
  unfold imap_cmd_parser_uid_expunge in Hin. rewrite Hs in Hin.
  destruct (proto_stat ctx); try contradiction.
  destruct (b_readonly ctx); [contradiction|].
  destruct (length argv <? 4)%nat; [contradiction|].
  destruct (list_deleted env (selected_folder ctx)) as [[ssr e] xa].
  destruct (negb (m2icode DISPATCH_MIDB ssr e =? 0)).
  { destruct Hin as [K|[]]. discriminate. }
  destruct (last xa) as [pl|].
  2:{ destruct Hin as [K|[K|[]]]; discriminate. }
  set (exp_list := List.filter _ xa) in Hin.
  assert (K : mids = map mid exp_list).
  { destruct (remove_mail env _ _) as [ssr' e'].
    destruct (negb (m2icode DISPATCH_MIDB ssr' e' =? 0)).
    - destruct Hin as [K|[K|[]]]; [discriminate|]. now injection K.
    - unfold expunge_finish in Hin. cbv zeta in Hin.
      assert (In (RemoveMail f mids)
                ([ListDeleted (selected_folder ctx);
                  RemoveMail (selected_folder ctx) (map mid exp_list)]
                 ++ [StreamClear]
                 ++ map (fun p => RemoveFile (eml_path ctx p))
                      (List.filter (known ctx) exp_list)
                 ++ match exp_list with
                    | [] => []
                    | _ :: _ => [BcastExpunge (map uid exp_list)]
                    end ++ [EchoModify])) as Hin'.
      { destruct (negb (stream_write_ok env _)); cbn [snd] in Hin;
          [exact Hin|].
        apply in_app_iff in Hin as [Hin|[Hin|[]]]; [exact Hin|discriminate]. }
      simpl in Hin'. destruct Hin' as [Q|[Q|[Q|Q]]]; try discriminate.
      + now injection Q.
      + rewrite !in_app_iff in Q. destruct Q as [Q|[Q|Q]].
        * apply in_map_iff in Q as (p & Q & _). discriminate.
        * destruct exp_list; simpl in Q; [contradiction|].
          destruct Q as [Q|[]]. discriminate.
        * destruct Q as [Q|[]]. discriminate. }
  subst mids. apply in_map_iff in Hm as (p & <- & Hp).
  apply filter_In in Hp as [Hi Hp]. apply andb_true_iff in Hp as [_ Hp].
  apply iseq_contains_sound in Hp as (r & Hr & Hb).
  exists p, r. auto.
Qed.

End Handlers.

Definition deleted_items : list MITEM :=
  [ {| uid := 4; mid := "m4"; flag_bits := 8; id := 0 |};
    {| uid := 9; mid := "m9"; flag_bits := 8; id := 0 |} ].

Definition sample_env : exp_env := {|
  list_deleted := fun _ => (MIDB_RESULT_OK, 0, deleted_items);
  remove_mail := fun _ _ => (MIDB_RESULT_OK, 0);
  stream_write_ok := fun _ => true
|}.

Definition sample_ctx (readonly : bool) : exp_ctx := {|
  proto_stat := select; maildir := "/home/u"; username := "u@example.net";
  selected_folder := "inbox"; b_readonly := readonly;
  contents := deleted_items
|}.

Definition one_range (_ : string) : option (list SeqSet.range_node) :=
  Some [ {| SeqSet.lo := 5; SeqSet.hi := 9 |} ].

Lemma read_only_mailbox_is_never_expunged_witness :
  snd (imap_cmd_parser_expunge 8 65536 33554432 (fun _ _ => "OK")
         sample_env (sample_ctx true) ["a"; "EXPUNGE"]) = [].
Proof.
  apply (read_only_mailbox_is_never_expunged 8 65536 33554432
           (fun _ _ => "OK") (fun _ => "") one_range sample_env
           (sample_ctx true) ["a"; "EXPUNGE"]).
  reflexivity.
Defined.

Lemma uid_expunge_stays_within_the_set_witness :
  exists p r,
    In p deleted_items /\ mid p = "m9"
    /\ In r [ {| SeqSet.lo := 5; SeqSet.hi := 9 |} ]
    /\ SeqSet.lo r <= uid p <= SeqSet.hi r.
Proof.
  apply (uid_expunge_stays_within_the_set 8 65536 33554432
           (fun _ _ => "OK") one_range sample_env (sample_ctx false)
           ["a"; "UID"; "EXPUNGE"; "5:9"] _ "inbox" ["m9"] "m9").
  - reflexivity.
  - vm_compute. right. left. reflexivity.
  - now left.
Defined.

(** EXPUNGE on the two deleted messages: MIDB is asked first, the files
    go afterwards. *)
Remark expunge_asks_midb_before_removing_files :
  snd (imap_cmd_parser_expunge 8 65536 33554432 (fun _ _ => "OK")
         sample_env (sample_ctx false) ["a"; "EXPUNGE"])
  = [ListDeleted "inbox"; RemoveMail "inbox" ["m4"; "m9"]; StreamClear;
     RemoveFile "/home/u/eml/m4"; RemoveFile "/home/u/eml/m9";
     BcastExpunge [4; 9]; EchoModify; StreamWrite "a OK"].
Proof. vm_compute. reflexivity. Qed.

(** The order matters to [justified]: the same calls with a file removed
    before MIDB was asked do not qualify. *)
Remark file_removed_first_is_not_justified :
  ~ justified 8 sample_env (sample_ctx false)
      [ListDeleted "inbox"; RemoveFile "/home/u/eml/m4";
       RemoveMail "inbox" ["m4"; "m9"]].
Proof.
  intros [_ H].
  destruct (H [ListDeleted "inbox"] "/home/u/eml/m4"
              [RemoveMail "inbox" ["m4"; "m9"]] eq_refl)
    as (p & mids & _ & _ & Hin & _).
  destruct Hin as [K|[]]. discriminate.
Qed.

End ExpungeProps.

(** ** LOGIN and AUTHENTICATE LOGIN *)

Module LoginProps.
Import Login.
Local Open Scope list_scope.

Section Handlers.
Variables USERNAME_SIZE MAILDIR_SIZE LANG_SIZE CHARSET_SIZE TAG_SIZE : nat.
Variables DISPATCH_CONTINUE DISPATCH_TAG DISPATCH_SHOULD_CLOSE : Z.

Local Abbreviation login :=
  (imap_cmd_parser_login USERNAME_SIZE MAILDIR_SIZE LANG_SIZE CHARSET_SIZE
     TAG_SIZE DISPATCH_CONTINUE DISPATCH_TAG DISPATCH_SHOULD_CLOSE).
Local Abbreviation password2 :=
  (imap_cmd_parser_password2 USERNAME_SIZE MAILDIR_SIZE LANG_SIZE
     CHARSET_SIZE DISPATCH_CONTINUE DISPATCH_TAG DISPATCH_SHOULD_CLOSE).

(** The services have let [user] in with [pass], for the mailbox
    [target] if one was named. *)
Definition admitted (env : login_env) (user pass : string)
    (target : option string) : Prop :=
  system_services_judge_user env user = true
  /\ exists mres_auth,
       system_services_auth_login env user pass = Some mres_auth
       /\ match target with
          | None => True
          | Some t =>
              exists mres,
                system_services_auth_meta env t = Some mres
                /\ store_owner_over env (m_username mres_auth)
                     (m_username mres) (m_maildir mres) = true
          end.

(** X20.  No session becomes authenticated by LOGIN or by the password step of
    AUTHENTICATE LOGIN unless the user filter let the user through, the
    password check succeeded and, when another mailbox was named after
    [!], its meta data was found and the user owns it. *)
Theorem authenticated_only_after_password_check :
  forall (env : login_env) (ctx : login_ctx) (argv : list string),
    is_authed ctx = false ->
    (is_authed (snd (fst (login env ctx argv))) = true ->
     let '(name, target) := split_target (arg argv 2) in
     admitted env (HX_strltrim env (gx_strlcpy USERNAME_SIZE name))
       (HX_strltrim env (arg argv 3)) target)
    /\ (is_authed (snd (fst (password2 env ctx argv))) = true ->
        exists pass,
          decode64_ex env (arg argv 0) 256 = Some pass
          /\ let '(name, target) := split_target (username ctx) in
             admitted env (HX_strltrim env name) pass target).
Proof.
  intros env ctx argv Hn. split.
  - unfold imap_cmd_parser_login.
    destruct (g_support_tls env && g_force_tls env && negb (ssl ctx));
      [cbn [fst snd]; congruence|].
    destruct (negb (length argv =? 4)%nat || _ || _);
      [cbn [fst snd]; congruence|].
    rewrite Hn.
    destruct (split_target (arg argv 2)) as [name target].
    set (u := HX_strltrim env (gx_strlcpy USERNAME_SIZE name)).
    cbn [username with_user].
    assert (S : forall c : login_ctx,
               proto_stat c = proto_stat ctx -> is_authed c = true -> False).
    { intros c E K. unfold is_authed in *. rewrite E in K. congruence. }
    destruct (system_services_judge_user env u) eqn:Ej; cbn [negb];
      [|cbn [fst snd]; intros K; now apply S in K].
    destruct (system_services_auth_login env u _) as [ma|] eqn:Ea.
    2:{ destruct (_ <? _); cbn [fst snd]; intros K; now apply S in K. }
    destruct target as [t|].
    + destruct (system_services_auth_meta env t) as [m|] eqn:Em.
      2:{ cbn [fst snd]. intros K; now apply S in K. }
      destruct (store_owner_over env _ _ _) eqn:Eo; cbn [negb].
      2:{ destruct (_ <? _); cbn [fst snd]; intros K; now apply S in K. }
      intros _. split; [exact Ej|]. exists ma. split; [exact Ea|].
      exists m. auto.
    + intros _. split; [exact Ej|]. exists ma. auto.
  - unfold imap_cmd_parser_password2. cbv zeta.
    destruct (decode64_ex env (arg argv 0) 256) as [pass|];
      [|cbn [fst snd]; discriminate].
    cbn [username with_stat].
    destruct (split_target (username ctx)) as [name target].
    set (u := HX_strltrim env name). cbn [username with_user].
    destruct (system_services_judge_user env u) eqn:Ej; cbn [negb];
      [|cbn [fst snd]; discriminate].
    destruct (system_services_auth_login env u pass) as [ma|] eqn:Ea.
    2:{ destruct (_ <? _); cbn [fst snd]; discriminate. }
    destruct target as [t|].
    + destruct (system_services_auth_meta env t) as [m|] eqn:Em;
        [|cbn [fst snd]; discriminate].
      destruct (store_owner_over env _ _ _) eqn:Eo; cbn [negb].
      2:{ destruct (_ <? _); cbn [fst snd]; discriminate. }
      intros _. exists pass. split; [reflexivity|].
      split; [exact Ej|]. exists ma. split; [exact Ea|]. exists m. auto.
    + intros _. exists pass. split; [reflexivity|].
      split; [exact Ej|]. exists ma. auto.
Qed.

(** What a command did about failed attempts: the counter stayed or went
    up by one, and a ban was issued only with the counter at the limit. *)
Definition counted (env : login_env) (ctx : login_ctx)
    (r : Z * login_ctx * list login_call) : Prop :=
  let ctx' := snd (fst r) in
  auth_times ctx <= auth_times ctx' <= auth_times ctx + 1
  /\ forall u s, In (BanUser u s) (snd r) ->
       u = username ctx' /\ s = g_block_auth_fail env
       /\ auth_times ctx' = auth_times ctx + 1
       /\ g_max_auth_times env <= auth_times ctx'
       /\ proto_stat ctx' <> auth.

(** X21.  LOGIN and the password step of AUTHENTICATE LOGIN raise the failure
    counter by at most one, and ban the user only when the counter has
    reached [g_max_auth_times]; a session whose user was banned is not
    authenticated. *)
Theorem ban_only_at_the_failure_limit :
  forall (env : login_env) (ctx : login_ctx) (argv : list string),
    is_authed ctx = false ->
    counted env ctx (login env ctx argv)
    /\ counted env ctx (password2 env ctx argv).
Proof.
  intros env ctx argv Hn.
  assert (Q : forall (c : login_ctx) (code : Z),
             auth_times c = auth_times ctx ->
             counted env ctx (code, c, [])).
  { intros c code E. unfold counted. cbn [fst snd]. split; [lia|].
    intros u s []. }
  assert (F : forall (c : login_ctx) (c1 c2 : Z) (tag : option string),
             auth_times c = auth_times ctx -> proto_stat c <> auth ->
             counted env ctx
               (let c' := count_failure c in
                if auth_times c' <? g_max_auth_times env
                then (c1, match tag with
                          | Some t => with_tag TAG_SIZE c' t
                          | None => c'
                          end, [])
                else (c2, c', [BanUser (username c') (g_block_auth_fail env)]))).
  { intros c c1 c2 tag E P. cbv zeta. unfold counted.
    destruct (Z.ltb_spec (auth_times (count_failure c)) (g_max_auth_times env)).
    - cbn [fst snd]. split; [destruct tag; cbn; lia|]. intros u s [].
    - cbn [fst snd]. split; [cbn; lia|]. intros u s [K|[]].
      injection K as <- <-. cbn in *. repeat split; auto; lia. }
  assert (P0 : proto_stat ctx <> auth).
  { unfold is_authed in Hn. intros K. now rewrite K in Hn. }
  split.
  - unfold imap_cmd_parser_login.
    destruct (g_support_tls env && g_force_tls env && negb (ssl ctx));
      [now apply Q|].
    destruct (negb (length argv =? 4)%nat || _ || _); [now apply Q|].
    rewrite Hn.
    destruct (split_target (arg argv 2)) as [name target].
    set (c := with_user ctx _).
    destruct (negb (system_services_judge_user env (username c)));
      [now apply Q|].
    destruct (system_services_auth_login env _ _) as [ma|].
    2:{ exact (F c _ _ (Some (arg argv 0)) eq_refl P0). }
    assert (Fin : forall mres,
               counted env ctx
                 (let ctx0 := take_meta USERNAME_SIZE MAILDIR_SIZE LANG_SIZE
                                c mres in
                  if streq (maildir ctx0) "" then (1902, ctx0, [])
                  else (1705, enter LANG_SIZE CHARSET_SIZE env ctx0, []))).
    { intros mres. cbv zeta. destruct (streq _ ""); now apply Q. }
    destruct target as [t|]; [|apply Fin].
    destruct (system_services_auth_meta env t) as [m|]; [|now apply Q].
    destruct (negb (store_owner_over env _ _ _)); [|apply Fin].
    exact (F c _ _ None eq_refl P0).
  - unfold imap_cmd_parser_password2. cbv zeta.
    destruct (decode64_ex env (arg argv 0) 256) as [pass|]; [|now apply Q].
    cbn [username with_stat].
    destruct (split_target (username ctx)) as [name target].
    set (c := with_user _ _).
    assert (Pc : proto_stat c <> auth) by (subst c; cbn; discriminate).
    destruct (negb (system_services_judge_user env (username c)));
      [now apply Q|].
    destruct (system_services_auth_login env _ _) as [ma|].
    2:{ exact (F c _ _ None eq_refl Pc). }
    assert (Fin : forall mres,
               counted env ctx
                 (let ctx0 := take_meta USERNAME_SIZE MAILDIR_SIZE LANG_SIZE
                                c mres in
                  if streq (maildir ctx0) ""
                  then (Z.lor 1902 DISPATCH_TAG, ctx0, [])
                  else
                    let ctx1 := enter LANG_SIZE CHARSET_SIZE env ctx0 in
                    (DISPATCH_CONTINUE, ctx1,
                     [SafeWrite
                        (Dispatch.tag_or_bug (tag_string ctx1)
                         +:+ " OK [CAPABILITY "
                         +:+ capability_list env (proto_stat ctx1) (ssl ctx1)
                         +:+ "] Logged in" +:+ Fetch.CRLF)]))).
    { intros mres. cbv zeta. destruct (streq _ ""); [now apply Q|].
      unfold counted. cbn [fst snd]. split; [cbn; lia|].
      intros u s [K|[]]. discriminate. }
    destruct target as [t|]; [|apply Fin].
    destruct (system_services_auth_meta env t) as [m|]; [|now apply Q].
    destruct (negb (store_owner_over env _ _ _)); [|apply Fin].
    exact (F c _ _ None eq_refl Pc).
Qed.

End Handlers.

(** A service that knows one user. *)
Definition one_user : login_env := {|
  g_support_tls := true; g_force_tls := false;
  g_max_auth_times := 3; g_block_auth_fail := 60;
  default_lang := Some "en";
  system_services_judge_user := fun _ => true;
  system_services_auth_login := fun u p =>
    if streq u "u@example.net" && streq p "secret"
    then Some {| m_username := "u@example.net"; m_maildir := "/home/u";
                 m_lang := "" |}
    else None;
  system_services_auth_meta := fun _ => None;
  owner_permission := fun _ _ => false;
  resource_get_default_charset := fun _ => "utf-8";
  capability_list := fun _ _ => "IMAP4rev1";
  decode64_ex := fun s _ => Some s;
  HX_strltrim := fun s => s
|}.

Definition fresh_session (failures : Z) : login_ctx := {|
  proto_stat := noauth; ssl := false; username := ""; maildir := "";
  lang := ""; defcharset := ""; tag_string := ""; auth_times := failures
|}.

Definition sample_login :=
  imap_cmd_parser_login 324 256 32 32 32 0 131072 262144 one_user.

Lemma authenticated_only_after_password_check_witness :
  proto_stat (snd (fst (sample_login (fresh_session 0)
                          ["a"; "LOGIN"; "u@example.net"; "secret"]))) = auth
  /\ admitted one_user "u@example.net" "secret" None.
Proof.
  split; [reflexivity|].
  apply (authenticated_only_after_password_check 324 256 32 32 32 0 131072
           262144 one_user (fresh_session 0)
           ["a"; "LOGIN"; "u@example.net"; "secret"] eq_refl).
  reflexivity.
Defined.

Lemma ban_only_at_the_failure_limit_witness :
  snd (sample_login (fresh_session 2) ["a"; "LOGIN"; "u@example.net"; "x"])
  = [BanUser "u@example.net" 60]
  /\ counted one_user (fresh_session 2)
       (sample_login (fresh_session 2) ["a"; "LOGIN"; "u@example.net"; "x"]).
Proof.
  split; [reflexivity|].
  apply (ban_only_at_the_failure_limit 324 256 32 32 32 0 131072 262144
           one_user (fresh_session 2) ["a"; "LOGIN"; "u@example.net"; "x"]
           eq_refl).
Defined.

End LoginProps.

(** ** APPEND: the scratch file and the flag list *)

Module AppendBeginProps.
Import Append AppendBegin NameCodecProps.

Lemma byte_value (x : Z) :
  Z.of_nat (nat_of_ascii (ascii_of_nat (Z.to_nat (x mod 256)))) = x mod 256.
Proof.
  assert (0 <= x mod 256 < 256) by (apply Z.mod_pos_bound; lia).
  rewrite nat_ascii_embedding by lia. lia.
Qed.

Lemma read_le32_le32 (n : Z) (rest : string) :
  0 <= n < 2 ^ 32 -> read_le32 (le32 n +:+ rest) = n.
Proof.
  intros H. unfold le32, read_le32. rewrite !append_cons.
  rewrite !byte_value. rewrite Z.div_1_r.
  change (2 ^ 32) with 4294967296 in H.
  Z.div_mod_to_equations. lia.
Qed.

Lemma no_nul_append (s rest : string) :
  strchr s zero = None -> cstr (s +:+ NUL +:+ rest) = s.
Proof.
  intros H. unfold cstr. rewrite (strchr_append _ _ _ H).
  unfold NUL. rewrite append_cons. cbn [strchr].
  change (Ascii.eqb zero zero) with true. cbv iota.
  rewrite Nat.add_0_r. apply keep_append.
Qed.

Lemma skip_nul_append (s rest : string) :
  skip (String.length s + 1) (s +:+ NUL +:+ rest) = rest.
Proof.
  induction s as [|c s IH]; [reflexivity|].
  rewrite append_cons. exact IH.
Qed.

Lemma sapp_assoc (a b c : string) : (a +:+ b) +:+ c = a +:+ (b +:+ c).
Proof.
  induction a as [|x a IH]; [reflexivity|].
  rewrite !append_cons. now rewrite IH.
Qed.

Lemma length_le32 (n : Z) : String.length (le32 n) = 4%nat.
Proof. reflexivity. Qed.

(** X22.  What [append_begin2] frames, [append_end2] reads back: for a folder
    name, a flag list and a date-time without a NUL byte, and a head that
    fits 32 bits, the scratch file made of the frame and the message
    yields these three strings and the message. *)
Theorem scratch_frame_round_trip :
  forall (sys_name : string) (str_flags str_received : option string)
         (msg : string),
    strchr sys_name zero = None ->
    strchr (znul str_flags) zero = None ->
    strchr (znul str_received) zero = None ->
    Z.of_nat (String.length sys_name + String.length (znul str_flags)
              + String.length (znul str_received)) + 7 < 2 ^ 32 ->
    read_scratch (frame sys_name str_flags str_received +:+ msg)
    = {| str_name := sys_name; str_flags := znul str_flags;
         str_internal := znul str_received; message := msg |}.
Proof.
  intros n f r msg Hn Hf Hr Hlen. unfold read_scratch, frame.
  set (body := n +:+ NUL +:+ znul f +:+ NUL +:+ znul r +:+ NUL).
  assert (Lb : String.length body
               = (String.length n + String.length (znul f)
                  + String.length (znul r) + 3)%nat).
  { subst body. rewrite !length_append. simpl. lia. }
  assert (Lm : (4 + Z.of_nat (String.length body)) mod 2 ^ 32
               = 4 + Z.of_nat (String.length body)).
  { apply Z.mod_small. lia. }
  rewrite Lm, sapp_assoc.
  set (head := le32 (4 + Z.of_nat (String.length body))).
  assert (E4 : skip 4 (head +:+ (body +:+ msg)) = body +:+ msg)
    by reflexivity.
  rewrite E4. cbv zeta.
  assert (B : body +:+ msg
              = n +:+ NUL +:+ (znul f +:+ NUL +:+ (znul r +:+ NUL +:+ msg))).
  { subst body. now rewrite !sapp_assoc. }
  f_equal.
  - rewrite B. apply (no_nul_append n _ Hn).
  - rewrite B, (no_nul_append n _ Hn), skip_nul_append.
    apply (no_nul_append (znul f) _ Hf).
  - rewrite B, (no_nul_append n _ Hn), skip_nul_append.
    rewrite (no_nul_append (znul f) _ Hf), skip_nul_append.
    apply (no_nul_append (znul r) _ Hr).
  - subst head. rewrite read_le32_le32 by lia.
    rewrite <- sapp_assoc.
    replace (Z.to_nat (4 + Z.of_nat (String.length body)))
      with (String.length (le32 (4 + Z.of_nat (String.length body)) +:+ body))
      by (rewrite length_append, length_le32; lia).
    apply skip_append.
Qed.

Lemma scan_flags_other (toks : list string) (t : string)
    (acc : bool * bool * bool * bool) :
  In t toks -> is_flag_name t = false -> scan_flags toks acc = None.
Proof.
  intros Hin Hbad. unfold is_flag_name in Hbad. cbn [existsb] in Hbad.
  rewrite orb_false_r in Hbad.
  apply orb_false_iff in Hbad as [H1 Hbad].
  apply orb_false_iff in Hbad as [H2 Hbad].
  apply orb_false_iff in Hbad as [H3 H4].
  revert acc. induction toks as [|x toks IH]; intros acc; [contradiction|].
  destruct acc as [[[a b] c] d]. cbn [scan_flags].
  destruct Hin as [->|Hin].
  - now rewrite H1, H2, H3, H4.
  - destruct (strcaseeq x "\Answered"); [now apply IH|].
    destruct (strcaseeq x "\Flagged"); [now apply IH|].
    destruct (strcaseeq x "\Seen"); [now apply IH|].
    destruct (strcaseeq x "\Draft"); [now apply IH|reflexivity].
Qed.

Section Refusal.
Variables DISPATCH_MIDB DISPATCH_CONTINUE DISPATCH_BREAK : Z.
Variable resource_get_imap_code : Z -> Z -> string.
Variable parse_imap_args : string -> option (list string).
Variable imapfolder_to_sysfolder : string -> string -> option string.

(** The flag list the handler takes from [argv], with [n] the number of
    arguments at which both a flag list and a date-time are present, names
    a flag that is none of the four. *)
Definition other_flag (argv : list string) (n : nat) : Prop :=
  (length argv = n
   \/ (length argv = (n - 1)%nat
       /\ Ascii.eqb (deref (Append.arg argv 3)) "(" = true))
  /\ exists toks t,
       parse_imap_args (keep (String.length (Append.arg argv 3) - 2)
                          (skip 1 (Append.arg argv 3))) = Some toks
       /\ In t toks /\ is_flag_name t = false.

(** X23.  APPEND takes the flags [\Answered], [\Flagged], [\Seen] and
    [\Draft] only.  A flag list that names another flag, [\Deleted] for
    one, makes both forms of the command return without a file created, a
    byte written or a call to MIDB. *)
Theorem append_refuses_other_flags :
  forall (TAG_SIZE : nat) (benv : begin_env) (env : append_env)
         (ctx : append_ctx) (w : world) (argv : list string),
    (other_flag argv 5 ->
     exists code,
       imap_cmd_parser_append_begin2 DISPATCH_CONTINUE DISPATCH_BREAK
         parse_imap_args imapfolder_to_sysfolder TAG_SIZE benv ctx w argv
       = (code, ctx, w, None))
    /\ (other_flag argv 6 ->
        exists code,
          imap_cmd_parser_append DISPATCH_MIDB DISPATCH_CONTINUE
            resource_get_imap_code parse_imap_args imapfolder_to_sysfolder
            env ctx w argv
          = (code, ctx, w)).
Proof.
  intros TAG_SIZE benv env ctx w argv. split.
  - intros [Hargc (toks & t & Hp & Hin & Hbad)].
    unfold imap_cmd_parser_append_begin2. cbv zeta.
    destruct (negb (is_authed ctx)); [eauto|].
    destruct ((length argv <? 3)%nat || _ || _ || _); [eauto|].
    destruct (imapfolder_to_sysfolder _ _) as [sys|]; [|eauto].
    assert (F : forallb is_flag_name toks = false).
    { apply not_true_is_false. intros K. rewrite forallb_forall in K.
      specialize (K t Hin). congruence. }
    unfold AppendBegin.arg. unfold Append.arg in *.
    destruct Hargc as [E|[E D]]; rewrite E; cbn [Nat.eqb Nat.sub];
      rewrite ?D; cbv beta iota; rewrite Hp, F;
      destruct (negb _ || negb _); eauto.
  - intros [Hargc (toks & t & Hp & Hin & Hbad)].
    unfold imap_cmd_parser_append. cbv zeta.
    destruct (negb (is_authed ctx)); [eauto|].
    destruct ((length argv <? 4)%nat || _ || _ || _); [eauto|].
    destruct (imapfolder_to_sysfolder _ _) as [sys|]; [|eauto].
    pose proof (scan_flags_other toks t (false, false, false, false) Hin Hbad)
      as F.
    destruct Hargc as [E|[E D]]; rewrite E; cbn [Nat.eqb Nat.sub];
      rewrite ?D; cbv beta iota; rewrite Hp, F;
      destruct (negb _ || negb _); eauto.
Qed.
End Refusal.

Lemma scratch_frame_round_trip_witness :
  read_scratch (frame "inbox" (Some "(\Seen)") None +:+ "Subject: hi")
  = {| str_name := "inbox"; str_flags := "(\Seen)"; str_internal := "";
       message := "Subject: hi" |}.
Proof.
  apply (scratch_frame_round_trip "inbox" (Some "(\Seen)") None
           "Subject: hi"); reflexivity.
Defined.

End AppendBeginProps.

(** ** The folder tree *)

Module DirTreeProps.
Import DirTree NameCodecProps.
Local Open Scope list_scope.

Section Tree.
Variable NAME_SIZE : nat.
Local Abbreviation insert := (insert_path NAME_SIZE).
Local Abbreviation update := (update_child NAME_SIZE).

Definition by_name (c : string) (chs : list DIR_NODE) : option DIR_NODE :=
  List.find (fun pdir => streq (name pdir) c) chs.

(** The walk that compares names only. *)
Fixpoint descend (comps : list string) (n : DIR_NODE) : option DIR_NODE :=
  match comps with
  | [] => Some n
  | c :: rest =>
      match by_name c (children n) with
      | Some ch => descend rest ch
      | None => None
      end
  end.

(** [comps] leads from [n] to a node that is marked as loaded. *)
Definition reach (comps : list string) (n : DIR_NODE) : Prop :=
  exists m, descend comps n = Some m /\ b_loaded m = true.

Lemma insert_name (comps : list string) (n : DIR_NODE) :
  name (insert comps n) = name n.
Proof. destruct comps; reflexivity. Qed.

Lemma insert_loaded (comps : list string) (n : DIR_NODE) :
  b_loaded n = true -> b_loaded (insert comps n) = true.
Proof. destruct comps; auto. Qed.

Lemma by_name_update_same (f : DIR_NODE -> DIR_NODE) (c : string)
    (chs : list DIR_NODE) :
  (forall x, name (f x) = name x) ->
  (String.length c < NAME_SIZE)%nat ->
  by_name c (update f c chs)
  = Some (f (match by_name c chs with
             | Some ch => ch
             | None => Node c false []
             end)).
Proof.
  intros Hf Hc. unfold by_name. induction chs as [|ch more IH].
  - cbn [update_child List.find]. rewrite Hf. cbn [name].
    unfold gx_strlcpy. rewrite keep_length by lia.
    unfold streq. now rewrite String.eqb_refl.
  - cbn [update_child List.find].
    destruct (streq (name ch) c) eqn:E.
    + cbn [List.find]. now rewrite Hf, E.
    + cbn [List.find]. now rewrite E.
Qed.

Lemma by_name_update_found (f : DIR_NODE -> DIR_NODE) (c c' : string)
    (chs : list DIR_NODE) (ch : DIR_NODE) :
  (forall x, name (f x) = name x) ->
  by_name c chs = Some ch ->
  by_name c (update f c' chs)
  = Some (if streq c' c then f ch else ch).
Proof.
  intros Hf. unfold by_name. induction chs as [|x more IH]; [discriminate|].
  cbn [update_child List.find]. intros H.
  destruct (streq (name x) c') eqn:E'.
  - cbn [List.find]. rewrite Hf.
    destruct (streq (name x) c) eqn:E.
    + injection H as <-. unfold streq in *.
      apply String.eqb_eq in E, E'. rewrite <- E, <- E'.
      now rewrite String.eqb_refl.
    + rewrite H. destruct (streq c' c) eqn:Ec; [|reflexivity].
      unfold streq in *. apply String.eqb_eq in Ec, E'. subst.
      now rewrite String.eqb_refl in E.
  - cbn [List.find]. destruct (streq (name x) c) eqn:E.
    + injection H as <-. destruct (streq c' c) eqn:Ec; [|reflexivity].
      unfold streq in *. apply String.eqb_eq in Ec, E. subst.
      now rewrite String.eqb_refl in E'.
    + now apply IH.
Qed.

(** Inserting a path makes it reachable. *)
Lemma reach_insert (comps : list string) (n : DIR_NODE) :
  Forall (fun c => (String.length c < NAME_SIZE)%nat) comps ->
  reach comps (insert comps n).
Proof.
  revert n. induction comps as [|c rest IH]; intros n H.
  - exists (Node (name n) true (children n)). split; reflexivity.
  - inversion H as [|? ? Hc Hrest]; subst.
    unfold reach. cbn [insert_path descend children].
    rewrite by_name_update_same by (auto using insert_name).
    apply IH. exact Hrest.
Qed.

(** Inserting another path keeps what was reachable. *)
Lemma reach_kept (comps comps' : list string) (n : DIR_NODE) :
  reach comps n -> reach comps (insert comps' n).
Proof.
  revert n comps'. induction comps as [|c rest IH]; intros n comps' [m [D L]].
  - simpl in D. injection D as <-.
    exists (insert comps' n). split; [reflexivity|]. now apply insert_loaded.
  - cbn [descend] in D.
    destruct (by_name c (children n)) as [ch|] eqn:E; [|discriminate].
    destruct comps' as [|c' rest'].
    + exists m. cbn [insert_path descend children]. rewrite E. auto.
    + unfold reach. cbn [insert_path descend children].
      rewrite (by_name_update_found _ c c' _ ch (insert_name rest') E).
      destruct (streq c' c).
      * apply IH. exists m. auto.
      * exists m. auto.
Qed.

Lemma reach_fold (comps : list string) (paths : list (list string))
    (n : DIR_NODE) :
  reach comps n ->
  reach comps (fold_left (fun root p => insert p root) paths n).
Proof.
  revert n. induction paths as [|p paths IH]; intros n H; [exact H|].
  cbn [fold_left]. apply IH. now apply reach_kept.
Qed.

Lemma reach_loaded (comps : list string) (paths : list (list string))
    (n : DIR_NODE) :
  In comps paths ->
  Forall (fun c => (String.length c < NAME_SIZE)%nat) comps ->
  reach comps (fold_left (fun root p => insert p root) paths n).
Proof.
  revert n. induction paths as [|p paths IH]; intros n Hin Hs; [contradiction|].
  cbn [fold_left]. destruct Hin as [->|Hin].
  - apply reach_fold. now apply reach_insert.
  - now apply IH.
Qed.

Lemma find_same {A : Type} (p q : A -> bool) (l : list A) :
  (forall x, p x = q x) -> List.find p l = List.find q l.
Proof.
  intros H. induction l as [|x l IH]; [reflexivity|].
  cbn [List.find]. now rewrite H, IH.
Qed.

(** With a first component that is not [inbox] in another spelling than
    [INBOX], the scan of [match] compares names only. *)
Lemma walk_descend (comps : list string) (n : DIR_NODE) :
  (forall c, hd_error comps = Some c ->
             strcaseeq c "inbox" = true -> c = "INBOX") ->
  walk comps true n = descend comps n.
Proof.
  assert (W : forall comps n, walk comps false n = descend comps n).
  { induction comps0 as [|c rest IH]; intros n0; [reflexivity|].
    cbn [walk descend]. unfold find_child, by_name. cbn [andb].
    rewrite (find_same _ (fun pdir => streq (name pdir) c))
      by (intros x; now rewrite orb_false_r).
    destruct (List.find _ _); auto. }
  destruct comps as [|c rest]; [reflexivity|]. intros H.
  cbn [walk descend]. unfold find_child, by_name.
  rewrite (find_same _ (fun pdir => streq (name pdir) c)).
  - destruct (List.find _ _); auto.
  - intros x. cbn [andb].
    destruct (strcaseeq c "inbox") eqn:E.
    + rewrite (H c eq_refl E), andb_true_r.
      now destruct (streq (name x) "INBOX").
    + now rewrite andb_false_r, orb_false_r.
Qed.

Lemma by_name_name (c : string) (chs : list DIR_NODE) (ch : DIR_NODE) :
  by_name c chs = Some ch -> name ch = c.
Proof.
  intros H. apply find_some in H as [_ H].
  unfold streq in H. now apply String.eqb_eq in H.
Qed.

Lemma descend_name (comps : list string) (n m : DIR_NODE) (c : string) :
  descend (comps ++ [c]) n = Some m -> name m = c.
Proof.
  revert n. induction comps as [|x rest IH]; intros n; cbn [app descend].
  - destruct (by_name c (children n)) as [ch|] eqn:E; [|discriminate].
    intros K. injection K as <-. now apply by_name_name in E.
  - destruct (by_name x (children n)) as [ch|]; [apply IH|discriminate].
Qed.

Lemma descend_app (a b : list string) (n : DIR_NODE) :
  descend (a ++ b) n
  = match descend a n with Some m => descend b m | None => None end.
Proof.
  revert n. induction a as [|x a IH]; intros n; [reflexivity|].
  cbn [app descend]. destruct (by_name x (children n)); auto.
Qed.

(** The components of a path as both [load_from_memfile] and [match] see
    them. *)
Definition path_components (p : string) : list string :=
  components (terminated p) "".

Definition short (comps : list string) : Prop :=
  Forall (fun c => (String.length c < NAME_SIZE)%nat) comps.

Definition inbox_spelled (comps : list string) : Prop :=
  forall c, hd_error comps = Some c ->
            strcaseeq c "inbox" = true -> c = "INBOX".

Lemma load_sees (p : string) :
  (String.length p < 4096)%nat ->
  components (terminated (gx_strlcpy 4097 p)) "" = path_components p.
Proof.
  intros H. unfold gx_strlcpy. now rewrite keep_length by lia.
Qed.

Lemma match_sees (p : string) :
  p <> "" ->
  components (if Ascii.eqb (last_char p) "/" then p else p +:+ "/") ""
  = path_components p.
Proof.
  intros H. unfold path_components, terminated.
  destruct p as [|c p]; [contradiction|]. cbn [String.length Nat.eqb orb].
  now destruct (Ascii.eqb (last_char (String c p)) "/").
Qed.

Lemma load_as_fold (stree : option DIR_NODE) (pfile : list string) :
  Forall (fun p => (String.length p < 4096)%nat) pfile ->
  load_from_memfile NAME_SIZE stree pfile
  = fold_left (fun root comps => insert comps root)
      (map path_components pfile)
      (match stree with Some r => r | None => Node "" true [] end).
Proof.
  unfold load_from_memfile.
  generalize (match stree with Some r => r | None => Node "" true [] end).
  induction pfile as [|p pfile IH]; intros n H; [reflexivity|].
  inversion H as [|? ? Hp Hrest]; subst. cbn [fold_left map].
  rewrite load_sees by exact Hp. now apply IH.
Qed.

(** X24.  A folder list loaded into the tree is found again: for every listed
    path that is not empty, whose components fit the name buffer and
    whose first component is not [inbox] in another spelling than [INBOX],
    [match] returns a node, the node is marked as loaded and carries the
    last component as its name. *)
Theorem loaded_folder_is_found :
  forall (stree : option DIR_NODE) (pfile : list string) (p : string),
    Forall (fun q => (String.length q < 4096)%nat) pfile ->
    In p pfile -> p <> "" ->
    short (path_components p) -> inbox_spelled (path_components p) ->
    exists node,
      dir_match (Some (load_from_memfile NAME_SIZE stree pfile)) p
      = Some node
      /\ b_loaded node = true
      /\ Some (name node) = last (path_components p).
Proof.
  intros stree pfile p Hlen Hin Hne Hs Hi.
  assert (Hp : (String.length p < 4096)%nat).
  { rewrite Forall_forall in Hlen. apply Hlen. now apply list_elem_of_In. }
  rewrite (load_as_fold stree pfile Hlen).
  set (root := match stree with Some r => r | None => Node "" true [] end).
  destruct (reach_loaded (path_components p) (map path_components pfile) root)
    as (m & D & L); [now apply in_map|exact Hs|].
  exists m. unfold dir_match.
  destruct (streq p "") eqn:E.
  { unfold streq in E. apply String.eqb_eq in E. contradiction. }
  destruct (Nat.leb_spec 4096 (String.length p)); [lia|].
  rewrite (match_sees p Hne), (walk_descend _ _ Hi), D.
  split; [reflexivity|]. split; [exact L|].
  destruct (path_components p) as [|c0 cs] eqn:Ec using rev_ind.
  - unfold path_components, terminated in Ec.
    destruct p as [|c p]; [contradiction|].
    exfalso. clear -Ec. cbn [String.length Nat.eqb orb] in Ec.
    assert (K : forall s cur, last_char s = "/"%char -> s <> "" ->
                               components s cur <> []).
    { induction s as [|x s IH]; intros cur Hl Hn; [contradiction|].
      cbn [components]. destruct (Ascii.eqb_spec x "/"); [discriminate|].
      destruct s as [|y s]; [simpl in Hl; contradiction|].
      apply IH; [exact Hl|discriminate]. }
    destruct (Ascii.eqb_spec (last_char (String c p)) "/") as [El|El];
      cbn [negb] in Ec.
    + now apply K in Ec.
    + apply (K (String c p +:+ "/") "") in Ec; [exact Ec| |discriminate].
      clear. generalize (String c p). intros s.
      induction s as [|x s IH]; [reflexivity|].
      rewrite append_cons. cbn [last_char].
      destruct (s +:+ "/") eqn:E; [destruct s; discriminate|exact IH].
  - rewrite last_snoc. f_equal. now apply descend_name in D.
Qed.

(** X25.  A folder under which the list names another folder has a child. *)
Theorem folder_with_listed_subfolder_has_child :
  forall (stree : option DIR_NODE) (pfile : list string) (p q : string)
         (below : list string),
    Forall (fun x => (String.length x < 4096)%nat) pfile ->
    In q pfile -> (String.length p < 4096)%nat -> p <> "" ->
    path_components q = path_components p ++ below -> below <> [] ->
    short (path_components q) -> inbox_spelled (path_components p) ->
    exists node,
      dir_match (Some (load_from_memfile NAME_SIZE stree pfile)) p
      = Some node
      /\ get_child node <> None.
Proof.
  intros stree pfile p q below Hlen Hin Hp Hne Hq Hb Hs Hi.
  rewrite (load_as_fold stree pfile Hlen).
  set (root := match stree with Some r => r | None => Node "" true [] end).
  destruct (reach_loaded (path_components q) (map path_components pfile) root)
    as (m & D & L); [now apply in_map|exact Hs|].
  rewrite Hq, descend_app in D.
  destruct (descend (path_components p) _) as [node|] eqn:E; [|discriminate].
  exists node. unfold dir_match.
  destruct (streq p "") eqn:Ep.
  { unfold streq in Ep. apply String.eqb_eq in Ep. contradiction. }
  destruct (Nat.leb_spec 4096 (String.length p)); [lia|].
  rewrite (match_sees p Hne), (walk_descend _ _ Hi), E.
  split; [reflexivity|].
  destruct below as [|b below]; [contradiction|].
  cbn [descend] in D. unfold get_child.
  destruct (children node); [discriminate|discriminate].
Qed.

End Tree.

Definition sample_list : list string := ["INBOX"; "Archive/2023"; "Archive"].

Lemma sample_list_fits :
  Forall (fun q => (String.length q < 4096)%nat) sample_list.
Proof. repeat (constructor; [simpl; lia|]). constructor. Qed.

Lemma loaded_folder_is_found_witness :
  exists node,
    dir_match (Some (load_from_memfile 256 None sample_list)) "Archive/2023"
    = Some node
    /\ b_loaded node = true
    /\ Some (name node) = Some "2023".
Proof.
  apply (loaded_folder_is_found 256 None sample_list "Archive/2023"
           sample_list_fits).
  - right. now left.
  - discriminate.
  - repeat (constructor; [simpl; lia|]). constructor.
  - intros c H. injection H as <-. discriminate.
Defined.

Lemma folder_with_listed_subfolder_has_child_witness :
  exists node,
    dir_match (Some (load_from_memfile 256 None sample_list)) "Archive"
    = Some node
    /\ get_child node <> None.
Proof.
  apply (folder_with_listed_subfolder_has_child 256 None sample_list
           "Archive" "Archive/2023" ["2023"] sample_list_fits).
  - right. now left.
  - simpl. lia.
  - discriminate.
  - reflexivity.
  - discriminate.
  - repeat (constructor; [simpl; lia|]). constructor.
  - intros c H. injection H as <-. discriminate.
Defined.

End DirTreeProps.

(** ** CREATE, DELETE and RENAME *)

Module FoldersProps.
Import Folders NameCodecProps.
Local Open Scope list_scope.

(** The folder and its ancestors, outermost first: the text in front of
    each slash, and the whole name. *)
Fixpoint ancestors_from (pre rest : string) : list string :=
  match rest with
  | EmptyString => [pre]
  | String c r =>
      if Ascii.eqb c "/" then pre :: ancestors_from (pre +:+ "/") r
      else ancestors_from (pre +:+ String c "") r
  end.

Definition ancestors (folder : string) : list string :=
  ancestors_from "" folder.

(** The names handed to [make_folder], in call order. *)
Definition made (tr : list folder_call) : list string :=
  flat_map (fun c => match c with MakeFolder x => [x] | _ => [] end) tr.

Lemma skip_step (s r : string) (c : ascii) (i : nat) :
  skip i s = String c r ->
  keep (S i) s = keep i s +:+ String c "" /\ skip (S i) s = r
  /\ (i < String.length s)%nat.
Proof.
  revert s. induction i as [|i IH]; intros s H.
  - simpl in H. subst s. repeat split; simpl; lia.
  - destruct s as [|x s]; [discriminate|]. simpl in H.
    destruct (IH s H) as (K & Sk & L).
    change (keep (S (S i)) (String x s)) with (String x (keep (S i) s)).
    rewrite K. repeat split; try assumption. simpl. lia.
Qed.

Lemma skip_end (s : string) (i : nat) :
  skip i s = "" -> (i <= String.length s)%nat -> keep i s = s.
Proof.
  intros H L. pose proof (skip_length s i) as K. rewrite H in K. simpl in K.
  apply keep_length. lia.
Qed.

Lemma made_app (a b : list folder_call) : made (a ++ b) = made a ++ made b.
Proof. unfold made. now rewrite flat_map_app. Qed.

Section Handlers.
Variable DISPATCH_MIDB : Z.
Variable NAME_SIZE : nat.
Variable mutf7_to_utf8 : string -> Z * string.
Variable utf8_to_mutf7 : string -> Z * string.
Variable foldername_get : string -> NameCodec.special_fid -> option string.

Local Abbreviation imapfolder_to_sysfolder :=
  (NameCodec.imap_cmd_parser_imapfolder_to_sysfolder mutf7_to_utf8
     foldername_get).
Local Abbreviation sysfolder_to_imapfolder :=
  (NameCodec.imap_cmd_parser_sysfolder_to_imapfolder utf8_to_mutf7
     foldername_get).

Local Abbreviation loop :=
  (create_loop DISPATCH_MIDB mutf7_to_utf8 foldername_get).
Local Abbreviation create :=
  (imap_cmd_parser_create DISPATCH_MIDB mutf7_to_utf8 utf8_to_mutf7
     foldername_get).
Local Abbreviation delete :=
  (imap_cmd_parser_delete DISPATCH_MIDB NAME_SIZE mutf7_to_utf8 utf8_to_mutf7
     foldername_get).
Local Abbreviation rename :=
  (imap_cmd_parser_rename DISPATCH_MIDB mutf7_to_utf8 foldername_get).
Local Abbreviation convert_folderlist :=
  (imap_cmd_parser_convert_folderlist utf8_to_mutf7 foldername_get).

Definition listed (folder_list : list string) (prefix : string) : bool :=
  existsb (fun e => streq e prefix) folder_list.

(** The names made are the converted forms of the given prefixes. *)
Definition converted (lang : string) (prefixes names : list string) : Prop :=
  Forall2 (fun p x => imapfolder_to_sysfolder lang p = Some x) prefixes names.

Lemma create_loop_ancestors (env : folder_env) (ctx : folder_ctx)
    (folder_list : list string) (s : string) :
  strchr s zero = None ->
  forall (n i : nat) (tr : list folder_call),
    n = (S (String.length s) - i)%nat -> (i <= String.length s)%nat ->
    loop env ctx folder_list s i n = (None, tr) ->
    converted (lang ctx)
      (List.filter (fun p => negb (listed folder_list p))
         (ancestors_from (keep i s) (skip i s)))
      (made tr).
Proof.
  intros Hz. induction n as [|n IH]; intros i tr Hn Hi H; [lia|].
  cbn [create_loop] in H. cbv zeta in H. unfold char_at in H.
  destruct (skip i s) as [|c r] eqn:Es.
  - (* the terminator *)
    cbn [deref] in H. change (Ascii.eqb zero zero) with true in H.
    rewrite andb_false_r in H. cbn [ancestors_from List.filter].
    assert (En : n = O).
    { pose proof (skip_length s i) as K. rewrite Es in K. simpl in K. lia. }
    subst n. cbn [create_loop] in H. fold (listed folder_list (keep i s)) in H.
    destruct (listed folder_list (keep i s)); cbn [negb].
    + injection H as <-. constructor.
    + destruct (imapfolder_to_sysfolder _ _) as [x|] eqn:Ex; [|discriminate].
      destruct (make_folder env x) as [ssr e].
      destruct (negb (m2icode DISPATCH_MIDB ssr e =? 0)); [discriminate|].
      injection H as <-. cbn. constructor; [exact Ex|constructor].
  - destruct (skip_step s r c i Es) as (K & Sk & L).
    cbn [deref] in H. cbn [ancestors_from].
    assert (Cz : Ascii.eqb c zero = false).
    { apply Ascii.eqb_neq. intros ->.
      assert (Q : forall t k, strchr t zero = None ->
                  skip k t = String zero r -> False).
      { induction t as [|y t IHt]; intros k Q1 Q2.
        - destruct k; discriminate.
        - simpl in Q1. destruct (Ascii.eqb_spec y zero) as [->|Ny];
            [discriminate|].
          destruct (strchr t zero) eqn:Et; [discriminate|].
          destruct k as [|k]; simpl in Q2.
          + injection Q2 as -> _. contradiction.
          + now apply (IHt k). }
      exact (Q s i Hz Es). }
    rewrite Cz in H. cbn [negb] in H. rewrite andb_true_r in H.
    destruct (Ascii.eqb c "/") eqn:Ec; cbn [negb] in H.
    + (* a slash: the prefix in front of it *)
      assert (Kp : keep i s +:+ "/" = keep (S i) s).
      { rewrite K. apply Ascii.eqb_eq in Ec. now subst c. }
      rewrite Kp, <- Sk. cbn [List.filter].
      fold (listed folder_list (keep i s)) in H.
      destruct (listed folder_list (keep i s)); cbn [negb].
      * apply (IH (S i)); [lia|lia|exact H].
      * destruct (imapfolder_to_sysfolder _ _) as [x|] eqn:Ex; [|discriminate].
        destruct (make_folder env x) as [ssr e].
        destruct (negb (m2icode DISPATCH_MIDB ssr e =? 0)); [discriminate|].
        destruct (loop env ctx folder_list s (S i) n) as [code tr'] eqn:El.
        injection H as -> <-. cbn [made flat_map app].
        constructor; [exact Ex|].
        apply (IH (S i)); [lia|lia|exact El].
    + rewrite <- K, <- Sk. apply (IH (S i)); [lia|lia|exact H].
Qed.

(** X26.  CREATE makes the folder and, before it, each of its ancestors, in
    that order, leaving out those that the folder list of the mailbox
    (with the special folders) already has: on success the names handed
    to [make_folder] are the internal names of exactly these folders.
    (The marker [DISPATCH_MIDB] keeps an MIDB error apart from the reply
    code 1706.) *)
Theorem create_makes_missing_ancestors :
  forall (env : folder_env) (ctx : folder_ctx) (argv : list string),
    (forall e, m2icode DISPATCH_MIDB MIDB_RESULT_ERROR e <> 1706) ->
    strchr (arg argv 2) zero = None ->
    fst (create env ctx argv) = 1706 ->
    let known :=
      convert_folderlist (lang ctx)
        (writefolderlines (snd (enum_folders env))) in
    converted (lang ctx)
      (List.filter (fun p => negb (listed known p))
         (ancestors (NameCodec.strip_slash (arg argv 2))))
      (made (snd (create env ctx argv))).
Proof.
  intros env ctx argv Hm Hz. unfold imap_cmd_parser_create.
  destruct (negb (is_authed ctx)); [discriminate|].
  destruct ((length argv <? 3)%nat || _ || _); [discriminate|].
  destruct (imapfolder_to_sysfolder _ _) as [sys|]; [|discriminate].
  destruct (has_wildcard _); [discriminate|].
  destruct (NameCodec.special_folder sys); [discriminate|].
  destruct (enum_folders env) as [[ssr e] fl].
  destruct (negb (m2icode DISPATCH_MIDB ssr e =? 0)) eqn:Em.
  { cbn [fst]. intros K. destruct ssr; try discriminate.
    now apply Hm in K. }
  cbv zeta. cbn [snd].
  set (known := imap_cmd_parser_convert_folderlist _ _ _ _).
  set (s := NameCodec.strip_slash (arg argv 2)).
  destruct (loop env ctx known s 0 (S (String.length s))) as [code tr] eqn:El.
  destruct code as [c|].
  - cbn [fst]. intros ->.
    exfalso. clear -El Hm.
    assert (Q : forall n i tr, loop env ctx known s i n = (Some 1706, tr) ->
                False).
    { induction n as [|n IH]; intros i tr0 H; [discriminate|].
      cbn [create_loop] in H. cbv zeta in H.
      destruct (negb _ && negb _); [eauto|].
      destruct (existsb _ known); [eauto|].
      destruct (imapfolder_to_sysfolder _ _) as [x|]; [|discriminate].
      destruct (make_folder env x) as [ssr e].
      destruct (negb (m2icode DISPATCH_MIDB ssr e =? 0)) eqn:Em.
      - injection H as H _. destruct ssr; try discriminate.
        now apply Hm in H.
      - destruct (loop env ctx known s (S i) n) as [code' tr'] eqn:E'.
        injection H as -> _. eauto. }
    eauto.
  - cbn [fst snd]. intros _.
    assert (Hs : strchr s zero = None).
    { subst s. unfold NameCodec.strip_slash.
      destruct (_ && _); [|exact Hz].
      clear -Hz. generalize (String.length (arg argv 2) - 1)%nat.
      generalize dependent (arg argv 2). intros t Ht k.
      revert k. induction t as [|x t IH]; intros [|k]; simpl in *; auto.
      destruct (Ascii.eqb x zero); [discriminate|].
      destruct (strchr t zero) eqn:Et; [discriminate|].
      now rewrite (IH eq_refl k). }
    pose proof (create_loop_ancestors env ctx known s Hs
                  (S (String.length s)) 0 tr) as K.
    cbn [keep skip] in K.
    change (EnumFolders :: tr ++ echo ctx)
      with ([EnumFolders] ++ tr ++ echo ctx).
    rewrite !made_app.
    assert (E1 : made [EnumFolders] = []) by reflexivity.
    assert (E2 : made (echo ctx) = []).
    { unfold echo. now destruct (proto_stat ctx). }
    rewrite E1, E2, app_nil_r. cbn [app].
    apply K; [lia|lia|exact El].
Qed.

(** X27.  DELETE and RENAME never touch a special folder: whatever MIDB
    answers, [remove_folder] and [rename_folder] are only called with
    names that are none of draft, sent, trash and junk, and DELETE only
    with the converted form of its argument. *)
Theorem special_folders_never_removed_or_renamed :
  forall (env : folder_env) (ctx : folder_ctx) (argv : list string),
    (forall x, In (RemoveFolder x) (snd (delete env ctx argv)) ->
               NameCodec.special_folder x = false
               /\ imapfolder_to_sysfolder (lang ctx) (arg argv 2) = Some x)
    /\ (forall x y, In (RenameFolder x y) (snd (rename env ctx argv)) ->
               NameCodec.special_folder x = false
               /\ NameCodec.special_folder y = false)
    /\ (forall x, ~ In (RemoveFolder x) (snd (rename env ctx argv)))
    /\ (forall x y, ~ In (RenameFolder x y) (snd (delete env ctx argv))).
Proof.
  intros env ctx argv.
  assert (Ee : forall c, In c (echo ctx) -> c = EchoModify).
  { intros c. unfold echo. destruct (proto_stat ctx); simpl; intuition. }
  assert (D : forall c, In c (snd (delete env ctx argv)) ->
            c = EnumFolders \/ c = EchoModify \/
            exists x, c = RemoveFolder x
              /\ NameCodec.special_folder x = false
              /\ imapfolder_to_sysfolder (lang ctx) (arg argv 2) = Some x).
  { intros c. unfold imap_cmd_parser_delete.
    destruct (negb (is_authed ctx)); [contradiction|].
    destruct ((length argv <? 3)%nat || _ || _); [contradiction|].
    destruct (imapfolder_to_sysfolder _ _) as [x|] eqn:Ex; [|contradiction].
    destruct (NameCodec.special_folder x) eqn:Es; [contradiction|].
    assert (Q : exists y, RemoveFolder x = RemoveFolder y
              /\ NameCodec.special_folder y = false /\ Some x = Some y)
      by (exists x; auto).
    destruct (enum_folders env) as [[ssr e] fl].
    destruct (negb (m2icode DISPATCH_MIDB ssr e =? 0)).
    { cbn. intuition. }
    cbv zeta.
    destruct (DirTree.dir_match _ _) as [dh|]; [|cbn; intuition].
    destruct (DirTree.get_child dh); [cbn; intuition|].
    destruct (remove_folder env x) as [ssr' e'].
    destruct (negb (m2icode DISPATCH_MIDB ssr' e' =? 0)).
    - cbn. intros [<-|[<-|[]]]; auto.
    - cbn [snd app In]. intros [<-|[<-|H]]; auto. }
  assert (R : forall c, In c (snd (rename env ctx argv)) ->
            c = EchoModify \/
            exists x y, c = RenameFolder x y
              /\ NameCodec.special_folder x = false
              /\ NameCodec.special_folder y = false).
  { intros c. unfold imap_cmd_parser_rename.
    destruct (negb (is_authed ctx)); [contradiction|].
    destruct ((length argv <? 4)%nat || _ || _ || _ || _); [contradiction|].
    destruct (imapfolder_to_sysfolder _ (arg argv 2)) as [x|];
      [|contradiction].
    destruct (imapfolder_to_sysfolder _ (arg argv 3)) as [y|];
      [|contradiction].
    destruct (has_wildcard _); [contradiction|].
    destruct (NameCodec.special_folder x) eqn:Ex; [contradiction|].
    destruct (NameCodec.special_folder y) eqn:Ey; [contradiction|].
    cbn [orb].
    assert (Q : exists a b, RenameFolder x y = RenameFolder a b
              /\ NameCodec.special_folder a = false
              /\ NameCodec.special_folder b = false)
      by (exists x, y; auto).
    destruct (rename_folder env x y) as [ssr e].
    destruct (negb (m2icode DISPATCH_MIDB ssr e =? 0)).
    - cbn. intros [<-|[]]. now right.
    - cbn [snd app In]. intros [<-|H]; auto. }
  split; [|split; [|split]].
  - intros x H.
    destruct (D _ H) as [K|[K|(y & K & Hs & Hc)]]; try discriminate.
    injection K as K. subst y. now split.
  - intros x y H.
    destruct (R _ H) as [K|(a & b & K & Ha & Hb)]; try discriminate.
    injection K as K1 K2. subst a b. now split.
  - intros x H. destruct (R _ H) as [K|(a & b & K & _)]; discriminate.
  - intros x y H.
    destruct (D _ H) as [K|[K|(a & K & _)]]; discriminate.
Qed.

(** X28.  DELETE keeps a folder that still has a subfolder: when the folder
    list of MIDB, converted to IMAP names, has a folder below the one
    named, the command is refused with 1924 and [remove_folder] is not
    called. *)
Theorem delete_refuses_folder_with_subfolder :
  forall (env : folder_env) (ctx : folder_ctx) (argv : list string)
         (encoded_name q : string) (below : list string),
    is_authed ctx = true -> (3 <= length argv)%nat ->
    arg argv 2 <> "" -> (String.length (arg argv 2) < 1024)%nat ->
    imapfolder_to_sysfolder (lang ctx) (arg argv 2) = Some encoded_name ->
    NameCodec.special_folder encoded_name = false ->
    fst (fst (enum_folders env)) = MIDB_RESULT_OK ->
    let folder_list :=
      convert_folderlist (lang ctx) (snd (enum_folders env)) in
    Forall (fun x => (String.length x < 4096)%nat) folder_list ->
    In q folder_list ->
    DirTreeProps.path_components q
    = DirTreeProps.path_components (arg argv 2) ++ below ->
    below <> [] ->
    DirTreeProps.short NAME_SIZE (DirTreeProps.path_components q) ->
    DirTreeProps.inbox_spelled (DirTreeProps.path_components (arg argv 2)) ->
    delete env ctx argv = (1924, [EnumFolders]).
Proof.
  intros env ctx argv x q below Ha Hn Hne Hl Hx Hs Hok fl Hlen Hin Hq Hb
    Hsh Hi.
  unfold imap_cmd_parser_delete. rewrite Ha. cbn [negb].
  assert (E1 : (length argv <? 3)%nat = false) by (apply Nat.ltb_ge; lia).
  assert (E2 : (String.length (arg argv 2) =? 0)%nat = false).
  { apply Nat.eqb_neq. destruct (arg argv 2); [contradiction|simpl; lia]. }
  assert (E3 : (1024 <=? String.length (arg argv 2))%nat = false)
    by (apply Nat.leb_gt; lia).
  rewrite E1, E2, E3. cbn [orb]. rewrite Hx, Hs.
  destruct (enum_folders env) as [[ssr e] l]. cbn [fst snd] in *. subst ssr.
  cbn [m2icode Z.eqb negb]. cbv zeta. fold fl.
  rewrite (DirTreeProps.load_as_fold NAME_SIZE None fl Hlen).
  set (root := DirTree.Node "" true []).
  destruct (DirTreeProps.reach_loaded NAME_SIZE
              (DirTreeProps.path_components q)
              (map DirTreeProps.path_components fl) root)
    as (m & D & L); [now apply in_map|exact Hsh|].
  rewrite Hq, DirTreeProps.descend_app in D.
  destruct (DirTreeProps.descend (DirTreeProps.path_components (arg argv 2)) _)
    as [node|] eqn:E; [|discriminate].
  unfold DirTree.dir_match.
  destruct (streq (arg argv 2) "") eqn:Ep.
  { unfold streq in Ep. apply String.eqb_eq in Ep. contradiction. }
  destruct (Nat.leb_spec 4096 (String.length (arg argv 2))); [lia|].
  rewrite (DirTreeProps.match_sees (arg argv 2) Hne),
    (DirTreeProps.walk_descend _ _ Hi), E.
  destruct below as [|b below]; [contradiction|].
  cbn [DirTreeProps.descend] in D. unfold DirTree.get_child.
  destruct (DirTree.children node); [discriminate|reflexivity].
Qed.

End Handlers.

(** A mailbox of MIDB with two folders of the user beside the special
    ones, under the ASCII codec and the English display names. *)
Definition sample_env : folder_env := {|
  enum_folders :=
    (MIDB_RESULT_OK, 0,
     [NameCodec.encode_hex_binary "Archive";
      NameCodec.encode_hex_binary "Archive/2023"]);
  make_folder := fun _ => (MIDB_RESULT_OK, 0);
  remove_folder := fun _ => (MIDB_RESULT_OK, 0);
  rename_folder := fun _ _ => (MIDB_RESULT_OK, 0)
|}.

Definition sample_ctx : folder_ctx :=
  {| is_authed := true; proto_stat := auth; lang := "en" |}.

Lemma midb_error_is_marked (e : Z) :
  m2icode 65536 MIDB_RESULT_ERROR e <> 1706.
Proof.
  cbn [m2icode]. intros H.
  apply (f_equal (fun z => Z.testbit z 16)) in H.
  rewrite Z.lor_spec in H. discriminate H.
Qed.

Lemma create_makes_missing_ancestors_witness :
  converted NameCodec.ascii_codec NameCodec.english_names "en"
    ["Archive/2024"; "Archive/2024/May"]
    (made (snd (imap_cmd_parser_create 65536 NameCodec.ascii_codec
                  NameCodec.ascii_codec NameCodec.english_names
                  sample_env sample_ctx
                  ["c"; "CREATE"; "Archive/2024/May"]))).
Proof.
  apply (create_makes_missing_ancestors 65536 NameCodec.ascii_codec
           NameCodec.ascii_codec NameCodec.english_names
           sample_env sample_ctx ["c"; "CREATE"; "Archive/2024/May"]
           midb_error_is_marked).
  - reflexivity.
  - reflexivity.
Defined.

Lemma all_below (n : nat) (l : list string) :
  forallb (fun x => (String.length x <? n)%nat) l = true ->
  Forall (fun x => (String.length x < n)%nat) l.
Proof.
  intros H. apply List.Forall_forall. intros x Hx. apply Nat.ltb_lt.
  revert x Hx. now apply forallb_forall.
Qed.

Lemma delete_refuses_folder_with_subfolder_witness :
  imap_cmd_parser_delete 65536 256 NameCodec.ascii_codec
    NameCodec.ascii_codec NameCodec.english_names
    sample_env sample_ctx ["c"; "DELETE"; "Archive"]
  = (1924, [EnumFolders]).
Proof.
  apply (delete_refuses_folder_with_subfolder 65536 256 NameCodec.ascii_codec
           NameCodec.ascii_codec NameCodec.english_names
           sample_env sample_ctx ["c"; "DELETE"; "Archive"]
           (NameCodec.encode_hex_binary "Archive") "Archive/2023" ["2023"]).
  - reflexivity.
  - simpl. lia.
  - discriminate.
  - simpl. lia.
  - reflexivity.
  - reflexivity.
  - reflexivity.
  - apply all_below. vm_compute. reflexivity.
  - right. now left.
  - reflexivity.
  - discriminate.
  - apply all_below. vm_compute. reflexivity.
  - intros c H. injection H as <-. discriminate.
Defined.

End FoldersProps.

(** ** Sample runs of FETCH argument parsing and APPEND *)

Module Samples.
Import Fetch Append FetchArgsProps AppendProps.

(** [FETCH 1 (FLAGS UID ENVELOPE)]: the list is accepted and starts with
    [UID]. *)
Lemma uid_is_first_witness :
  exists plist pb_detail pb_data,
    parse_fetch_args_argv tokenize ["FLAGS"; "UID"; "ENVELOPE"]
    = Some (plist, pb_detail, pb_data)
    /\ hd_error plist = Some "UID".
Proof.
  destruct (parse_fetch_args_argv tokenize ["FLAGS"; "UID"; "ENVELOPE"])
    as [[[plist d1] d2]|] eqn:E; [|vm_compute in E; discriminate].
  exists plist, d1, d2. split; [reflexivity|].
  exact (uid_is_first tokenize ["FLAGS"; "UID"; "ENVELOPE"] plist d1 d2 E).
Defined.

(** [FETCH 1 (FLAGS ALL)] is rejected. *)
Lemma macro_with_other_arguments_rejected_witness :
  parse_fetch_args_argv tokenize ["FLAGS"; "ALL"] = None.
Proof.
  apply (macro_with_other_arguments_rejected tokenize ["FLAGS"; "ALL"]).
  - simpl. lia.
  - exists "ALL". split; [right; now left|reflexivity].
Defined.

(** The disk is full when the EML file is written. *)
Definition env_disk_full : append_env := {|
  fstat_ok := true;
  read_ok := true;
  pbuff := sample_scratch;
  load_from_str_move := fun _ => true;
  convert_imaptime := fun _ => None;
  now := 1700000000;
  sequence_ID := 8;
  guid := "0123456789abcdef0123456789abcdef";
  host_id := Some "mx";
  open_eml := fun _ => 0;
  to_fd := 28;
  close_wr_ok := true;
  insert_mail := (MIDB_RESULT_OK, 0);
  summary_folder := fun _ => (MIDB_RESULT_OK, 1);
  get_uid := fun _ => Some 7
|}.

Lemma end2_failures_before_insert_clean_up_witness :
  let r := imap_cmd_parser_append_end2 MIDBBIT TAGBIT 0 reply_text
             env_disk_full literal_ctx before in
  fst (fst r) = Z.lor 1909 TAGBIT
  /\ (file_path literal_ctx ∉ fs (snd r))
  /\ (eml_of literal_ctx ∉ fs (snd r)).
Proof.
  apply (end2_failures_before_insert_clean_up env_disk_full literal_ctx
           before).
  - discriminate.
  - unfold before. cbn [fs]. rewrite elem_of_singleton. discriminate.
  - right. right. right. right. discriminate.
Defined.

End Samples.

(** ** SELECT and EXAMINE *)

Module SelexProps.
Import Contents Selex ContentsProps.
Local Open Scope list_scope.

Section Handlers.
Variables FLAG_RECENT FLAG_SEEN DISPATCH_MIDB DISPATCH_CONTINUE : Z.
Variable g_rfc9051_enable : bool.
Variable mutf7_to_utf8 : string -> Z * string.
Variable utf8_to_mutf7 : string -> Z * string.
Variable foldername_get : string -> NameCodec.special_fid -> option string.
Variable HX_strquote : string -> string.

Local Abbreviation imapfolder_to_sysfolder :=
  (NameCodec.imap_cmd_parser_imapfolder_to_sysfolder mutf7_to_utf8
     foldername_get).
Local Abbreviation selex :=
  (imap_cmd_parser_selex FLAG_RECENT FLAG_SEEN DISPATCH_MIDB DISPATCH_CONTINUE
     g_rfc9051_enable mutf7_to_utf8 utf8_to_mutf7 foldername_get HX_strquote).

Lemma m2icode_ok (r : midb_result) (e : Z) :
  is_ok r = true -> m2icode DISPATCH_MIDB r e = 0.
Proof. now destruct r. Qed.

Lemma m2icode_failed (r : midb_result) (e : Z) :
  DISPATCH_MIDB <> 0 -> is_ok r = false ->
  negb (m2icode DISPATCH_MIDB r e =? 0) = true.
Proof.
  intros Hd H. destruct r; try reflexivity; try discriminate.
  cbn [m2icode]. apply negb_true_iff, Z.eqb_neq. intros K.
  apply Z.lor_eq_0_iff in K. tauto.
Qed.

(** X29.  SELECT and EXAMINE of a folder name that converts, in a session that
    is authenticated.  When MIDB answers both the summary and the UID
    listing, the session is in the selected state on that folder,
    read-only as asked, and the messages are those MIDB listed, in that
    order, numbered from 1.  When MIDB fails on either, no folder is
    selected afterwards, also when one was selected before: the session
    is in the authenticated state, a folder selected before was left, the
    message array is unchanged and nothing is written. *)
Theorem select_succeeds_or_leaves_no_folder :
  forall (env : sel_env) (ctx : sel_ctx) (argv : list string)
         (readonly : bool) (sys_name : string),
    DISPATCH_MIDB <> 0 ->
    is_authed ctx = true ->
    (3 <= length argv)%nat -> arg argv 2 <> "" ->
    (String.length (arg argv 2) < 1024)%nat ->
    imapfolder_to_sysfolder (lang ctx) (arg argv 2) = Some sys_name ->
    let r := selex env ctx argv readonly in
    let ctx' := snd (fst r) in
    let fetched := fetch_simple_uid env sys_name in
    if is_ok (fst (fst (summary_folder env sys_name)))
       && is_ok (fst (fst fetched))
    then proto_stat ctx' = select
         /\ selected_folder ctx' = sys_name
         /\ b_readonly ctx' = readonly
         /\ map uid (m_vec (contents ctx')) = map uid (snd fetched)
         /\ numbered 0 (m_vec (contents ctx'))
         /\ In AddSelect (snd r)
    else proto_stat ctx' = auth
         /\ (proto_stat ctx = select ->
             selected_folder ctx' = "" /\ In RemoveSelect (snd r))
         /\ contents ctx' = contents ctx
         /\ ~ In AddSelect (snd r)
         /\ (forall text, ~ In (SafeWrite text) (snd r)).
Proof.
  intros env ctx argv readonly sys_name Hd Ha Hn Hne Hl Hx.
  unfold imap_cmd_parser_selex. rewrite Ha. cbn [negb].
  assert (E1 : (length argv <? 3)%nat = false) by (apply Nat.ltb_ge; lia).
  assert (E2 : (String.length (arg argv 2) =? 0)%nat = false).
  { apply Nat.eqb_neq. destruct (arg argv 2); [contradiction|simpl; lia]. }
  assert (E3 : (1024 <=? String.length (arg argv 2))%nat = false)
    by (apply Nat.leb_gt; lia).
  rewrite E1, E2, E3. cbn [orb]. rewrite Hx.
  assert (L : exists c1 t1,
             leave_selected ctx = (c1, t1)
             /\ proto_stat c1 = auth /\ contents c1 = contents ctx
             /\ lang c1 = lang ctx
             /\ ~ In AddSelect t1
             /\ (forall text, ~ In (SafeWrite text) t1)
             /\ (proto_stat ctx = select ->
                 selected_folder c1 = "" /\ In RemoveSelect t1)).
  { unfold leave_selected, is_authed in *.
    destruct (proto_stat ctx) eqn:Ep; try discriminate.
    - exists ctx, []. repeat split; auto; try discriminate.
    - eexists _, _. split; [reflexivity|]. cbn.
      repeat split; auto; intuition discriminate. }
  destruct L as (c1 & t1 & -> & P1 & C1 & L1 & A1 & W1 & R1).
  destruct (summary_folder env sys_name) as [[ssr e] [uidvalid uidnext]].
  cbn [fst snd]. cbv zeta.
  assert (NA : forall t x, ~ In AddSelect t -> x <> AddSelect ->
                           ~ In AddSelect (t ++ [x])).
  { intros t x H1 H2 H. apply in_app_or in H. destruct H as [H|[H|[]]]; auto. }
  assert (NW : forall t x, (forall text, ~ In (SafeWrite text) t) ->
                 (forall text, x <> SafeWrite text) ->
                 forall text, ~ In (SafeWrite text) (t ++ [x])).
  { intros t x H1 H2 text H. apply in_app_or in H.
    destruct H as [H|[H|[]]]; [now apply H1 in H|now apply H2 in H]. }
  assert (KR : forall t x, (proto_stat ctx = select ->
                  selected_folder c1 = "" /\ In RemoveSelect t) ->
                 proto_stat ctx = select ->
                  selected_folder c1 = "" /\ In RemoveSelect (t ++ [x])).
  { intros t x H1 H2. destruct (H1 H2). split; [assumption|].
    apply in_or_app. now left. }
  destruct (is_ok ssr) eqn:Es; cbn [andb].
  2:{ rewrite (m2icode_failed ssr e Hd Es). cbn [fst snd].
      refine (conj P1 (conj _ (conj C1 (conj _ _)))).
      - now apply KR.
      - now apply NA.
      - now apply NW. }
  rewrite (m2icode_ok ssr e Es). cbn [Z.eqb negb].
  unfold refresh.
  destruct (fetch_simple_uid env sys_name) as [[fsr fe] xa]. cbn [fst snd].
  destruct (is_ok fsr) eqn:Ef.
  2:{ rewrite (m2icode_failed fsr fe Hd Ef). cbv beta iota zeta.
      cbn [negb Z.eqb]. rewrite (m2icode_failed fsr fe Hd Ef).
      cbn [fst snd proto_stat lang selected_folder b_readonly contents].
      refine (conj P1 (conj _ (conj C1 (conj _ _)))).
      - now apply KR, KR.
      - apply NA; [now apply NA|discriminate].
      - apply NW; [now apply NW|discriminate]. }
  rewrite (m2icode_ok fsr fe Ef). cbn [Z.eqb negb]. cbv beta iota zeta.
  cbn [Z.eqb negb].
  cbn [proto_stat lang selected_folder b_readonly contents m_vec].
  assert (G : map uid (renumber xa 0) = map uid xa /\ numbered 0 (renumber xa 0)).
  { split; [apply renumber_uids|exact (renumber_numbered xa 0)]. }
  destruct (NameCodec.imap_cmd_parser_sysfolder_to_imapfolder _ _ _ _);
    cbn [fst snd proto_stat lang selected_folder b_readonly contents m_vec];
    repeat split; try tauto; apply in_or_app.
  - left. apply in_or_app. right. now left.
  - right. now left.
Qed.

End Handlers.

(** MIDB is not reachable. *)
Definition midb_down : sel_env := {|
  summary_folder := fun _ => (MIDB_NO_SERVER, 0, (0, 0));
  fetch_simple_uid := fun _ => (MIDB_NO_SERVER, 0, [])
|}.

(** A session with [inbox] selected and one message in it. *)
Definition on_inbox : sel_ctx := {|
  proto_stat := select; lang := "en"; selected_folder := "inbox";
  b_readonly := false;
  contents := {| m_vec := [ {| uid := 4; mid := "m4"; flag_bits := 0;
                               id := 1 |} ];
                 n_recent := 0; firstunseen := 1 |}
|}.

Lemma select_succeeds_or_leaves_no_folder_witness :
  let r := imap_cmd_parser_selex 32 16 65536 33554432 false
             NameCodec.ascii_codec NameCodec.ascii_codec
             NameCodec.english_names (fun s => s)
             midb_down on_inbox ["a"; "SELECT"; "Archive"] false in
  proto_stat (snd (fst r)) = auth
  /\ (proto_stat on_inbox = select ->
      selected_folder (snd (fst r)) = "" /\ In RemoveSelect (snd r))
  /\ contents (snd (fst r)) = contents on_inbox
  /\ ~ In AddSelect (snd r)
  /\ (forall text, ~ In (SafeWrite text) (snd r)).
Proof.
  assert (D : 65536 <> 0) by discriminate.
  assert (L : (String.length "Archive" < 1024)%nat) by (simpl; lia).
  exact (select_succeeds_or_leaves_no_folder 32 16 65536 33554432 false
           NameCodec.ascii_codec NameCodec.ascii_codec
           NameCodec.english_names (fun s => s)
           midb_down on_inbox ["a"; "SELECT"; "Archive"] false
           (NameCodec.encode_hex_binary "Archive")
           D eq_refl (le_n 3) (fun H => ltac:(discriminate H)) L eq_refl).
Defined.

End SelexProps.

(** ** LIST *)

Module FolderListProps.
Import Fetch(CRLF).
Import Wildcard FolderList.
Local Open Scope list_scope.

Section Handlers.
Variables DISPATCH_MIDB DISPATCH_CONTINUE DISPATCH_BREAK : Z.
Variable STREAM_WRITE_OK : Z.
Variable NAME_SIZE : nat.
Variable resource_get_imap_code : Z -> Z -> string.
Variable utf8_to_mutf7 : string -> Z * string.
Variable foldername_get : string -> NameCodec.special_fid -> option string.
Variable HX_strquote : string -> string.

Local Abbreviation list_cmd :=
  (imap_cmd_parser_list DISPATCH_MIDB DISPATCH_CONTINUE DISPATCH_BREAK
     STREAM_WRITE_OK NAME_SIZE resource_get_imap_code utf8_to_mutf7
     foldername_get HX_strquote).
Local Abbreviation convert_folderlist :=
  (imap_cmd_parser_convert_folderlist utf8_to_mutf7 foldername_get).
Local Abbreviation specials :=
  (special_loop STREAM_WRITE_OK utf8_to_mutf7 foldername_get HX_strquote).
Local Abbreviation folders := (folder_loop STREAM_WRITE_OK HX_strquote).
Local Abbreviation line := (folder_line HX_strquote).

(** The stream takes every write. *)
Definition stream_open (env : list_env) : Prop :=
  forall text, stream_write env text = STREAM_WRITE_OK.

Lemma write_succeeds (env : list_env) (buf : string) :
  stream_open env -> write_fails STREAM_WRITE_OK env buf = false.
Proof.
  intros H. unfold write_fails. rewrite H. now rewrite Z.eqb_refl.
Qed.

Lemma special_loop_runs (env : list_env) (ctx : list_ctx)
    (tree : DirTree.DIR_NODE) (pat : string) (fs rs : bool) (n i : nat) :
  stream_open env ->
  exists tr, specials env ctx tree pat fs rs i n = (None, tr).
Proof.
  intros H. revert i. induction n as [|n IH]; intros i; [now exists []|].
  cbn [special_loop]. cbv zeta.
  destruct (imap_cmd_parser_wildcard_match _ pat); [|apply IH].
  rewrite write_succeeds by exact H.
  destruct (IH (S i)) as [tr ->]. eauto.
Qed.

(** With the stream open the last loop writes the line of every folder
    of the list that matches the pattern, in the order of the list. *)
Lemma folder_loop_runs (env : list_env) (tree : DirTree.DIR_NODE)
    (pat : string) (fs : bool) (l : list string) :
  stream_open env ->
  folders env tree pat fs l
  = (None,
     map (fun p => StreamWrite (line tree fs p))
       (List.filter (fun p => imap_cmd_parser_wildcard_match p pat) l)).
Proof.
  intros H. induction l as [|p l IH]; [reflexivity|].
  cbn [folder_loop List.filter].
  destruct (imap_cmd_parser_wildcard_match p pat); cbn [negb]; [|exact IH].
  cbv zeta. rewrite write_succeeds by exact H. now rewrite IH.
Qed.

(** A folder under which the list has another folder has a child in the
    tree loaded from the list. *)
Lemma listed_subfolder_gives_children (pfile : list string) (p q : string)
    (below : list string) :
  Forall (fun x => (String.length x < 4096)%nat) pfile ->
  In q pfile -> (String.length p < 4096)%nat -> p <> "" ->
  DirTreeProps.path_components q = DirTreeProps.path_components p ++ below ->
  below <> [] ->
  DirTreeProps.short NAME_SIZE (DirTreeProps.path_components q) ->
  DirTreeProps.inbox_spelled (DirTreeProps.path_components p) ->
  have_children (DirTree.load_from_memfile NAME_SIZE None pfile) p
  = true.
Proof.
  intros Hlen Hin Hp Hne Hq Hb Hs Hi. unfold have_children.
  rewrite (DirTreeProps.load_as_fold NAME_SIZE None pfile Hlen).
  set (root := DirTree.Node "" true []).
  destruct (DirTreeProps.reach_loaded NAME_SIZE
              (DirTreeProps.path_components q)
              (map DirTreeProps.path_components pfile) root)
    as (m & D & L); [now apply in_map|exact Hs|].
  rewrite Hq, DirTreeProps.descend_app in D.
  destruct (DirTreeProps.descend (DirTreeProps.path_components p) _)
    as [node|] eqn:E; [|discriminate].
  unfold DirTree.dir_match.
  destruct (streq p "") eqn:Ep.
  { unfold streq in Ep. apply String.eqb_eq in Ep. contradiction. }
  destruct (Nat.leb_spec 4096 (String.length p)); [lia|].
  rewrite (DirTreeProps.match_sees p Hne),
    (DirTreeProps.walk_descend _ _ Hi), E.
  destruct below as [|b below]; [contradiction|].
  cbn [DirTreeProps.descend] in D. unfold DirTree.get_child.
  destruct (DirTree.children node); [discriminate|reflexivity].
Qed.

(** X30.  LIST shows a folder that has a subfolder with [\HasChildren].  For a
    plain LIST (no [(SPECIAL-USE)] selection) with a mailbox pattern that
    is not empty, when MIDB hands out the folder list and the stream takes
    every write: a folder of the list that matches the pattern, and under
    which the list has another folder, gets the line
    [* LIST (\HasChildren) "/" <name>], and the command ends with
    [DISPATCH_BREAK]. *)
Theorem list_marks_folder_with_subfolder :
  forall (env : list_env) (ctx : list_ctx) (argv : list string)
         (p q : string) (below : list string),
    is_authed ctx = true -> (4 <= length argv)%nat ->
    strcaseeq (arg argv 2) "(SPECIAL-USE)" = false ->
    (String.length (arg argv 2) + String.length (arg argv 3) < 1024)%nat ->
    deref (arg argv 3) <> zero ->
    fst (fst (enum_folders env)) = MIDB_RESULT_OK ->
    stream_open env ->
    let folder_list :=
      convert_folderlist (lang ctx) (snd (enum_folders env)) in
    Forall (fun x => (String.length x < 4096)%nat) folder_list ->
    In p folder_list -> In q folder_list -> p <> "" ->
    DirTreeProps.path_components q
    = DirTreeProps.path_components p ++ below ->
    below <> [] ->
    DirTreeProps.short NAME_SIZE (DirTreeProps.path_components q) ->
    DirTreeProps.inbox_spelled (DirTreeProps.path_components p) ->
    imap_cmd_parser_wildcard_match p (arg argv 2 +:+ arg argv 3) = true ->
    let r := list_cmd env ctx argv in
    fst r = DISPATCH_BREAK
    /\ In (StreamWrite ("* LIST (\HasChildren) " +:+ DQUOTE +:+ "/"
                        +:+ DQUOTE +:+ " " +:+ quote_encode HX_strquote p
                        +:+ CRLF)) (snd r).
Proof.
  intros env ctx argv p q below Ha Hn Hf Hl Hm Hok Hw fl Hlen Hp Hq Hne Hpq
    Hb Hs Hi Hmatch.
  unfold imap_cmd_parser_list. rewrite Ha, Hf. cbn [negb].
  assert (E1 : (length argv <? 3)%nat = false) by (apply Nat.ltb_ge; lia).
  assert (E2 : (length argv <? 2 + 2)%nat = false) by (apply Nat.ltb_ge; lia).
  assert (E3 : (1024 <=? String.length (arg argv 2)
                         + String.length (arg argv (2 + 1)))%nat = false)
    by (apply Nat.leb_gt; exact Hl).
  assert (E4 : Ascii.eqb (deref (arg argv (2 + 1))) zero = false)
    by (now apply Ascii.eqb_neq).
  rewrite E1. cbv zeta. rewrite E2, E3, E4.
  destruct (enum_folders env) as [[ssr e] l]. cbn [fst snd] in *. subst ssr.
  cbn [m2icode Z.eqb negb]. fold fl.
  set (tree := DirTree.load_from_memfile NAME_SIZE None fl).
  set (pat := arg argv 2 +:+ arg argv (2 + 1)).
  set (rs := if _ && _ && _ then true else false).
  assert (Pl : (String.length p < 4096)%nat).
  { rewrite List.Forall_forall in Hlen. now apply Hlen. }
  assert (Hc : have_children tree p = true)
    by exact (listed_subfolder_gives_children fl p q below Hlen Hq Pl Hne
                Hpq Hb Hs Hi).
  assert (Hin : In (StreamWrite (line tree false p))
                  (map (fun x => StreamWrite (line tree false x))
                     (List.filter
                        (fun x => imap_cmd_parser_wildcard_match x pat) fl))).
  { apply in_map with (f := fun x => StreamWrite (line tree false x)).
    apply filter_In. split; [exact Hp|exact Hmatch]. }
  assert (Hline : line tree false p
                  = "* LIST (\HasChildren) " +:+ DQUOTE +:+ "/" +:+ DQUOTE
                    +:+ " " +:+ quote_encode HX_strquote p +:+ CRLF).
  { unfold folder_line. cbv zeta. rewrite Hc. reflexivity. }
  rewrite Hline in Hin.
  destruct (special_loop_runs env ctx tree pat false rs 4 0 Hw) as [tr2 E].
  rewrite E. rewrite (folder_loop_runs env tree pat false fl Hw).
  destruct (imap_cmd_parser_wildcard_match "INBOX" pat);
    rewrite ?write_succeeds by exact Hw; cbn [fst snd];
    (split; [reflexivity|]); do 3 (apply in_or_app; right);
    apply in_or_app; left; exact Hin.
Qed.

End Handlers.

(** A mailbox with the folders [Archive] and [Archive/2023], and a stream
    that takes every write. *)
Definition sample_env : list_env := {|
  enum_folders :=
    (MIDB_RESULT_OK, 0,
     [NameCodec.encode_hex_binary "Archive";
      NameCodec.encode_hex_binary "Archive/2023"]);
  stream_write := fun _ => 0;
  unset_name := fun _ => ""
|}.

Definition sample_ctx : list_ctx :=
  {| is_authed := true; proto_stat := auth; lang := "en" |}.

(** [a LIST "" *] on that mailbox. *)
Lemma list_marks_folder_with_subfolder_witness :
  let r := imap_cmd_parser_list 65536 16777216 33554432 0 256
             (fun _ _ => "OK LIST completed") NameCodec.ascii_codec
             NameCodec.english_names (fun s => s)
             sample_env sample_ctx ["a"; "LIST"; ""; "*"] in
  fst r = 33554432
  /\ In (StreamWrite ("* LIST (\HasChildren) " +:+ DQUOTE +:+ "/"
                      +:+ DQUOTE +:+ " " +:+ DQUOTE +:+ "Archive" +:+ DQUOTE
                      +:+ CRLF)) (snd r).
Proof.
  apply (list_marks_folder_with_subfolder 65536 16777216 33554432 0 256
           (fun _ _ => "OK LIST completed") NameCodec.ascii_codec
           NameCodec.english_names (fun s => s)
           sample_env sample_ctx ["a"; "LIST"; ""; "*"]
           "Archive" "Archive/2023" ["2023"]).
  - reflexivity.
  - simpl. lia.
  - reflexivity.
  - simpl. lia.
  - discriminate.
  - reflexivity.
  - intros text. reflexivity.
  - apply FoldersProps.all_below. vm_compute. reflexivity.
  - left. reflexivity.
  - right. left. reflexivity.
  - discriminate.
  - reflexivity.
  - discriminate.
  - apply FoldersProps.all_below. vm_compute. reflexivity.
  - intros c H. injection H as <-. discriminate.
  - reflexivity.
Defined.

End FolderListProps.
